(** * transport-map backend: ingestion, geofence detection and stop analytics

    A shallow embedding of [backend/server.ts]: the adaptive poll interval,
    the poll cycle with its snapshots, route daily stats and geofence
    stop-visit detector, the static refresh and the caches built from it,
    the retention sweep, the percentiles and the positional merge of
    historical runs, the route and stop analytics, the proxy, and the
    startup with the three loops as a schedule of jobs.

    Conventions of the embedding.
    - JavaScript numbers that hold identifiers or epoch milliseconds are [Z];
      numbers that hold coordinates, distances and minutes of the day are
      rationals [Q], kept in lowest terms by [Qred] where the code computes
      them, so that Leibniz equality is equality of values. The percentile
      and the positional merge are given a second time on IEEE-754 doubles
      ([Binary64]), with the runtime's rounding.
    - A [Date] is its epoch-millisecond value; local calendar fields are read
      through the host's offset from UTC ([tzOffsetMs], a fixed offset), and
      a day is 24 hours. A result that depends on it says so.
    - A [new Date()] read once per element of an array is a clock, a
      function from the position to the reading.
    - A [Map] or [Set] that the code iterates is an insertion-ordered list; a
      [Map] or [Set] that it only looks up is a [gmap] or [gset].
    - Asynchronous code is run to completion: a computation takes the store
      and returns the store with either a value or the thrown error. The
      jobs of the three loops are taken one at a time.
    - The great-circle distance is a parameter; the provider is what its
      fetches return; the sort of the route list of the stop analytics by
      the host's string collation is left out. *)

From Stdlib Require Import ZArith QArith Qround Qabs Qminmax Lqa Lia List Sorted Permutation Ascii String.
From Stdlib Require Floats.
From stdpp Require Import base gmap strings pretty list.

Open Scope Z_scope.

(** ** Host environment *)

(** The two parts of the runtime the embedding does not compute: the local
    time zone of the host and the floating-point great-circle distance. *)
Class HostClock := { tzOffsetMs : Z }.

(** [haversineMeters lat1 lon1 lat2 lon2] of the source, taken as given: its
    body is trigonometry on IEEE doubles. *)
Class Geodesy := { haversineMeters : Q -> Q -> Q -> Q -> Q }.

(** ** Dates *)

Record Date := mkDate { epochMs : Z }.

#[global] Instance Date_eq_dec : EqDecision Date.
Proof. solve_decision. Defined.

Definition MS_PER_DAY : Z := 86400000.
Definition MS_PER_HOUR : Z := 3600000.
Definition MS_PER_MINUTE : Z := 60000.

Definition localMs `{HostClock} (d : Date) : Z := epochMs d + tzOffsetMs.

(** [date.getHours()], [getMinutes()], [getSeconds()]. *)
Definition getHours `{HostClock} (d : Date) : Z :=
  (localMs d mod MS_PER_DAY) / MS_PER_HOUR.
Definition getMinutes `{HostClock} (d : Date) : Z :=
  (localMs d mod MS_PER_HOUR) / MS_PER_MINUTE.
Definition getSeconds `{HostClock} (d : Date) : Z :=
  (localMs d mod MS_PER_MINUTE) / 1000.

(** [date.setDate(date.getDate() + n)] on a copy: the same local time of day,
    [n] calendar days later. *)
Definition addDays (d : Date) (n : Z) : Date := mkDate (epochMs d + n * MS_PER_DAY).

(** [localDateKey]: the source renders the local calendar date as
    [YYYY-MM-DD]; the rendering is one-to-one on calendar dates, and the
    embedding keys a date by its day number (days since the epoch, local). *)
Definition localDateKey `{HostClock} (d : Date) : Z := localMs d / MS_PER_DAY.

(** [fetchedAt.toISOString().slice(0, 10)]: the UTC calendar date, keyed the
    same way. *)
Definition isoDay (d : Date) : Z := epochMs d / MS_PER_DAY.

(** ** Poll scheduler: interval selection *)

Definition POLL_DAY_INTERVAL_MS : Z := 15000.
Definition POLL_NIGHT_INTERVAL_MS : Z := 60000.
Definition DAY_START_HOUR : Z := 6.
Definition DAY_END_HOUR : Z := 24.
Definition RETENTION_DAYS : Z := 30.

Definition getPollIntervalMs `{HostClock} (now : Date) : Z :=
  let hour := getHours now in
  if (DAY_START_HOUR <=? hour) && (hour <? DAY_END_HOUR)
  then POLL_DAY_INTERVAL_MS
  else POLL_NIGHT_INTERVAL_MS.

(** The local wall-clock time [h:m:s] on local day [day], as a [Date]. *)
Definition localDateTime `{HostClock} (day h m s : Z) : Date :=
  mkDate (day * MS_PER_DAY + h * MS_PER_HOUR + m * MS_PER_MINUTE + s * 1000 - tzOffsetMs).

(** A host two hours east of UTC, for the worked examples. *)
Definition clockUTCplus2 : HostClock := {| tzOffsetMs := 7200000 |}.


(** ** Numbers *)

(** [x > y] on numbers. *)
Definition Qgtb (x y : Q) : bool := negb (Qle_bool x y).

(** ** Provider records *)

(** A vehicle of the live feed. Fields the code tests with [typeof] or for
    truthiness are optional: [None] is a value that is not a number
    (respectively [null]). [timestamp] is the parsed report time, [None]
    when the feed gives no (or an empty) timestamp. *)
Record Vehicle := mkVehicle {
  id : Z;
  label : string;
  latitude : option Q;
  longitude : option Q;
  timestamp : option Date;
  speed : option Q;
  route_id : option Z;
  trip_id : option string;
  vehicle_type : option Z;
  bike_accessible : option string;
  wheelchair_accessible : option string
}.

Record Route := mkRoute {
  r_agency_id : Z;
  r_route_id : Z;
  route_short_name : string;
  route_long_name : string;
  route_color : string;
  route_type : Z;
  route_desc : string
}.

Record Trip := mkTrip {
  t_route_id : Z;
  t_trip_id : string;
  trip_headsign : string;
  direction_id : Z;
  block_id : Z;
  t_shape_id : string
}.

Record Stop := mkStop {
  stop_id : Z;
  stop_name : string;
  stop_lat : Q;
  stop_lon : Q;
  location_type : Z;
  stop_code : string
}.

Record StopTime := mkStopTime {
  st_trip_id : string;
  st_stop_id : Z;
  stop_sequence : Z;
  arrival_time : option string;
  departure_time : option string
}.

Record ShapePoint := mkShapePoint {
  shape_id : string;
  shape_pt_lat : Q;
  shape_pt_lon : Q;
  shape_pt_sequence : Z
}.

(** ** Static reference cache *)

Record TripInfo := mkTripInfo { routeId : Z; directionId : Z }.

(** [stopsCache], [stopById], [tripByIdCache] and [stopIdsByTripId]. The
    stop sets are iterated by the detector, so each is the list of its
    members in insertion order. *)
Record StaticCache := mkStaticCache {
  stopsCache : list Stop;
  stopById : gmap Z Stop;
  tripByIdCache : gmap string TripInfo;
  stopIdsByTripId : gmap string (list Z)
}.

(** ** Geofence visit detector *)

Definition STOP_RADIUS_METERS : Q := 50#1.
Definition STOP_EXIT_RADIUS_METERS : Q := 60#1.

(** A row of [stop_visits], as the detector builds it. *)
Record StopVisit := mkStopVisit {
  sv_stopId : Z;
  sv_routeId : option Z;
  sv_tripId : option string;
  sv_vehicleId : Z;
  sv_observedAt : Date;
  sv_fetchedAt : Date;
  sv_latitude : Q;
  sv_longitude : Q;
  sv_distanceMeters : Q
}.

(** The template string [`${vehicle.id}:${stop.stop_id}`]. *)
Definition stopKey (vehicleId stopId : Z) : string :=
  pretty vehicleId +:+ ":" +:+ pretty stopId.

(** The containment set [stopInsideByVehicle] together with the [events]
    array of the running cycle. *)
Definition DetectorState : Type := gset string * list StopVisit.

(** The callback of [Array.from(allowedStops).forEach]. *)
Definition visitStop `{Geodesy} (c : StaticCache) (fetchedAt : Date)
    (vehicle : Vehicle) (rid : Z) (tid : string) (observedAt : Date) (lat lon : Q)
    (st : DetectorState) (stopId : Z) : DetectorState :=
  match stopById c !! stopId with
  | None => st
  | Some stop =>
      let key := stopKey (id vehicle) (stop_id stop) in
      let wasInside := bool_decide (key ∈ st.1) in
      if wasInside then
        let distance := haversineMeters lat lon (stop_lat stop) (stop_lon stop) in
        if Qgtb distance STOP_EXIT_RADIUS_METERS then
          (st.1 ∖ {[key]},
           st.2 ++ [ {| sv_stopId := stop_id stop;
                        sv_routeId := Some rid;
                        sv_tripId := Some tid;
                        sv_vehicleId := id vehicle;
                        sv_observedAt := observedAt;
                        sv_fetchedAt := fetchedAt;
                        sv_latitude := lat;
                        sv_longitude := lon;
                        sv_distanceMeters := distance |} ])
        else st
      else
        let distance := haversineMeters lat lon (stop_lat stop) (stop_lon stop) in
        if Qgtb distance STOP_RADIUS_METERS then st
        else ({[key]} ∪ st.1, st.2)
  end.

(** [!vehicle.trip_id] holds for [null] and for the empty string. *)
Definition truthy (s : option string) : option string :=
  match s with
  | Some EmptyString => None
  | other => other
  end.

(** The callback of [vehicles.forEach]. *)
Definition visitVehicle `{Geodesy} (c : StaticCache) (fetchedAt : Date)
    (st : DetectorState) (vehicle : Vehicle) : DetectorState :=
  match latitude vehicle, longitude vehicle, route_id vehicle with
  | Some lat, Some lon, Some rid =>
      match truthy (trip_id vehicle) with
      | None => st
      | Some tid =>
          match tripByIdCache c !! tid, stopIdsByTripId c !! tid with
          | Some tripInfo, Some allowedStops =>
              if (length allowedStops =? 0)%nat then st
              else if bool_decide (routeId tripInfo = rid) then
                let observedAt := default fetchedAt (timestamp vehicle) in
                fold_left (visitStop c fetchedAt vehicle rid tid observedAt lat lon)
                          allowedStops st
              else st
          | _, _ => st
          end
      end
  | _, _, _ => st
  end.

(** [recordStopVisits], up to its last statement: the new containment set
    and the [events] it hands to [chunkedInsert(stopVisits, events)] (no
    insert when the list is empty; the insert itself is in [pollVehicles]
    below). *)
Definition recordStopVisits `{Geodesy} (c : StaticCache) (fetchedAt : Date)
    (vehicles : list Vehicle) (inside : gset string) : DetectorState :=
  match stopsCache c with
  | [] => (inside, [])
  | _ :: _ => fold_left (visitVehicle c fetchedAt) vehicles (inside, [])
  end.

(** Successive poll cycles over one cache: the containment set after the
    last cycle and the events of each cycle, oldest first. *)
Fixpoint runCycles `{Geodesy} (c : StaticCache) (cycles : list (Date * list Vehicle))
    (inside : gset string) : gset string * list (list StopVisit) :=
  match cycles with
  | [] => (inside, [])
  | (fetchedAt, vehicles) :: rest =>
      let r := recordStopVisits c fetchedAt vehicles inside in
      let rs := runCycles c rest r.1 in
      (rs.1, r.2 :: rs.2)
  end.

(** The events of a list that concern one (vehicle, stop) pair. *)
Definition eventsFor (vehicleId stopId : Z) (events : list StopVisit) : list StopVisit :=
  filter (fun e => sv_vehicleId e = vehicleId /\ sv_stopId e = stopId) events.

(** A vehicle entry the detector does not skip: coordinates and route are
    numbers, the trip is known with route [rid] and serves the stops
    [allowedStops], none of them missing. *)
Definition tracked (c : StaticCache) (vehicle : Vehicle) (lat lon : Q) (rid : Z)
    (tid : string) (allowedStops : list Z) : Prop :=
  latitude vehicle = Some lat /\ longitude vehicle = Some lon /\
  route_id vehicle = Some rid /\ trip_id vehicle = Some tid /\ tid <> EmptyString /\
  (exists tripInfo, tripByIdCache c !! tid = Some tripInfo /\ routeId tripInfo = rid) /\
  stopIdsByTripId c !! tid = Some allowedStops /\ allowedStops <> [].

(** Every stop of the lookup is filed under its own identifier, as
    [new Map(stops.map((stop) => [stop.stop_id, stop]))] makes it. *)
Definition stopById_keyed (c : StaticCache) : Prop :=
  map_Forall (fun k stop => stop_id stop = k) (stopById c).

(** The state machine of one (vehicle, stop) pair: whether the pair is
    inside after a position at distance [d], given whether it was inside. *)
Definition hysteresis (d : Q) (wasInside : bool) : bool :=
  if wasInside then negb (Qgtb d STOP_EXIT_RADIUS_METERS)
  else negb (Qgtb d STOP_RADIUS_METERS).

(** What the detector knows of one pair: its containment bit and its events. *)
Definition pairView (vehicleId stopId : Z) (st : DetectorState) : bool * list StopVisit :=
  (bool_decide (stopKey vehicleId stopId ∈ st.1), eventsFor vehicleId stopId st.2).

(** One position of the pair's vehicle at distance [d] from the pair's stop,
    [e] being the event an exit would record. *)
Definition stepPair (d : Q) (e : StopVisit) (pv : bool * list StopVisit) : bool * list StopVisit :=
  (hysteresis d pv.1,
   pv.2 ++ (if pv.1 && Qgtb d STOP_EXIT_RADIUS_METERS then [e] else [])).

(** The exit event of [vehicle] at [stop]. *)
Definition exitEvent `{Geodesy} (fetchedAt : Date) (vehicle : Vehicle) (rid : Z)
    (tid : string) (observedAt : Date) (lat lon : Q) (stop : Stop) : StopVisit :=
  {| sv_stopId := stop_id stop;
     sv_routeId := Some rid;
     sv_tripId := Some tid;
     sv_vehicleId := id vehicle;
     sv_observedAt := observedAt;
     sv_fetchedAt := fetchedAt;
     sv_latitude := lat;
     sv_longitude := lon;
     sv_distanceMeters := haversineMeters lat lon (stop_lat stop) (stop_lon stop) |}.

Fixpoint hasColon (s : string) : bool :=
  match s with
  | EmptyString => false
  | String a rest => bool_decide (a = ":"%char) || hasColon rest
  end.

(** The three ways a cycle can act on the containment bit of one key: force
    it inside, leave it, force it outside. *)
Definition hystClass (f : bool -> bool) : Prop :=
  (forall b, f b = true) \/ (forall b, f b = b) \/ (forall b, f b = false).

(** The entries [recordStopVisits] passes over: no trip identifier, a trip
    the cache does not know, a trip without stops, or a trip of another
    route than the one reported. *)
Definition skipped (c : StaticCache) (vehicle : Vehicle) : Prop :=
  trip_id vehicle = None \/ trip_id vehicle = Some EmptyString \/
  exists tid, trip_id vehicle = Some tid /\
    (tripByIdCache c !! tid = None \/
     stopIdsByTripId c !! tid = None \/
     stopIdsByTripId c !! tid = Some [] \/
     exists tripInfo, tripByIdCache c !! tid = Some tripInfo /\
                      route_id vehicle <> Some (routeId tripInfo)).

(** ** A worked example for the detector

    One stop, one trip of route 7 that serves it, and a bus on that trip
    whose positions lie on a straight street through the stop; on that
    street the distance is the difference of the coordinates, in metres. *)
Definition streetGeodesy : Geodesy :=
  {| haversineMeters lat1 lon1 lat2 lon2 := (Qabs (lat1 - lat2) + Qabs (lon1 - lon2))%Q |}.

Definition stop42 : Stop :=
  {| stop_id := 42; stop_name := "Piata Unirii"; stop_lat := 0; stop_lon := 0;
     location_type := 0; stop_code := "42" |}.

Definition demoCache : StaticCache :=
  {| stopsCache := [stop42];
     stopById := {[ 42 := stop42 ]};
     tripByIdCache := {[ "T7a"%string := {| routeId := 7; directionId := 0 |} ]};
     stopIdsByTripId := {[ "T7a"%string := [42] ]} |}.

(** The bus of the example, [d] metres up the street from the stop. *)
Definition busAt (d : Q) : Vehicle :=
  {| id := 1; label := "bus 1"; latitude := Some d; longitude := Some 0%Q;
     timestamp := None; speed := None; route_id := Some 7;
     trip_id := Some "T7a"%string; vehicle_type := None;
     bike_accessible := None; wheelchair_accessible := None |}.

(** A vehicle that reports no trip. *)
Definition strayBus : Vehicle :=
  {| id := 2; label := "bus 2"; latitude := Some 0%Q; longitude := Some 0%Q;
     timestamp := None; speed := None; route_id := Some 7;
     trip_id := None; vehicle_type := None;
     bike_accessible := None; wheelchair_accessible := None |}.

(** ** Percentiles and the positional merge *)

(** [values.slice().sort((a, b) => a - b)]: ascending, stable. *)
Fixpoint insertNum (x : Q) (sorted : list Q) : list Q :=
  match sorted with
  | [] => [x]
  | y :: rest => if Qle_bool x y then x :: y :: rest else y :: insertNum x rest
  end.

Fixpoint sortNum (values : list Q) : list Q :=
  match values with
  | [] => []
  | x :: rest => insertNum x (sortNum rest)
  end.

(** [percentile]: [None] is the [null] of the empty input. Array reads are
    lookups; the index is clamped, so they succeed. *)
Definition percentile (values : list Q) (p : Q) : option Q :=
  match values with
  | [] => None
  | _ :: _ =>
      let sorted := sortNum values in
      let last := inject_Z (Z.of_nat (length sorted) - 1) in
      let idx := Qmax 0 (Qmin last (p * last)) in
      let lower := Qfloor idx in
      let upper := Qceiling idx in
      if lower =? upper then sorted !! Z.to_nat lower
      else
        let weight := (idx - inject_Z lower)%Q in
        lo ← sorted !! Z.to_nat lower;
        hi ← sorted !! Z.to_nat upper;
        Some (Qred (lo + (hi - lo) * weight))
  end.

(** The body of the [for] loop of [buildPredictedTimes]. *)
Definition predictRun (sortedDays : list (list Q)) (predicted : list Q) (i : nat) : list Q :=
  let samples :=
    (fun values : list Q => default 0%Q (values !! i)) <$>
    filter (fun values : list Q => (i < length values)%nat) sortedDays in
  match samples with
  | [] => predicted
  | _ :: _ =>
      match percentile samples (1#2) with
      | Some p50 => predicted ++ [p50]
      | None => predicted
      end
  end.

Definition buildPredictedTimes (dayValues : list (list Q)) : list Q :=
  match dayValues with
  | [] => []
  | _ :: _ =>
      let sortedDays := sortNum <$> dayValues in
      let maxCount :=
        fold_left (fun acc (values : list Q) => Nat.max acc (length values)) sortedDays 0%nat in
      fold_left (predictRun sortedDays) (seq 0 maxCount) []
  end.

(** *** The merge in the words of its description *)

(** The [i]-th time of every day that has more than [i] runs, each day taken
    in ascending order. *)
Definition runSamples (dayValues : list (list Q)) (i : nat) : list Q :=
  omap (fun values => sortNum values !! i) dayValues.

(** The deepest run of any day. *)
Definition maxRuns (dayValues : list (list Q)) : nat :=
  foldr (fun values acc => Nat.max (length values) acc) 0%nat dayValues.



(** ** Percentiles and the positional merge in binary64

    The same functions on IEEE-754 doubles, as the runtime computes them:
    every [+], [-] and [*] rounds to the nearest double, and a comparison
    with [NaN] is false. *)
Module Binary64.
Import PrimFloat SpecFloat FloatOps.

(** An array length as a number; a length is below 2^32, and a whole number
    below 2^53 is a double. *)
Definition numOfNat (n : nat) : float := of_uint63 (Uint63.of_Z (Z.of_nat n)).

Definition isNegZero (x : float) : bool :=
  match classify x with
  | FloatClass.NZero => true
  | _ => false
  end.

(** [Math.min] and [Math.max] of two numbers: [NaN] when either is, and
    [-0] below [+0]. *)
Definition mathMin (a b : float) : float :=
  if is_nan a || is_nan b then nan
  else if ltb a b then a
  else if ltb b a then b
  else if isNegZero a then a else b.

Definition mathMax (a b : float) : float :=
  if is_nan a || is_nan b then nan
  else if ltb b a then a
  else if ltb a b then b
  else if isNegZero a then b else a.

(** The double of a whole number below 2^53, with its sign. *)
Definition ofWhole (negative : bool) (z : Z) : float :=
  let x := of_uint63 (Uint63.of_Z z) in
  if negative then opp x else x.

(** [Math.floor] and [Math.ceil]: [NaN], the infinities and the zeros are
    returned as they are, and so is a double with no fractional bits. *)
Definition mathFloor (x : float) : float :=
  match Prim2SF x with
  | S754_finite s m e =>
      if 0 <=? e then x
      else
        let whole := Z.shiftr (Z.pos m) (- e) in
        let exact := Z.shiftl whole (- e) =? Z.pos m in
        if s then ofWhole true (if exact then whole else whole + 1)
        else ofWhole false whole
  | _ => x
  end.

Definition mathCeil (x : float) : float :=
  match Prim2SF x with
  | S754_finite s m e =>
      if 0 <=? e then x
      else
        let whole := Z.shiftr (Z.pos m) (- e) in
        let exact := Z.shiftl whole (- e) =? Z.pos m in
        if s then ofWhole true whole
        else ofWhole false (if exact then whole else whole + 1)
  | _ => x
  end.

(** The array index that a number used as a property key names, if any: a
    whole number that is not negative (both zeros name index 0). A double
    with no fractional bits that is not below 2^52 is beyond any array. *)
Definition toIndex (x : float) : option nat :=
  match Prim2SF x with
  | S754_zero _ => Some 0%nat
  | S754_finite false m e =>
      if 0 <=? e then None
      else
        let whole := Z.shiftr (Z.pos m) (- e) in
        if Z.shiftl whole (- e) =? Z.pos m then Some (Z.to_nat whole) else None
  | _ => None
  end.

(** [array[index]] where a number is wanted: [undefined] becomes [NaN]. *)
Definition element (array : list float) (index : float) : float :=
  default nan (toIndex index ≫= (array !!.)).

(** [values.slice().sort((a, b) => a - b)]: stable, an element moving
    behind another only when the comparator is positive. *)
Fixpoint insertNum (x : float) (sorted : list float) : list float :=
  match sorted with
  | [] => [x]
  | y :: rest => if ltb 0 (sub x y) then y :: insertNum x rest else x :: y :: rest
  end.

Fixpoint sortNum (values : list float) : list float :=
  match values with
  | [] => []
  | x :: rest => insertNum x (sortNum rest)
  end.

(** [percentile]: [None] is the [null] of the empty input. When the rank is
    whole the element read is within the array, the rank being clamped. *)
Definition percentile (values : list float) (p : float) : option float :=
  match values with
  | [] => None
  | _ :: _ =>
      let sorted := sortNum values in
      let last := sub (numOfNat (length sorted)) 1 in
      let idx := mathMax 0 (mathMin last (mul p last)) in
      let lower := mathFloor idx in
      let upper := mathCeil idx in
      if eqb lower upper then Some (element sorted lower)
      else
        let weight := sub idx lower in
        Some (add (element sorted lower)
                  (mul (sub (element sorted upper) (element sorted lower)) weight))
  end.

(** The body of the [for] loop of [buildPredictedTimes]. *)
Definition predictRun (sortedDays : list (list float)) (predicted : list float) (i : nat)
    : list float :=
  let samples :=
    (fun values : list float => default nan (values !! i)) <$>
    filter (fun values : list float => (i < length values)%nat) sortedDays in
  match samples with
  | [] => predicted
  | _ :: _ =>
      match percentile samples 0.5 with
      | Some p50 => predicted ++ [p50]
      | None => predicted
      end
  end.

Definition buildPredictedTimes (dayValues : list (list float)) : list float :=
  match dayValues with
  | [] => []
  | _ :: _ =>
      let sortedDays := sortNum <$> dayValues in
      let maxCount :=
        fold_left (fun acc (values : list float) => Nat.max acc (length values))
                  sortedDays 0%nat in
      fold_left (predictRun sortedDays) (seq 0 maxCount) []
  end.

(** *** The merge in the words of its description *)

(** The [i]-th time of every day that has more than [i] runs, each day taken
    in ascending order. *)
Definition runSamples (dayValues : list (list float)) (i : nat) : list float :=
  omap (fun values => sortNum values !! i) dayValues.

(** The deepest run of any day. *)
Definition maxRuns (dayValues : list (list float)) : nat :=
  foldr (fun values acc => Nat.max (length values) acc) 0%nat dayValues.

(** The 50th percentile by linear interpolation between order statistics:
    the middle one of an odd number of samples, and of an even number the
    point halfway from the lower to the upper of the two in the middle, as
    doubles give it. *)
Definition median (values : list float) : option float :=
  let sorted := sortNum values in
  let n := length sorted in
  if Nat.odd n then sorted !! Nat.div2 (n - 1)
  else
    lo ← sorted !! (Nat.div2 n - 1)%nat;
    hi ← sorted !! Nat.div2 n;
    Some (add lo (mul (sub hi lo) 0.5)).

(** The clamped rank of [percentile] for [n] samples. *)
Definition rankOf (n : nat) (p : float) : float :=
  let last := sub (numOfNat n) 1 in
  mathMax 0 (mathMin last (mul p last)).

(** What the rank of the median, its floor, its ceiling and the weight are
    to be for [n] samples: the two reads are of the middle of the array, and
    the weight between them is one half. *)
Definition medianRankOk (n : nat) : bool :=
  let idx := rankOf n 0.5 in
  let lower := mathFloor idx in
  let upper := mathCeil idx in
  if Nat.odd n
  then eqb lower upper && bool_decide (toIndex lower = Some (Nat.div2 (n - 1)))
  else negb (eqb lower upper)
       && bool_decide (toIndex lower = Some (Nat.div2 n - 1)%nat)
       && bool_decide (toIndex upper = Some (Nat.div2 n))
       && Leibniz.eqb (sub idx lower) 0.5.

(** The double of [k * 2^e], for a whole [k] from 1 to 2^53 - 1 and in the
    range of the normal numbers: the mantissa is [k] shifted to 53 digits. *)
Definition doubleOf (k e : Z) : spec_float :=
  S754_finite false (Z.to_pos (k * 2 ^ (53 - Zdigits2 k))) (e + Zdigits2 k - 53).

End Binary64.

(** ** The store: database, caches and the fault oracle *)

(** A row of [vehicle_snapshots]. *)
Record Snapshot := mkSnapshot {
  snap_fetchedAt : Date;
  snap_vehicleId : Z;
  snap_routeId : option Z;
  snap_tripId : option string;
  snap_latitude : option Q;
  snap_longitude : option Q;
  snap_timestamp : option Date;
  snap_speed : option Q;
  snap_vehicleType : option Z;
  snap_bikeAccessible : option string;
  snap_wheelchairAccessible : option string
}.

(** A row of [routes]: the provider's route and [updated_at]. *)
Record RouteRow := mkRouteRow { rr_route : Route; rr_updatedAt : Date }.

(** A row of [route_daily_stats], under its key (day, route). *)
Record DailyStats := mkDailyStats { firstSeenAt : Date; lastSeenAt : Date }.

(** The tables of [db/schema]. [routes] and [route_daily_stats] are keyed by
    their primary keys, which their upserts rely on; the other tables are
    the lists of their rows, rows being the provider's records under the
    column names of the schema. *)
Record Db := mkDb {
  routesT : gmap Z RouteRow;
  tripsT : list Trip;
  stopsT : list Stop;
  stopTimesT : list StopTime;
  shapesT : list ShapePoint;
  vehicleSnapshotsT : list Snapshot;
  stopVisitsT : list StopVisit;
  routeDailyStatsT : gmap (Z * Z) DailyStats
}.

(** The process state. [faults] is the oracle of the database: the outcome
    of each coming statement, [true] for one that throws (a lost connection,
    a violated constraint); statements beyond the list succeed. *)
Record World := mkWorld {
  db : Db;
  cache : StaticCache;
  stopInsideByVehicle : gset string;
  latestVehiclesCache : list Vehicle;
  latestVehiclesFetchedAt : option Date;
  faults : list bool
}.

Definition setDb (d : Db) (w : World) : World :=
  mkWorld d (cache w) (stopInsideByVehicle w) (latestVehiclesCache w)
          (latestVehiclesFetchedAt w) (faults w).
Definition setCache (c : StaticCache) (w : World) : World :=
  mkWorld (db w) c (stopInsideByVehicle w) (latestVehiclesCache w)
          (latestVehiclesFetchedAt w) (faults w).
Definition setInside (inside : gset string) (w : World) : World :=
  mkWorld (db w) (cache w) inside (latestVehiclesCache w)
          (latestVehiclesFetchedAt w) (faults w).
Definition setLatest (vehicles : list Vehicle) (fetchedAt : Date) (w : World) : World :=
  mkWorld (db w) (cache w) (stopInsideByVehicle w) vehicles (Some fetchedAt) (faults w).
Definition setFaults (fs : list bool) (w : World) : World :=
  mkWorld (db w) (cache w) (stopInsideByVehicle w) (latestVehiclesCache w)
          (latestVehiclesFetchedAt w) fs.

Definition setRoutesT (t : gmap Z RouteRow) (d : Db) : Db :=
  mkDb t (tripsT d) (stopsT d) (stopTimesT d) (shapesT d) (vehicleSnapshotsT d)
       (stopVisitsT d) (routeDailyStatsT d).
Definition setTripsT (t : list Trip) (d : Db) : Db :=
  mkDb (routesT d) t (stopsT d) (stopTimesT d) (shapesT d) (vehicleSnapshotsT d)
       (stopVisitsT d) (routeDailyStatsT d).
Definition setStopsT (t : list Stop) (d : Db) : Db :=
  mkDb (routesT d) (tripsT d) t (stopTimesT d) (shapesT d) (vehicleSnapshotsT d)
       (stopVisitsT d) (routeDailyStatsT d).
Definition setStopTimesT (t : list StopTime) (d : Db) : Db :=
  mkDb (routesT d) (tripsT d) (stopsT d) t (shapesT d) (vehicleSnapshotsT d)
       (stopVisitsT d) (routeDailyStatsT d).
Definition setShapesT (t : list ShapePoint) (d : Db) : Db :=
  mkDb (routesT d) (tripsT d) (stopsT d) (stopTimesT d) t (vehicleSnapshotsT d)
       (stopVisitsT d) (routeDailyStatsT d).
Definition setVehicleSnapshotsT (t : list Snapshot) (d : Db) : Db :=
  mkDb (routesT d) (tripsT d) (stopsT d) (stopTimesT d) (shapesT d) t
       (stopVisitsT d) (routeDailyStatsT d).
Definition setStopVisitsT (t : list StopVisit) (d : Db) : Db :=
  mkDb (routesT d) (tripsT d) (stopsT d) (stopTimesT d) (shapesT d) (vehicleSnapshotsT d)
       t (routeDailyStatsT d).
Definition setRouteDailyStatsT (t : gmap (Z * Z) DailyStats) (d : Db) : Db :=
  mkDb (routesT d) (tripsT d) (stopsT d) (stopTimesT d) (shapesT d) (vehicleSnapshotsT d)
       (stopVisitsT d) t.

(** *** Computations that may throw *)

Inductive Outcome (A : Type) : Type :=
| Done (a : A)
| Threw (message : string).
Arguments Done {A} a.
Arguments Threw {A} message.

Definition IO (A : Type) : Type := World -> World * Outcome A.

Definition ret {A} (a : A) : IO A := fun w => (w, Done a).
Definition throw {A} (message : string) : IO A := fun w => (w, Threw message).
Definition bind {A B} (m : IO A) (k : A -> IO B) : IO B :=
  fun w => match m w with
           | (w', Done a) => k a w'
           | (w', Threw message) => (w', Threw message)
           end.

Notation "x <- m ;; k" := (bind m (fun x => k))
  (at level 63, m at next level, right associativity).
Notation "m ;;; k" := (bind m (fun _ => k))
  (at level 63, right associativity).

(** One [await db. ...] statement that writes: it throws, changing nothing,
    when the oracle says so. *)
Definition dbExec (f : Db -> Db) : IO unit :=
  fun w => match faults w with
           | true :: fs => (setFaults fs w, Threw "database error")
           | false :: fs => (setFaults fs (setDb (f (db w)) w), Done tt)
           | [] => (setDb (f (db w)) w, Done tt)
           end.

(** One [await db.select()...] statement. *)
Definition dbQuery {A} (q : Db -> A) : IO A :=
  fun w => match faults w with
           | true :: fs => (setFaults fs w, Threw "database error")
           | false :: fs => (setFaults fs w, Done (q (db w)))
           | [] => (w, Done (q (db w)))
           end.

(** A change of the in-memory state; it cannot throw. *)
Definition modify (f : World -> World) : IO unit := fun w => (f w, Done tt).

(** [chunkedInsert]: one insert statement per batch of [chunkSize] rows.
    [fuel] bounds the number of batches; [chunkedInsert] gives enough. *)
Fixpoint chunkedInsertFrom {T} (fuel : nat) (chunkSize : nat)
    (insert : list T -> Db -> Db) (rows : list T) : IO unit :=
  match fuel, rows with
  | S fuel', _ :: _ =>
      dbExec (insert (take chunkSize rows)) ;;;
      chunkedInsertFrom fuel' chunkSize insert (drop chunkSize rows)
  | _, _ => ret tt
  end.

Definition CHUNK_SIZE : nat := 1000.

Definition chunkedInsert {T} (insert : list T -> Db -> Db) (rows : list T) : IO unit :=
  chunkedInsertFrom (length rows) CHUNK_SIZE insert rows.

(** ** Route daily stats *)

(** The keys of [byRoute], in insertion order. *)
Definition byRouteKeys (vehicles : list Vehicle) : list Z :=
  fold_left (fun keys vehicle =>
               match route_id vehicle with
               | None => keys
               | Some r => if bool_decide (r ∈ keys) then keys else keys ++ [r]
               end) vehicles [].

Definition least (a b : Date) : Date := mkDate (Z.min (epochMs a) (epochMs b)).
Definition greatest (a b : Date) : Date := mkDate (Z.max (epochMs a) (epochMs b)).

(** One row of the [INSERT ... ON CONFLICT (day, route_id) DO UPDATE]. *)
Definition upsertDailyRow (day : Z) (fetchedAt : Date)
    (table : gmap (Z * Z) DailyStats) (r : Z) : gmap (Z * Z) DailyStats :=
  match table !! (day, r) with
  | None => <[ (day, r) := {| firstSeenAt := fetchedAt; lastSeenAt := fetchedAt |} ]> table
  | Some row =>
      <[ (day, r) := {| firstSeenAt := least (firstSeenAt row) fetchedAt;
                        lastSeenAt := greatest (lastSeenAt row) fetchedAt |} ]> table
  end.

Definition upsertRouteDailyStats (fetchedAt : Date) (vehicles : list Vehicle) : IO unit :=
  let byRoute := byRouteKeys vehicles in
  match byRoute with
  | [] => ret tt
  | _ :: _ =>
      let day := isoDay fetchedAt in
      dbExec (fun d => setRouteDailyStatsT
                         (fold_left (upsertDailyRow day fetchedAt) byRoute (routeDailyStatsT d)) d)
  end.

(** What the upsert makes of the row under a key it names. *)
Definition mergeDaily (fetchedAt : Date) (old : option DailyStats) : DailyStats :=
  match old with
  | None => {| firstSeenAt := fetchedAt; lastSeenAt := fetchedAt |}
  | Some row => {| firstSeenAt := least (firstSeenAt row) fetchedAt;
                   lastSeenAt := greatest (lastSeenAt row) fetchedAt |}
  end.

(** ** Persistence of a poll cycle *)

(** [db.insert(vehicleSnapshots).values(batch)] and
    [db.insert(stopVisits).values(batch)]: the batch goes after the rows
    the table holds. *)
Definition appendSnapshots (rows : list Snapshot) (d : Db) : Db :=
  setVehicleSnapshotsT (vehicleSnapshotsT d ++ rows) d.
Definition appendStopVisits (rows : list StopVisit) (d : Db) : Db :=
  setStopVisitsT (stopVisitsT d ++ rows) d.

(** The row [storeVehicleSnapshots] makes of a vehicle. *)
Definition toSnapshot (fetchedAt : Date) (vehicle : Vehicle) : Snapshot :=
  {| snap_fetchedAt := fetchedAt;
     snap_vehicleId := id vehicle;
     snap_routeId := route_id vehicle;
     snap_tripId := trip_id vehicle;
     snap_latitude := latitude vehicle;
     snap_longitude := longitude vehicle;
     snap_timestamp := timestamp vehicle;
     snap_speed := speed vehicle;
     snap_vehicleType := vehicle_type vehicle;
     snap_bikeAccessible := bike_accessible vehicle;
     snap_wheelchairAccessible := wheelchair_accessible vehicle |}.

Definition storeVehicleSnapshots (fetchedAt : Date) (vehicles : list Vehicle) : IO unit :=
  match vehicles with
  | [] => ret tt
  | _ :: _ => chunkedInsert appendSnapshots (toSnapshot fetchedAt <$> vehicles)
  end.

(** [recordStopVisits] whole: the scan of the cycle updates the containment
    set in place, then the events, if any, are inserted. *)
Definition recordStopVisitsIO `{Geodesy} (fetchedAt : Date) (vehicles : list Vehicle) : IO unit :=
  fun w =>
    let r := recordStopVisits (cache w) fetchedAt vehicles (stopInsideByVehicle w) in
    let w1 := setInside r.1 w in
    match r.2 with
    | [] => (w1, Done tt)
    | _ :: _ => chunkedInsert appendStopVisits r.2 w1
    end.

(** [pollVehicles]. [fetched] is the outcome of [fetchJson("vehicles")],
    [None] when the provider answers with an error; [fetchedAt] is the
    clock read before the fetch. *)
Definition pollVehicles `{Geodesy} (fetchedAt : Date) (fetched : option (list Vehicle)) : IO unit :=
  match fetched with
  | None => throw "Transit API error vehicles"
  | Some vehicles =>
      modify (setLatest vehicles fetchedAt) ;;;
      storeVehicleSnapshots fetchedAt vehicles ;;;
      upsertRouteDailyStats fetchedAt vehicles ;;;
      recordStopVisitsIO fetchedAt vehicles
  end.

(** The in-memory part of the state. *)
Definition memoryOf (w : World) : StaticCache * gset string * list Vehicle * option Date :=
  (cache w, stopInsideByVehicle w, latestVehiclesCache w, latestVehiclesFetchedAt w).

(** ** Reference data *)

(** The rows that [data.map] makes of the feed: the callback reads
    [new Date()] for every route, and [clock i] is the reading for the
    [i]-th. *)
Definition stampRoutes (clock : nat -> Date) (data : list Route) : list RouteRow :=
  imap (fun i route => {| rr_route := route; rr_updatedAt := clock i |}) data.

(** [upsertRoutes]: one [INSERT ... ON CONFLICT (route_id) DO UPDATE] that
    overwrites every column with the inserted row's. The embedding is of
    feeds that name each route once (PostgreSQL rejects a statement that
    would update a row twice). *)
Definition upsertRoutes (clock : nat -> Date) (data : list Route) : IO unit :=
  match data with
  | [] => ret tt
  | _ :: _ =>
      dbExec (fun d => setRoutesT
                (fold_left (fun table row => <[ r_route_id (rr_route row) := row ]> table)
                           (stampRoutes clock data) (routesT d)) d)
  end.

(** [new Map(stops.map((stop) => [stop.stop_id, stop]))]: a later stop
    replaces an earlier one of the same identifier. *)
Definition stopMapOf (stops : list Stop) : gmap Z Stop :=
  fold_left (fun m stop => <[ stop_id stop := stop ]> m) stops ∅.

(** [loadStopsCache]: reads the [stops] table into [stopsCache] and
    [stopById]. *)
Definition loadStopsCache : IO unit :=
  rows <- dbQuery stopsT ;;
  modify (fun w => setCache {| stopsCache := rows;
                               stopById := stopMapOf rows;
                               tripByIdCache := tripByIdCache (cache w);
                               stopIdsByTripId := stopIdsByTripId (cache w) |} w).

(** [Set.prototype.add], on the list of members in insertion order. *)
Definition setAdd (x : Z) (members : list Z) : list Z :=
  if bool_decide (x ∈ members) then members else members ++ [x].

(** [buildStaticCaches]: all four caches are rebuilt from the feed. *)
Definition buildStaticCaches (tripsData : list Trip) (stopsData : list Stop)
    (stopTimesData : list StopTime) : StaticCache :=
  {| stopsCache := stopsData;
     stopById := stopMapOf stopsData;
     tripByIdCache :=
       fold_left (fun m trip =>
                    <[ t_trip_id trip := {| routeId := t_route_id trip;
                                            directionId := direction_id trip |} ]> m)
                 tripsData ∅;
     stopIdsByTripId :=
       fold_left (fun m stopTime =>
                    <[ st_trip_id stopTime :=
                         setAdd (st_stop_id stopTime)
                                (default [] (m !! st_trip_id stopTime)) ]> m)
                 stopTimesData ∅ |}.

(** ** Retention sweep *)

(** [db.delete(vehicleSnapshots).where(fetched_at < cutoff)] and
    [db.delete(stopVisits).where(observed_at < cutoff)]. *)
Definition sweepSnapshots (cutoff : Date) (d : Db) : Db :=
  setVehicleSnapshotsT
    (filter (fun row => ~ epochMs (snap_fetchedAt row) < epochMs cutoff)
            (vehicleSnapshotsT d)) d.
Definition sweepStopVisits (cutoff : Date) (d : Db) : Db :=
  setStopVisitsT
    (filter (fun row => ~ epochMs (sv_observedAt row) < epochMs cutoff)
            (stopVisitsT d)) d.

(** [cleanupOldSnapshots], [now] being its [new Date()]. *)
Definition cleanupOldSnapshots (now : Date) : IO unit :=
  let cutoff := addDays now (- RETENTION_DAYS) in
  dbExec (sweepSnapshots cutoff) ;;;
  dbExec (sweepStopVisits cutoff).

(** ** Times of day *)

(** [timeToMinutes]. *)
Definition timeToMinutes `{HostClock} (date : Date) : Q :=
  Qred (inject_Z (getHours date * 60 + getMinutes date) + (getSeconds date # 60)).

(** [Math.round]: the nearest integer, halves upwards. *)
Definition jsRound (x : Q) : Z := Qfloor (x + (1#2)).

(** [String(n).padStart(2, "0")]. *)
Definition padStart2 (s : string) : string :=
  match String.length s with
  | 0%nat => "00"
  | 1%nat => "0" +:+ s
  | _ => s
  end.

(** [minutesToTime]. [total % 60] takes the sign of [total]. *)
Definition minutesToTime (value : Q) : string :=
  let total := jsRound value in
  let hours := total / 60 in
  let minutes := Z.rem total 60 in
  padStart2 (pretty hours) +:+ ":" +:+ padStart2 (pretty minutes).

(** The clock reading [HH:MM] of a minute count. *)
Definition clockString (total : Z) : string :=
  padStart2 (pretty (total / 60)) +:+ ":" +:+ padStart2 (pretty (total mod 60)).

(** ** A store for the worked examples *)

Definition emptyDb : Db :=
  {| routesT := ∅; tripsT := []; stopsT := []; stopTimesT := []; shapesT := [];
     vehicleSnapshotsT := []; stopVisitsT := []; routeDailyStatsT := ∅ |}.

(** The example cache over an empty database, with the given oracle. *)
Definition demoWorld (oracle : list bool) : World :=
  {| db := emptyDb; cache := demoCache; stopInsideByVehicle := ∅;
     latestVehiclesCache := []; latestVehiclesFetchedAt := None; faults := oracle |}.

(** Two routes and two stops for the worked examples. *)
Definition route7 : Route :=
  {| r_agency_id := 1; r_route_id := 7; route_short_name := "7";
     route_long_name := "Copou - Tatarasi"; route_color := "0055AA";
     route_type := 0; route_desc := "" |}.
Definition route9 : Route :=
  {| r_agency_id := 1; r_route_id := 9; route_short_name := "9";
     route_long_name := "Gara - Podu Ros"; route_color := "AA5500";
     route_type := 3; route_desc := "" |}.
Definition stop43 : Stop :=
  {| stop_id := 43; stop_name := "Gara"; stop_lat := 100; stop_lon := 0;
     location_type := 0; stop_code := "43" |}.

(** A store that still holds a route the provider has withdrawn. *)
Definition route5 : Route :=
  {| r_agency_id := 1; r_route_id := 5; route_short_name := "5";
     route_long_name := "Dacia - Rond Vechi"; route_color := "00AA55";
     route_type := 3; route_desc := "" |}.
Definition staleRouteWorld : World :=
  {| db := setRoutesT {[ 5 := {| rr_route := route5; rr_updatedAt := mkDate 0 |} ]} emptyDb;
     cache := demoCache; stopInsideByVehicle := ∅;
     latestVehiclesCache := []; latestVehiclesFetchedAt := None; faults := [] |}.

(** ** Route start statistics *)

(** The object [getRouteStartStats] returns when there are samples. *)
Record RouteStartStats := mkRouteStartStats {
  samples : nat;
  p50 : option string;
  p90 : option string;
  p99 : option string
}.

(** [getRouteStartStats]. The select has no [ORDER BY]: the rows come in the
    order of the storage, at most [RETENTION_DAYS * 2] of them. The select
    is a read of the table. *)
Definition getRouteStartStats `{HostClock} (d : Db) (routeId : Z) : option RouteStartStats :=
  let rows :=
    take (Z.to_nat (RETENTION_DAYS * 2))
         (filter (fun entry : Z * Z * DailyStats => entry.1.2 = routeId)
                 (map_to_list (routeDailyStatsT d))) in
  let values := (fun entry : Z * Z * DailyStats => timeToMinutes (firstSeenAt entry.2)) <$> rows in
  match values with
  | [] => None
  | _ :: _ =>
      Some {| samples := length values;
              p50 := minutesToTime <$> percentile values (1#2);
              p90 := minutesToTime <$> percentile values (9#10);
              p99 := minutesToTime <$> percentile values (99#100) |}
  end.


(** A feed for the worked examples: trip T7a of route 7 serves stop 42. *)
Definition tripT7a : Trip :=
  {| t_route_id := 7; t_trip_id := "T7a"; trip_headsign := "Tatarasi";
     direction_id := 0; block_id := 1; t_shape_id := "S7a" |}.
Definition stopTimeT7a : StopTime :=
  {| st_trip_id := "T7a"; st_stop_id := 42; stop_sequence := 1;
     arrival_time := None; departure_time := None |}.

(** A vehicle that passes the entry test of a stop: a tracked entry of the
    cycle, a stop of its trip, and the test [distance > STOP_RADIUS_METERS]
    false. *)
Definition entersZone `{Geodesy} (c : StaticCache) (vehicles : list Vehicle)
    (vehicleId stopId : Z) : Prop :=
  exists v lat lon rid tid stops k stop,
    v ∈ vehicles /\ tracked c v lat lon rid tid stops /\ k ∈ stops /\
    stopById c !! k = Some stop /\ id v = vehicleId /\ stop_id stop = stopId /\
    Qgtb (haversineMeters lat lon (stop_lat stop) (stop_lon stop)) STOP_RADIUS_METERS = false.

(** The scans of successive poll cycles, each with the caches it reads: a
    refresh between two cycles rebuilds them. *)
Fixpoint runCyclesOver `{Geodesy} (cycles : list (StaticCache * Date * list Vehicle))
    (inside : gset string) : gset string * list (list StopVisit) :=
  match cycles with
  | [] => (inside, [])
  | (c, fetchedAt, vehicles) :: rest =>
      let r := recordStopVisits c fetchedAt vehicles inside in
      let rs := runCyclesOver rest r.1 in
      (rs.1, r.2 :: rs.2)
  end.

(** ** Static refresh *)

(** The five arrays a refresh fetches from the provider. *)
Record StaticFeed := mkStaticFeed {
  feedRoutes : list Route;
  feedTrips : list Trip;
  feedStops : list Stop;
  feedStopTimes : list StopTime;
  feedShapes : list ShapePoint
}.

(** [db.insert(table).values(batch)] for the four reference tables that a
    refresh replaces. *)
Definition appendTrips (rows : list Trip) (d : Db) : Db := setTripsT (tripsT d ++ rows) d.
Definition appendStops (rows : list Stop) (d : Db) : Db := setStopsT (stopsT d ++ rows) d.
Definition appendStopTimes (rows : list StopTime) (d : Db) : Db :=
  setStopTimesT (stopTimesT d ++ rows) d.
Definition appendShapes (rows : list ShapePoint) (d : Db) : Db :=
  setShapesT (shapesT d ++ rows) d.

(** [refreshStaticData]. [fetched] is the outcome of the [Promise.all] of the
    five [fetchJson] calls, [None] when one of them rejects; [clock] gives
    the [new Date()] readings of [upsertRoutes]. *)
Definition refreshStaticData (clock : nat -> Date) (fetched : option StaticFeed) : IO unit :=
  match fetched with
  | None => throw "Transit API error"
  | Some feed =>
      dbExec (setTripsT []) ;;;
      dbExec (setStopsT []) ;;;
      dbExec (setStopTimesT []) ;;;
      dbExec (setShapesT []) ;;;
      upsertRoutes clock (feedRoutes feed) ;;;
      chunkedInsert appendTrips (feedTrips feed) ;;;
      chunkedInsert appendStops (feedStops feed) ;;;
      loadStopsCache ;;;
      chunkedInsert appendStopTimes (feedStopTimes feed) ;;;
      chunkedInsert appendShapes (feedShapes feed) ;;;
      modify (setCache (buildStaticCaches (feedTrips feed) (feedStops feed)
                                          (feedStopTimes feed)))
  end.

(** A feed and a store for the worked examples of the refresh. *)
Definition tripT9a : Trip :=
  {| t_route_id := 9; t_trip_id := "T9a"; trip_headsign := "Podu Ros";
     direction_id := 0; block_id := 2; t_shape_id := "S9a" |}.
Definition stopTimeT9a : StopTime :=
  {| st_trip_id := "T9a"; st_stop_id := 43; stop_sequence := 1;
     arrival_time := None; departure_time := None |}.
Definition feedRoute9 : StaticFeed :=
  {| feedRoutes := [route9]; feedTrips := [tripT9a]; feedStops := [stop43];
     feedStopTimes := [stopTimeT9a]; feedShapes := [] |}.
Definition route7World (oracle : list bool) : World :=
  {| db := {| routesT := {[ 7 := {| rr_route := route7; rr_updatedAt := mkDate 0 |} ]};
              tripsT := [tripT7a]; stopsT := [stop42]; stopTimesT := [stopTimeT7a];
              shapesT := []; vehicleSnapshotsT := []; stopVisitsT := [];
              routeDailyStatsT := ∅ |};
     cache := demoCache; stopInsideByVehicle := {[ stopKey 1 42 ]};
     latestVehiclesCache := []; latestVehiclesFetchedAt := None; faults := oracle |}.

(** ** The process: startup and the three loops *)

(** The caches and the state of a process that has just started. *)
Definition initialCache : StaticCache :=
  {| stopsCache := []; stopById := ∅; tripByIdCache := ∅; stopIdsByTripId := ∅ |}.
Definition initialWorld (d : Db) (oracle : list bool) : World :=
  {| db := d; cache := initialCache; stopInsideByVehicle := ∅;
     latestVehiclesCache := []; latestVehiclesFetchedAt := None; faults := oracle |}.

(** The jobs of the process: the poll of [scheduleLoop], the refresh of
    [scheduleStaticRefresh] and of the startup, the sweep of
    [scheduleDailyCleanup], and the [loadStopsCache] of the startup, each
    with what it reads from the clock and from the provider. *)
Inductive Job :=
| Poll (fetchedAt : Date) (fetched : option (list Vehicle))
| Refresh (clock : nat -> Date) (fetched : option StaticFeed)
| Cleanup (now : Date)
| LoadStops.

Definition runJob `{Geodesy} (job : Job) : IO unit :=
  match job with
  | Poll fetchedAt fetched => pollVehicles fetchedAt fetched
  | Refresh clock fetched => refreshStaticData clock fetched
  | Cleanup now => cleanupOldSnapshots now
  | LoadStops => loadStopsCache
  end.

(** [try { await job() } catch (error) { console.error(...) }], and the
    [.catch] of the startup: the error is logged and the process goes on. *)
Definition caught (m : IO unit) (w : World) : World := (m w).1.

(** A schedule of jobs, taken one at a time. *)
Definition runJobs `{Geodesy} (jobs : list Job) (w : World) : World :=
  fold_left (fun w job => caught (runJob job) w) jobs w.

(** The most recent poll of a schedule whose fetch succeeded. *)
Definition fetchOf (job : Job) : option (Date * list Vehicle) :=
  match job with
  | Poll fetchedAt (Some vehicles) => Some (fetchedAt, vehicles)
  | _ => None
  end.
Definition lastFetch (jobs : list Job) : option (Date * list Vehicle) :=
  last (omap fetchOf jobs).

(** ** The proxy *)

(** The responses of [GET /api/proxy/:resource]: the 404, the last poll
    cycle, or the provider's answer as it came. *)
Inductive ProxyResponse (J : Type) : Type :=
| NotFound
| LastCycle (fetchedAt : option Date) (vehicles : list Vehicle)
| FromProvider (data : J).
Arguments NotFound {J}.
Arguments LastCycle {J} fetchedAt vehicles.
Arguments FromProvider {J} data.

Definition proxyResources : list string :=
  ["vehicles"; "routes"; "trips"; "stops"; "stop_times"; "shapes"]%string.

(** The handler. [fetchJson] is the provider: [None] for a fetch that
    fails, which makes the handler throw. *)
Definition proxyHandler {J} (fetchJson : string -> option J) (resource : string)
    (w : World) : Outcome (ProxyResponse J) :=
  if bool_decide (resource ∈ proxyResources) then
    if bool_decide (resource = "vehicles"%string) &&
       bool_decide (0 < length (latestVehiclesCache w))%nat
    then Done (LastCycle (latestVehiclesFetchedAt w) (latestVehiclesCache w))
    else match fetchJson resource with
         | Some data => Done (FromProvider data)
         | None => Threw "Transit API error"
         end
  else Done NotFound.

(** ** Stop analytics *)

(** A [Map<number, V>] that the handler iterates: its entries in insertion
    order. [omAlter f init k] is
    [if (!m.has(k)) m.set(k, init); m.set(k, f(m.get(k)))] with the entry
    keeping its place, which is what a [push] on the stored array does. *)
Fixpoint omLookup {V} (k : Z) (m : list (Z * V)) : option V :=
  match m with
  | [] => None
  | (k', v) :: rest => if bool_decide (k' = k) then Some v else omLookup k rest
  end.

Fixpoint omAlter {V} (f : V -> V) (init : V) (k : Z) (m : list (Z * V)) : list (Z * V) :=
  match m with
  | [] => [(k, f init)]
  | (k', v) :: rest =>
      if bool_decide (k' = k) then (k', f v) :: rest else (k', v) :: omAlter f init k rest
  end.

(** An entry of [dayKeys], a point of a day and a day of the response. *)
Record DayKey := mkDayKey { dk_key : Z; dk_isToday : bool }.
Record Point := mkPoint { pt_routeId : Z; pt_minutes : list Q; pt_predicted : bool }.
Record DayPoints := mkDayPoints {
  day_date : Z;
  day_isToday : bool;
  day_points : list Point
}.

(** The responses of [GET /api/analytics/stop/:stopId]: the 400, the 404,
    and the analytics. [an_routeIds] is the [routeIds] array, from which the
    [routes] field is made by attaching the names and sorting by short name
    with the host's string collation, which the embedding leaves out. *)
Inductive AnalyticsResponse :=
| InvalidStopId
| StopNotFound
| Analytics (an_stop : Stop) (an_routeIds : list Z) (an_days : list DayPoints).

(** The loop [for (let i = 6; i >= 0; i -= 1)]. *)
Definition dayKeys `{HostClock} (today : Date) : list DayKey :=
  (fun i => {| dk_key := localDateKey (addDays today (- i));
               dk_isToday := bool_decide (i = 0) |}) <$> [6; 5; 4; 3; 2; 1; 0].

(** The select of the visits: the rows of the stop, not before [cutoff],
    with a route. *)
Definition selectVisits (stopId : Z) (cutoff : Date) (d : Db) : list StopVisit :=
  filter (fun row => sv_stopId row = stopId /\
                     epochMs cutoff <= epochMs (sv_observedAt row) /\
                     is_Some (sv_routeId row))
         (stopVisitsT d).

(** [knownVisits]: the visits whose route is in [routeInfoMap], each as its
    route ([row.routeId as number]) and its time. *)
Definition knownVisitsOf (routeInfoMap : gmap Z RouteRow) (visits : list StopVisit)
    : list (Z * Date) :=
  omap (fun row => match sv_routeId row with
                   | Some r => if bool_decide (is_Some (routeInfoMap !! r))
                               then Some (r, sv_observedAt row) else None
                   | None => None
                   end) visits.

(** The callback of [knownVisits.forEach]. The [predicted: false] of the
    stored value is never read and is left out. *)
Definition recordVisit `{HostClock} (daySet : gset Z)
    (visitsByDay : gmap Z (list (Z * list Q))) (row : Z * Date)
    : gmap Z (list (Z * list Q)) :=
  let dayKey := localDateKey row.2 in
  if bool_decide (dayKey ∈ daySet) then
    let minutes := timeToMinutes row.2 in
    let dayMap := default [] (visitsByDay !! dayKey) in
    <[ dayKey := omAlter (fun times => times ++ [minutes]) [] row.1 dayMap ]> visitsByDay
  else visitsByDay.

(** The callbacks of [dayKeys.forEach] and of its [dayMap.forEach]. *)
Definition pushHistory (history : list (Z * list (list Q))) (entry : Z * list Q)
    : list (Z * list (list Q)) :=
  omAlter (fun days => days ++ [sortNum entry.2]) [] entry.1 history.

Definition historyOfDay (visitsByDay : gmap Z (list (Z * list Q)))
    (history : list (Z * list (list Q))) (day : DayKey) : list (Z * list (list Q)) :=
  if dk_isToday day then history
  else match visitsByDay !! dk_key day with
       | None => history
       | Some dayMap => fold_left pushHistory dayMap history
       end.

(** The points of the observed runs of a day, and of the predicted runs
    still to come. *)
Definition observedPoints (dayMap : list (Z * list Q)) : list Point :=
  omap (fun entry : Z * list Q =>
          match entry.2 with
          | [] => None
          | _ :: _ => Some {| pt_routeId := entry.1; pt_minutes := sortNum entry.2;
                              pt_predicted := false |}
          end) dayMap.

Definition futurePoints (nowMinutes : Q) (predictedByRoute : list (Z * list Q)) : list Point :=
  omap (fun entry : Z * list Q =>
          match filter (fun value => Qgtb value nowMinutes) entry.2 with
          | [] => None
          | future => Some {| pt_routeId := entry.1; pt_minutes := future;
                              pt_predicted := true |}
          end) predictedByRoute.

(** The callback of [dayKeys.map]. *)
Definition dayPoints (visitsByDay : gmap Z (list (Z * list Q)))
    (predictedByRoute : list (Z * list Q)) (nowMinutes : Q) (day : DayKey) : DayPoints :=
  let observed := match visitsByDay !! dk_key day with
                  | Some dayMap => observedPoints dayMap
                  | None => []
                  end in
  {| day_date := dk_key day;
     day_isToday := dk_isToday day;
     day_points := if dk_isToday day
                   then observed ++ futurePoints nowMinutes predictedByRoute
                   else observed |}.

(** The handler's work between its selects and its response. *)
Definition visitsByDayOf `{HostClock} (today : Date) (knownVisits : list (Z * Date))
    : gmap Z (list (Z * list Q)) :=
  let daySet : gset Z := list_to_set (dk_key <$> dayKeys today) in
  fold_left (recordVisit daySet) knownVisits ∅.

Definition historyByRouteOf `{HostClock} (today : Date)
    (visitsByDay : gmap Z (list (Z * list Q))) : list (Z * list (list Q)) :=
  fold_left (historyOfDay visitsByDay) (dayKeys today) [].

Definition predictedByRouteOf (historyByRoute : list (Z * list (list Q))) : list (Z * list Q) :=
  (fun entry : Z * list (list Q) => (entry.1, buildPredictedTimes entry.2)) <$> historyByRoute.

Definition analyticsDays `{HostClock} (today : Date) (knownVisits : list (Z * Date))
    : list DayPoints :=
  let visitsByDay := visitsByDayOf today knownVisits in
  let predictedByRoute := predictedByRouteOf (historyByRouteOf today visitsByDay) in
  dayPoints visitsByDay predictedByRoute (timeToMinutes today) <$> dayKeys today.

(** [Array.from(new Set(knownVisits.map((row) => row.routeId)))]. *)
Definition routeIdsOf (knownVisits : list (Z * Date)) : list Z :=
  fold_left (fun members row => setAdd row.1 members) knownVisits [].

(** The handler. [param] is [Number(params.stopId)], [None] for [NaN]; the
    embedding is of whole numbers. [today] is its [new Date()]. *)
Definition stopAnalytics `{HostClock} (today : Date) (param : option Z) : IO AnalyticsResponse :=
  match param with
  | None => ret InvalidStopId
  | Some stopId =>
      stop <- dbQuery (fun d => head (filter (fun s => stop_id s = stopId) (stopsT d))) ;;
      match stop with
      | None => ret StopNotFound
      | Some stopRow =>
          let cutoff := addDays today (- 6) in
          visits <- dbQuery (selectVisits stopId cutoff) ;;
          routeInfoMap <- dbQuery routesT ;;
          let knownVisits := knownVisitsOf routeInfoMap visits in
          ret (Analytics stopRow (routeIdsOf knownVisits) (analyticsDays today knownVisits))
      end
  end.

(** *** The analytics in the words of their description *)

(** The times of day at which [route] was seen at the stop on the local day
    [day], among the visits the handler keeps: those of the stop, not before
    the cutoff, whose route is in the [routes] table; in the order of the
    table. *)
Definition observedTimes `{HostClock} (d : Db) (today : Date) (stopId : Z)
    (day : Z) (route : Z) : list Q :=
  timeToMinutes <$>
  (sv_observedAt <$>
   filter (fun row => sv_stopId row = stopId /\
                      epochMs (addDays today (- 6)) <= epochMs (sv_observedAt row) /\
                      sv_routeId row = Some route /\
                      is_Some (routesT d !! route) /\
                      localDateKey (sv_observedAt row) = day)
          (stopVisitsT d)).

(** The history of [route]: the sorted times of each of the six days before
    today on which the route was seen, oldest day first. *)
Definition routeHistory `{HostClock} (d : Db) (today : Date) (stopId : Z) (route : Z)
    : list (list Q) :=
  omap (fun i => match observedTimes d today stopId (localDateKey today - i) route with
                 | [] => None
                 | times => Some (sortNum times)
                 end) [6; 5; 4; 3; 2; 1].

(** The known visits of one local day, and the map of a day's runs by
    route that [recordVisit] builds of them. *)
Definition dayRows `{HostClock} (day : Z) (rows : list (Z * Date)) : list (Z * Date) :=
  filter (fun row => localDateKey row.2 = day) rows.

Definition groupRuns `{HostClock} (rows : list (Z * Date)) (dayMap : list (Z * list Q))
    : list (Z * list Q) :=
  fold_left (fun m (row : Z * Date) =>
               omAlter (fun times => times ++ [timeToMinutes row.2]) [] row.1 m)
            rows dayMap.

Definition timesOf `{HostClock} (route : Z) (rows : list (Z * Date)) : list Q :=
  timeToMinutes <$> (snd <$> filter (fun row => row.1 = route) rows).

(** The scenario of the stop analytics: route 7 called at stop 42 at 08:01
    and at 08:16 yesterday and at 08:03 today, and it is 08:10, on a host
    two hours east of UTC. *)
Definition visitAt (t : Date) : StopVisit :=
  {| sv_stopId := 42; sv_routeId := Some 7; sv_tripId := Some "T7a"%string;
     sv_vehicleId := 1; sv_observedAt := t; sv_fetchedAt := t;
     sv_latitude := 0; sv_longitude := 0; sv_distanceMeters := 65#1 |}.

Definition scenarioToday : Date := @localDateTime clockUTCplus2 20000 8 10 0.

Definition scenarioWorld : World :=
  {| db := {| routesT := {[ 7 := {| rr_route := route7; rr_updatedAt := mkDate 0 |} ]};
              tripsT := [tripT7a]; stopsT := [stop42]; stopTimesT := [stopTimeT7a];
              shapesT := []; vehicleSnapshotsT := [];
              stopVisitsT := [ visitAt (@localDateTime clockUTCplus2 19999 8 1 0);
                               visitAt (@localDateTime clockUTCplus2 19999 8 16 0);
                               visitAt (@localDateTime clockUTCplus2 20000 8 3 0) ];
              routeDailyStatsT := ∅ |};
     cache := demoCache; stopInsideByVehicle := ∅;
     latestVehiclesCache := []; latestVehiclesFetchedAt := None; faults := [] |}.

Definition scenarioDays : list DayPoints :=
  [ {| day_date := 19994; day_isToday := false; day_points := [] |};
    {| day_date := 19995; day_isToday := false; day_points := [] |};
    {| day_date := 19996; day_isToday := false; day_points := [] |};
    {| day_date := 19997; day_isToday := false; day_points := [] |};
    {| day_date := 19998; day_isToday := false; day_points := [] |};
    {| day_date := 19999; day_isToday := false;
       day_points := [ {| pt_routeId := 7; pt_minutes := [481#1; 496#1];
                          pt_predicted := false |} ] |};
    {| day_date := 20000; day_isToday := true;
       day_points := [ {| pt_routeId := 7; pt_minutes := [483#1]; pt_predicted := false |};
                       {| pt_routeId := 7; pt_minutes := [496#1]; pt_predicted := true |} ] |} ].



(* ================================================================== *)
(** * Theorems *)
(* ================================================================== *)

Section ClockFacts.
Context `{HostClock}.

Lemma getHours_range (d : Date) : 0 <= getHours d < 24.
  Proof.
    unfold getHours, MS_PER_DAY, MS_PER_HOUR.
    pose proof (Z.mod_pos_bound (localMs d) 86400000 eq_refl) as Hb.
    split.
    - apply Z.div_pos; lia.
    - apply Z.div_lt_upper_bound; lia.
  Qed.

Lemma getHours_localDateTime (day h m s : Z) :
    0 <= h < 24 -> 0 <= m < 60 -> 0 <= s < 60 ->
    getHours (localDateTime day h m s) = h.
  Proof.
    intros Hh Hm Hs. unfold getHours, localDateTime, localMs; simpl.
    unfold MS_PER_DAY, MS_PER_HOUR, MS_PER_MINUTE.
    replace (day * 86400000 + h * 3600000 + m * 60000 + s * 1000 - tzOffsetMs + tzOffsetMs)
      with ((h * 3600000 + m * 60000 + s * 1000) + day * 86400000) by lia.
    rewrite Z.mod_add by lia.
    rewrite Z.mod_small by lia.
    symmetry. apply (Z.div_unique _ _ h (m * 60000 + s * 1000)); lia.
  Qed.
End ClockFacts.

(** C9. The poll interval is the day interval (15000 ms) exactly when the
    local hour of day lies in the day window from 06:00 up to 24:00, and the
    night interval (60000 ms) otherwise; at local 07:00 it is the day
    interval and at local 02:00 the night interval, whatever the calendar
    day and the host's offset. *)
Theorem getPollIntervalMs_day_window `{HostClock} :
  (forall now : Date,
      getPollIntervalMs now =
      if bool_decide (6 <= getHours now < 24) then 15000 else 60000) /\
  (forall day, getPollIntervalMs (localDateTime day 7 0 0) = POLL_DAY_INTERVAL_MS) /\
  (forall day, getPollIntervalMs (localDateTime day 2 0 0) = POLL_NIGHT_INTERVAL_MS).
Proof.
  assert (Hgen : forall now : Date,
      getPollIntervalMs now =
      if bool_decide (6 <= getHours now < 24) then 15000 else 60000).
  { intros now. unfold getPollIntervalMs, DAY_START_HOUR, DAY_END_HOUR,
      POLL_DAY_INTERVAL_MS, POLL_NIGHT_INTERVAL_MS.
    case_bool_decide;
      destruct (Z.leb_spec 6 (getHours now)), (Z.ltb_spec (getHours now) 24);
      simpl; try reflexivity; lia. }
  split; [exact Hgen|]. split; intros day; rewrite Hgen.
  - rewrite getHours_localDateTime by lia. reflexivity.
  - rewrite getHours_localDateTime by lia. reflexivity.
Qed.

(** ** Containment keys *)

Lemma pretty_N_go_colon (x : N) (s : string) :
  hasColon s = false -> hasColon (pretty_N_go x s) = false.
Proof.
  revert s. induction (N.lt_wf_0 x) as [x _ IH]; intros s Hs.
  destruct (decide (x = 0)%N) as [->|Hx].
  - by rewrite pretty_N_go_0.
  - rewrite pretty_N_go_step by lia. apply IH.
    + apply N.div_lt; lia.
    + simpl. rewrite Hs. unfold pretty_N_char. by repeat case_match.
Qed.

Lemma pretty_N_colon (x : N) : hasColon (pretty x) = false.
Proof.
  unfold pretty, pretty_N. case_decide; [done|]. by apply pretty_N_go_colon.
Qed.

Lemma pretty_Z_colon (x : Z) : hasColon (pretty x) = false.
Proof.
  destruct x as [|p|p]; [done| |].
  - apply (pretty_N_colon (N.pos p)).
  - change (pretty (Z.neg p)) with ("-" +:+ pretty (N.pos p)).
    simpl. apply (pretty_N_colon (N.pos p)).
Qed.

Lemma colon_split (a a' b b' : string) :
  hasColon a = false -> hasColon a' = false ->
  a +:+ ":" +:+ b = a' +:+ ":" +:+ b' -> a = a' /\ b = b'.
Proof.
  revert a'. induction a as [|x a IH]; intros [|x' a'] Ha Ha' Heq; simpl in *.
  - by simplify_eq.
  - injection Heq as <- _. by rewrite bool_decide_eq_true_2 in Ha'.
  - injection Heq as -> _. by rewrite bool_decide_eq_true_2 in Ha.
  - apply orb_false_iff in Ha as [_ Ha]. apply orb_false_iff in Ha' as [_ Ha'].
    injection Heq as -> Heq. destruct (IH a' Ha Ha' Heq) as [-> ->]. done.
Qed.

(** The key determines the pair. *)
Lemma stopKey_inj (v v' s s' : Z) : stopKey v s = stopKey v' s' -> v = v' /\ s = s'.
Proof.
  unfold stopKey. intros Heq.
  apply colon_split in Heq as [Hv Hs]; [|apply pretty_Z_colon..].
  split; by apply (inj pretty).
Qed.

Lemma stopKey_eq_iff (v v' s s' : Z) : stopKey v s = stopKey v' s' <-> v = v' /\ s = s'.
Proof. split; [apply stopKey_inj | by intros [-> ->]]. Qed.

Lemma bool_decide_same (P R : Prop) `{Decision P, Decision R} :
  bool_decide P = bool_decide R -> (P <-> R).
Proof. intros Heq. by rewrite <- (bool_decide_spec P), Heq, bool_decide_spec. Qed.

(** ** Numbers *)

Lemma Qgtb_true (x y : Q) : Qgtb x y = true <-> (y < x)%Q.
Proof.
  unfold Qgtb. rewrite negb_true_iff, <- not_true_iff_false, Qle_bool_iff.
  split; [apply Qnot_le_lt | apply Qlt_not_le].
Qed.

Lemma Qgtb_false (x y : Q) : Qgtb x y = false <-> (x <= y)%Q.
Proof. unfold Qgtb. by rewrite negb_false_iff, Qle_bool_iff. Qed.

Lemma exit_implies_beyond_entry (d : Q) :
  Qgtb d STOP_EXIT_RADIUS_METERS = true -> Qgtb d STOP_RADIUS_METERS = true.
Proof.
  rewrite !Qgtb_true. intros Hd. eapply Qlt_trans; [|exact Hd]. reflexivity.
Qed.

Lemma hysteresis_between (d : Q) (b : bool) :
  (STOP_RADIUS_METERS < d)%Q -> (d <= STOP_EXIT_RADIUS_METERS)%Q -> hysteresis d b = b.
Proof.
  intros H1%Qgtb_true H2%Qgtb_false. unfold hysteresis. rewrite H1, H2. by destruct b.
Qed.

Lemma hysteresis_near (d : Q) (b : bool) :
  (d <= STOP_RADIUS_METERS)%Q -> hysteresis d b = true.
Proof.
  intros Hd. unfold hysteresis.
  assert (Qgtb d STOP_RADIUS_METERS = false) as -> by by apply Qgtb_false.
  destruct (Qgtb d STOP_EXIT_RADIUS_METERS) eqn:E.
  - apply exit_implies_beyond_entry in E.
    apply Qgtb_true in E. apply Qlt_not_le in E. done.
  - by destruct b.
Qed.

Lemma hysteresis_far (d : Q) (b : bool) :
  (STOP_EXIT_RADIUS_METERS < d)%Q -> hysteresis d b = false.
Proof.
  intros Hd%Qgtb_true. unfold hysteresis.
  rewrite (exit_implies_beyond_entry _ Hd), Hd. by destruct b.
Qed.

Lemma hysteresis_idem (d : Q) (b : bool) : hysteresis d (hysteresis d b) = hysteresis d b.
Proof.
  unfold hysteresis.
  destruct (Qgtb d STOP_EXIT_RADIUS_METERS) eqn:E.
  - rewrite (exit_implies_beyond_entry _ E). by destruct b.
  - by destruct b, (Qgtb d STOP_RADIUS_METERS).
Qed.

Lemma stepPair_idem (d : Q) (e : StopVisit) (pv : bool * list StopVisit) :
  stepPair d e (stepPair d e pv) = stepPair d e pv.
Proof.
  destruct pv as [b evs]. unfold stepPair; simpl. rewrite hysteresis_idem. f_equal.
  destruct (Qgtb d STOP_EXIT_RADIUS_METERS) eqn:E.
  - assert (hysteresis d b = false) as -> by (apply hysteresis_far; by apply Qgtb_true).
    simpl. by rewrite app_nil_r.
  - rewrite !andb_false_r. by rewrite app_nil_r.
Qed.

(** ** Geofence detector: one pair at a time *)

Section Geofence.
Context `{Geodesy}.
Implicit Types (c : StaticCache) (st : DetectorState) (v : Vehicle).

Lemma eventsFor_app vid sid (e1 e2 : list StopVisit) :
    eventsFor vid sid (e1 ++ e2) = eventsFor vid sid e1 ++ eventsFor vid sid e2.
  Proof. apply filter_app. Qed.

  (** What one stop visit does, case by case. *)
Lemma visitStop_unknown c t v rid tid obs lat lon st k :
    stopById c !! k = None -> visitStop c t v rid tid obs lat lon st k = st.
  Proof. intros Hk. unfold visitStop. by rewrite Hk. Qed.

Lemma visitStop_known c t v rid tid obs lat lon st k stop :
    stopById c !! k = Some stop ->
    let key := stopKey (id v) (stop_id stop) in
    let d := haversineMeters lat lon (stop_lat stop) (stop_lon stop) in
    visitStop c t v rid tid obs lat lon st k =
      if bool_decide (key ∈ st.1) then
        if Qgtb d STOP_EXIT_RADIUS_METERS
        then (st.1 ∖ {[key]}, st.2 ++ [exitEvent t v rid tid obs lat lon stop])
        else st
      else if Qgtb d STOP_RADIUS_METERS then st else ({[key]} ∪ st.1, st.2).
  Proof. intros Hk. unfold visitStop. by rewrite Hk. Qed.

  (** A visit of another vehicle or of another stop leaves the pair alone. *)
Lemma visitStop_other c t v rid tid obs lat lon st k vid sid :
    (forall stop, stopById c !! k = Some stop -> ~ (id v = vid /\ stop_id stop = sid)) ->
    pairView vid sid (visitStop c t v rid tid obs lat lon st k) = pairView vid sid st.
  Proof.
    intros Hother. destruct (stopById c !! k) as [stop|] eqn:Hk;
      [|by rewrite visitStop_unknown].
    rewrite (visitStop_known _ _ _ _ _ _ _ _ _ _ _ Hk). simpl.
    assert (stopKey (id v) (stop_id stop) <> stopKey vid sid) as Hne.
    { intros Heq%stopKey_inj. by apply (Hother stop). }
    assert (eventsFor vid sid [exitEvent t v rid tid obs lat lon stop] = []) as Hev.
    { unfold eventsFor. rewrite filter_cons_False; [done|].
      simpl. intros [? ?]. by apply (Hother stop). }
    unfold pairView.
    repeat case_match; simpl; try done.
    - rewrite eventsFor_app, Hev, app_nil_r. f_equal.
      apply bool_decide_ext. set_solver.
    - f_equal. apply bool_decide_ext. set_solver.
  Qed.

  (** A visit of the pair's vehicle to the pair's stop is one step of the
      pair's state machine. *)
Lemma visitStop_same c t v rid tid obs lat lon st k stop :
    stopById c !! k = Some stop ->
    pairView (id v) (stop_id stop) (visitStop c t v rid tid obs lat lon st k) =
    stepPair (haversineMeters lat lon (stop_lat stop) (stop_lon stop))
             (exitEvent t v rid tid obs lat lon stop)
             (pairView (id v) (stop_id stop) st).
  Proof.
    intros Hk. rewrite (visitStop_known _ _ _ _ _ _ _ _ _ _ _ Hk). simpl.
    unfold pairView, stepPair, hysteresis; simpl.
    destruct (bool_decide (stopKey (id v) (stop_id stop) ∈ st.1)) eqn:Hin; simpl.
    - destruct (Qgtb _ STOP_EXIT_RADIUS_METERS) eqn:Hd; simpl.
      + f_equal.
        * apply bool_decide_eq_false. set_solver.
        * rewrite eventsFor_app. f_equal.
          unfold eventsFor. by rewrite filter_cons_True.
      + by rewrite Hin, app_nil_r.
    - rewrite app_nil_r. destruct (Qgtb _ STOP_RADIUS_METERS) eqn:Hd; simpl.
      + by rewrite Hin.
      + f_equal. apply bool_decide_eq_true. set_solver.
  Qed.

  (** The stops of one vehicle entry: the pair's stop is stepped once,
      however often the list names it. *)
Lemma fold_visitStop_pair c t v rid tid obs lat lon (stops : list Z) st sid stop :
    stopById_keyed c -> stopById c !! sid = Some stop ->
    pairView (id v) sid (fold_left (visitStop c t v rid tid obs lat lon) stops st) =
    if bool_decide (sid ∈ stops)
    then stepPair (haversineMeters lat lon (stop_lat stop) (stop_lon stop))
                  (exitEvent t v rid tid obs lat lon stop) (pairView (id v) sid st)
    else pairView (id v) sid st.
  Proof.
    intros Hwf Hsid. assert (stop_id stop = sid) as Hid by by apply Hwf.
    subst sid.
    revert st. induction stops as [|k stops IH]; intros st; simpl; [done|].
    rewrite IH. destruct (decide (k = stop_id stop)) as [->|Hne].
    - rewrite (bool_decide_eq_true_2 (stop_id stop ∈ stop_id stop :: stops)) by set_solver.
      rewrite (visitStop_same _ _ _ _ _ _ _ _ _ _ _ Hsid).
      case_bool_decide; [apply stepPair_idem | done].
    - rewrite visitStop_other.
      2:{ intros stop' Hk [_ Hs]. apply Hwf in Hk. congruence. }
      apply (f_equal (fun b : bool => if b then _ else _)).
      apply bool_decide_ext. set_solver.
  Qed.

Lemma fold_visitStop_other c t v rid tid obs lat lon (stops : list Z) st vid sid :
    (forall k stop, k ∈ stops -> stopById c !! k = Some stop ->
                    ~ (id v = vid /\ stop_id stop = sid)) ->
    pairView vid sid (fold_left (visitStop c t v rid tid obs lat lon) stops st) =
    pairView vid sid st.
  Proof.
    revert st. induction stops as [|k stops IH]; intros st Hother; simpl; [done|].
    rewrite IH by (intros k0 stop0 Hk0 Hs0; apply (Hother k0 stop0);
                   [apply elem_of_cons; by right | done]).
    apply visitStop_other. intros stop Hk.
    apply (Hother k stop); [apply elem_of_cons; by left | done].
  Qed.

  (** *** One vehicle entry *)

Lemma visitVehicle_tracked c t st v lat lon rid tid stops :
    tracked c v lat lon rid tid stops ->
    visitVehicle c t st v =
    fold_left (visitStop c t v rid tid (default t (timestamp v)) lat lon) stops st.
  Proof.
    intros (Hlat & Hlon & Hrid & Htid & Hne & (ti & Hti & Hroute) & Hstops & Hnil).
    unfold visitVehicle. rewrite Hlat, Hlon, Hrid, Htid.
    assert (truthy (Some tid) = Some tid) as -> by by destruct tid.
    rewrite Hti, Hstops.
    destruct stops as [|k stops]; [done|]. simpl length.
    rewrite (bool_decide_eq_true_2 _ Hroute). done.
  Qed.

Lemma visitVehicle_cases c v :
    (forall t st, visitVehicle c t st v = st) \/
    exists lat lon rid tid stops, tracked c v lat lon rid tid stops.
  Proof.
    unfold visitVehicle.
    destruct (latitude v) as [lat|] eqn:Hlat; [|by left].
    destruct (longitude v) as [lon|] eqn:Hlon; [|by left].
    destruct (route_id v) as [rid|] eqn:Hrid; [|by left].
    destruct (trip_id v) as [tid|] eqn:Htid; [|by left].
    destruct tid as [|a tid]; [by left|]. simpl.
    destruct (tripByIdCache c !! String a tid) as [ti|] eqn:Hti; [|by left].
    destruct (stopIdsByTripId c !! String a tid) as [stops|] eqn:Hstops; [|by left].
    destruct stops as [|k stops]; [by left|]. simpl.
    case_bool_decide as Hroute; [|by left].
    right. exists lat, lon, rid, (String a tid), (k :: stops).
    unfold tracked. rewrite Hti, Hstops. eauto 10.
  Qed.

Lemma tracked_unique c v lat lon rid tid stops lat' lon' rid' tid' stops' :
    tracked c v lat lon rid tid stops -> tracked c v lat' lon' rid' tid' stops' ->
    lat = lat' /\ lon = lon' /\ rid = rid' /\ tid = tid' /\ stops = stops'.
  Proof.
    intros (H1 & H2 & H3 & H4 & _ & _ & H5 & _) (H1' & H2' & H3' & H4' & _ & _ & H5' & _).
    simplify_eq. done.
  Qed.

Lemma visitVehicle_other_id c t st v vid sid :
    id v <> vid -> pairView vid sid (visitVehicle c t st v) = pairView vid sid st.
  Proof.
    intros Hne. destruct (visitVehicle_cases c v) as [Hid|Htr]; [by rewrite Hid|].
    destruct Htr as (lat & lon & rid & tid & stops & Htr).
    rewrite (visitVehicle_tracked _ _ _ _ _ _ _ _ _ Htr).
    apply fold_visitStop_other. intros k stop _ _ [? _]. done.
  Qed.

Lemma visitVehicle_pair c t st v lat lon rid tid stops sid stop :
    stopById_keyed c -> stopById c !! sid = Some stop ->
    tracked c v lat lon rid tid stops -> sid ∈ stops ->
    pairView (id v) sid (visitVehicle c t st v) =
    stepPair (haversineMeters lat lon (stop_lat stop) (stop_lon stop))
             (exitEvent t v rid tid (default t (timestamp v)) lat lon stop)
             (pairView (id v) sid st).
  Proof.
    intros Hwf Hsid Htr Hin.
    rewrite (visitVehicle_tracked _ _ _ _ _ _ _ _ _ Htr).
    rewrite (fold_visitStop_pair _ _ _ _ _ _ _ _ _ _ _ _ Hwf Hsid).
    by rewrite bool_decide_eq_true_2.
  Qed.

  (** *** One cycle *)

Lemma fold_visitVehicle_absent c t (vs : list Vehicle) st vid sid :
    (forall u, u ∈ vs -> id u <> vid) ->
    pairView vid sid (fold_left (visitVehicle c t) vs st) = pairView vid sid st.
  Proof.
    revert st. induction vs as [|u vs IH]; intros st Habs; simpl; [done|].
    rewrite IH by (intros u' Hu'; apply Habs, elem_of_cons; by right).
    apply visitVehicle_other_id, Habs, elem_of_cons. by left.
  Qed.

  (** A cycle that lists the pair's vehicle with one position steps the pair
      once. *)
Lemma fold_visitVehicle_single c t (vs : list Vehicle) st v lat lon rid tid stops sid stop :
    stopById_keyed c -> stopById c !! sid = Some stop ->
    tracked c v lat lon rid tid stops -> sid ∈ stops ->
    v ∈ vs -> (forall u, u ∈ vs -> id u = id v -> u = v) ->
    pairView (id v) sid (fold_left (visitVehicle c t) vs st) =
    stepPair (haversineMeters lat lon (stop_lat stop) (stop_lon stop))
             (exitEvent t v rid tid (default t (timestamp v)) lat lon stop)
             (pairView (id v) sid st).
  Proof.
    intros Hwf Hsid Htr Hin Hv Huniq.
    set (step := stepPair (haversineMeters lat lon (stop_lat stop) (stop_lon stop))
             (exitEvent t v rid tid (default t (timestamp v)) lat lon stop)).
    cut (forall st,
            (v ∈ vs -> pairView (id v) sid (fold_left (visitVehicle c t) vs st)
                       = step (pairView (id v) sid st)) /\
            (pairView (id v) sid (fold_left (visitVehicle c t) vs st) = pairView (id v) sid st \/
             pairView (id v) sid (fold_left (visitVehicle c t) vs st)
             = step (pairView (id v) sid st))).
    { intros Hcut. by apply Hcut. }
    clear Hv st. induction vs as [|u vs IH]; intros st; simpl.
    - split; [by intros ?%elem_of_nil | by left].
    - assert (forall u', u' ∈ vs -> id u' = id v -> u' = v) as Huniq'.
      { intros u' Hu'. apply Huniq, elem_of_cons. by right. }
      destruct (IH Huniq' (visitVehicle c t st u)) as [IH1 IH2].
      destruct (decide (id u = id v)) as [Heq|Hne].
      + assert (u = v) as -> by (apply Huniq; [apply elem_of_cons; by left | done]).
        assert (pairView (id v) sid (fold_left (visitVehicle c t) vs (visitVehicle c t st v))
                = step (pairView (id v) sid st)) as Hres.
        { destruct IH2 as [-> | ->];
            rewrite (visitVehicle_pair _ _ _ _ _ _ _ _ _ _ _ Hwf Hsid Htr Hin);
            [done | apply stepPair_idem]. }
        split; [done | by right].
      + rewrite (visitVehicle_other_id _ _ _ _ _ _ Hne) in IH1, IH2.
        split; [|done]. intros [->|Hv]%elem_of_cons; [done | by apply IH1].
  Qed.

Lemma recordStopVisits_scan c t vs inside :
    stopsCache c <> [] ->
    recordStopVisits c t vs inside = fold_left (visitVehicle c t) vs (inside, []).
  Proof. unfold recordStopVisits. by destruct (stopsCache c). Qed.

Lemma recordStopVisits_no_stops c t vs inside :
    stopsCache c = [] -> recordStopVisits c t vs inside = (inside, []).
  Proof. unfold recordStopVisits. by intros ->. Qed.

  (** *** Positions between the two radii *)

Lemma stepPair_between d e (pv : bool * list StopVisit) :
    (STOP_RADIUS_METERS < d)%Q -> (d <= STOP_EXIT_RADIUS_METERS)%Q -> stepPair d e pv = pv.
  Proof.
    intros H1 H2. destruct pv as [b evs]. unfold stepPair; simpl.
    rewrite hysteresis_between by done.
    apply Qgtb_false in H2. rewrite H2, andb_false_r, app_nil_r. done.
  Qed.

Lemma visitStop_quiet c t v rid tid obs lat lon st k vid sid :
    (forall stop, stopById c !! k = Some stop -> id v = vid -> stop_id stop = sid ->
       (STOP_RADIUS_METERS < haversineMeters lat lon (stop_lat stop) (stop_lon stop))%Q /\
       (haversineMeters lat lon (stop_lat stop) (stop_lon stop) <= STOP_EXIT_RADIUS_METERS)%Q) ->
    pairView vid sid (visitStop c t v rid tid obs lat lon st k) = pairView vid sid st.
  Proof.
    intros Hq. destruct (stopById c !! k) as [stop|] eqn:Hk;
      [|by rewrite visitStop_unknown].
    destruct (decide (id v = vid /\ stop_id stop = sid)) as [[Hv Hs]|Hne].
    - destruct (Hq stop eq_refl Hv Hs) as [H1 H2]. subst vid sid.
      rewrite (visitStop_same _ _ _ _ _ _ _ _ _ _ _ Hk). by apply stepPair_between.
    - apply visitStop_other. intros stop' Hk'. by simplify_eq.
  Qed.

Lemma visitVehicle_quiet c t st v vid sid :
    (forall lat lon k stop, latitude v = Some lat -> longitude v = Some lon ->
       stopById c !! k = Some stop -> id v = vid -> stop_id stop = sid ->
       (STOP_RADIUS_METERS < haversineMeters lat lon (stop_lat stop) (stop_lon stop))%Q /\
       (haversineMeters lat lon (stop_lat stop) (stop_lon stop) <= STOP_EXIT_RADIUS_METERS)%Q) ->
    pairView vid sid (visitVehicle c t st v) = pairView vid sid st.
  Proof.
    intros Hq. destruct (visitVehicle_cases c v) as [Hid|Htr]; [by rewrite Hid|].
    destruct Htr as (lat & lon & rid & tid & stops & Htr).
    rewrite (visitVehicle_tracked _ _ _ _ _ _ _ _ _ Htr).
    destruct Htr as (Hlat & Hlon & _).
    generalize (default t (timestamp v)); intros obs.
    revert st. induction stops as [|k stops IH]; intros st; simpl; [done|].
    rewrite IH. apply visitStop_quiet. intros stop Hk. by apply (Hq lat lon k stop).
  Qed.

Lemma recordStopVisits_quiet c t vs inside vid sid :
    (forall u lat lon k stop, u ∈ vs -> latitude u = Some lat -> longitude u = Some lon ->
       stopById c !! k = Some stop -> id u = vid -> stop_id stop = sid ->
       (STOP_RADIUS_METERS < haversineMeters lat lon (stop_lat stop) (stop_lon stop))%Q /\
       (haversineMeters lat lon (stop_lat stop) (stop_lon stop) <= STOP_EXIT_RADIUS_METERS)%Q) ->
    pairView vid sid (recordStopVisits c t vs inside) = pairView vid sid (inside, []).
  Proof.
    intros Hq. unfold recordStopVisits. destruct (stopsCache c) as [|s0 ss]; [done|].
    generalize (inside, @nil StopVisit). clear inside.
    induction vs as [|u vs IH]; intros st; simpl; [done|].
    rewrite IH by (intros u' lat lon k stop Hu'; apply (Hq u' lat lon k stop),
                   elem_of_cons; by right).
    apply visitVehicle_quiet. intros lat lon k stop.
    apply (Hq u lat lon k stop), elem_of_cons. by left.
  Qed.

  (** *** Where events come from *)

Lemma visitStop_events c t v rid tid obs lat lon st k e :
    e ∈ (visitStop c t v rid tid obs lat lon st k).2 ->
    e ∈ st.2 \/
    exists stop, stopById c !! k = Some stop /\
      e = exitEvent t v rid tid obs lat lon stop /\
      stopKey (id v) (stop_id stop) ∈ st.1 /\
      (STOP_EXIT_RADIUS_METERS < haversineMeters lat lon (stop_lat stop) (stop_lon stop))%Q.
  Proof.
    destruct (stopById c !! k) as [stop|] eqn:Hk;
      [|rewrite visitStop_unknown by done; by left].
    rewrite (visitStop_known _ _ _ _ _ _ _ _ _ _ _ Hk). simpl.
    case_bool_decide as Hin.
    - destruct (Qgtb _ STOP_EXIT_RADIUS_METERS) eqn:Hd; [|by left]. simpl.
      intros [He|He%list_elem_of_singleton]%elem_of_app; [by left|].
      right. exists stop. by apply Qgtb_true in Hd.
    - destruct (Qgtb _ STOP_RADIUS_METERS); by left.
  Qed.

Lemma fold_visitStop_events c t v rid tid obs lat lon stops st e :
    e ∈ (fold_left (visitStop c t v rid tid obs lat lon) stops st).2 ->
    e ∈ st.2 \/
    exists k stop, k ∈ stops /\ stopById c !! k = Some stop /\
      e = exitEvent t v rid tid obs lat lon stop /\
      (STOP_EXIT_RADIUS_METERS < haversineMeters lat lon (stop_lat stop) (stop_lon stop))%Q.
  Proof.
    revert st. induction stops as [|k stops IH]; intros st; simpl; [by left|].
    intros [He|(k' & stop & Hk' & Hs & -> & Hd)]%IH.
    - apply visitStop_events in He as [He|(stop & Hs & -> & _ & Hd)]; [by left|].
      right. exists k, stop. split; [apply elem_of_cons; by left | done].
    - right. exists k', stop. split; [apply elem_of_cons; by right | done].
  Qed.

Lemma fold_visitVehicle_events c t vs st e :
    e ∈ (fold_left (visitVehicle c t) vs st).2 ->
    e ∈ st.2 \/
    exists v lat lon rid tid stops k stop,
      v ∈ vs /\ tracked c v lat lon rid tid stops /\ k ∈ stops /\
      stopById c !! k = Some stop /\
      e = exitEvent t v rid tid (default t (timestamp v)) lat lon stop /\
      (STOP_EXIT_RADIUS_METERS < haversineMeters lat lon (stop_lat stop) (stop_lon stop))%Q.
  Proof.
    revert st. induction vs as [|u vs IH]; intros st; simpl; [by left|].
    intros [He|(v & lat & lon & rid & tid & stops & k & stop & Hv & Hrest)]%IH.
    - destruct (visitVehicle_cases c u) as [Heq|Htr]; [rewrite Heq in He; by left|].
      destruct Htr as (lat & lon & rid & tid & stops & Htr).
      rewrite (visitVehicle_tracked _ _ _ _ _ _ _ _ _ Htr) in He.
      apply fold_visitStop_events in He as [He|(k & stop & Hk & Hs & -> & Hd)]; [by left|].
      right. exists u, lat, lon, rid, tid, stops, k, stop.
      split; [apply elem_of_cons; by left | done].
    - right. exists v, lat, lon, rid, tid, stops, k, stop.
      split; [apply elem_of_cons; by right | done].
  Qed.

Lemma recordStopVisits_events c t vs inside e :
    e ∈ (recordStopVisits c t vs inside).2 ->
    exists v lat lon rid tid stops k stop,
      v ∈ vs /\ tracked c v lat lon rid tid stops /\ k ∈ stops /\
      stopById c !! k = Some stop /\
      e = exitEvent t v rid tid (default t (timestamp v)) lat lon stop /\
      (STOP_EXIT_RADIUS_METERS < haversineMeters lat lon (stop_lat stop) (stop_lon stop))%Q.
  Proof.
    unfold recordStopVisits. destruct (stopsCache c); [by intros ?%elem_of_nil|].
    intros [He|He]%fold_visitVehicle_events; [by apply elem_of_nil in He | done].
  Qed.

Lemma skipped_not_tracked c v lat lon rid tid stops :
    skipped c v -> ~ tracked c v lat lon rid tid stops.
  Proof.
    intros Hskip (_ & _ & Hrid & Htid & Hne & (ti & Hti & Hroute) & Hstops & Hnil).
    destruct Hskip as [Hs|[Hs|(tid' & Hs & Hcase)]]; simplify_eq.
    destruct Hcase as [?|[?|[?|(ti' & ? & ?)]]]; simplify_eq; congruence.
  Qed.

Lemma visitVehicle_skipped c t st v : skipped c v -> visitVehicle c t st v = st.
  Proof.
    intros Hskip. destruct (visitVehicle_cases c v) as [Hid|Htr]; [by rewrite Hid|].
    destruct Htr as (lat & lon & rid & tid & stops & Htr).
    by destruct (skipped_not_tracked _ _ _ _ _ _ _ Hskip Htr).
  Qed.

  (** *** The action of a cycle on one key *)

Lemma hystClass_id : hystClass (fun b => b).
  Proof. right; left. done. Qed.

Lemma hystClass_comp (f g : bool -> bool) :
    hystClass f -> hystClass g -> hystClass (fun b => g (f b)).
  Proof.
    intros [Hf|[Hf|Hf]] [Hg|[Hg|Hg]]; unfold hystClass;
      first [ left; intros b; by rewrite ?Hf, ?Hg
            | right; left; intros b; by rewrite ?Hf, ?Hg
            | right; right; intros b; by rewrite ?Hf, ?Hg ].
  Qed.

Lemma hystClass_hysteresis (d : Q) : hystClass (hysteresis d).
  Proof.
    unfold hystClass, hysteresis.
    destruct (Qgtb d STOP_EXIT_RADIUS_METERS) eqn:E.
    - right; right. intros b. rewrite (exit_implies_beyond_entry _ E). by destruct b.
    - destruct (Qgtb d STOP_RADIUS_METERS).
      + right; left. by intros [].
      + left. by intros [].
  Qed.

Lemma hystClass_idem (f : bool -> bool) (b : bool) : hystClass f -> f (f b) = f b.
  Proof. intros [Hf|[Hf|Hf]]; by rewrite !Hf. Qed.

Lemma visitStop_effect c v lat lon k (key : string) :
    exists f, hystClass f /\ forall t rid tid obs st,
      bool_decide (key ∈ (visitStop c t v rid tid obs lat lon st k).1) =
      f (bool_decide (key ∈ st.1)).
  Proof.
    destruct (stopById c !! k) as [stop|] eqn:Hk.
    2:{ exists (fun b => b). split; [apply hystClass_id|].
        intros. by rewrite visitStop_unknown. }
    destruct (decide (stopKey (id v) (stop_id stop) = key)) as [<-|Hne].
    - exists (hysteresis (haversineMeters lat lon (stop_lat stop) (stop_lon stop))).
      split; [apply hystClass_hysteresis|]. intros t rid tid obs st.
      pose proof (visitStop_same c t v rid tid obs lat lon st k stop Hk) as Hsame.
      apply (f_equal fst) in Hsame. exact Hsame.
    - exists (fun b => b). split; [apply hystClass_id|]. intros t rid tid obs st.
      rewrite (visitStop_known _ _ _ _ _ _ _ _ _ _ _ Hk). simpl.
      repeat case_match; simpl; try done; apply bool_decide_ext; set_solver.
  Qed.

Lemma fold_visitStop_effect c v lat lon stops (key : string) :
    exists f, hystClass f /\ forall t rid tid obs st,
      bool_decide (key ∈ (fold_left (visitStop c t v rid tid obs lat lon) stops st).1) =
      f (bool_decide (key ∈ st.1)).
  Proof.
    induction stops as [|k stops (g & Hg & IH)].
    - exists (fun b => b). split; [apply hystClass_id | done].
    - destruct (visitStop_effect c v lat lon k key) as (f & Hf & Hstep).
      exists (fun b => g (f b)). split; [by apply hystClass_comp|].
      intros t rid tid obs st. simpl. by rewrite IH, Hstep.
  Qed.

Lemma visitVehicle_effect c v (key : string) :
    exists f, hystClass f /\ forall t st,
      bool_decide (key ∈ (visitVehicle c t st v).1) = f (bool_decide (key ∈ st.1)).
  Proof.
    destruct (visitVehicle_cases c v) as [Hid|Htr].
    - exists (fun b => b). split; [apply hystClass_id|]. intros. by rewrite Hid.
    - destruct Htr as (lat & lon & rid & tid & stops & Htr).
      destruct (fold_visitStop_effect c v lat lon stops key) as (f & Hf & Hfold).
      exists f. split; [done|]. intros t st.
      by rewrite (visitVehicle_tracked _ _ _ _ _ _ _ _ _ Htr).
  Qed.

Lemma recordStopVisits_effect c vs (key : string) :
    exists f, hystClass f /\ forall t inside,
      bool_decide (key ∈ (recordStopVisits c t vs inside).1) = f (bool_decide (key ∈ inside)).
  Proof.
    unfold recordStopVisits. destruct (stopsCache c) as [|s0 ss].
    { exists (fun b => b). split; [apply hystClass_id | done]. }
    cut (exists f, hystClass f /\ forall t st,
            bool_decide (key ∈ (fold_left (visitVehicle c t) vs st).1) =
            f (bool_decide (key ∈ st.1))).
    { intros (f & Hf & Hfold). exists f. split; [done|]. intros. by rewrite Hfold. }
    induction vs as [|u vs (g & Hg & IH)].
    - exists (fun b => b). split; [apply hystClass_id | done].
    - destruct (visitVehicle_effect c u key) as (f & Hf & Hstep).
      exists (fun b => g (f b)). split; [by apply hystClass_comp|].
      intros t st. simpl. by rewrite IH, Hstep.
  Qed.

  (** Running the same cycle again leaves the containment set as the first
      run left it. *)
Lemma recordStopVisits_inside_idem c t1 t2 vs inside :
    (recordStopVisits c t2 vs (recordStopVisits c t1 vs inside).1).1 =
    (recordStopVisits c t1 vs inside).1.
  Proof.
    apply set_eq. intros key.
    destruct (recordStopVisits_effect c vs key) as (f & Hf & Heff).
    pose proof (Heff t2 (recordStopVisits c t1 vs inside).1) as H2.
    rewrite (Heff t1 inside), (hystClass_idem f _ Hf), <- (Heff t1 inside) in H2.
    exact (bool_decide_same _ _ H2).
  Qed.
End Geofence.

(** ** Geofence detector: the claims *)

(** C1. Hysteresis. For a vehicle and a stop of the cache: (a) over any
    sequence of cycles in which every position of the vehicle lies between
    55 m and 58 m from the stop, no cycle emits an event for the pair and
    the pair's containment is what it was; (b) a cycle with the vehicle at
    40 m followed by a cycle with the vehicle at 65 m (the vehicle tracked
    on a trip that serves the stop) emits no event for the pair in the first
    cycle and exactly one, the exit event at 65 m, in the second. *)
Theorem geofence_hysteresis `{Geodesy} (c : StaticCache) (vid sid : Z) (stop : Stop)
    (cycles : list (Date * list Vehicle)) (inside0 : gset string)
    (t1 t2 : Date) (vs1 vs2 : list Vehicle) (v1 v2 : Vehicle)
    (lat1 lon1 lat2 lon2 : Q) (rid1 rid2 : Z) (tid1 tid2 : string)
    (stops1 stops2 : list Z) (inside : gset string) :
  stopById_keyed c -> stopById c !! sid = Some stop -> stopsCache c <> [] ->
  (forall t vs u lat lon,
      (t, vs) ∈ cycles -> u ∈ vs -> id u = vid ->
      latitude u = Some lat -> longitude u = Some lon ->
      (55#1 <= haversineMeters lat lon (stop_lat stop) (stop_lon stop))%Q /\
      (haversineMeters lat lon (stop_lat stop) (stop_lon stop) <= 58#1)%Q) ->
  id v1 = vid -> tracked c v1 lat1 lon1 rid1 tid1 stops1 -> sid ∈ stops1 ->
  v1 ∈ vs1 -> (forall u, u ∈ vs1 -> id u = vid -> u = v1) ->
  (haversineMeters lat1 lon1 (stop_lat stop) (stop_lon stop) == 40#1)%Q ->
  id v2 = vid -> tracked c v2 lat2 lon2 rid2 tid2 stops2 -> sid ∈ stops2 ->
  v2 ∈ vs2 -> (forall u, u ∈ vs2 -> id u = vid -> u = v2) ->
  (haversineMeters lat2 lon2 (stop_lat stop) (stop_lon stop) == 65#1)%Q ->
  (let r := runCycles c cycles inside0 in
   Forall (fun events => eventsFor vid sid events = []) r.2 /\
   (stopKey vid sid ∈ r.1 <-> stopKey vid sid ∈ inside0)) /\
  (let r := runCycles c [(t1, vs1); (t2, vs2)] inside in
   eventsFor vid sid <$> r.2 =
     [ []; [exitEvent t2 v2 rid2 tid2 (default t2 (timestamp v2)) lat2 lon2 stop] ] /\
   stopKey vid sid ∉ r.1).
Proof.
  intros Hwf Hsid Hcache Hosc Hv1 Htr1 Hin1 Hmem1 Huniq1 Hd1 Hv2 Htr2 Hin2 Hmem2 Huniq2 Hd2.
  split.
  - (* between the radii *)
    clear - Hwf Hsid Hosc. simpl.
    revert inside0. induction cycles as [|[t vs] cycles IH]; intros inside0; simpl.
    { split; [constructor | done]. }
    assert (pairView vid sid (recordStopVisits c t vs inside0) = pairView vid sid (inside0, []))
      as Hquiet.
    { apply recordStopVisits_quiet. intros u lat lon k stop' Hu Hlat Hlon Hk Hid Hs.
      assert (k = sid) as -> by (apply Hwf in Hk; congruence).
      assert (stop' = stop) as -> by congruence.
      destruct (Hosc t vs u lat lon) as [Hlo Hhi]; try done.
      { apply elem_of_cons. by left. }
      split.
      - eapply Qlt_le_trans; [|exact Hlo]. reflexivity.
      - eapply Qle_trans; [exact Hhi|]. unfold Qle; simpl; lia. }
    injection Hquiet as Hbit Hevs.
    destruct (IH (fun t' vs' u lat lon Hc => Hosc t' vs' u lat lon
                    (proj2 (elem_of_cons _ _ _) (or_intror Hc)))
                 (recordStopVisits c t vs inside0).1) as [IHev IHin].
    split; [constructor; done|].
    rewrite IHin. exact (bool_decide_same _ _ Hbit).
  - (* 40 m, then 65 m *)
    destruct Hv1. simpl.
    pose proof (fold_visitVehicle_single c t1 vs1 (inside, []) v1 lat1 lon1 rid1 tid1
                  stops1 sid stop Hwf Hsid Htr1 Hin1 Hmem1 Huniq1) as Hc1.
    rewrite <- recordStopVisits_scan in Hc1 by done.
    set (r1 := recordStopVisits c t1 vs1 inside) in *.
    assert (forall u, u ∈ vs2 -> id u = id v2 -> u = v2) as Huniq2'.
    { intros u Hu Hi. apply Huniq2; [done | congruence]. }
    pose proof (fold_visitVehicle_single c t2 vs2 (r1.1, []) v2 lat2 lon2 rid2 tid2
                  stops2 sid stop Hwf Hsid Htr2 Hin2 Hmem2 Huniq2') as Hc2.
    rewrite <- recordStopVisits_scan in Hc2 by done. rewrite Hv2 in Hc2.
    set (r2 := recordStopVisits c t2 vs2 r1.1) in *.
    assert (Qgtb (haversineMeters lat1 lon1 (stop_lat stop) (stop_lon stop))
                 STOP_EXIT_RADIUS_METERS = false) as Hnear60.
    { apply Qgtb_false. rewrite Hd1. unfold Qle; simpl; lia. }
    assert (hysteresis (haversineMeters lat1 lon1 (stop_lat stop) (stop_lon stop))
              (bool_decide (stopKey (id v1) sid ∈ inside)) = true) as Hent.
    { apply hysteresis_near. rewrite Hd1. unfold Qle; simpl; lia. }
    assert (Qgtb (haversineMeters lat2 lon2 (stop_lat stop) (stop_lon stop))
                 STOP_EXIT_RADIUS_METERS = true) as Hfar.
    { apply Qgtb_true. rewrite Hd2. reflexivity. }
    unfold pairView, stepPair in Hc1, Hc2; simpl in Hc1, Hc2.
    rewrite Hnear60, andb_false_r, Hent in Hc1.
    injection Hc1 as Hbit1 Hev1.
    rewrite Hbit1, Hfar in Hc2.
    rewrite (hysteresis_far _ true) in Hc2 by (rewrite Hd2; reflexivity).
    simpl in Hc2. injection Hc2 as Hbit2 Hev2.
    rewrite Hev1, Hev2. split; [done|].
    by apply bool_decide_eq_false in Hbit2.
Qed.

Lemma demoCache_keyed : stopById_keyed demoCache.
Proof.
  unfold stopById_keyed, demoCache; simpl. intros k stop.
  rewrite lookup_singleton_Some. by intros [<- <-].
Qed.

Lemma busAt_tracked (d : Q) :
  tracked demoCache (busAt d) d 0%Q 7 "T7a" [42].
Proof.
  unfold tracked; simpl. repeat split; try done.
  exists {| routeId := 7; directionId := 0 |}. by split.
Qed.

(** The bus of the example oscillates 55, 58, 55, 58 m from stop 42 without
    an event; at 40 m and then 65 m it yields the one exit event. *)
Lemma geofence_hysteresis_witness :
  (let r := @runCycles streetGeodesy demoCache
              [ (mkDate 0, [busAt (55#1)]); (mkDate 15000, [busAt (58#1)]);
                (mkDate 30000, [busAt (55#1)]); (mkDate 45000, [busAt (58#1)]) ] ∅ in
   Forall (fun events => eventsFor 1 42 events = []) r.2 /\
   (stopKey 1 42 ∈ r.1 <-> stopKey 1 42 ∈ (∅ : gset string))) /\
  (let r := @runCycles streetGeodesy demoCache
              [ (mkDate 0, [strayBus; busAt (40#1)]); (mkDate 15000, [busAt (65#1)]) ] ∅ in
   eventsFor 1 42 <$> r.2 =
     [ []; [@exitEvent streetGeodesy (mkDate 15000) (busAt (65#1)) 7 "T7a"
              (mkDate 15000) (65#1) 0%Q stop42] ] /\
   stopKey 1 42 ∉ r.1).
Proof.
  apply (@geofence_hysteresis streetGeodesy demoCache 1 42 stop42 _ ∅
           (mkDate 0) (mkDate 15000) [strayBus; busAt (40#1)] [busAt (65#1)]
           (busAt (40#1)) (busAt (65#1)) (40#1) 0%Q (65#1) 0%Q 7 7 "T7a" "T7a" [42] [42] ∅).
  - exact demoCache_keyed.
  - reflexivity.
  - discriminate.
  - intros t vs u lat lon Hc Hu _ Hlat Hlon.
    repeat (apply elem_of_cons in Hc as [Hc|Hc];
            [injection Hc as -> ->; apply list_elem_of_singleton in Hu as ->;
             simpl in Hlat, Hlon; injection Hlat as <-; injection Hlon as <-;
             split; vm_compute; discriminate|]).
    by apply elem_of_nil in Hc.
  - reflexivity.
  - apply busAt_tracked.
  - set_solver.
  - set_solver.
  - intros u Hu Hid. set_unfold. destruct Hu as [->|[->|[]]]; [discriminate | done].
  - vm_compute. reflexivity.
  - reflexivity.
  - apply busAt_tracked.
  - set_solver.
  - set_solver.
  - intros u Hu Hid. set_unfold. by destruct Hu as [->|[]].
  - vm_compute. reflexivity.
Defined.

Section GeofenceClaims.
Context `{Geodesy}.

Lemma fold_visitVehicle_skipped c t (vs : list Vehicle) st vid sid :
  (forall u, u ∈ vs -> id u = vid -> skipped c u) ->
  pairView vid sid (fold_left (visitVehicle c t) vs st) = pairView vid sid st.
Proof.
  revert st. induction vs as [|u vs IH]; intros st Hskip; simpl; [done|].
  rewrite IH by (intros u' Hu'; apply Hskip, elem_of_cons; by right).
  destruct (decide (id u = vid)) as [Heq|Hne].
  - rewrite visitVehicle_skipped; [done|]. apply Hskip; [apply elem_of_cons; by left | done].
  - by apply visitVehicle_other_id.
Qed.

Lemma visitStop_exit_only c t v rid tid obs lat lon (st : DetectorState) k :
  let st' := visitStop c t v rid tid obs lat lon st k in
  (st'.2 = st.2 \/
   exists e, st'.2 = st.2 ++ [e] /\
     stopKey (sv_vehicleId e) (sv_stopId e) ∈ st.1 /\
     stopKey (sv_vehicleId e) (sv_stopId e) ∉ st'.1 /\
     (STOP_EXIT_RADIUS_METERS < sv_distanceMeters e)%Q) /\
  (forall key, key ∉ st.1 -> key ∈ st'.1 -> st'.2 = st.2).
Proof.
  simpl. destruct (stopById c !! k) as [stop|] eqn:Hk;
    [|rewrite visitStop_unknown by done; split; [by left | done]].
  rewrite (visitStop_known _ _ _ _ _ _ _ _ _ _ _ Hk). simpl.
  case_bool_decide as Hin.
  - destruct (Qgtb _ STOP_EXIT_RADIUS_METERS) eqn:Hd; [|split; [by left | done]].
    simpl. split.
    + right. eexists. split; [done|]. simpl. apply Qgtb_true in Hd.
      split; [done|]. split; [set_solver | done].
    + intros key Hout Hnow. set_solver.
  - destruct (Qgtb _ STOP_RADIUS_METERS); split; by (left || done).
Qed.
End GeofenceClaims.

(** C2. Skip invariant. An entry without a trip identifier, with a trip the
    cache does not know, with a trip that has no stops, or with a trip of
    another route than the reported one leaves the containment set and the
    events as they were; a vehicle all of whose entries in the cycle are
    such has no event in the cycle and its containment keys are unchanged;
    and every event of a cycle is for a vehicle entry of the cycle whose
    trip is known, has the reported route, and serves the event's stop. *)
Theorem skip_invariant `{Geodesy} (c : StaticCache) (fetchedAt : Date)
    (vehicles : list Vehicle) (inside : gset string) :
  stopById_keyed c ->
  (forall v st, skipped c v -> visitVehicle c fetchedAt st v = st) /\
  (forall vid, (forall u, u ∈ vehicles -> id u = vid -> skipped c u) ->
     let r := recordStopVisits c fetchedAt vehicles inside in
     (forall e, e ∈ r.2 -> sv_vehicleId e <> vid) /\
     (forall sid, stopKey vid sid ∈ r.1 <-> stopKey vid sid ∈ inside)) /\
  (forall e, e ∈ (recordStopVisits c fetchedAt vehicles inside).2 ->
     exists v tid tripInfo stops,
       v ∈ vehicles /\ sv_vehicleId e = id v /\
       trip_id v = Some tid /\ sv_tripId e = Some tid /\
       tripByIdCache c !! tid = Some tripInfo /\
       route_id v = Some (routeId tripInfo) /\ sv_routeId e = Some (routeId tripInfo) /\
       stopIdsByTripId c !! tid = Some stops /\ sv_stopId e ∈ stops).
Proof.
  intros Hwf. split; [|split].
  - intros v st Hskip. by apply visitVehicle_skipped.
  - intros vid Hskip. simpl.
    assert (forall sid, pairView vid sid (recordStopVisits c fetchedAt vehicles inside)
                        = pairView vid sid (inside, [])) as Hview.
    { intros sid. unfold recordStopVisits. destruct (stopsCache c); [done|].
      by apply fold_visitVehicle_skipped. }
    split.
    + intros e He Hv. specialize (Hview (sv_stopId e)).
      injection Hview as _ Hev.
      assert (e ∈ eventsFor vid (sv_stopId e)
                    (recordStopVisits c fetchedAt vehicles inside).2) as Hin.
      { unfold eventsFor. apply list_elem_of_filter. done. }
      rewrite Hev in Hin. by apply elem_of_nil in Hin.
    + intros sid. specialize (Hview sid). injection Hview as Hbit _.
      exact (bool_decide_same _ _ Hbit).
  - intros e (v & lat & lon & rid & tid & stops & k & stop & Hv & Htr & Hk & Hs & -> & _)
           %recordStopVisits_events.
    destruct Htr as (_ & _ & Hrid & Htid & _ & (ti & Hti & <-) & Hstops & _).
    exists v, tid, ti, stops. simpl. repeat split; try done.
    by rewrite (Hwf k stop Hs).
Qed.

(** In the example cache, a cycle with the stray bus (no trip) and the bus
    leaving stop 42: the stray bus has no event and the one event is for a
    stop of trip T7a. *)
Lemma skip_invariant_witness :
  let r := @recordStopVisits streetGeodesy demoCache (mkDate 0)
             [strayBus; busAt (65#1)] {[ stopKey 1 42 ]} in
  (forall v st, skipped demoCache v ->
                @visitVehicle streetGeodesy demoCache (mkDate 0) st v = st) /\
  (forall vid, (forall u, u ∈ [strayBus; busAt (65#1)] -> id u = vid -> skipped demoCache u) ->
     (forall e, e ∈ r.2 -> sv_vehicleId e <> vid) /\
     (forall sid, stopKey vid sid ∈ r.1 <-> stopKey vid sid ∈ ({[ stopKey 1 42 ]} : gset string))) /\
  (forall e, e ∈ r.2 ->
     exists v tid tripInfo stops,
       v ∈ [strayBus; busAt (65#1)] /\ sv_vehicleId e = id v /\
       trip_id v = Some tid /\ sv_tripId e = Some tid /\
       tripByIdCache demoCache !! tid = Some tripInfo /\
       route_id v = Some (routeId tripInfo) /\ sv_routeId e = Some (routeId tripInfo) /\
       stopIdsByTripId demoCache !! tid = Some stops /\ sv_stopId e ∈ stops).
Proof.
  exact (@skip_invariant streetGeodesy demoCache (mkDate 0)
           [strayBus; busAt (65#1)] {[ stopKey 1 42 ]} demoCache_keyed).
Defined.

(** C3. Idempotence of entry. With the pair outside, a cycle that has the
    vehicle within the 50 m entry radius marks the pair inside and emits no
    event for it; the same cycle fed again emits no event for the pair and
    leaves the whole containment set as the first cycle left it. In every
    visit of a stop an event is appended only when its pair leaves the set
    (beyond the 60 m exit radius), and never when a key enters the set. *)
Theorem containment_entry_idempotent `{Geodesy} (c : StaticCache) (vid sid : Z) (stop : Stop)
    (t1 t2 : Date) (vs : list Vehicle) (v : Vehicle) (lat lon : Q) (rid : Z)
    (tid : string) (stops : list Z) (inside : gset string) :
  stopById_keyed c -> stopById c !! sid = Some stop -> stopsCache c <> [] ->
  id v = vid -> tracked c v lat lon rid tid stops -> sid ∈ stops ->
  v ∈ vs -> (forall u, u ∈ vs -> id u = vid -> u = v) ->
  (haversineMeters lat lon (stop_lat stop) (stop_lon stop) <= STOP_RADIUS_METERS)%Q ->
  stopKey vid sid ∉ inside ->
  let r1 := recordStopVisits c t1 vs inside in
  let r2 := recordStopVisits c t2 vs r1.1 in
  stopKey vid sid ∈ r1.1 /\ eventsFor vid sid r1.2 = [] /\
  eventsFor vid sid r2.2 = [] /\ r2.1 = r1.1 /\
  (forall t' u rid' tid' obs lat' lon' (st : DetectorState) k,
     let st' := visitStop c t' u rid' tid' obs lat' lon' st k in
     (st'.2 = st.2 \/
      exists e, st'.2 = st.2 ++ [e] /\
        stopKey (sv_vehicleId e) (sv_stopId e) ∈ st.1 /\
        stopKey (sv_vehicleId e) (sv_stopId e) ∉ st'.1 /\
        (STOP_EXIT_RADIUS_METERS < sv_distanceMeters e)%Q) /\
     (forall key, key ∉ st.1 -> key ∈ st'.1 -> st'.2 = st.2)).
Proof.
  intros Hwf Hsid Hcache Hv Htr Hin Hmem Huniq Hd Hout r1 r2. subst vid.
  assert (Qgtb (haversineMeters lat lon (stop_lat stop) (stop_lon stop))
               STOP_EXIT_RADIUS_METERS = false) as Hnear60.
  { apply Qgtb_false. eapply Qle_trans; [exact Hd|]. unfold Qle; simpl; lia. }
  pose proof (fold_visitVehicle_single c t1 vs (inside, []) v lat lon rid tid
                stops sid stop Hwf Hsid Htr Hin Hmem Huniq) as Hc1.
  rewrite <- recordStopVisits_scan in Hc1 by done. fold r1 in Hc1.
  pose proof (fold_visitVehicle_single c t2 vs (r1.1, []) v lat lon rid tid
                stops sid stop Hwf Hsid Htr Hin Hmem Huniq) as Hc2.
  rewrite <- recordStopVisits_scan in Hc2 by done. fold r2 in Hc2.
  unfold pairView, stepPair in Hc1, Hc2; simpl in Hc1, Hc2.
  rewrite Hnear60, andb_false_r in Hc1, Hc2.
  rewrite hysteresis_near in Hc1, Hc2 by done.
  injection Hc1 as Hbit1 Hev1. injection Hc2 as Hbit2 Hev2.
  split; [by apply bool_decide_eq_true in Hbit1|].
  split; [done|]. split; [done|].
  split; [apply recordStopVisits_inside_idem|].
  intros. apply visitStop_exit_only.
Qed.

(** The bus of the example, 40 m from stop 42, polled twice. *)
Lemma containment_entry_idempotent_witness :
  let r1 := @recordStopVisits streetGeodesy demoCache (mkDate 0) [busAt (40#1)] ∅ in
  let r2 := @recordStopVisits streetGeodesy demoCache (mkDate 15000) [busAt (40#1)] r1.1 in
  stopKey 1 42 ∈ r1.1 /\ eventsFor 1 42 r1.2 = [] /\
  eventsFor 1 42 r2.2 = [] /\ r2.1 = r1.1 /\
  (forall t' u rid' tid' obs lat' lon' (st : DetectorState) k,
     let st' := @visitStop streetGeodesy demoCache t' u rid' tid' obs lat' lon' st k in
     (st'.2 = st.2 \/
      exists e, st'.2 = st.2 ++ [e] /\
        stopKey (sv_vehicleId e) (sv_stopId e) ∈ st.1 /\
        stopKey (sv_vehicleId e) (sv_stopId e) ∉ st'.1 /\
        (STOP_EXIT_RADIUS_METERS < sv_distanceMeters e)%Q) /\
     (forall key, key ∉ st.1 -> key ∈ st'.1 -> st'.2 = st.2)).
Proof.
  apply (@containment_entry_idempotent streetGeodesy demoCache 1 42 stop42
           (mkDate 0) (mkDate 15000) [busAt (40#1)] (busAt (40#1)) (40#1) 0%Q 7 "T7a" [42] ∅).
  - exact demoCache_keyed.
  - reflexivity.
  - discriminate.
  - reflexivity.
  - apply busAt_tracked.
  - set_solver.
  - set_solver.
  - intros u Hu Hid. set_unfold. by destruct Hu as [->|[]].
  - vm_compute. discriminate.
  - set_solver.
Defined.

(** ** Percentiles and the positional merge *)

Section Percentile.
Implicit Types (values : list Q) (dayValues : list (list Q)).

Lemma insertNum_perm (x : Q) values : Permutation (x :: values) (insertNum x values).
Proof.
  induction values as [|y rest IH]; simpl; [done|].
  destruct (Qle_bool x y); [done|].
  etrans; [apply perm_swap|]. by constructor.
Qed.

Lemma sortNum_perm values : Permutation values (sortNum values).
Proof.
  induction values as [|x rest IH]; simpl; [done|].
  etrans; [|apply insertNum_perm]. by constructor.
Qed.

Lemma sortNum_length values : length (sortNum values) = length values.
Proof. symmetry. apply Permutation_length, sortNum_perm. Qed.



Lemma Qceiling_floor_cases (x : Q) :
  Qceiling x = Qfloor x \/ Qceiling x = Qfloor x + 1.
Proof.
  pose proof (Qfloor_le x) as H1. pose proof (Qle_ceiling x) as H2.
  pose proof (Qlt_floor x) as H3. pose proof (Qceiling_lt x) as H4.
  assert (Qfloor x <= Qceiling x) as H5.
  { rewrite Zle_Qle. eapply Qle_trans; eassumption. }
  assert (Qceiling x - 1 < Qfloor x + 1) as H6.
  { rewrite Zlt_Qlt. eapply Qlt_trans; eassumption. }
  lia.
Qed.

(** The clamped index lies within the array. *)
Lemma clamp_range (last x : Q) :
  (0 <= last)%Q -> (0 <= Qmax 0 (Qmin last x))%Q /\ (Qmax 0 (Qmin last x) <= last)%Q.
Proof.
  intros Hlast. split; [apply Q.le_max_l|].
  apply Q.max_lub; [done | apply Q.le_min_l].
Qed.


Lemma percentile_unfold (x : Q) values (p : Q) :
  let sorted := sortNum (x :: values) in
  let last := inject_Z (Z.of_nat (length sorted) - 1) in
  let idx := Qmax 0 (Qmin last (p * last)) in
  percentile (x :: values) p =
    if Qfloor idx =? Qceiling idx then sorted !! Z.to_nat (Qfloor idx)
    else lo ← sorted !! Z.to_nat (Qfloor idx);
         hi ← sorted !! Z.to_nat (Qceiling idx);
         Some (Qred (lo + (hi - lo) * (idx - inject_Z (Qfloor idx)))).
Proof. reflexivity. Qed.

Lemma index_bounds values (idx : Q) :
  values <> [] ->
  let last := inject_Z (Z.of_nat (length (sortNum values)) - 1) in
  (0 <= idx)%Q -> (idx <= last)%Q ->
  (Z.to_nat (Qfloor idx) < length (sortNum values))%nat /\
  (Z.to_nat (Qceiling idx) < length (sortNum values))%nat /\
  0 <= Qfloor idx.
Proof.
  intros Hne last H0 H1.
  assert (0 < length (sortNum values))%nat as Hlen.
  { rewrite sortNum_length. destruct values; [done | simpl; lia]. }
  pose proof (Qfloor_resp_le _ _ H0) as Hf0. change (Qfloor 0%Q) with 0 in Hf0.
  pose proof (Qceiling_resp_le _ _ H1) as Hc1. unfold last in Hc1.
  rewrite Qceiling_Z in Hc1.
  destruct (Qceiling_floor_cases idx) as [Hc|Hc]; lia.
Qed.

Lemma percentile_is_Some values (p : Q) : values <> [] -> is_Some (percentile values p).
Proof.
  intros Hne. destruct values as [|x rest]; [done|].
  rewrite percentile_unfold. simpl.
  set (sorted := insertNum x (sortNum rest)).
  set (last := inject_Z (Z.of_nat (length sorted) - 1)).
  set (idx := Qmax 0 (Qmin last (p * last))).
  assert (0 <= last)%Q as Hlast.
  { unfold last. change 0%Q with (inject_Z 0). rewrite <- Zle_Qle.
    unfold sorted. change (insertNum x (sortNum rest)) with (sortNum (x :: rest)).
    rewrite sortNum_length. simpl. lia. }
  destruct (clamp_range last (p * last) Hlast) as [H0 H1]. fold idx in H0, H1.
  destruct (index_bounds (x :: rest) idx Hne H0 H1) as (Hlo & Hhi & _).
  change (sortNum (x :: rest)) with sorted in Hlo, Hhi.
  apply lookup_lt_is_Some in Hlo as [lo Hlo]. apply lookup_lt_is_Some in Hhi as [hi Hhi].
  rewrite Hlo, Hhi. simpl. destruct (_ =? _); eauto.
Qed.



(** *** The loop of [buildPredictedTimes] *)

Lemma samples_runSamples dayValues (i : nat) :
  (fun values : list Q => default 0%Q (values !! i)) <$>
    filter (fun values : list Q => (i < length values)%nat) (sortNum <$> dayValues)
  = runSamples dayValues i.
Proof.
  unfold runSamples. induction dayValues as [|d rest IH]; [done|].
  rewrite fmap_cons, filter_cons. cbn [omap list_omap].
  destruct (decide (i < length (sortNum d))%nat) as [Hlt|Hge].
  - apply lookup_lt_is_Some in Hlt as [x Hx]. rewrite Hx.
    rewrite fmap_cons, Hx. simpl. by rewrite IH.
  - rewrite lookup_ge_None_2 by lia. exact IH.
Qed.

Lemma maxCount_maxRuns dayValues (acc : nat) :
  fold_left (fun acc (values : list Q) => Nat.max acc (length values))
            (sortNum <$> dayValues) acc
  = Nat.max acc (maxRuns dayValues).
Proof.
  revert acc. induction dayValues as [|d rest IH]; intros acc; simpl; [lia|].
  rewrite IH, sortNum_length. lia.
Qed.

Lemma runSamples_nonempty dayValues (i : nat) :
  (i < maxRuns dayValues)%nat -> runSamples dayValues i <> [].
Proof.
  unfold runSamples. induction dayValues as [|d rest IH]; simpl; [lia|].
  intros Hi. destruct (decide (i < length d)%nat) as [Hlt|Hge].
  - rewrite <- sortNum_length in Hlt. apply lookup_lt_is_Some in Hlt as [x Hx].
    by rewrite Hx.
  - destruct (sortNum d !! i); [done|]. apply IH. lia.
Qed.

Lemma predictRun_push dayValues (predicted : list Q) (i : nat) :
  (i < maxRuns dayValues)%nat ->
  exists p50, percentile (runSamples dayValues i) (1#2) = Some p50 /\
    predictRun (sortNum <$> dayValues) predicted i = predicted ++ [p50].
Proof.
  intros Hi. unfold predictRun. rewrite samples_runSamples.
  pose proof (runSamples_nonempty _ _ Hi) as Hne.
  destruct (percentile_is_Some _ (1#2) Hne) as [p50 Hp].
  exists p50. split; [done|]. rewrite Hp.
  by destruct (runSamples dayValues i).
Qed.

Lemma fold_predictRun dayValues (indices : list nat) (predicted : list Q) :
  Forall (fun i => (i < maxRuns dayValues)%nat) indices ->
  fold_left (predictRun (sortNum <$> dayValues)) indices predicted =
  predicted ++ omap (fun i => percentile (runSamples dayValues i) (1#2)) indices /\
  length (omap (fun i => percentile (runSamples dayValues i) (1#2)) indices) = length indices.
Proof.
  revert predicted. induction indices as [|i rest IH]; intros predicted Hall; simpl.
  - by rewrite app_nil_r.
  - inversion Hall as [|? ? Hi Hrest]; subst.
    destruct (predictRun_push dayValues predicted i Hi) as (p50 & Hp & ->).
    rewrite Hp. simpl. destruct (IH (predicted ++ [p50]) Hrest) as [-> Hlen].
    split; [by rewrite <- app_assoc | simpl; f_equal; exact Hlen].
Qed.

Lemma omap_lookup_total {A B} (f : A -> option B) (l : list A) (k : nat) :
  (forall a, a ∈ l -> is_Some (f a)) -> omap f l !! k = l !! k ≫= f.
Proof.
  revert k. induction l as [|a l IH]; intros k Hall; simpl; [done|].
  destruct (Hall a) as [b Hb]; [apply elem_of_cons; by left|].
  rewrite Hb. destruct k as [|k]; simpl; [done|].
  apply IH. intros a' Ha'. apply Hall, elem_of_cons. by right.
Qed.

Lemma buildPredictedTimes_runs dayValues :
  buildPredictedTimes dayValues =
    omap (fun i => percentile (runSamples dayValues i) (1#2)) (seq 0 (maxRuns dayValues)) /\
  length (buildPredictedTimes dayValues) = maxRuns dayValues.
Proof.
  destruct dayValues as [|d rest]; [done|].
  unfold buildPredictedTimes. cbv zeta. rewrite maxCount_maxRuns, Nat.max_0_l.
  destruct (fold_predictRun (d :: rest) (seq 0 (maxRuns (d :: rest))) []) as [-> Hlen].
  { apply Forall_forall. intros i Hi%elem_of_seq. lia. }
  rewrite length_seq in Hlen. by rewrite app_nil_l.
Qed.
End Percentile.

(** ** Doubles: the comparator and the order *)

Section FloatFacts.
Import PrimFloat SpecFloat FloatOps FloatAxioms.

Lemma binary_round_aux_sign (s : bool) (m e : Z) (l : location) :
  match binary_round_aux prec emax s m e l with
  | S754_zero s' | S754_infinity s' | S754_finite s' _ _ => s' = s
  | S754_nan => True
  end.
Proof.
  unfold binary_round_aux.
  destruct (shr_fexp prec emax m e l) as [mrs' e'].
  destruct (shr_fexp prec emax _ e' loc_Exact) as [mrs'' e''].
  destruct (shr_m mrs''); [done| |done].
  destruct (e'' <=? _); done.
Qed.

Lemma binary_normalize_sign (d e : Z) :
  match binary_normalize prec emax d e false with
  | S754_zero s' => d = 0 \/ s' = (d <? 0)
  | S754_infinity s' | S754_finite s' _ _ => s' = (d <? 0) /\ d <> 0
  | S754_nan => True
  end.
Proof.
  unfold binary_normalize, binary_round. destruct d as [|q|q]; [by left|..].
  - destruct (shl_align q e _) as [mz ez].
    pose proof (binary_round_aux_sign false (Z.pos mz) ez loc_Exact) as Hs.
    destruct (binary_round_aux _ _ _ _ _ _); try done; [by right|..]; split; done.
  - destruct (shl_align q e _) as [mz ez].
    pose proof (binary_round_aux_sign true (Z.pos mz) ez loc_Exact) as Hs.
    destruct (binary_round_aux _ _ _ _ _ _); try done; [by right|..]; split; done.
Qed.

(** Whether a number is above zero. *)
Definition SFpositive (x : spec_float) : bool :=
  match x with
  | S754_infinity false | S754_finite false _ _ => true
  | _ => false
  end.

Lemma SFltb_zero (x : spec_float) : SFltb (Prim2SF 0) x = SFpositive x.
Proof. by destruct x as [[]|[]| |[] m e]. Qed.

Lemma SFsub_antisym (x y : spec_float) :
  SFpositive (SF64sub x y) = true -> SFpositive (SF64sub y x) = false.
Proof.
  destruct x as [sx|sx| |sx mx ex], y as [sy|sy| |sy my ey];
    try done; try (by destruct sx, sy); try (by destruct sx); try (by destruct sy).
  unfold SF64sub, SFsub. rewrite (Z.min_comm ey ex).
  set (a := cond_Zopp sx _). set (b := cond_Zopp sy _).
  pose proof (binary_normalize_sign (a - b) (Z.min ex ey)) as H1.
  pose proof (binary_normalize_sign (b - a) (Z.min ex ey)) as H2.
  destruct (binary_normalize _ _ (a - b) _ _) as [s1|[]| |[] m1 e1]; try done;
    destruct (binary_normalize _ _ (b - a) _ _) as [s2|[]| |[] m2 e2]; try done;
    destruct H1 as [H1 ?], H2 as [H2 ?]; symmetry in H1, H2;
    apply Z.ltb_ge in H1, H2; lia.
Qed.

Lemma sub_antisym (x y : float) :
  ltb 0 (sub x y) = true -> ltb 0 (sub y x) = false.
Proof.
  rewrite !ltb_spec, !sub_spec, !SFltb_zero. apply SFsub_antisym.
Qed.

End FloatFacts.

Section FloatOrder.
Import PrimFloat SpecFloat FloatOps FloatAxioms.

Lemma digits2_pos_bounds (q : positive) :
  2 ^ (Z.pos (digits2_pos q) - 1) <= Z.pos q < 2 ^ Z.pos (digits2_pos q).
Proof.
  induction q as [q IH|q IH|]; cbn [digits2_pos]; [| |done].
  - rewrite Pos2Z.inj_succ.
    replace (Z.succ (Z.pos (digits2_pos q)) - 1) with (Z.succ (Z.pos (digits2_pos q) - 1)) by lia.
    rewrite !Z.pow_succ_r by lia. lia.
  - rewrite Pos2Z.inj_succ.
    replace (Z.succ (Z.pos (digits2_pos q)) - 1) with (Z.succ (Z.pos (digits2_pos q) - 1)) by lia.
    rewrite !Z.pow_succ_r by lia. lia.
Qed.

Lemma shr_1_m (r : shr_record) : 0 <= shr_m r -> shr_m (shr_1 r) = shr_m r / 2.
Proof.
  destruct r as [m r s]. cbn [shr_m]. intros Hm. rewrite <- Z.div2_div.
  destruct m as [|[q|q|]|q]; [done..|lia].
Qed.

Lemma iter_shr_1_m (p : positive) (r : shr_record) :
  0 <= shr_m r -> shr_m (iter_pos shr_1 p r) = shr_m r / 2 ^ Z.pos p.
Proof.
  revert r. induction p as [p IH|p IH|]; intros r Hr; cbn [iter_pos].
  - assert (0 <= shr_m (shr_1 r)) as H1 by (rewrite shr_1_m by done; apply Z.div_pos; lia).
    assert (0 <= shr_m (iter_pos shr_1 p (shr_1 r))) as H2
      by (rewrite IH by done; apply Z.div_pos; lia).
    rewrite !IH, shr_1_m by done. rewrite !Z.div_div by lia.
    replace (2 ^ Z.pos p~1) with (2 * (2 ^ Z.pos p * 2 ^ Z.pos p)); [done|].
    assert (Z.pos p~1 = 1 + (Z.pos p + Z.pos p)) as -> by lia.
    by rewrite !Z.pow_add_r by lia.
  - assert (0 <= shr_m (iter_pos shr_1 p r)) as H2
      by (rewrite IH by done; apply Z.div_pos; lia).
    rewrite !IH by done. rewrite !Z.div_div by lia.
    replace (2 ^ Z.pos p~0) with (2 ^ Z.pos p * 2 ^ Z.pos p); [done|].
    assert (Z.pos p~0 = Z.pos p + Z.pos p) as -> by lia.
    by rewrite !Z.pow_add_r by lia.
  - by apply shr_1_m.
Qed.

Lemma shr_record_of_loc_m (m : Z) (l : location) : shr_m (shr_record_of_loc m l) = m.
Proof. by destruct l as [|[]]. Qed.

(** Rounding never takes a number that is not zero, with an exponent of
    the format, to zero. *)
Lemma shr_fexp_positive (m e : Z) (l : location) :
  0 < m -> -1074 <= e ->
  0 < shr_m (shr_fexp prec emax m e l).1 /\ -1074 <= (shr_fexp prec emax m e l).2.
Proof.
  intros Hm He. unfold shr_fexp, shr.
  destruct m as [|q|q]; [lia| |lia]. cbn [Zdigits2].
  pose proof (digits2_pos_bounds q) as [Hlo _].
  destruct (fexp prec emax (Z.pos (digits2_pos q) + e) - e) as [|p|p] eqn:Hn;
    cbn [fst snd]; rewrite ?shr_record_of_loc_m; [done| |done].
  unfold fexp, FloatOps.prec, FloatOps.emax, SpecFloat.emin in *.
  split; [|lia].
  rewrite iter_shr_1_m by (rewrite shr_record_of_loc_m; lia).
  rewrite shr_record_of_loc_m. apply Z.div_str_pos. split; [lia|].
  etrans; [|exact Hlo]. apply Z.pow_le_mono_r; lia.
Qed.

Lemma round_nearest_even_positive (m : Z) (l : location) :
  0 < m -> 0 < round_nearest_even m l.
Proof. intros Hm. destruct l as [|[]]; simpl; [done| |done|lia]. destruct (Z.even m); lia. Qed.

Lemma binary_round_aux_positive (m e : Z) (l : location) :
  0 < m -> -1074 <= e ->
  match binary_round_aux prec emax false m e l with
  | S754_infinity false | S754_finite false _ _ => True
  | _ => False
  end.
Proof.
  intros Hm He. unfold binary_round_aux.
  destruct (shr_fexp_positive m e l Hm He) as [H1 H1'].
  destruct (shr_fexp prec emax m e l) as [mrs' e']. cbn [fst snd] in H1, H1'.
  pose proof (round_nearest_even_positive _ (loc_of_shr_record mrs') H1) as H2.
  destruct (shr_fexp_positive _ e' loc_Exact H2 H1') as [H3 _].
  destruct (shr_fexp prec emax _ e' loc_Exact) as [mrs'' e'']. cbn [fst] in H3.
  destruct (shr_m mrs''); [lia| |lia]. by destruct (e'' <=? _).
Qed.

Lemma iter_xO (m d : positive) : Z.pos (Pos.iter xO m d) = Z.pos m * 2 ^ Z.pos d.
Proof.
  induction d as [|d IH] using Pos.peano_ind.
  - simpl. lia.
  - rewrite Pos.iter_succ, Pos2Z.inj_xO, IH, Pos2Z.inj_succ, Z.pow_succ_r by lia. lia.
Qed.

Lemma shl_align_value (m : positive) (e e' : Z) :
  e' <= e -> Z.pos (shl_align m e e').1 = Z.pos m * 2 ^ (e - e').
Proof.
  intros He. unfold shl_align. destruct (e' - e) as [|d|d] eqn:Hd; cbn [fst].
  - replace (e - e') with 0 by lia. lia.
  - lia.
  - rewrite iter_xO. f_equal. f_equal. lia.
Qed.

Lemma binary_normalize_positive (d e : Z) :
  0 < d -> -1074 <= e ->
  match binary_normalize prec emax d e false with
  | S754_infinity false | S754_finite false _ _ => True
  | _ => False
  end.
Proof.
  intros Hd He. destruct d as [|q|q]; [lia| |lia].
  unfold binary_normalize, binary_round.
  destruct (shl_align q e _) as [mz ez] eqn:Hal.
  apply binary_round_aux_positive; [lia|].
  unfold shl_align in Hal.
  destruct (_ - e) eqn:Hn; injection Hal as <- <-; try done.
  unfold fexp, FloatOps.prec, FloatOps.emax, SpecFloat.emin. lia.
Qed.

(** What it is for a finite number to be of the format. *)
Lemma bounded_canonical (m : positive) (e : Z) :
  bounded prec emax m e = true ->
  -1074 <= e /\ Z.pos m < 2 ^ 53 /\ (-1074 < e -> 2 ^ 52 <= Z.pos m).
Proof.
  unfold bounded, canonical_mantissa, fexp, FloatOps.prec, FloatOps.emax, SpecFloat.emin.
  intros [Hc _]%andb_prop. apply Z.eqb_eq in Hc.
  pose proof (digits2_pos_bounds m) as [Hlo Hhi].
  split; [lia|]. split.
  - eapply Z.lt_le_trans; [exact Hhi|]. apply Z.pow_le_mono_r; lia.
  - intros He. replace (Z.pos (digits2_pos m)) with 53 in Hlo by lia. exact Hlo.
Qed.

Lemma SFsub_positive (x y : spec_float) :
  valid_binary x = true -> valid_binary y = true ->
  SFcompare x y = Some Gt ->
  match SF64sub x y with
  | S754_infinity false | S754_finite false _ _ => True
  | _ => False
  end.
Proof.
  destruct x as [sx|sx| |sx mx ex], y as [sy|sy| |sy my ey]; simpl;
    try done; try (by destruct sx, sy); try (by destruct sx); try (by destruct sy).
  intros [Hex [Hmx Hnx]]%bounded_canonical [Hey [Hmy Hny]]%bounded_canonical Hcmp.
  apply binary_normalize_positive; [|lia].
  rewrite !shl_align_value by lia.
  assert (forall a b, a < b -> 2 * 1 <= 2 ^ (b - a)) as Hpow.
  { intros a b Hab. change (2 * 1) with (2 ^ 1). apply Z.pow_le_mono_r; lia. }
  destruct sx, sy; simpl; [| done | lia |].
  - destruct (ex ?= ey) eqn:He; [| |done].
    + apply Z.compare_eq in He as ->. rewrite Z.min_id, Z.sub_diag, !Z.mul_1_r.
      rewrite Pos.compare_cont_spec in Hcmp. simpl in Hcmp.
      destruct (mx ?= my)%positive eqn:Hm; try done.
      assert (Z.pos mx < Z.pos my) by exact Hm. lia.
    + assert (ex < ey) as Hlt by exact He. rewrite Z.min_l, Z.sub_diag by lia.
      pose proof (Hpow ex ey Hlt). specialize (Hny ltac:(lia)). nia.
  - destruct (ex ?= ey) eqn:He; [|done|].
    + apply Z.compare_eq in He as ->. rewrite Z.min_id, Z.sub_diag, !Z.mul_1_r.
      rewrite Pos.compare_cont_spec in Hcmp. simpl in Hcmp.
      destruct (mx ?= my)%positive eqn:Hm; try done.
      assert (Z.pos my < Z.pos mx) by (apply Z.gt_lt; exact Hm). lia.
    + assert (ey < ex) as Hlt by (apply Z.gt_lt; exact He).
      rewrite Z.min_r, Z.sub_diag by lia.
      pose proof (Hpow ey ex Hlt). specialize (Hnx ltac:(lia)). nia.
Qed.

Lemma Prim2SF_not_nan (x : float) : is_nan x = false -> Prim2SF x <> S754_nan.
Proof.
  unfold Prim2SF. intros ->. destruct (is_zero x); [done|].
  destruct (is_infinity x); [done|]. destruct (Z.frexp x) as [r e].
  destruct (shr_fexp _ _ _ _ _) as [mrs e']. by destruct (shr_m mrs).
Qed.

(** On numbers, the comparator [a - b] agrees with their order. *)
Lemma sub_positive (x y : float) :
  is_nan x = false -> is_nan y = false ->
  ltb 0 (sub x y) = false -> leb x y = true.
Proof.
  intros Hx%Prim2SF_not_nan Hy%Prim2SF_not_nan.
  rewrite ltb_spec, leb_spec, sub_spec.
  pose proof (SFsub_positive _ _ (Prim2SF_valid x) (Prim2SF_valid y)) as Hpos.
  unfold SFleb. destruct (SFcompare (Prim2SF x) (Prim2SF y)) as [[]|] eqn:Hcmp; [done..| |].
  - specialize (Hpos eq_refl). by destruct (SF64sub _ _) as [[]|[]| |[] m e].
  - by destruct (Prim2SF x) as [|[]| |[]], (Prim2SF y) as [|[]| |[]].
Qed.

End FloatOrder.

(** ** Doubles: whole numbers and their halves *)

Section ExactDoubles.
Import PrimFloat SpecFloat FloatOps FloatAxioms.

(** The number of binary digits is the one exponent of two that bounds. *)
Lemma Zdigits2_unique (k d : Z) : 0 < k -> 2 ^ (d - 1) <= k < 2 ^ d -> Zdigits2 k = d.
Proof.
  intros Hk [Hlo Hhi]. destruct k as [|q|q]; [lia| |lia]. cbn [Zdigits2].
  pose proof (digits2_pos_bounds q) as [Hlo' Hhi'].
  assert (0 < d) as Hd.
  { destruct (Z.le_gt_cases d 0) as [Hle|]; [|done].
    rewrite Z.pow_neg_r in Hlo by lia.
    assert (2 ^ d <= 2 ^ 0) by (apply Z.pow_le_mono_r; lia). simpl in *. lia. }
  destruct (Z.lt_trichotomy (Z.pos (digits2_pos q)) d) as [Hlt|[Heq|Hgt]]; [|done|].
  - assert (2 ^ Z.pos (digits2_pos q) <= 2 ^ (d - 1)) by (apply Z.pow_le_mono_r; lia). lia.
  - assert (2 ^ d <= 2 ^ (Z.pos (digits2_pos q) - 1)) by (apply Z.pow_le_mono_r; lia). lia.
Qed.

Lemma Zdigits2_bounds (k : Z) : 0 < k -> 2 ^ (Zdigits2 k - 1) <= k < 2 ^ Zdigits2 k.
Proof. intros Hk. destruct k as [|q|q]; [lia| |lia]. apply digits2_pos_bounds. Qed.

Lemma Zdigits2_pos (k : Z) : 0 < k -> 0 < Zdigits2 k.
Proof. intros Hk. destruct k as [|q|q]; [lia| |lia]. simpl. lia. Qed.

Lemma Zdigits2_shift (k j : Z) : 0 < k -> 0 <= j -> Zdigits2 (k * 2 ^ j) = Zdigits2 k + j.
Proof.
  intros Hk Hj. pose proof (Zdigits2_bounds k Hk) as [Hlo Hhi].
  pose proof (Zdigits2_pos k Hk) as Hd.
  assert (0 < 2 ^ j) as Hpow by (apply Z.pow_pos_nonneg; lia).
  apply Zdigits2_unique; [lia|].
  replace (Zdigits2 k + j - 1) with (Zdigits2 k - 1 + j) by lia.
  rewrite !Z.pow_add_r by lia. split; nia.
Qed.

Lemma Zdigits2_le (k d : Z) : 0 < k -> 0 <= d -> k < 2 ^ d -> Zdigits2 k <= d.
Proof.
  intros Hk Hd Hlt. pose proof (Zdigits2_bounds k Hk) as [Hlo _].
  destruct (Z.le_gt_cases (Zdigits2 k) d) as [|Hgt]; [done|].
  assert (2 ^ d <= 2 ^ (Zdigits2 k - 1)) by (apply Z.pow_le_mono_r; lia). lia.
Qed.

Lemma shr_1_even (x : Z) :
  0 < x ->
  shr_1 {| shr_m := 2 * x; shr_r := false; shr_s := false |}
  = {| shr_m := x; shr_r := false; shr_s := false |}.
Proof. intros Hx. by destruct x as [|q|q]; [lia| |lia]. Qed.

(** Shifting out zeros is exact. *)
Lemma iter_shr_1_exact (p : positive) (m : Z) :
  0 < m ->
  iter_pos shr_1 p {| shr_m := m * 2 ^ Z.pos p; shr_r := false; shr_s := false |}
  = {| shr_m := m; shr_r := false; shr_s := false |}.
Proof.
  revert m. induction p as [p IH|p IH|]; intros m Hm; cbn [iter_pos].
  - assert (Z.pos p~1 = 1 + (Z.pos p + Z.pos p)) as -> by lia.
    rewrite !Z.pow_add_r by lia. change (2 ^ 1) with 2.
    assert (0 < 2 ^ Z.pos p) as Hpow by (apply Z.pow_pos_nonneg; lia).
    replace (m * (2 * (2 ^ Z.pos p * 2 ^ Z.pos p))) with (2 * (m * 2 ^ Z.pos p * 2 ^ Z.pos p))
      by lia.
    rewrite shr_1_even by nia. rewrite IH by nia. by apply IH.
  - assert (Z.pos p~0 = Z.pos p + Z.pos p) as -> by lia.
    rewrite Z.pow_add_r by lia.
    assert (0 < 2 ^ Z.pos p) as Hpow by (apply Z.pow_pos_nonneg; lia).
    rewrite Z.mul_assoc. rewrite IH by nia. by apply IH.
  - change (2 ^ 1) with 2. rewrite Z.mul_comm. by apply shr_1_even.
Qed.

Lemma shr_fexp_eq (m e : Z) (l : location) :
  shr_fexp prec emax m e l
  = shr (shr_record_of_loc m l) e (Z.max (Zdigits2 m + e - 53) (-1074) - e).
Proof. reflexivity. Qed.

Lemma binary_round_aux_eq (s : bool) (m e : Z) (l : location) :
  binary_round_aux prec emax s m e l
  = let r1 := shr_fexp prec emax m e l in
    let r2 := shr_fexp prec emax
                (round_nearest_even (shr_m r1.1) (loc_of_shr_record r1.1)) r1.2 loc_Exact in
    match shr_m r2.1 with
    | 0 => S754_zero s
    | Z.pos m' => if r2.2 <=? 971 then S754_finite s m' r2.2 else S754_infinity s
    | Z.neg _ => S754_nan
    end.
Proof.
  unfold binary_round_aux. destruct (shr_fexp prec emax m e l) as [mrs' e'].
  cbn [fst snd]. by destruct (shr_fexp prec emax _ e' loc_Exact) as [mrs'' e''].
Qed.

(** A mantissa of 53 digits with an exponent of the format is not rounded. *)
Lemma shr_fexp_exact (m e : Z) :
  Zdigits2 m = 53 -> -1074 <= e ->
  shr_fexp prec emax m e loc_Exact
  = ({| shr_m := m; shr_r := false; shr_s := false |}, e).
Proof.
  intros Hd He. rewrite shr_fexp_eq, Hd.
  replace (Z.max (53 + e - 53) (-1074) - e) with 0 by lia. reflexivity.
Qed.

Lemma binary_round_aux_exact (s : bool) (m e : Z) :
  0 < m -> Zdigits2 m = 53 -> -1074 <= e <= 971 ->
  binary_round_aux prec emax s m e loc_Exact = S754_finite s (Z.to_pos m) e.
Proof.
  intros Hm Hd He. rewrite binary_round_aux_eq. cbv zeta.
  rewrite (shr_fexp_exact m e) by (done || lia).
  cbn [fst snd shr_m loc_of_shr_record round_nearest_even].
  rewrite (shr_fexp_exact m e) by (done || lia). cbn [fst snd shr_m].
  destruct m as [|q|q]; [lia| |lia]. cbn [Z.to_pos].
  destruct (Z.leb_spec e 971); [done | lia].
Qed.

(** Nor is one with zeros below its 53 digits. *)
Lemma binary_round_aux_shift (s : bool) (m e : Z) (p : positive) :
  0 < m -> Zdigits2 m = 53 -> -1074 <= e + Z.pos p <= 971 ->
  binary_round_aux prec emax s (m * 2 ^ Z.pos p) e loc_Exact
  = S754_finite s (Z.to_pos m) (e + Z.pos p).
Proof.
  intros Hm Hd He. rewrite binary_round_aux_eq. cbv zeta.
  rewrite (shr_fexp_eq (m * 2 ^ Z.pos p)), Zdigits2_shift, Hd by lia.
  replace (Z.max (53 + Z.pos p + e - 53) (-1074) - e) with (Z.pos p) by lia.
  cbn [shr shr_record_of_loc]. rewrite iter_shr_1_exact by done.
  cbn [fst snd shr_m loc_of_shr_record round_nearest_even].
  rewrite (shr_fexp_exact m (e + Z.pos p)) by (done || lia). cbn [fst snd shr_m].
  destruct m as [|q|q]; [lia| |lia]. cbn [Z.to_pos].
  destruct (Z.leb_spec (e + Z.pos p) 971); [done | lia].
Qed.

End ExactDoubles.

Section WholeDoubles.
Import PrimFloat SpecFloat FloatOps FloatAxioms.

Lemma fexp_eq (z : Z) : fexp prec emax z = Z.max (z - 53) (-1074).
Proof. reflexivity. Qed.

Lemma shl_align_le (m : positive) (e e' : Z) :
  e' <= e -> shl_align m e e' = (Z.to_pos (Z.pos m * 2 ^ (e - e')), e').
Proof.
  intros He. unfold shl_align. destruct (e' - e) as [|d|d] eqn:Hd.
  - replace (e - e') with 0 by lia. replace e' with e by lia.
    by rewrite Z.mul_1_r.
  - lia.
  - replace (e - e') with (Z.pos d) by lia. by rewrite <- iter_xO.
Qed.

Lemma shl_align_ge (m : positive) (e e' : Z) : e <= e' -> shl_align m e e' = (m, e).
Proof.
  intros He. unfold shl_align. destruct (e' - e) as [|d|d] eqn:Hd; [done..|lia].
Qed.

(** The double of a whole number below 2^53 scaled by a power of two, in
    the range of the normal numbers. *)
Lemma binary_normalize_whole (c j e : Z) :
  0 < c < 2 ^ 53 -> 0 <= j -> -1074 <= e + Zdigits2 c - 53 <= 971 ->
  binary_normalize prec emax (c * 2 ^ j) (e - j) false = Binary64.doubleOf c e.
Proof.
  intros Hc Hj He. unfold Binary64.doubleOf.
  assert (0 < 2 ^ j) as Hpow by (apply Z.pow_pos_nonneg; lia).
  pose proof (Zdigits2_pos c ltac:(lia)) as Hd0.
  pose proof (Zdigits2_le c 53 ltac:(lia) ltac:(lia) ltac:(lia)) as Hd53.
  assert (0 < 2 ^ (53 - Zdigits2 c)) as Hpow' by (apply Z.pow_pos_nonneg; lia).
  assert (Zdigits2 (c * 2 ^ (53 - Zdigits2 c)) = 53) as Hfull
    by (rewrite Zdigits2_shift by lia; lia).
  pose proof (Zdigits2_shift c j ltac:(lia) Hj) as Hdj.
  destruct (c * 2 ^ j) as [|q|q] eqn:Hq; [nia| |nia].
  unfold binary_normalize, binary_round. rewrite fexp_eq.
  change (Z.pos (digits2_pos q)) with (Zdigits2 (Z.pos q)). rewrite Hdj.
  replace (Z.max (Zdigits2 c + j + (e - j) - 53) (-1074)) with (e + Zdigits2 c - 53) by lia.
  destruct (Z.le_gt_cases (e + Zdigits2 c - 53) (e - j)) as [Hle|Hgt].
  - rewrite shl_align_le by done. rewrite <- Hq.
    replace (c * 2 ^ j * 2 ^ (e - j - (e + Zdigits2 c - 53)))
      with (c * 2 ^ (53 - Zdigits2 c)).
    2:{ rewrite <- Z.mul_assoc, <- Z.pow_add_r by lia. do 2 f_equal. lia. }
    rewrite Z2Pos.id by nia. apply binary_round_aux_exact; [nia | done | lia].
  - rewrite shl_align_ge by lia. rewrite <- Hq.
    destruct (j - (53 - Zdigits2 c)) as [|p|p] eqn:Hp; [lia| |lia].
    replace (c * 2 ^ j) with (c * 2 ^ (53 - Zdigits2 c) * 2 ^ Z.pos p).
    2:{ rewrite <- Z.mul_assoc, <- Z.pow_add_r by lia. do 2 f_equal. lia. }
    replace (e + Zdigits2 c - 53) with (e - j + Z.pos p) by lia.
    apply binary_round_aux_shift; [nia | done | lia].
Qed.

End WholeDoubles.

Section RankOfTheMedian.
Import PrimFloat SpecFloat FloatOps FloatAxioms.

Lemma Prim2SF_ofWhole (z : Z) :
  0 < z < 2 ^ 53 -> Prim2SF (Binary64.ofWhole false z) = Binary64.doubleOf z 0.
Proof.
  intros Hz. unfold Binary64.ofWhole. rewrite of_uint63_spec, Uint63.of_Z_spec.
  rewrite Z.mod_small by (change Uint63.wB with (2 ^ 63); lia).
  pose proof (Zdigits2_pos z ltac:(lia)) as Hd0.
  pose proof (Zdigits2_le z 53 ltac:(lia) ltac:(lia) ltac:(lia)) as Hd53.
  rewrite <- (binary_normalize_whole z 0 0) by lia.
  by rewrite Z.mul_1_r.
Qed.

Lemma doubleOf_digits (k : Z) :
  0 < k < 2 ^ 53 ->
  Z.pos (Z.to_pos (k * 2 ^ (53 - Zdigits2 k))) = k * 2 ^ (53 - Zdigits2 k) /\
  0 < Zdigits2 k <= 53.
Proof.
  intros Hk. pose proof (Zdigits2_pos k ltac:(lia)) as Hd0.
  pose proof (Zdigits2_le k 53 ltac:(lia) ltac:(lia) ltac:(lia)) as Hd53.
  assert (0 < 2 ^ (53 - Zdigits2 k)) as Hpow by (apply Z.pow_pos_nonneg; lia).
  split; [|lia]. apply Z2Pos.id. nia.
Qed.

(** One less than a whole number. *)
Lemma sub_one (x : float) (n : Z) :
  1 < n < 2 ^ 53 -> Prim2SF x = Binary64.doubleOf n 0 ->
  Prim2SF (sub x 1) = Binary64.doubleOf (n - 1) 0.
Proof.
  intros Hn Hx. rewrite sub_spec, Hx.
  change (Prim2SF 1) with (S754_finite false 4503599627370496 (-52)).
  destruct (doubleOf_digits n ltac:(lia)) as [Hm Hd].
  pose proof (Zdigits2_pos (n - 1) ltac:(lia)) as Hd0.
  pose proof (Zdigits2_le (n - 1) 53 ltac:(lia) ltac:(lia) ltac:(lia)) as Hd53.
  unfold Binary64.doubleOf at 1. unfold SF64sub, SFsub. cbn [cond_Zopp].
  replace (Z.min (0 + Zdigits2 n - 53) (-52)) with (-52) by lia.
  rewrite shl_align_le by lia. rewrite (shl_align_le _ (-52) (-52)) by lia.
  cbn [fst]. rewrite Hm.
  assert (0 < 2 ^ (53 - Zdigits2 n)) as Hpow by (apply Z.pow_pos_nonneg; lia).
  rewrite !Z2Pos.id.
  - rewrite <- Z.mul_assoc, <- Z.pow_add_r by lia.
    replace (53 - Zdigits2 n + (0 + Zdigits2 n - 53 - -52)) with 52 by lia.
    replace (-52 - -52) with 0 by lia.
    replace (n * 2 ^ 52 - 4503599627370496 * 2 ^ 0) with ((n - 1) * 2 ^ 52) by lia.
    rewrite <- (binary_normalize_whole (n - 1) 52 0) by lia. done.
  - lia.
  - assert (0 < 2 ^ (0 + Zdigits2 n - 53 - -52)) by (apply Z.pow_pos_nonneg; lia). nia.
Qed.

(** Half of a whole number. *)
Lemma mul_half (x : float) (m : Z) :
  0 < m < 2 ^ 53 -> Prim2SF x = Binary64.doubleOf m 0 ->
  Prim2SF (mul 0.5 x) = Binary64.doubleOf m (-1).
Proof.
  intros Hm Hx. rewrite mul_spec, Hx.
  change (Prim2SF 0.5) with (S754_finite false 4503599627370496 (-53)).
  destruct (doubleOf_digits m Hm) as [Hpos Hd].
  unfold Binary64.doubleOf. unfold SF64mul, SFmul. cbn [xorb].
  set (M := Z.to_pos (m * 2 ^ (53 - Zdigits2 m))) in *.
  replace (Z.pos (4503599627370496 * M)) with (Z.pos M * 2 ^ Z.pos 52) by lia.
  rewrite binary_round_aux_shift.
  - rewrite Pos2Z.id. f_equal. lia.
  - lia.
  - rewrite Hpos. rewrite Zdigits2_shift by lia. lia.
  - lia.
Qed.

End RankOfTheMedian.

Section MedianRank.
Import PrimFloat SpecFloat FloatOps FloatAxioms.

Lemma SFcompare_refl (s : bool) (m : positive) (e : Z) :
  SFcompare (S754_finite s m e) (S754_finite s m e) = Some Eq.
Proof.
  unfold SFcompare. rewrite Z.compare_refl, Pos.compare_cont_refl. by destruct s.
Qed.

Lemma is_nan_finite (x : float) (s : bool) (m : positive) (e : Z) :
  Prim2SF x = S754_finite s m e -> is_nan x = false.
Proof.
  intros Hx. unfold is_nan. rewrite eqb_spec, Hx. unfold SFeqb.
  by rewrite SFcompare_refl.
Qed.

Lemma eqb_finite_refl (x : float) (s : bool) (m : positive) (e : Z) :
  Prim2SF x = S754_finite s m e -> eqb x x = true.
Proof. intros Hx. rewrite eqb_spec, Hx. unfold SFeqb. by rewrite SFcompare_refl. Qed.

Lemma SFcompare_exponent (m1 m2 : positive) (e1 e2 : Z) :
  e1 < e2 -> SFcompare (S754_finite false m1 e1) (S754_finite false m2 e2) = Some Lt /\
             SFcompare (S754_finite false m2 e2) (S754_finite false m1 e1) = Some Gt.
Proof.
  intros He. unfold SFcompare.
  rewrite (proj2 (Z.compare_lt_iff e1 e2) He), (proj2 (Z.compare_gt_iff e2 e1) He). done.
Qed.

Lemma SFcompare_mantissa (m1 m2 : positive) (e : Z) :
  (m1 < m2)%positive ->
  SFcompare (S754_finite false m1 e) (S754_finite false m2 e) = Some Lt.
Proof.
  intros Hm. unfold SFcompare. rewrite Z.compare_refl, Pos.compare_cont_spec.
  by rewrite (proj2 (Pos.compare_lt_iff m1 m2) Hm).
Qed.

(** The clamp leaves half the last index as it is. *)
Lemma clamp_half (last half : float) (m : Z) :
  0 < m < 2 ^ 53 ->
  Prim2SF last = Binary64.doubleOf m 0 -> Prim2SF half = Binary64.doubleOf m (-1) ->
  Binary64.mathMax 0 (Binary64.mathMin last half) = half.
Proof.
  intros Hm Hlast Hhalf.
  assert (ltb last half = false /\ ltb half last = true) as [H1 H2].
  { rewrite !ltb_spec, Hlast, Hhalf. unfold Binary64.doubleOf, SFltb.
    destruct (SFcompare_exponent (Z.to_pos (m * 2 ^ (53 - Zdigits2 m)))
                (Z.to_pos (m * 2 ^ (53 - Zdigits2 m)))
                (-1 + Zdigits2 m - 53) (0 + Zdigits2 m - 53) ltac:(lia)) as [-> ->]. done. }
  assert (ltb half 0 = false /\ ltb 0 half = true) as [H3 H4].
  { rewrite !ltb_spec, Hhalf. done. }
  unfold Binary64.mathMin.
  rewrite (is_nan_finite last _ _ _ Hlast), (is_nan_finite half _ _ _ Hhalf), H1, H2.
  cbn [orb]. unfold Binary64.mathMax.
  rewrite (is_nan_finite half _ _ _ Hhalf), H3, H4. done.
Qed.

Lemma half_whole (m d : Z) :
  0 < m -> 0 < d <= 53 ->
  Z.shiftr (m * 2 ^ (53 - d)) (54 - d) = m / 2 /\
  (Z.shiftl (m / 2) (54 - d) =? m * 2 ^ (53 - d)) = Z.even m.
Proof.
  intros Hm Hd.
  assert (0 < 2 ^ (53 - d)) as Hpow by (apply Z.pow_pos_nonneg; lia).
  assert (2 ^ (54 - d) = 2 * 2 ^ (53 - d)) as Hsucc.
  { replace (54 - d) with (Z.succ (53 - d)) by lia. rewrite Z.pow_succ_r by lia. done. }
  rewrite Z.shiftr_div_pow2, Z.shiftl_mul_pow2, Hsucc by lia.
  split; [by rewrite Z.div_mul_cancel_r by lia|].
  pose proof (Z.div_mod m 2 ltac:(lia)) as Hdm.
  pose proof (Z.mod_pos_bound m 2 ltac:(lia)) as Hmod.
  rewrite Zeven_mod. destruct (Z.eqb_spec (m mod 2) 0) as [H0|H1].
  - apply Z.eqb_eq. nia.
  - apply Z.eqb_neq. nia.
Qed.

(** The floor and the ceiling of half a whole number. *)
Lemma floor_ceil_half (half : float) (m : Z) :
  0 < m < 2 ^ 53 -> Prim2SF half = Binary64.doubleOf m (-1) ->
  Binary64.mathFloor half = Binary64.ofWhole false (m / 2) /\
  Binary64.mathCeil half
  = Binary64.ofWhole false (if Z.even m then m / 2 else m / 2 + 1).
Proof.
  intros Hm Hhalf. destruct (doubleOf_digits m Hm) as [Hpos Hd].
  unfold Binary64.mathFloor, Binary64.mathCeil. rewrite Hhalf.
  unfold Binary64.doubleOf. cbv zeta.
  destruct (Z.leb_spec 0 (-1 + Zdigits2 m - 53)) as [|_]; [lia|].
  rewrite Hpos. replace (- (-1 + Zdigits2 m - 53)) with (54 - Zdigits2 m) by lia.
  destruct (half_whole m (Zdigits2 m) ltac:(lia) Hd) as [-> ->]. done.
Qed.

Lemma Prim2SF_ofWhole_zero : Prim2SF (Binary64.ofWhole false 0) = S754_zero false.
Proof. reflexivity. Qed.

(** A whole number below 2^52 names the index it is. *)
Lemma toIndex_ofWhole (a : Z) :
  0 <= a < 2 ^ 52 -> Binary64.toIndex (Binary64.ofWhole false a) = Some (Z.to_nat a).
Proof.
  intros Ha. destruct (Z.eq_dec a 0) as [->|Hne]; [reflexivity|].
  unfold Binary64.toIndex. rewrite Prim2SF_ofWhole by lia.
  destruct (doubleOf_digits a ltac:(lia)) as [Hpos Hd].
  pose proof (Zdigits2_le a 52 ltac:(lia) ltac:(lia) ltac:(lia)) as Hd52.
  unfold Binary64.doubleOf.
  destruct (Z.leb_spec 0 (0 + Zdigits2 a - 53)) as [|_]; [lia|].
  rewrite Hpos. replace (- (0 + Zdigits2 a - 53)) with (53 - Zdigits2 a) by lia.
  assert (0 < 2 ^ (53 - Zdigits2 a)) as Hpow by (apply Z.pow_pos_nonneg; lia).
  rewrite Z.shiftr_div_pow2, Z.div_mul, Z.shiftl_mul_pow2 by lia.
  by rewrite Z.eqb_refl.
Qed.

Lemma Zdigits2_mono (a b : Z) : 0 < a <= b -> Zdigits2 a <= Zdigits2 b.
Proof.
  intros Hab. pose proof (Zdigits2_bounds a ltac:(lia)) as [Hlo _].
  pose proof (Zdigits2_bounds b ltac:(lia)) as [_ Hhi].
  pose proof (Zdigits2_pos b ltac:(lia)).
  destruct (Z.le_gt_cases (Zdigits2 a) (Zdigits2 b)) as [|Hgt]; [done|].
  assert (2 ^ Zdigits2 b <= 2 ^ (Zdigits2 a - 1)) by (apply Z.pow_le_mono_r; lia). lia.
Qed.

(** Two whole numbers that follow each other are different doubles. *)
Lemma eqb_ofWhole_succ (a : Z) :
  0 <= a -> a + 1 < 2 ^ 53 ->
  eqb (Binary64.ofWhole false a) (Binary64.ofWhole false (a + 1)) = false.
Proof.
  intros Ha Hb. rewrite eqb_spec, (Prim2SF_ofWhole (a + 1)) by lia.
  destruct (Z.eq_dec a 0) as [->|Hne]; [reflexivity|].
  rewrite Prim2SF_ofWhole by lia. unfold SFeqb, Binary64.doubleOf.
  destruct (doubleOf_digits a ltac:(lia)) as [Hpa Hda].
  destruct (doubleOf_digits (a + 1) ltac:(lia)) as [Hpb Hdb].
  pose proof (Zdigits2_mono a (a + 1) ltac:(lia)) as Hmono.
  destruct (Z.eq_dec (Zdigits2 a) (Zdigits2 (a + 1))) as [Heq|Hlt].
  - rewrite <- Heq in *. rewrite SFcompare_mantissa; [done|].
    assert (0 < 2 ^ (53 - Zdigits2 a)) as Hpow by (apply Z.pow_pos_nonneg; lia).
    change (Z.pos (Z.to_pos (a * 2 ^ (53 - Zdigits2 a)))
            < Z.pos (Z.to_pos ((a + 1) * 2 ^ (53 - Zdigits2 a)))).
    rewrite Hpa, Hpb. nia.
  - destruct (SFcompare_exponent (Z.to_pos (a * 2 ^ (53 - Zdigits2 a)))
                (Z.to_pos ((a + 1) * 2 ^ (53 - Zdigits2 (a + 1))))
                (0 + Zdigits2 a - 53) (0 + Zdigits2 (a + 1) - 53) ltac:(lia)) as [-> _].
    done.
Qed.

(** Half an odd number is one half above its floor. *)
Lemma sub_floor_half (half : float) (m : Z) :
  0 < m < 2 ^ 53 -> Z.even m = false -> Prim2SF half = Binary64.doubleOf m (-1) ->
  sub half (Binary64.ofWhole false (m / 2)) = 0.5%float.
Proof.
  intros Hm Hodd Hhalf. apply Prim2SF_inj. rewrite sub_spec, Hhalf.
  change (Prim2SF 0.5) with (Binary64.doubleOf 1 (-1)).
  pose proof (Z.div_mod m 2 ltac:(lia)) as Hdm.
  assert (m mod 2 = 1) as Hmod.
  { rewrite Zeven_mod in Hodd. apply Z.eqb_neq in Hodd.
    pose proof (Z.mod_pos_bound m 2 ltac:(lia)). lia. }
  destruct (Z.eq_dec (m / 2) 0) as [H0|Hne].
  - rewrite H0. assert (m = 1) as -> by lia. reflexivity.
  - rewrite Prim2SF_ofWhole by lia.
    destruct (doubleOf_digits m Hm) as [Hpm Hdm'].
    destruct (doubleOf_digits (m / 2) ltac:(lia)) as [Hpa Hda].
    assert (Zdigits2 m = Zdigits2 (m / 2) + 1) as Hdig.
    { pose proof (Zdigits2_bounds (m / 2) ltac:(lia)) as [Hlo Hhi].
      assert (2 ^ Zdigits2 (m / 2) = 2 * 2 ^ (Zdigits2 (m / 2) - 1)) as Hp1.
      { rewrite <- Z.pow_succ_r by lia. f_equal. lia. }
      assert (2 ^ (Zdigits2 (m / 2) + 1) = 2 * 2 ^ Zdigits2 (m / 2)) as Hp2.
      { rewrite <- Z.pow_succ_r by lia. f_equal. }
      apply Zdigits2_unique; [lia|].
      replace (Zdigits2 (m / 2) + 1 - 1) with (Zdigits2 (m / 2)) by lia. lia. }
    unfold Binary64.doubleOf at 1 2. unfold SF64sub, SFsub. cbn [cond_Zopp].
    replace (0 + Zdigits2 (m / 2) - 53) with (-1 + Zdigits2 m - 53) by lia.
    rewrite Z.min_id, !shl_align_le by lia. cbn [fst].
    rewrite Z.sub_diag, !Z.mul_1_r, !Pos2Z.id, Hpm, Hpa.
    assert (0 < 2 ^ (53 - Zdigits2 m)) as Hpow by (apply Z.pow_pos_nonneg; lia).
    replace (53 - Zdigits2 (m / 2)) with (Z.succ (53 - Zdigits2 m)) by lia.
    rewrite Z.pow_succ_r by lia.
    replace (m * 2 ^ (53 - Zdigits2 m) - m / 2 * (2 * 2 ^ (53 - Zdigits2 m)))
      with (1 * 2 ^ (53 - Zdigits2 m)) by nia.
    replace (-1 + Zdigits2 m - 53) with (-1 - (53 - Zdigits2 m)) by lia.
    apply binary_normalize_whole; [lia | lia | simpl; lia].
Qed.

End MedianRank.

Section MedianOfAnyArray.
Import PrimFloat SpecFloat FloatOps FloatAxioms.

(** For every number of samples that an array can hold, the rank of the
    median is half the last index, without rounding. *)
Lemma medianRank (n : nat) :
  (1 <= n)%nat -> Z.of_nat n < 2 ^ 53 -> Binary64.medianRankOk n = true.
Proof.
  intros Hn1 Hn53. destruct (decide (n = 1%nat)) as [->|Hn2]; [vm_compute; reflexivity|].
  set (m := Z.of_nat n - 1).
  assert (Prim2SF (Binary64.numOfNat n) = Binary64.doubleOf (Z.of_nat n) 0) as Hn
    by (apply Prim2SF_ofWhole; lia).
  pose proof (sub_one _ (Z.of_nat n) ltac:(lia) Hn) as Hlast. fold m in Hlast.
  pose proof (mul_half _ m ltac:(lia) Hlast) as Hhalf.
  pose proof (clamp_half _ _ m ltac:(lia) Hlast Hhalf) as Hidx.
  destruct (floor_ceil_half _ m ltac:(lia) Hhalf) as [Hfloor Hceil].
  unfold Binary64.medianRankOk, Binary64.rankOf. cbv zeta.
  rewrite Hidx, Hfloor, Hceil.
  destruct (Nat.Even_or_Odd n) as [[k Hk]|[k Hk]].
  - (* an even number of samples: the last index is odd *)
    assert (Nat.odd n = false) as ->.
    { rewrite Hk, Nat.odd_mul. reflexivity. }
    assert (Z.even m = false) as Hodd.
    { destruct (Z.even m) eqn:He; [|done]. apply Z.even_spec in He as [j Hj]. lia. }
    assert (m / 2 = Z.of_nat k - 1) as Hq
      by (unfold m; Z.to_euclidean_division_equations; lia).
    rewrite Hodd, eqb_ofWhole_succ by lia. cbn [negb andb].
    rewrite !toIndex_ofWhole by lia.
    rewrite (sub_floor_half _ m ltac:(lia) Hodd Hhalf).
    assert (Nat.div2 n = k) as -> by (rewrite Hk; apply Nat.div2_double).
    rewrite !bool_decide_eq_true_2; [done | f_equal; lia | f_equal; lia].
  - (* an odd number of samples: the last index is even *)
    assert (Nat.odd n = true) as ->.
    { rewrite Hk, Nat.add_comm, Nat.odd_add_mul_2. reflexivity. }
    assert (Z.even m = true) as Heven.
    { apply Z.even_spec. exists (Z.of_nat k). lia. }
    assert (m / 2 = Z.of_nat k) as Hq
      by (unfold m; Z.to_euclidean_division_equations; lia).
    rewrite Heven.
    assert (Prim2SF (Binary64.ofWhole false (m / 2)) = Binary64.doubleOf (m / 2) 0) as Hlow
      by (apply Prim2SF_ofWhole; lia).
    rewrite (eqb_finite_refl _ _ _ _ Hlow), toIndex_ofWhole by lia. cbn [andb].
    assert (Nat.div2 (n - 1) = k) as ->.
    { replace (n - 1)%nat with (2 * k)%nat by lia. apply Nat.div2_double. }
    apply bool_decide_eq_true_2. f_equal. lia.
Qed.

End MedianOfAnyArray.

(** ** The positional merge on doubles *)

Section Binary64Facts.
Import PrimFloat SpecFloat FloatOps FloatAxioms.
Implicit Types (values : list float) (dayValues : list (list float)).

Lemma insertNum_perm64 (x : float) values : Permutation (x :: values) (Binary64.insertNum x values).
Proof.
  induction values as [|y rest IH]; simpl; [done|].
  destruct (ltb 0 (sub x y)); [|done].
  etrans; [apply perm_swap|]. by constructor.
Qed.

Lemma sortNum_perm64 values : Permutation values (Binary64.sortNum values).
Proof.
  induction values as [|x rest IH]; simpl; [done|].
  etrans; [|apply insertNum_perm64]. by constructor.
Qed.

Lemma sortNum_length64 values : length (Binary64.sortNum values) = length values.
Proof. symmetry. apply Permutation_length, sortNum_perm64. Qed.

(** Insertion keeps any order that the comparator respects. *)
Lemma insertNum_sorted64 (R : float -> float -> Prop) (x : float) values :
  (forall y, y ∈ values -> ltb 0 (sub x y) = false -> R x y) ->
  (forall y, y ∈ values -> ltb 0 (sub x y) = true -> R y x) ->
  Sorted R values -> Sorted R (Binary64.insertNum x values).
Proof.
  induction values as [|y rest IH]; intros Hle Hgt Hs; simpl.
  - by repeat constructor.
  - destruct (ltb 0 (sub x y)) eqn:E.
    + inversion Hs as [|? ? Hrest Hhd]; subst.
      constructor.
      * apply IH; [| |done]; intros z Hz; [apply Hle | apply Hgt]; apply elem_of_cons; by right.
      * destruct rest as [|z rest']; simpl.
        -- constructor. apply Hgt; [apply elem_of_cons; by left | done].
        -- destruct (ltb 0 (sub x z)); constructor; [by inversion Hhd|].
           apply Hgt; [apply elem_of_cons; by left | done].
    + constructor; [done|]. constructor. apply Hle; [apply elem_of_cons; by left | done].
Qed.

Lemma sortNum_comparator64 values :
  Sorted (fun a b => ltb 0 (sub a b) = false) (Binary64.sortNum values).
Proof.
  induction values as [|x rest IH]; simpl; [constructor|].
  apply insertNum_sorted64; [done| |done].
  intros y _. apply sub_antisym.
Qed.

Lemma sortNum_sorted64 values :
  Forall (fun x => is_nan x = false) values ->
  Sorted (fun a b => leb a b = true) (Binary64.sortNum values).
Proof.
  induction 1 as [|x rest Hx Hrest IH]; simpl; [constructor|].
  assert (forall y, y ∈ Binary64.sortNum rest -> is_nan y = false) as Hnan.
  { intros y Hy. rewrite Forall_forall in Hrest. apply Hrest.
    apply list_elem_of_In. eapply Permutation_in; [symmetry; apply sortNum_perm64|].
    by apply list_elem_of_In. }
  apply insertNum_sorted64; [| |done].
  - intros y Hy. apply sub_positive; [done | by apply Hnan].
  - intros y Hy Hgt. apply sub_positive; [by apply Hnan | done | by apply sub_antisym].
Qed.

End Binary64Facts.

Section Binary64Merge.
Import PrimFloat SpecFloat FloatOps FloatAxioms.
Implicit Types (values : list float) (dayValues : list (list float)).

Lemma percentile_is_Some64 values (p : float) :
  values <> [] -> is_Some (Binary64.percentile values p).
Proof.
  destruct values as [|x rest]; [done|]. intros _. unfold Binary64.percentile.
  by destruct (eqb _ _).
Qed.

Lemma samples_runSamples64 dayValues (i : nat) :
  (fun values : list float => default nan (values !! i)) <$>
    filter (fun values : list float => (i < length values)%nat) (Binary64.sortNum <$> dayValues)
  = Binary64.runSamples dayValues i.
Proof.
  unfold Binary64.runSamples. induction dayValues as [|d rest IH]; [done|].
  rewrite fmap_cons, filter_cons. cbn [omap list_omap].
  destruct (decide (i < length (Binary64.sortNum d))%nat) as [Hlt|Hge].
  - apply lookup_lt_is_Some in Hlt as [x Hx]. rewrite Hx.
    rewrite fmap_cons, Hx. simpl. by rewrite IH.
  - rewrite lookup_ge_None_2 by lia. exact IH.
Qed.

Lemma maxCount_maxRuns64 dayValues (acc : nat) :
  fold_left (fun acc (values : list float) => Nat.max acc (length values))
            (Binary64.sortNum <$> dayValues) acc
  = Nat.max acc (Binary64.maxRuns dayValues).
Proof.
  revert acc. induction dayValues as [|d rest IH]; intros acc; simpl; [lia|].
  rewrite IH, sortNum_length64. lia.
Qed.

Lemma runSamples_nonempty64 dayValues (i : nat) :
  (i < Binary64.maxRuns dayValues)%nat -> Binary64.runSamples dayValues i <> [].
Proof.
  unfold Binary64.runSamples. induction dayValues as [|d rest IH]; simpl; [lia|].
  intros Hi. destruct (decide (i < length d)%nat) as [Hlt|Hge].
  - rewrite <- sortNum_length64 in Hlt. apply lookup_lt_is_Some in Hlt as [x Hx].
    by rewrite Hx.
  - destruct (Binary64.sortNum d !! i); [done|]. apply IH. lia.
Qed.

Lemma runSamples_length64 dayValues (i : nat) :
  (length (Binary64.runSamples dayValues i) <= length dayValues)%nat.
Proof.
  unfold Binary64.runSamples. induction dayValues as [|d rest IH]; [done|].
  cbn [omap list_omap]. change (list_omap _ _ ?f ?l) with (omap f l).
  destruct (Binary64.sortNum d !! i); cbn [length]; lia.
Qed.

Lemma predictRun_push64 dayValues (predicted : list float) (i : nat) :
  (i < Binary64.maxRuns dayValues)%nat ->
  exists p50, Binary64.percentile (Binary64.runSamples dayValues i) 0.5 = Some p50 /\
    Binary64.predictRun (Binary64.sortNum <$> dayValues) predicted i = predicted ++ [p50].
Proof.
  intros Hi. unfold Binary64.predictRun. rewrite samples_runSamples64.
  pose proof (runSamples_nonempty64 _ _ Hi) as Hne.
  destruct (percentile_is_Some64 _ 0.5 Hne) as [p50 Hp].
  exists p50. split; [done|]. rewrite Hp.
  by destruct (Binary64.runSamples dayValues i).
Qed.

Lemma fold_predictRun64 dayValues (indices : list nat) (predicted : list float) :
  Forall (fun i => (i < Binary64.maxRuns dayValues)%nat) indices ->
  fold_left (Binary64.predictRun (Binary64.sortNum <$> dayValues)) indices predicted =
  predicted ++ omap (fun i => Binary64.percentile (Binary64.runSamples dayValues i) 0.5) indices /\
  length (omap (fun i => Binary64.percentile (Binary64.runSamples dayValues i) 0.5) indices) = length indices.
Proof.
  revert predicted. induction indices as [|i rest IH]; intros predicted Hall; simpl.
  - by rewrite app_nil_r.
  - inversion Hall as [|? ? Hi Hrest]; subst.
    destruct (predictRun_push64 dayValues predicted i Hi) as (p50 & Hp & ->).
    rewrite Hp. simpl. destruct (IH (predicted ++ [p50]) Hrest) as [-> Hlen].
    split; [by rewrite <- app_assoc | simpl; f_equal; exact Hlen].
Qed.

Lemma buildPredictedTimes_runs64 dayValues :
  Binary64.buildPredictedTimes dayValues =
    omap (fun i => Binary64.percentile (Binary64.runSamples dayValues i) 0.5) (seq 0 (Binary64.maxRuns dayValues)) /\
  length (Binary64.buildPredictedTimes dayValues) = Binary64.maxRuns dayValues.
Proof.
  destruct dayValues as [|d rest]; [done|].
  unfold Binary64.buildPredictedTimes. cbv zeta. rewrite maxCount_maxRuns64, Nat.max_0_l.
  destruct (fold_predictRun64 (d :: rest) (seq 0 (Binary64.maxRuns (d :: rest))) []) as [-> Hlen].
  { apply Forall_forall. intros i Hi%elem_of_seq. lia. }
  rewrite length_seq in Hlen. by rewrite app_nil_l.
Qed.

(** *** The rank of the Binary64.median *)

Lemma percentile_median64 values :
  Z.of_nat (length values) < 2 ^ 53 ->
  Binary64.percentile values 0.5 = Binary64.median values.
Proof.
  intros Hlen. destruct values as [|x rest]; [done|].
  unfold Binary64.percentile, Binary64.median. cbv zeta.
  set (sorted := Binary64.sortNum (x :: rest)).
  assert (length sorted = S (length rest)) as Hn by (unfold sorted; by rewrite sortNum_length64).
  pose proof (medianRank (length sorted)) as Hok.
  unfold Binary64.medianRankOk, Binary64.rankOf in Hok. cbv zeta in Hok.
  specialize (Hok ltac:(lia) ltac:(rewrite Hn; simpl in Hlen; lia)).
  destruct (Nat.odd (length sorted)) eqn:Hodd.
  - apply andb_prop in Hok as [-> Hi%bool_decide_eq_true].
    unfold Binary64.element. rewrite Hi. cbn [mbind option_bind].
    destruct (lookup_lt_is_Some_2 sorted (Nat.div2 (length sorted - 1))) as [v ->]; [|done].
    pose proof (Nat.div2_decr (length sorted - 1) (length sorted - 1)). lia.
  - apply andb_prop in Hok as [[[Hne%negb_true_iff Hlo%bool_decide_eq_true]%andb_prop
                                  Hhi%bool_decide_eq_true]%andb_prop Hw].
    rewrite Hne. apply Leibniz.eqb_spec in Hw. rewrite Hw.
    unfold Binary64.element. rewrite Hlo, Hhi. cbn [mbind option_bind].
    assert (Nat.div2 (length sorted) < length sorted)%nat as Hhalf
      by (apply Nat.lt_div2; lia).
    destruct (lookup_lt_is_Some_2 sorted (Nat.div2 (length sorted) - 1)) as [lo ->]; [lia|].
    destruct (lookup_lt_is_Some_2 sorted (Nat.div2 (length sorted))) as [hi ->]; [lia|].
    done.
Qed.

(** *** A single sample *)

Lemma Prim2SF_finite (p : float) :
  is_finite p = true ->
  (exists s, Prim2SF p = S754_zero s) \/ (exists s m e, Prim2SF p = S754_finite s m e).
Proof.
  unfold is_finite. intros [Hnan Hinf]%negb_true_iff%orb_false_elim.
  unfold Prim2SF. rewrite Hnan, Hinf. destruct (is_zero p); [left; by eexists|].
  destruct (Z.frexp p) as [r e]. destruct (shr_fexp _ _ _ _ _) as [mrs e'].
  destruct (shr_m mrs); [left; by eexists | right; by eexists _, _, _ | left; by eexists].
Qed.

Lemma mul_zero (p : float) : is_finite p = true -> mul p 0 = 0%float \/ mul p 0 = (-0)%float.
Proof.
  intros Hp.
  assert (exists s, Prim2SF (mul p 0) = S754_zero s) as [s Hs].
  { rewrite mul_spec. change (Prim2SF 0) with (S754_zero false).
    destruct (Prim2SF_finite p Hp) as [[s ->]|(s & m & e & ->)]; by eexists. }
  destruct s; [right|left]; apply Prim2SF_inj; by rewrite Hs.
Qed.

Lemma percentile_singleton64 (x p : float) :
  is_finite p = true -> Binary64.percentile [x] p = Some x.
Proof.
  intros Hp. unfold Binary64.percentile. cbv zeta. cbn [Binary64.sortNum Binary64.insertNum length].
  change (sub (Binary64.numOfNat 1) 1) with 0%float.
  destruct (mul_zero p Hp) as [-> | ->]; reflexivity.
Qed.

End Binary64Merge.

Section PositionalMerge.
Import PrimFloat.

(** The interpolation rounds as the runtime does: of 0.1 and 0.2 the 50th
    percentile is 0.15000000000000002. *)
Example percentile_rounds_to_nearest :
  Binary64.percentile [0x1.999999999999ap-4; 0x1.999999999999ap-3]%float 0.5%float
  = Some 0x1.3333333333334p-3%float.
Proof. vm_compute. reflexivity. Qed.

(** C4. Positional percentile merge, on doubles. [buildPredictedTimes] has
    one entry for each run depth, and its [i]-th entry is [percentile] at
    0.5 of the [i]-th times of the days that have more than [i] runs, each
    day sorted. The sort gives a permutation in which no element is above
    the next by the comparator [a - b], which for times that are numbers
    (no [NaN]) is ascending order. For fewer than 2^53 samples, which is
    every array, [percentile] at 0.5 is linear interpolation between order
    statistics: the middle one of an odd number of samples, and of an even
    number [lo + (hi - lo) * 0.5] of the two in the middle, each operation
    rounded to the nearest double. The days
    [[5,20],[7,18],[6,22]] give [6, 20]; and the percentile of a single
    sample is that sample, at every finite rank. *)
Theorem positional_percentile_merge :
  (forall dayValues : list (list float),
      Binary64.buildPredictedTimes dayValues =
        omap (fun i => Binary64.percentile (Binary64.runSamples dayValues i) 0.5)
             (seq 0 (Binary64.maxRuns dayValues)) /\
      length (Binary64.buildPredictedTimes dayValues) = Binary64.maxRuns dayValues /\
      (Z.of_nat (length dayValues) < 2 ^ 53 ->
       forall i, (i < Binary64.maxRuns dayValues)%nat ->
         exists t, Binary64.buildPredictedTimes dayValues !! i = Some t /\
                   Binary64.median (Binary64.runSamples dayValues i) = Some t)) /\
  (forall values : list float,
      Permutation values (Binary64.sortNum values) /\
      Sorted (fun a b => ltb 0 (sub a b) = false) (Binary64.sortNum values) /\
      (Forall (fun x => is_nan x = false) values ->
       Sorted (fun a b => leb a b = true) (Binary64.sortNum values))) /\
  (forall values : list float,
      Z.of_nat (length values) < 2 ^ 53 ->
      Binary64.percentile values 0.5 = Binary64.median values) /\
  Binary64.buildPredictedTimes [[5; 20]; [7; 18]; [6; 22]]%float = [6; 20]%float /\
  (forall x p : float, is_finite p = true -> Binary64.percentile [x] p = Some x).
Proof.
  split; [|split; [|split; [|split]]].
  - intros dayValues. destruct (buildPredictedTimes_runs64 dayValues) as [Heq Hlen].
    split; [done|]. split; [done|]. intros Hdays i Hi.
    destruct (lookup_lt_is_Some_2 (Binary64.buildPredictedTimes dayValues) i) as [t Ht]; [lia|].
    exists t. split; [done|].
    rewrite <- percentile_median64.
    + rewrite Heq, omap_lookup_total in Ht.
      * rewrite lookup_seq_lt in Ht by done. exact Ht.
      * intros j Hj%elem_of_seq. apply percentile_is_Some64, runSamples_nonempty64. lia.
    + pose proof (runSamples_length64 dayValues i). lia.
  - intros values. split; [apply sortNum_perm64|].
    split; [apply sortNum_comparator64 | apply sortNum_sorted64].
  - apply percentile_median64.
  - vm_compute. reflexivity.
  - apply percentile_singleton64.
Qed.

End PositionalMerge.

(** ** Route daily stats *)

Section DailyStatsFacts.
Implicit Types (table : gmap (Z * Z) DailyStats) (keys : list Z).

Lemma upsertDailyRow_lookup day t table r key :
  upsertDailyRow day t table r !! key =
  if bool_decide (key = (day, r)) then Some (mergeDaily t (table !! key)) else table !! key.
Proof.
  unfold upsertDailyRow. case_bool_decide as Hk.
  - subst key. destruct (table !! (day, r)); simpl; by rewrite lookup_insert_eq.
  - destruct (table !! (day, r)); by rewrite lookup_insert_ne.
Qed.

Lemma mergeDaily_idem t (old : option DailyStats) :
  mergeDaily t (Some (mergeDaily t old)) = mergeDaily t old.
Proof.
  destruct t as [t]. destruct old as [[[f] [l]]|]; unfold mergeDaily, least, greatest; simpl;
    f_equal; f_equal; lia.
Qed.

Lemma fold_upsert_lookup day t keys table key :
  fold_left (upsertDailyRow day t) keys table !! key =
  if bool_decide (key.1 = day /\ key.2 ∈ keys)
  then Some (mergeDaily t (table !! key)) else table !! key.
Proof.
  revert table. induction keys as [|r keys IH]; intros table; cbn [fold_left].
  - rewrite bool_decide_eq_false_2; [done|]. intros [_ H]. by apply elem_of_nil in H.
  - rewrite IH, upsertDailyRow_lookup. destruct key as [d k]; cbn [fst snd].
    destruct (decide (d = day)) as [->|Hd].
    2:{ rewrite !bool_decide_eq_false_2; first [done | congruence | by intros [? ?]]. }
    destruct (decide (k = r)) as [->|Hr].
    + rewrite (bool_decide_eq_true_2 ((day, r) = (day, r))) by done.
      rewrite (bool_decide_eq_true_2 (day = day /\ r ∈ r :: keys)) by (split; [done|set_solver]).
      rewrite mergeDaily_idem. by destruct (bool_decide _).
    + rewrite (bool_decide_eq_false_2 ((day, k) = (day, r))) by congruence.
      apply (f_equal (fun b : bool => if b then _ else _)).
      apply bool_decide_ext. set_solver.
Qed.

Lemma byRouteKeys_elem (vehicles : list Vehicle) (r : Z) :
  r ∈ byRouteKeys vehicles <-> exists v, v ∈ vehicles /\ route_id v = Some r.
Proof.
  unfold byRouteKeys.
  cut (forall acc : list Z,
         r ∈ fold_left (fun keys vehicle =>
               match route_id vehicle with
               | None => keys
               | Some r => if bool_decide (r ∈ keys) then keys else keys ++ [r]
               end) vehicles acc
         <-> r ∈ acc \/ exists v, v ∈ vehicles /\ route_id v = Some r).
  { intros Hcut. rewrite Hcut. split; [intros [H|H]; [by apply elem_of_nil in H | done] | by right]. }
  induction vehicles as [|u vs IH]; intros acc; simpl.
  - split; [by left|]. intros [?|(v & Hv & _)]; [done|]. by apply elem_of_nil in Hv.
  - rewrite IH. destruct (route_id u) as [ru|] eqn:Hu; [case_bool_decide as Hin|].
    + split.
      * intros [Hacc|(v & Hv & Hr)]; [by left|].
        right. exists v. split; [apply elem_of_cons; by right | done].
      * intros [Hacc|(v & Hv & Hr)]; [by left|].
        apply elem_of_cons in Hv as [->|Hv]; [left; congruence | right; eauto].
    + split.
      * intros [Hacc|(v & Hv & Hr)].
        -- apply elem_of_app in Hacc as [Hacc|Hacc]; [by left|].
           apply list_elem_of_singleton in Hacc as ->.
           right. exists u. split; [apply elem_of_cons; by left | done].
        -- right. exists v. split; [apply elem_of_cons; by right | done].
      * intros [Hacc|(v & Hv & Hr)].
        -- left. apply elem_of_app. by left.
        -- apply elem_of_cons in Hv as [->|Hv]; [|right; eauto].
           left. apply elem_of_app. right. apply list_elem_of_singleton. congruence.
    + split.
      * intros [Hacc|(v & Hv & Hr)]; [by left|].
        right. exists v. split; [apply elem_of_cons; by right | done].
      * intros [Hacc|(v & Hv & Hr)]; [by left|].
        apply elem_of_cons in Hv as [->|Hv]; [congruence | right; eauto].
Qed.

Lemma upsertRouteDailyStats_table fetchedAt vehicles (w : World) (key : Z * Z) :
  let after := routeDailyStatsT (db (upsertRouteDailyStats fetchedAt vehicles w).1) in
  let before := routeDailyStatsT (db w) in
  after !! key = before !! key \/
  (key.1 = isoDay fetchedAt /\ (exists v, v ∈ vehicles /\ route_id v = Some key.2) /\
   after !! key = Some (mergeDaily fetchedAt (before !! key))).
Proof.
  simpl. unfold upsertRouteDailyStats.
  destruct (byRouteKeys vehicles) as [|r0 keys] eqn:Hkeys; [by left|].
  rewrite <- Hkeys. unfold dbExec. destruct (faults w) as [|[] fs]; simpl.
  - rewrite fold_upsert_lookup. case_bool_decide as Hk; [|by left].
    right. destruct Hk as [Hd Hin]. rewrite byRouteKeys_elem in Hin. done.
  - by left.
  - rewrite fold_upsert_lookup. case_bool_decide as Hk; [|by left].
    right. destruct Hk as [Hd Hin]. rewrite byRouteKeys_elem in Hin. done.
Qed.

Lemma upsertRouteDailyStats_done fetchedAt vehicles (w : World) v rid :
  (upsertRouteDailyStats fetchedAt vehicles w).2 = Done tt ->
  v ∈ vehicles -> route_id v = Some rid ->
  routeDailyStatsT (db (upsertRouteDailyStats fetchedAt vehicles w).1)
    !! (isoDay fetchedAt, rid)
  = Some (mergeDaily fetchedAt (routeDailyStatsT (db w) !! (isoDay fetchedAt, rid))).
Proof.
  intros Hdone Hv Hrid.
  assert (rid ∈ byRouteKeys vehicles) as Hin by (apply byRouteKeys_elem; eauto).
  revert Hdone. unfold upsertRouteDailyStats.
  destruct (byRouteKeys vehicles) as [|r0 keys] eqn:Hkeys; [by apply elem_of_nil in Hin|].
  rewrite <- Hkeys in *.
  unfold dbExec. destruct (faults w) as [|[] fs]; simpl; [|done|]; intros _.
  - rewrite fold_upsert_lookup. by rewrite bool_decide_eq_true_2.
  - rewrite fold_upsert_lookup. by rewrite bool_decide_eq_true_2.
Qed.
End DailyStatsFacts.

(** C8. Widening of route daily stats. One cycle's upsert touches only rows
    keyed by the cycle's (UTC) day and a route some vehicle reports; a prior
    row is kept or has [first_seen_at] replaced by the minimum of its value
    and the fetch time and [last_seen_at] by the maximum, so the first never
    increases and the last never decreases; a new row starts with both at
    the fetch time; and when the statement succeeds every reported route has
    its row for the day, spanning the fetch time. *)
Theorem routeDailyStats_widening (fetchedAt : Date) (vehicles : list Vehicle) (w : World) :
  let r := upsertRouteDailyStats fetchedAt vehicles w in
  let before := routeDailyStatsT (db w) in
  let after := routeDailyStatsT (db r.1) in
  (forall key row, before !! key = Some row ->
     exists row', after !! key = Some row' /\
       (row' = row \/
        (key.1 = isoDay fetchedAt /\ (exists v, v ∈ vehicles /\ route_id v = Some key.2) /\
         firstSeenAt row' = least (firstSeenAt row) fetchedAt /\
         lastSeenAt row' = greatest (lastSeenAt row) fetchedAt)) /\
       epochMs (firstSeenAt row') <= epochMs (firstSeenAt row) /\
       epochMs (lastSeenAt row) <= epochMs (lastSeenAt row')) /\
  (forall key row', before !! key = None -> after !! key = Some row' ->
     key.1 = isoDay fetchedAt /\ (exists v, v ∈ vehicles /\ route_id v = Some key.2) /\
     row' = {| firstSeenAt := fetchedAt; lastSeenAt := fetchedAt |}) /\
  (r.2 = Done tt ->
   forall v rid, v ∈ vehicles -> route_id v = Some rid ->
     exists row', after !! (isoDay fetchedAt, rid) = Some row' /\
       epochMs (firstSeenAt row') <= epochMs fetchedAt <= epochMs (lastSeenAt row')).
Proof.
  simpl. split; [|split].
  - intros key row Hrow.
    destruct (upsertRouteDailyStats_table fetchedAt vehicles w key) as [Hsame|(Hd & Hv & Hnew)].
    + exists row. rewrite Hsame. split; [done|]. split; [by left | lia].
    + rewrite Hrow in Hnew. eexists. split; [exact Hnew|]. simpl.
      split; [right; done|]. lia.
  - intros key row' Hnone Hrow'.
    destruct (upsertRouteDailyStats_table fetchedAt vehicles w key) as [Hsame|(Hd & Hv & Hnew)].
    + congruence.
    + rewrite Hnone in Hnew. simpl in Hnew. split; [done|]. split; [done|]. congruence.
  - intros Hdone v rid Hv Hrid.
    rewrite (upsertRouteDailyStats_done _ _ _ _ _ Hdone Hv Hrid).
    eexists. split; [done|].
    destruct (routeDailyStatsT (db w) !! (isoDay fetchedAt, rid)); simpl; lia.
Qed.

(** ** Batched inserts *)

Section ChunkedInsert.
Context {T : Type} (insert : list T -> Db -> Db).
Hypothesis insert_app : forall a b d, insert b (insert a d) = insert (a ++ b) d.
Hypothesis insert_nil : forall d, insert [] d = d.

Lemma take_plus (n m : nat) (l : list T) : take (n + m) l = take n l ++ take m (drop n l).
Proof.
  revert l. induction n as [|n IH]; intros l; simpl; [done|].
  destruct l as [|x l]; simpl; [by destruct m | by rewrite IH].
Qed.

(** What a run of the loop does, whatever the oracle: it executes [k]
    whole batches and then either is through or meets a fault. *)
Lemma chunkedInsertFrom_run (fuel cs : nat) (rows : list T) (w : World) :
  (0 < cs)%nat -> (length rows <= fuel)%nat ->
  let r := chunkedInsertFrom fuel cs insert rows w in
  exists k : nat,
    db r.1 = insert (take (k * cs) rows) (db w) /\
    memoryOf r.1 = memoryOf w /\
    (forall j, (j < k)%nat -> (j * cs < length rows)%nat /\ faults w !! j <> Some true) /\
    ((r.2 = Done tt /\ (length rows <= k * cs)%nat /\ faults r.1 = drop k (faults w)) \/
     (r.2 = Threw "database error" /\ (k * cs < length rows)%nat /\
      faults w !! k = Some true /\ faults r.1 = drop (S k) (faults w))).
Proof.
  intros Hcs. revert rows w. induction fuel as [|fuel IH]; intros rows w Hlen.
  - destruct rows; [|simpl in Hlen; lia]. exists 0%nat. simpl.
    rewrite insert_nil. split; [done|]. split; [done|]. split; [lia|]. left. done.
  - destruct rows as [|x rest].
    { exists 0%nat. simpl. rewrite insert_nil.
      split; [done|]. split; [done|]. split; [lia|]. left. done. }
    cbn [chunkedInsertFrom]. unfold bind, dbExec.
    destruct (faults w) as [|[] fs] eqn:Hf.
    + (* no oracle left: the statement succeeds *)
      set (w1 := setDb (insert (take cs (x :: rest)) (db w)) w).
      destruct (IH (drop cs (x :: rest)) w1) as (k & Hdb & Hmem & Hpre & Hend).
      { rewrite length_drop. simpl in *. lia. }
      exists (S k). cbn zeta in *.
      split. { rewrite Hdb. unfold w1. simpl db. rewrite insert_app.
               f_equal. change (S k * cs)%nat with (cs + k * cs)%nat. by rewrite take_plus. }
      split. { by rewrite Hmem. }
      split. { intros [|j] Hj.
               - split; [simpl; lia | done].
               - destruct (Hpre j) as [Hj1 _]; [lia|]. rewrite length_drop in Hj1.
                 split; [simpl in *; lia | done]. }
      assert (faults w1 = []) as Hf1 by (unfold w1; simpl; done).
      rewrite length_drop in Hend.
      destruct Hend as [(Hd & Hl & Hfs)|(Ht & Hl & Hbad & Hfs)].
      * left. split; [done|]. split; [simpl in *; lia|].
        rewrite Hfs, Hf1. by rewrite !drop_nil.
      * rewrite Hf1 in Hbad. by rewrite lookup_nil in Hbad.
    + (* the oracle lets the statement throw *)
      exists 0%nat. simpl. rewrite insert_nil.
      split; [done|]. split; [done|]. split; [lia|]. right.
      split; [done|]. split; [lia|]. split; [done|]. by rewrite drop_0.
    + set (w1 := setFaults fs (setDb (insert (take cs (x :: rest)) (db w)) w)).
      destruct (IH (drop cs (x :: rest)) w1) as (k & Hdb & Hmem & Hpre & Hend).
      { rewrite length_drop. simpl in *. lia. }
      exists (S k). cbn zeta in *.
      split. { rewrite Hdb. unfold w1. simpl db. rewrite insert_app.
               f_equal. change (S k * cs)%nat with (cs + k * cs)%nat. by rewrite take_plus. }
      split. { by rewrite Hmem. }
      split. { intros [|j] Hj.
               - split; [simpl; lia | done].
               - destruct (Hpre j) as [Hj1 Hj2]; [lia|]. rewrite length_drop in Hj1.
                 split; [simpl in *; lia | exact Hj2]. }
      assert (faults w1 = fs) as Hf1 by done.
      rewrite length_drop in Hend. rewrite Hf1 in Hend.
      destruct Hend as [(Hd & Hl & Hfs)|(Ht & Hl & Hbad & Hfs)].
      * left. split; [done|]. split; [simpl in *; lia | done].
      * right. split; [done|]. split; [simpl in *; lia|]. split; done.
Qed.
End ChunkedInsert.

Lemma appendSnapshots_app (a b : list Snapshot) (d : Db) :
  appendSnapshots b (appendSnapshots a d) = appendSnapshots (a ++ b) d.
Proof. unfold appendSnapshots, setVehicleSnapshotsT; simpl. by rewrite app_assoc. Qed.

Lemma appendSnapshots_nil (d : Db) : appendSnapshots [] d = d.
Proof. destruct d. unfold appendSnapshots, setVehicleSnapshotsT; simpl. by rewrite app_nil_r. Qed.

Lemma appendStopVisits_app (a b : list StopVisit) (d : Db) :
  appendStopVisits b (appendStopVisits a d) = appendStopVisits (a ++ b) d.
Proof. unfold appendStopVisits, setStopVisitsT; simpl. by rewrite app_assoc. Qed.

Lemma appendStopVisits_nil (d : Db) : appendStopVisits [] d = d.
Proof. destruct d. unfold appendStopVisits, setStopVisitsT; simpl. by rewrite app_nil_r. Qed.

Lemma chunkedInsert_run {T} (insert : list T -> Db -> Db) (rows : list T) (w : World) :
  (forall a b d, insert b (insert a d) = insert (a ++ b) d) ->
  (forall d, insert [] d = d) ->
  let r := chunkedInsert insert rows w in
  exists k : nat,
    db r.1 = insert (take (k * CHUNK_SIZE) rows) (db w) /\
    memoryOf r.1 = memoryOf w /\
    (forall j, (j < k)%nat ->
       (j * CHUNK_SIZE < length rows)%nat /\ faults w !! j <> Some true) /\
    ((r.2 = Done tt /\ (length rows <= k * CHUNK_SIZE)%nat /\
      faults r.1 = drop k (faults w)) \/
     (r.2 = Threw "database error" /\ (k * CHUNK_SIZE < length rows)%nat /\
      faults w !! k = Some true /\ faults r.1 = drop (S k) (faults w))).
Proof.
  intros Happ Hnil. unfold chunkedInsert.
  apply chunkedInsertFrom_run; [done | done | unfold CHUNK_SIZE; lia | done].
Qed.

(** X1. A bulk insert that meets no database fault inserts all the rows, in
    order, with one statement per started batch of 1000 rows and none for
    an empty list; it changes nothing else. *)
Theorem chunkedInsert_inserts_all {T} (insert : list T -> Db -> Db)
    (rows : list T) (w : World) :
  (forall a b d, insert b (insert a d) = insert (a ++ b) d) ->
  (forall d, insert [] d = d) ->
  (forall j, (j * CHUNK_SIZE < length rows)%nat -> faults w !! j <> Some true) ->
  let r := chunkedInsert insert rows w in
  r.2 = Done tt /\ db r.1 = insert rows (db w) /\ memoryOf r.1 = memoryOf w /\
  exists k : nat,
    faults r.1 = drop k (faults w) /\
    (length rows <= k * CHUNK_SIZE)%nat /\
    (forall j, (j < k)%nat -> (j * CHUNK_SIZE < length rows)%nat).
Proof.
  intros Happ Hnil Hok r.
  destruct (chunkedInsert_run insert rows w Happ Hnil) as (k & Hdb & Hmem & Hpre & Hend).
  fold r in Hdb, Hmem, Hend.
  destruct Hend as [(Hd & Hl & Hfs)|(Ht & Hl & Hbad & Hfs)].
  - split; [done|]. split; [by rewrite Hdb, take_ge|]. split; [done|].
    exists k. split; [done|]. split; [done|]. intros j Hj. by apply Hpre.
  - by destruct (Hok k Hl).
Qed.

(** 1500 snapshot rows go in with two statements. *)
Lemma chunkedInsert_inserts_all_witness :
  let rows := replicate 1500 (toSnapshot (mkDate 0) strayBus) in
  let r := chunkedInsert appendSnapshots rows (demoWorld [false; false; true]) in
  r.2 = Done tt /\ db r.1 = appendSnapshots rows emptyDb /\
  memoryOf r.1 = memoryOf (demoWorld [false; false; true]) /\
  exists k : nat,
    faults r.1 = drop k [false; false; true] /\
    (length rows <= k * CHUNK_SIZE)%nat /\
    (forall j, (j < k)%nat -> (j * CHUNK_SIZE < length rows)%nat).
Proof.
  apply (chunkedInsert_inserts_all appendSnapshots
           (replicate 1500 (toSnapshot (mkDate 0) strayBus))
           (demoWorld [false; false; true])
           appendSnapshots_app appendSnapshots_nil).
  intros j Hj. rewrite length_replicate in Hj. unfold CHUNK_SIZE in Hj.
  assert (j = 0 \/ j = 1)%nat as [-> | ->] by lia; simpl; discriminate.
Defined.

(** X2. A bulk insert that throws has inserted exactly the whole batches
    that came before the failing statement, a proper prefix of the rows:
    it is not undone. *)
Theorem chunkedInsert_failure_keeps_prefix {T} (insert : list T -> Db -> Db)
    (rows : list T) (w : World) :
  (forall a b d, insert b (insert a d) = insert (a ++ b) d) ->
  (forall d, insert [] d = d) ->
  (chunkedInsert insert rows w).2 <> Done tt ->
  let r := chunkedInsert insert rows w in
  exists k : nat,
    r.2 = Threw "database error" /\
    db r.1 = insert (take (k * CHUNK_SIZE) rows) (db w) /\
    (k * CHUNK_SIZE < length rows)%nat /\
    memoryOf r.1 = memoryOf w /\
    faults w !! k = Some true /\ (forall j, (j < k)%nat -> faults w !! j <> Some true).
Proof.
  intros Happ Hnil Hfail r.
  destruct (chunkedInsert_run insert rows w Happ Hnil) as (k & Hdb & Hmem & Hpre & Hend).
  fold r in Hdb, Hmem, Hend.
  destruct Hend as [(Hd & _)|(Ht & Hl & Hbad & Hfs)]; [done|].
  exists k. repeat split; try done. intros j Hj. by apply Hpre.
Qed.

(** Of 1500 rows, a fault at the second statement leaves the first 1000. *)
Lemma chunkedInsert_failure_keeps_prefix_witness :
  let rows := replicate 1500 (toSnapshot (mkDate 0) strayBus) in
  let r := chunkedInsert appendSnapshots rows (demoWorld [false; true]) in
  exists k : nat,
    r.2 = Threw "database error" /\
    db r.1 = appendSnapshots (take (k * CHUNK_SIZE) rows) emptyDb /\
    (k * CHUNK_SIZE < length rows)%nat /\
    memoryOf r.1 = memoryOf (demoWorld [false; true]) /\
    [false; true] !! k = Some true /\
    (forall j, (j < k)%nat -> [false; true] !! j <> Some true).
Proof.
  apply (chunkedInsert_failure_keeps_prefix appendSnapshots
           (replicate 1500 (toSnapshot (mkDate 0) strayBus))
           (demoWorld [false; true]) appendSnapshots_app appendSnapshots_nil).
  vm_compute. discriminate.
Defined.

(** X3. Vehicle snapshots are append-only. Whatever the database does,
    [storeVehicleSnapshots] leaves the database as it was but for snapshot
    rows added after the existing ones: the rows of a prefix of the polled
    vehicles, in order, each stamped with the cycle's fetch time; of all the
    vehicles when it returns normally. An empty poll issues no statement. *)
Theorem storeVehicleSnapshots_appends (fetchedAt : Date) (vehicles : list Vehicle) (w : World) :
  let r := storeVehicleSnapshots fetchedAt vehicles w in
  (exists n : nat,
     db r.1 = appendSnapshots (toSnapshot fetchedAt <$> take n vehicles) (db w) /\
     (r.2 = Done tt -> take n vehicles = vehicles)) /\
  memoryOf r.1 = memoryOf w /\
  (vehicles = [] -> r = (w, Done tt)).
Proof.
  simpl. unfold storeVehicleSnapshots. destruct vehicles as [|v vs].
  { split; [|done]. exists 0%nat. simpl. by rewrite appendSnapshots_nil. }
  destruct (chunkedInsert_run appendSnapshots (toSnapshot fetchedAt <$> v :: vs) w
              appendSnapshots_app appendSnapshots_nil) as (k & Hdb & Hmem & _ & Hend).
  split; [|done].
  exists (k * CHUNK_SIZE)%nat. rewrite Hdb, fmap_take. split; [done|].
  intros Hdone. destruct Hend as [(_ & Hl & _)|(Ht & _)]; [|congruence].
  rewrite length_fmap in Hl. by rewrite take_ge.
Qed.

(** ** Reference data *)

Section ReferenceData.

Lemma fold_rows_absent (rows : list RouteRow) (table : gmap Z RouteRow) (k : Z) :
  (forall row, row ∈ rows -> r_route_id (rr_route row) <> k) ->
  fold_left (fun table row => <[ r_route_id (rr_route row) := row ]> table) rows table !! k
  = table !! k.
Proof.
  revert table. induction rows as [|r rows IH]; intros table Habs; simpl; [done|].
  rewrite IH by (intros row Hr; apply Habs, elem_of_cons; by right).
  apply lookup_insert_ne, Habs, elem_of_cons. by left.
Qed.

Lemma fold_rows_present (rows : list RouteRow) (table : gmap Z RouteRow) (row : RouteRow) :
  NoDup ((fun row => r_route_id (rr_route row)) <$> rows) -> row ∈ rows ->
  fold_left (fun table row => <[ r_route_id (rr_route row) := row ]> table) rows table
    !! r_route_id (rr_route row)
  = Some row.
Proof.
  revert table. induction rows as [|r rows IH]; intros table Hnd Hin; simpl.
  - by apply elem_of_nil in Hin.
  - rewrite fmap_cons in Hnd. apply NoDup_cons in Hnd as [Hfresh Hnd].
    apply elem_of_cons in Hin as [->|Hin]; [|by apply IH].
    rewrite fold_rows_absent; [apply lookup_insert_eq|].
    intros row Hr Heq. apply Hfresh. rewrite <- Heq.
    by apply (list_elem_of_fmap_2 (fun row => r_route_id (rr_route row))).
Qed.

Lemma stampRoutes_lookup (clock : nat -> Date) (data : list Route) (i : nat) :
  stampRoutes clock data !! i
  = (fun route => {| rr_route := route; rr_updatedAt := clock i |}) <$> data !! i.
Proof. unfold stampRoutes. by rewrite list_lookup_imap. Qed.

Lemma stampRoutes_ids (clock : nat -> Date) (data : list Route) :
  (fun row => r_route_id (rr_route row)) <$> stampRoutes clock data = r_route_id <$> data.
Proof.
  apply list_eq. intros i. rewrite !list_lookup_fmap, stampRoutes_lookup.
  by destruct (data !! i).
Qed.

Lemma stampRoutes_elem (clock : nat -> Date) (data : list Route) (row : RouteRow) :
  row ∈ stampRoutes clock data -> rr_route row ∈ data.
Proof.
  intros (i & Hi)%list_elem_of_lookup_1. rewrite stampRoutes_lookup in Hi.
  destruct (data !! i) as [route|] eqn:Hroute; [|done]. injection Hi as <-.
  by eapply list_elem_of_lookup_2.
Qed.

Lemma fold_routes_absent (clock : nat -> Date) (data : list Route)
    (table : gmap Z RouteRow) (k : Z) :
  (forall route, route ∈ data -> r_route_id route <> k) ->
  fold_left (fun table row => <[ r_route_id (rr_route row) := row ]> table)
            (stampRoutes clock data) table !! k = table !! k.
Proof.
  intros Habs. apply fold_rows_absent. intros row Hrow.
  by apply Habs, (stampRoutes_elem clock).
Qed.

Lemma fold_routes_present (clock : nat -> Date) (data : list Route)
    (table : gmap Z RouteRow) (i : nat) (route : Route) :
  NoDup (r_route_id <$> data) -> data !! i = Some route ->
  fold_left (fun table row => <[ r_route_id (rr_route row) := row ]> table)
            (stampRoutes clock data) table !! r_route_id route
  = Some {| rr_route := route; rr_updatedAt := clock i |}.
Proof.
  intros Hnd Hi.
  apply (fold_rows_present (stampRoutes clock data) table
           {| rr_route := route; rr_updatedAt := clock i |}).
  - by rewrite stampRoutes_ids.
  - apply (list_elem_of_lookup_2 _ i). by rewrite stampRoutes_lookup, Hi.
Qed.

Lemma stopMapOf_acc_Some (rows : list Stop) (m : gmap Z Stop) (k : Z) (s : Stop) :
  fold_left (fun m stop => <[ stop_id stop := stop ]> m) rows m !! k = Some s ->
  (s ∈ rows /\ stop_id s = k) \/ m !! k = Some s.
Proof.
  revert m. induction rows as [|r rows IH]; intros m; simpl; [by right|].
  intros [[Hin Hk]|Hm]%IH.
  - left. split; [apply elem_of_cons; by right | done].
  - destruct (decide (stop_id r = k)) as [<-|Hne].
    + rewrite lookup_insert_eq in Hm. injection Hm as <-.
      left. split; [apply elem_of_cons; by left | done].
    + rewrite lookup_insert_ne in Hm by done. by right.
Qed.

Lemma stopMapOf_acc_is_Some (rows : list Stop) (m : gmap Z Stop) (k : Z) :
  (exists s, s ∈ rows /\ stop_id s = k) \/ is_Some (m !! k) ->
  is_Some (fold_left (fun m stop => <[ stop_id stop := stop ]> m) rows m !! k).
Proof.
  revert m. induction rows as [|r rows IH]; intros m; simpl.
  - intros [(s & Hs & _)|Hm]; [by apply elem_of_nil in Hs | done].
  - intros [(s & Hs & Hk)|Hm]; apply IH.
    + apply elem_of_cons in Hs as [->|Hs]; [|left; eauto].
      right. rewrite Hk, lookup_insert_eq. eauto.
    + right. destruct (decide (stop_id r = k)) as [<-|Hne].
      * rewrite lookup_insert_eq. eauto.
      * by rewrite lookup_insert_ne.
Qed.

Lemma stopMapOf_Some (rows : list Stop) (k : Z) (s : Stop) :
  stopMapOf rows !! k = Some s -> s ∈ rows /\ stop_id s = k.
Proof.
  intros [H|H]%stopMapOf_acc_Some; [done|]. by rewrite lookup_empty in H.
Qed.

Lemma stopMapOf_is_Some (rows : list Stop) (k : Z) :
  is_Some (stopMapOf rows !! k) <-> exists s, s ∈ rows /\ stop_id s = k.
Proof.
  split.
  - intros [s Hs]. exists s. by apply stopMapOf_Some.
  - intros Hex. apply stopMapOf_acc_is_Some. by left.
Qed.

Lemma stopMapOf_keyed (rows : list Stop) :
  map_Forall (fun k stop => stop_id stop = k) (stopMapOf rows).
Proof. intros k s Hs. by apply stopMapOf_Some in Hs as [_ ?]. Qed.

End ReferenceData.

(** X4. [upsertRoutes] never removes a route: the row of a route that the
    feed does not name stays as it was, so a withdrawn route stays in the
    table. When the statement succeeds, and the feed names each route once,
    every route of the feed has its row replaced by the feed's record,
    stamped with the clock reading taken for that route; when it throws the
    database is unchanged; an empty feed issues no statement; and nothing
    but the [routes] table changes. *)
Theorem upsertRoutes_keeps_routes (clock : nat -> Date) (data : list Route) (w : World) :
  let r := upsertRoutes clock data w in
  (forall k, (forall route, route ∈ data -> r_route_id route <> k) ->
             routesT (db r.1) !! k = routesT (db w) !! k) /\
  (r.2 = Done tt -> NoDup (r_route_id <$> data) ->
   forall i route, data !! i = Some route ->
     routesT (db r.1) !! r_route_id route
     = Some {| rr_route := route; rr_updatedAt := clock i |}) /\
  (r.2 <> Done tt -> db r.1 = db w) /\
  db r.1 = setRoutesT (routesT (db r.1)) (db w) /\
  memoryOf r.1 = memoryOf w /\
  (data = [] -> r = (w, Done tt)).
Proof.
  simpl. unfold upsertRoutes.
  destruct data as [|r0 rest].
  { simpl. repeat split; try done. by destruct (db w). }
  cbv beta iota. set (data := r0 :: rest) in *.
  unfold dbExec. destruct (faults w) as [|[] fs];
    cbn [fst snd db setDb setFaults routesT setRoutesT].
  - repeat split; try done.
    + intros k Hk. by apply fold_routes_absent.
    + intros _ Hnd i route Hr. by apply fold_routes_present.
  - repeat split; try done. by destruct (db w).
  - repeat split; try done.
    + intros k Hk. by apply fold_routes_absent.
    + intros _ Hnd i route Hr. by apply fold_routes_present.
Qed.

(** A feed of routes 7 and 9, stamped a second apart, leaves the withdrawn
    route 5 in the table. *)
Lemma upsertRoutes_keeps_routes_witness :
  let clock := fun i : nat => mkDate (86400000 + 1000 * Z.of_nat i) in
  let r := upsertRoutes clock [route7; route9] staleRouteWorld in
  (forall k, (forall route, route ∈ [route7; route9] -> r_route_id route <> k) ->
             routesT (db r.1) !! k = routesT (db staleRouteWorld) !! k) /\
  (r.2 = Done tt -> NoDup (r_route_id <$> [route7; route9]) ->
   forall i route, [route7; route9] !! i = Some route ->
     routesT (db r.1) !! r_route_id route
     = Some {| rr_route := route; rr_updatedAt := clock i |}) /\
  (r.2 <> Done tt -> db r.1 = db staleRouteWorld) /\
  db r.1 = setRoutesT (routesT (db r.1)) (db staleRouteWorld) /\
  memoryOf r.1 = memoryOf staleRouteWorld /\
  ([route7; route9] = [] -> r = (staleRouteWorld, Done tt)).
Proof.
  exact (upsertRoutes_keeps_routes (fun i : nat => mkDate (86400000 + 1000 * Z.of_nat i))
           [route7; route9] staleRouteWorld).
Defined.

(** X5. [loadStopsCache] makes the stop lookup match the [stops] table: on
    success [stopsCache] is the table's rows, [stopById] has an entry for
    exactly the stop identifiers of the table, each entry a row of the table
    filed under its own identifier, and the trip caches are untouched; when
    the select throws the cache is unchanged. The database and the rest of
    the memory never change. *)
Theorem loadStopsCache_matches_table (w : World) :
  let r := loadStopsCache w in
  (r.2 = Done tt ->
     stopsCache (cache r.1) = stopsT (db w) /\
     stopById_keyed (cache r.1) /\
     (forall k, is_Some (stopById (cache r.1) !! k) <->
                exists s, s ∈ stopsT (db w) /\ stop_id s = k) /\
     (forall k s, stopById (cache r.1) !! k = Some s -> s ∈ stopsT (db w)) /\
     tripByIdCache (cache r.1) = tripByIdCache (cache w) /\
     stopIdsByTripId (cache r.1) = stopIdsByTripId (cache w)) /\
  (r.2 <> Done tt -> cache r.1 = cache w) /\
  db r.1 = db w /\
  stopInsideByVehicle r.1 = stopInsideByVehicle w /\
  latestVehiclesCache r.1 = latestVehiclesCache w /\
  latestVehiclesFetchedAt r.1 = latestVehiclesFetchedAt w.
Proof.
  simpl. unfold loadStopsCache, bind, dbQuery, modify.
  assert (forall rows,
     stopById_keyed
       {| stopsCache := rows; stopById := stopMapOf rows;
          tripByIdCache := tripByIdCache (cache w);
          stopIdsByTripId := stopIdsByTripId (cache w) |}) as Hkeyed.
  { intros rows. apply stopMapOf_keyed. }
  destruct (faults w) as [|[] fs]; simpl.
  - repeat split; try done.
    + apply stopMapOf_is_Some.
    + apply stopMapOf_is_Some.
    + intros k s Hs. by apply stopMapOf_Some in Hs as [? _].
  - repeat split; try done.
  - repeat split; try done.
    + apply stopMapOf_is_Some.
    + apply stopMapOf_is_Some.
    + intros k s Hs. by apply stopMapOf_Some in Hs as [? _].
Qed.

Section StaticCaches.

Lemma elem_of_snoc {A} (l : list A) (x y : A) : x ∈ l ++ [y] <-> x ∈ l \/ x = y.
Proof. by rewrite elem_of_app, list_elem_of_singleton. Qed.

Lemma setAdd_elem (x y : Z) (members : list Z) :
  y ∈ setAdd x members <-> y = x \/ y ∈ members.
Proof.
  unfold setAdd. case_bool_decide as Hin.
  - split; [by right | intros [->|?]; done].
  - rewrite elem_of_app, list_elem_of_singleton. tauto.
Qed.

Lemma setAdd_NoDup (x : Z) (members : list Z) : NoDup members -> NoDup (setAdd x members).
Proof.
  intros Hnd. unfold setAdd. case_bool_decide as Hin; [done|].
  apply NoDup_app. split; [done|]. split; [|apply NoDup_singleton].
  intros y Hy Hx%list_elem_of_singleton. by subst.
Qed.

Lemma setAdd_nonempty (x : Z) (members : list Z) : setAdd x members <> [].
Proof.
  unfold setAdd. case_bool_decide as Hin.
  - intros ->. by apply elem_of_nil in Hin.
  - by destruct members.
Qed.

(** The invariant of the loop over the stop times. *)
Lemma stopSets_fold (rest pre : list StopTime) (m : gmap string (list Z)) :
  (forall tid members, m !! tid = Some members ->
     members <> [] /\ NoDup members /\
     forall sid, sid ∈ members <->
       exists st, st ∈ pre /\ st_trip_id st = tid /\ st_stop_id st = sid) ->
  (forall st, st ∈ pre -> is_Some (m !! st_trip_id st)) ->
  let m' := fold_left (fun m stopTime =>
                         <[ st_trip_id stopTime :=
                              setAdd (st_stop_id stopTime)
                                     (default [] (m !! st_trip_id stopTime)) ]> m)
                      rest m in
  (forall tid members, m' !! tid = Some members ->
     members <> [] /\ NoDup members /\
     forall sid, sid ∈ members <->
       exists st, st ∈ pre ++ rest /\ st_trip_id st = tid /\ st_stop_id st = sid) /\
  (forall st, st ∈ pre ++ rest -> is_Some (m' !! st_trip_id st)).
Proof.
  revert pre m. induction rest as [|x rest IH]; intros pre m Hinv Hdom; simpl.
  - rewrite app_nil_r. done.
  - replace (pre ++ x :: rest) with ((pre ++ [x]) ++ rest) by by rewrite <- app_assoc.
    apply IH.
    + intros tid members Hm.
      destruct (decide (st_trip_id x = tid)) as [<-|Hne].
      * rewrite lookup_insert_eq in Hm. injection Hm as <-.
        split; [apply setAdd_nonempty|].
        destruct (m !! st_trip_id x) as [old|] eqn:Hold; simpl.
        -- destruct (Hinv _ _ Hold) as (_ & Hnd & Hmem).
           split; [by apply setAdd_NoDup|]. intros sid.
           rewrite setAdd_elem, Hmem. split.
           ++ intros [->|(st & Hst & Ht & Hs)].
              ** exists x. split; [apply elem_of_app; right; by apply list_elem_of_singleton | done].
              ** exists st. split; [apply elem_of_app; by left | done].
           ++ intros (st & [Hst| ->]%elem_of_snoc & Ht & Hs).
              ** right. eauto.
              ** by left.
        -- split; [apply setAdd_NoDup, NoDup_nil_2|]. intros sid.
           rewrite setAdd_elem. split.
           ++ intros [->|H]; [|by apply elem_of_nil in H].
              exists x. split; [apply elem_of_app; right; by apply list_elem_of_singleton | done].
           ++ intros (st & [Hst| ->]%elem_of_snoc & Ht & Hs).
              ** destruct (Hdom st Hst) as [old' Hold']. congruence.
              ** by left.
      * rewrite lookup_insert_ne in Hm by done.
        destruct (Hinv _ _ Hm) as (Hne' & Hnd & Hmem).
        split; [done|]. split; [done|]. intros sid. rewrite Hmem. split.
        -- intros (st & Hst & Ht & Hs). exists st. split; [apply elem_of_app; by left | done].
        -- intros (st & [Hst| ->]%elem_of_snoc & Ht & Hs); [eauto | done].
    + intros st [Hst| ->]%elem_of_snoc.
      * destruct (decide (st_trip_id x = st_trip_id st)) as [<-|Hne].
        -- rewrite lookup_insert_eq. eauto.
        -- rewrite lookup_insert_ne by done. by apply Hdom.
      * rewrite lookup_insert_eq. eauto.
Qed.

Lemma tripMap_fold (rest pre : list Trip) (m : gmap string TripInfo) :
  (forall tid info, m !! tid = Some info ->
     exists trip, trip ∈ pre /\ t_trip_id trip = tid /\
       info = {| routeId := t_route_id trip; directionId := direction_id trip |}) ->
  (forall trip, trip ∈ pre -> is_Some (m !! t_trip_id trip)) ->
  let m' := fold_left (fun m trip =>
                         <[ t_trip_id trip := {| routeId := t_route_id trip;
                                                 directionId := direction_id trip |} ]> m)
                      rest m in
  (forall tid info, m' !! tid = Some info ->
     exists trip, trip ∈ pre ++ rest /\ t_trip_id trip = tid /\
       info = {| routeId := t_route_id trip; directionId := direction_id trip |}) /\
  (forall trip, trip ∈ pre ++ rest -> is_Some (m' !! t_trip_id trip)).
Proof.
  revert pre m. induction rest as [|x rest IH]; intros pre m Hinv Hdom; simpl.
  - rewrite app_nil_r. done.
  - replace (pre ++ x :: rest) with ((pre ++ [x]) ++ rest) by by rewrite <- app_assoc.
    apply IH.
    + intros tid info Hm. destruct (decide (t_trip_id x = tid)) as [<-|Hne].
      * rewrite lookup_insert_eq in Hm. injection Hm as <-.
        exists x. split; [apply elem_of_app; right; by apply list_elem_of_singleton | done].
      * rewrite lookup_insert_ne in Hm by done.
        destruct (Hinv _ _ Hm) as (trip & Ht & Hrest).
        exists trip. split; [apply elem_of_app; by left | done].
    + intros trip [Ht| ->]%elem_of_snoc.
      * destruct (decide (t_trip_id x = t_trip_id trip)) as [<-|Hne].
        -- rewrite lookup_insert_eq. eauto.
        -- rewrite lookup_insert_ne by done. by apply Hdom.
      * rewrite lookup_insert_eq. eauto.
Qed.
End StaticCaches.

(** X6. The caches [buildStaticCaches] builds are consistent with the feed:
    every stop of the lookup is filed under its own identifier; a trip is
    known exactly when the feed lists it, with the route and direction of
    one of its listings; and the stop set of a trip is never empty, has no
    repeated member, and holds exactly the stops of the trip's stop times. *)
Theorem buildStaticCaches_consistent (tripsData : list Trip) (stopsData : list Stop)
    (stopTimesData : list StopTime) :
  let c := buildStaticCaches tripsData stopsData stopTimesData in
  stopsCache c = stopsData /\
  stopById_keyed c /\
  (forall k, is_Some (stopById c !! k) <-> exists s, s ∈ stopsData /\ stop_id s = k) /\
  (forall tid info, tripByIdCache c !! tid = Some info ->
     exists trip, trip ∈ tripsData /\ t_trip_id trip = tid /\
       info = {| routeId := t_route_id trip; directionId := direction_id trip |}) /\
  (forall trip, trip ∈ tripsData -> is_Some (tripByIdCache c !! t_trip_id trip)) /\
  (forall tid members, stopIdsByTripId c !! tid = Some members ->
     members <> [] /\ NoDup members /\
     forall sid, sid ∈ members <->
       exists st, st ∈ stopTimesData /\ st_trip_id st = tid /\ st_stop_id st = sid) /\
  (forall st, st ∈ stopTimesData -> is_Some (stopIdsByTripId c !! st_trip_id st)).
Proof.
  simpl. split; [done|]. split; [apply stopMapOf_keyed|].
  split; [apply stopMapOf_is_Some|].
  destruct (tripMap_fold tripsData [] ∅) as [Ht1 Ht2];
    [by intros ?? ?%lookup_empty_Some | by intros ? ?%elem_of_nil |].
  destruct (stopSets_fold stopTimesData [] ∅) as [Hs1 Hs2];
    [by intros ?? ?%lookup_empty_Some | by intros ? ?%elem_of_nil |].
  simpl in Ht1, Ht2, Hs1, Hs2. done.
Qed.

(** ** Retention sweep *)

(** X7. The retention sweep deletes by age only. When both statements
    succeed, the snapshots and the stop visits that remain are exactly those
    of before whose fetch (observed) time is not more than 30 days before
    the sweep; when a statement throws no stop visit has been deleted; a
    second sweep at the same time deletes nothing more; and the reference
    tables, the route daily stats and the memory are never touched. *)
Theorem cleanupOldSnapshots_sweeps_by_age (now : Date) (w : World) :
  let r := cleanupOldSnapshots now w in
  (r.2 = Done tt ->
     (forall row, row ∈ vehicleSnapshotsT (db r.1) <->
        row ∈ vehicleSnapshotsT (db w) /\
        epochMs now - 2592000000 <= epochMs (snap_fetchedAt row)) /\
     (forall row, row ∈ stopVisitsT (db r.1) <->
        row ∈ stopVisitsT (db w) /\
        epochMs now - 2592000000 <= epochMs (sv_observedAt row)) /\
     forall w', db w' = db r.1 -> (cleanupOldSnapshots now w').2 = Done tt ->
                db (cleanupOldSnapshots now w').1 = db r.1) /\
  (r.2 <> Done tt -> stopVisitsT (db r.1) = stopVisitsT (db w)) /\
  routesT (db r.1) = routesT (db w) /\ tripsT (db r.1) = tripsT (db w) /\
  stopsT (db r.1) = stopsT (db w) /\ stopTimesT (db r.1) = stopTimesT (db w) /\
  shapesT (db r.1) = shapesT (db w) /\
  routeDailyStatsT (db r.1) = routeDailyStatsT (db w) /\
  memoryOf r.1 = memoryOf w.
Proof.
  set (cutoff := addDays now (- RETENTION_DAYS)).
  assert (forall w0 : World,
     let r := cleanupOldSnapshots now w0 in
     memoryOf r.1 = memoryOf w0 /\
     ((r.2 = Done tt /\ db r.1 = sweepStopVisits cutoff (sweepSnapshots cutoff (db w0))) \/
      (r.2 <> Done tt /\ db r.1 = db w0) \/
      (r.2 <> Done tt /\ db r.1 = sweepSnapshots cutoff (db w0)))) as Hcases.
  { intros [d c i l lf fs]. unfold cleanupOldSnapshots, bind, dbExec. simpl.
    destruct fs as [|[] [|[] fs]]; simpl; split; try done;
      first [ by left | by right; left | by right; right ]. }
  assert (forall d, sweepStopVisits cutoff (sweepSnapshots cutoff
                      (sweepStopVisits cutoff (sweepSnapshots cutoff d)))
                    = sweepStopVisits cutoff (sweepSnapshots cutoff d)) as Hidem.
  { intros d. unfold sweepStopVisits, sweepSnapshots, setStopVisitsT, setVehicleSnapshotsT.
    simpl. f_equal; apply list_filter_filter_l; done. }
  cbv zeta. cbv zeta in Hcases. destruct (Hcases w) as [Hmem Hdb].
  split; [|split].
  - intros Hok. destruct Hdb as [[_ Hdb]|[[Hbad _]|[Hbad _]]]; [|done..].
    rewrite Hdb. split; [|split].
    + intros row. simpl. rewrite list_elem_of_filter.
      unfold cutoff, RETENTION_DAYS, MS_PER_DAY; simpl. split; intros [? ?]; split; try done; lia.
    + intros row. simpl. rewrite list_elem_of_filter.
      unfold cutoff, RETENTION_DAYS, MS_PER_DAY; simpl. split; intros [? ?]; split; try done; lia.
    + intros w' Hw' Hok'. destruct (Hcases w') as [_ [[_ Hdb']|[[Hbad _]|[Hbad _]]]]; [|done..].
      by rewrite Hdb', Hw', Hidem.
  - intros Hbad. destruct Hdb as [[Hok _]|[[_ Hdb]|[_ Hdb]]]; [done|by rewrite Hdb..].
  - destruct Hdb as [[_ Hdb]|[[_ Hdb]|[_ Hdb]]]; rewrite Hdb; done.
Qed.

(** ** Times of day *)

Section TimesOfDay.
Context `{HostClock}.

Lemma getMinutes_range (d : Date) : 0 <= getMinutes d < 60.
Proof.
  unfold getMinutes, MS_PER_HOUR, MS_PER_MINUTE.
  pose proof (Z.mod_pos_bound (localMs d) 3600000 eq_refl) as Hb.
  split; [apply Z.div_pos; lia | apply Z.div_lt_upper_bound; lia].
Qed.

Lemma getSeconds_range (d : Date) : 0 <= getSeconds d < 60.
Proof.
  unfold getSeconds, MS_PER_MINUTE.
  pose proof (Z.mod_pos_bound (localMs d) 60000 eq_refl) as Hb.
  split; [apply Z.div_pos; lia | apply Z.div_lt_upper_bound; lia].
Qed.

Lemma localMs_localDateTime (day h m s : Z) :
  localMs (localDateTime day h m s)
  = day * 86400000 + h * 3600000 + m * 60000 + s * 1000.
Proof. unfold localMs, localDateTime, MS_PER_DAY, MS_PER_HOUR, MS_PER_MINUTE; simpl. lia. Qed.

Lemma getMinutes_localDateTime (day h m s : Z) :
  0 <= m < 60 -> 0 <= s < 60 -> getMinutes (localDateTime day h m s) = m.
Proof.
  intros Hm Hs. unfold getMinutes. rewrite localMs_localDateTime.
  unfold MS_PER_HOUR, MS_PER_MINUTE.
  replace (day * 86400000 + h * 3600000 + m * 60000 + s * 1000)
    with ((m * 60000 + s * 1000) + (day * 24 + h) * 3600000) by lia.
  rewrite Z.mod_add by lia. rewrite Z.mod_small by lia.
  symmetry. apply (Z.div_unique _ _ m (s * 1000)); lia.
Qed.

Lemma getSeconds_localDateTime (day h m s : Z) :
  0 <= s < 60 -> getSeconds (localDateTime day h m s) = s.
Proof.
  intros Hs. unfold getSeconds. rewrite localMs_localDateTime.
  unfold MS_PER_MINUTE.
  replace (day * 86400000 + h * 3600000 + m * 60000 + s * 1000)
    with (s * 1000 + (day * 1440 + h * 60 + m) * 60000) by lia.
  rewrite Z.mod_add by lia. rewrite Z.mod_small by lia.
  apply Z.div_mul. lia.
Qed.

Lemma Qfloor_unique (x : Q) (n : Z) :
  (inject_Z n <= x)%Q -> (x < inject_Z (n + 1))%Q -> Qfloor x = n.
Proof.
  intros Hlo Hhi.
  pose proof (Qfloor_le x) as H1. pose proof (Qlt_floor x) as H2.
  assert (n < Qfloor x + 1) by (rewrite Zlt_Qlt; eapply Qle_lt_trans; eassumption).
  assert (Qfloor x < n + 1) by (rewrite Zlt_Qlt; eapply Qle_lt_trans; eassumption).
  lia.
Qed.

Lemma timeToMinutes_value (d : Date) :
  (timeToMinutes d == inject_Z (getHours d * 60 + getMinutes d) + (getSeconds d # 60))%Q.
Proof. unfold timeToMinutes. apply Qred_correct. Qed.

Lemma jsRound_timeToMinutes (d : Date) :
  jsRound (timeToMinutes d)
  = getHours d * 60 + getMinutes d + (if getSeconds d <? 30 then 0 else 1).
Proof.
  pose proof (getSeconds_range d) as Hs.
  unfold jsRound. apply Qfloor_unique; rewrite timeToMinutes_value;
    generalize (getHours d * 60 + getMinutes d) as a; intros a;
    destruct (Z.ltb_spec (getSeconds d) 30);
    unfold Qle, Qlt, Qplus, inject_Z; simpl; lia.
Qed.
End TimesOfDay.

(** X8. Formatting a time of day. [timeToMinutes] lies in the day, from 0
    up to but not including 1440; [minutesToTime] of it is the clock reading
    of the time rounded to the nearest minute, seconds from 30 on counting
    to the next minute; so the last half minute of a day reads 24:00. *)
Theorem minutesToTime_rounds_to_minute `{HostClock} (date : Date) :
  (0 <= timeToMinutes date)%Q /\ (timeToMinutes date < 1440#1)%Q /\
  minutesToTime (timeToMinutes date)
  = clockString (getHours date * 60 + getMinutes date
                 + (if getSeconds date <? 30 then 0 else 1)) /\
  (forall day s, 30 <= s < 60 ->
     minutesToTime (timeToMinutes (localDateTime day 23 59 s)) = "24:00"%string).
Proof.
  pose proof (getHours_range date) as Hh.
  pose proof (getMinutes_range date) as Hm.
  pose proof (getSeconds_range date) as Hs.
  assert (forall d : Date,
            minutesToTime (timeToMinutes d)
            = clockString (getHours d * 60 + getMinutes d
                           + (if getSeconds d <? 30 then 0 else 1))) as Hfmt.
  { intros d. unfold minutesToTime, clockString. rewrite jsRound_timeToMinutes.
    pose proof (getHours_range d). pose proof (getMinutes_range d).
    rewrite Z.rem_mod_nonneg; [done| |lia].
    destruct (getSeconds d <? 30); lia. }
  split; [|split; [|split]].
  - rewrite timeToMinutes_value. unfold Qle, Qplus, inject_Z; simpl. lia.
  - rewrite timeToMinutes_value. unfold Qlt, Qplus, inject_Z; simpl. lia.
  - apply Hfmt.
  - intros day s Hrange. rewrite Hfmt.
    rewrite getHours_localDateTime, getMinutes_localDateTime, getSeconds_localDateTime by lia.
    destruct (Z.ltb_spec s 30); [lia|]. reflexivity.
Qed.

(** ** A poll cycle *)

(** X9. The containment key determines the pair: two (vehicle, stop) pairs
    have the same key only if they are the same pair, whatever the
    identifiers (negative ones too), so no two pairs share containment
    state. *)
Theorem containment_key_determines_pair (vehicleId stopId vehicleId' stopId' : Z) :
  stopKey vehicleId stopId = stopKey vehicleId' stopId' <->
  vehicleId = vehicleId' /\ stopId = stopId'.
Proof. split; [apply stopKey_inj | by intros [-> ->]]. Qed.

Section PollCycle.
Context `{Geodesy}.

Lemma storeVehicleSnapshots_frame (fetchedAt : Date) (vehicles : list Vehicle) (w : World) :
  let r := storeVehicleSnapshots fetchedAt vehicles w in
  memoryOf r.1 = memoryOf w /\
  exists rows, db r.1 = appendSnapshots rows (db w).
Proof.
  simpl. unfold storeVehicleSnapshots. destruct vehicles as [|v vs].
  { split; [done|]. exists []. simpl. by rewrite appendSnapshots_nil. }
  destruct (chunkedInsert_run appendSnapshots (toSnapshot fetchedAt <$> v :: vs) w
              appendSnapshots_app appendSnapshots_nil) as (k & Hdb & Hmem & _).
  split; [done|]. eauto.
Qed.

Lemma upsertRouteDailyStats_frame (fetchedAt : Date) (vehicles : list Vehicle) (w : World) :
  let r := upsertRouteDailyStats fetchedAt vehicles w in
  memoryOf r.1 = memoryOf w /\
  exists table, db r.1 = setRouteDailyStatsT table (db w).
Proof.
  simpl. unfold upsertRouteDailyStats.
  destruct (byRouteKeys vehicles) as [|r0 keys].
  { split; [done|]. exists (routeDailyStatsT (db w)). simpl. by destruct (db w). }
  unfold dbExec. destruct w as [d c i l lf fs]. destruct fs as [|[] fs]; simpl.
  - split; [done|]. eauto.
  - split; [done|]. exists (routeDailyStatsT d). by destruct d.
  - split; [done|]. eauto.
Qed.

Lemma recordStopVisitsIO_run (fetchedAt : Date) (vehicles : list Vehicle) (w : World) :
  let scan := recordStopVisits (cache w) fetchedAt vehicles (stopInsideByVehicle w) in
  let r := recordStopVisitsIO fetchedAt vehicles w in
  stopInsideByVehicle r.1 = scan.1 /\
  cache r.1 = cache w /\
  latestVehiclesCache r.1 = latestVehiclesCache w /\
  latestVehiclesFetchedAt r.1 = latestVehiclesFetchedAt w /\
  exists n : nat,
    db r.1 = appendStopVisits (take n scan.2) (db w) /\
    (r.2 = Done tt -> take n scan.2 = scan.2) /\
    (r.2 <> Done tt -> (n < length scan.2)%nat).
Proof.
  cbv zeta. unfold recordStopVisitsIO.
  set (scan := recordStopVisits (cache w) fetchedAt vehicles (stopInsideByVehicle w)).
  destruct scan.2 as [|e events] eqn:Hev.
  { simpl. repeat split; try done. exists 0%nat. simpl.
    rewrite appendStopVisits_nil. done. }
  rewrite <- Hev.
  destruct (chunkedInsert_run appendStopVisits scan.2 (setInside scan.1 w)
              appendStopVisits_app appendStopVisits_nil) as (k & Hdb & Hmem & _ & Hend).
  injection Hmem as Hc Hi Hl Hf.
  repeat split; try done.
  exists (k * CHUNK_SIZE)%nat. split; [done|]. split.
  - intros Hdone. destruct Hend as [(_ & Hl' & _)|(Ht & _)]; [|congruence].
    by rewrite take_ge.
  - intros Hbad. destruct Hend as [(Hd & _)|(_ & Hl' & _)]; done.
Qed.
End PollCycle.

(** X10. The detector commits the containment set before it stores the
    events. Whatever the database does, after [recordStopVisits] the
    containment set is the one the scan of the cycle computed and the
    [stop_visits] table has gained a prefix of the cycle's events, in order;
    when the insert throws at least one event is missing from the table
    although its pair has already been marked outside. A cycle without
    events issues no statement. *)
Theorem recordStopVisits_commits_before_insert `{Geodesy} (fetchedAt : Date)
    (vehicles : list Vehicle) (w : World) :
  let scan := recordStopVisits (cache w) fetchedAt vehicles (stopInsideByVehicle w) in
  let r := recordStopVisitsIO fetchedAt vehicles w in
  stopInsideByVehicle r.1 = scan.1 /\
  (exists n : nat,
     db r.1 = appendStopVisits (take n scan.2) (db w) /\
     (r.2 = Done tt -> take n scan.2 = scan.2) /\
     (r.2 <> Done tt -> (n < length scan.2)%nat)) /\
  (scan.2 = [] -> r = (setInside scan.1 w, Done tt)) /\
  cache r.1 = cache w /\ latestVehiclesCache r.1 = latestVehiclesCache w.
Proof.
  cbv zeta.
  destruct (recordStopVisitsIO_run fetchedAt vehicles w) as (Hi & Hc & Hl & _ & Hn).
  split; [done|]. split; [done|]. split; [|done].
  unfold recordStopVisitsIO. by intros ->.
Qed.

(** X11. A poll publishes before it persists. When the provider fetch
    fails nothing changes. When it succeeds the fetched vehicles and the
    fetch time are in the latest-vehicles cache whatever the database then
    does, and the static cache is not touched; and when storing the
    snapshots throws, the cycle stops there: the containment set, the route
    daily stats and the stop visits are as before. *)
Theorem pollVehicles_publishes_then_persists `{Geodesy} (fetchedAt : Date)
    (vehicles : list Vehicle) (w : World) :
  pollVehicles fetchedAt None w = (w, Threw "Transit API error vehicles") /\
  (let r := pollVehicles fetchedAt (Some vehicles) w in
   latestVehiclesCache r.1 = vehicles /\
   latestVehiclesFetchedAt r.1 = Some fetchedAt /\
   cache r.1 = cache w /\
   ((storeVehicleSnapshots fetchedAt vehicles (setLatest vehicles fetchedAt w)).2 <> Done tt ->
    r.2 <> Done tt /\
    stopInsideByVehicle r.1 = stopInsideByVehicle w /\
    routeDailyStatsT (db r.1) = routeDailyStatsT (db w) /\
    stopVisitsT (db r.1) = stopVisitsT (db w))).
Proof.
  split; [done|]. cbv zeta. unfold pollVehicles, bind, modify.
  destruct (storeVehicleSnapshots_frame fetchedAt vehicles (setLatest vehicles fetchedAt w))
    as [Hm1 (rows & Hd1)].
  destruct (storeVehicleSnapshots fetchedAt vehicles (setLatest vehicles fetchedAt w))
    as [w1 [[]|msg]] eqn:Hstore; simpl in Hm1, Hd1.
  2:{ simpl. injection Hm1 as Hc Hi Hl Hf. repeat split; try done.
      - by rewrite Hd1.
      - by rewrite Hd1. }
  destruct (upsertRouteDailyStats_frame fetchedAt vehicles w1) as [Hm2 _].
  destruct (upsertRouteDailyStats fetchedAt vehicles w1) as [w2 [[]|msg]] eqn:Hstats;
    simpl in Hm2.
  2:{ simpl. injection Hm1 as Hc Hi Hl Hf. injection Hm2 as Hc2 Hi2 Hl2 Hf2.
      repeat split; try congruence; done. }
  destruct (recordStopVisitsIO_run fetchedAt vehicles w2) as (_ & Hc3 & Hl3 & Hf3 & _).
  injection Hm1 as Hc Hi Hl Hf. injection Hm2 as Hc2 Hi2 Hl2 Hf2.
  repeat split; try congruence; done.
Qed.

(** ** Order statistics *)

Section OrderStatistics.
Implicit Types (values : list Q).










End OrderStatistics.



(** ** Route start statistics *)

Lemma filter_nil_iff {A} (P : A -> Prop) `{forall x, Decision (P x)} (l : list A) :
  filter P l = [] <-> forall x, x ∈ l -> ~ P x.
Proof.
  split.
  - intros Hnil x Hx HP.
    assert (x ∈ filter P l) as Hin by by apply list_elem_of_filter.
    rewrite Hnil in Hin. by apply elem_of_nil in Hin.
  - intros Hall. apply elem_of_nil_inv. intros x [HP Hx]%list_elem_of_filter.
    by apply (Hall x).
Qed.

(** X13. Route start statistics are absent exactly for a route that has no
    daily-stats row; otherwise they count between 1 and 60 samples and all
    three percentiles are present. *)
Theorem getRouteStartStats_null_iff_unseen `{HostClock} (d : Db) (routeId : Z) :
  (getRouteStartStats d routeId = None <->
   forall day, routeDailyStatsT d !! (day, routeId) = None) /\
  (forall stats, getRouteStartStats d routeId = Some stats ->
     (1 <= samples stats <= 60)%nat /\
     is_Some (p50 stats) /\ is_Some (p90 stats) /\ is_Some (p99 stats)).
Proof.
  unfold getRouteStartStats.
  set (matching := filter (fun entry : Z * Z * DailyStats => entry.1.2 = routeId)
                          (map_to_list (routeDailyStatsT d))).
  change (Z.to_nat (RETENTION_DAYS * 2)) with 60%nat.
  remember ((fun entry : Z * Z * DailyStats => timeToMinutes (firstSeenAt entry.2))
              <$> take 60 matching) as values eqn:Hvalues.
  assert (values = [] <-> matching = []) as Hnil.
  { subst values. destruct matching; simpl; split; done. }
  assert (length values <= 60)%nat as Hlen.
  { subst values. rewrite length_fmap, length_take. lia. }
  assert (matching = [] <-> forall day, routeDailyStatsT d !! (day, routeId) = None) as Hrows.
  { unfold matching. rewrite filter_nil_iff. split.
    - intros Hall day. destruct (routeDailyStatsT d !! (day, routeId)) as [row|] eqn:Hrow; [|done].
      destruct (Hall (day, routeId, row)); [by apply elem_of_map_to_list | done].
    - intros Hall [[day r] row] Hin%elem_of_map_to_list Hr. simpl in Hr. subst r.
      by rewrite Hall in Hin. }
  clear Hvalues. split.
  - rewrite <- Hrows, <- Hnil. by destruct values.
  - intros stats Hstats. destruct values as [|v rest]; [done|].
    apply (inj Some) in Hstats. rewrite <- Hstats. cbn [samples p50 p90 p99].
    assert (v :: rest <> []) as Hne by done.
    split; [cbn [length] in *; lia|].
    pose proof (percentile_is_Some (v :: rest) (1#2) Hne) as [x50 H50].
    pose proof (percentile_is_Some (v :: rest) (9#10) Hne) as [x90 H90].
    pose proof (percentile_is_Some (v :: rest) (99#100) Hne) as [x99 H99].
    rewrite H50, H90, H99. simpl. eauto.
Qed.

(** ** The containment set *)

Section ContainmentChanges.
Context `{Geodesy}.

Lemma visitStop_enters c t v rid tid obs lat lon (st : DetectorState) k (key : string) :
  key ∈ (visitStop c t v rid tid obs lat lon st k).1 ->
  key ∈ st.1 \/
  exists stop, stopById c !! k = Some stop /\ key = stopKey (id v) (stop_id stop) /\
    Qgtb (haversineMeters lat lon (stop_lat stop) (stop_lon stop)) STOP_RADIUS_METERS = false.
Proof.
  destruct (stopById c !! k) as [stop|] eqn:Hk;
    [|rewrite visitStop_unknown by done; by left].
  rewrite (visitStop_known _ _ _ _ _ _ _ _ _ _ _ Hk). simpl.
  case_bool_decide as Hin.
  - destruct (Qgtb _ STOP_EXIT_RADIUS_METERS); simpl; [|by left].
    intros [? _]%elem_of_difference. by left.
  - destruct (Qgtb _ STOP_RADIUS_METERS) eqn:Hd; simpl; [by left|].
    intros [->%elem_of_singleton|?]%elem_of_union; [|by left].
    right. exists stop. done.
Qed.

Lemma visitStop_leaves c t v rid tid obs lat lon (st : DetectorState) k (key : string) :
  key ∈ st.1 ->
  key ∈ (visitStop c t v rid tid obs lat lon st k).1 \/
  exists stop, stopById c !! k = Some stop /\ key = stopKey (id v) (stop_id stop) /\
    (STOP_EXIT_RADIUS_METERS < haversineMeters lat lon (stop_lat stop) (stop_lon stop))%Q.
Proof.
  intros Hkey. destruct (stopById c !! k) as [stop|] eqn:Hk;
    [|rewrite visitStop_unknown by done; by left].
  rewrite (visitStop_known _ _ _ _ _ _ _ _ _ _ _ Hk). simpl.
  case_bool_decide as Hin.
  - destruct (Qgtb _ STOP_EXIT_RADIUS_METERS) eqn:Hd; simpl; [|by left].
    destruct (decide (key = stopKey (id v) (stop_id stop))) as [->|Hne].
    + right. exists stop. by apply Qgtb_true in Hd.
    + left. set_solver.
  - destruct (Qgtb _ STOP_RADIUS_METERS); simpl; [by left|]. left. set_solver.
Qed.

(** A crossing of a radius by a tracked vehicle of the cycle at a stop of
    its trip: [near] for the entry radius, otherwise the exit radius. *)
Lemma scan_enters c t (vs : list Vehicle) (st : DetectorState) (key : string) :
  key ∈ (fold_left (visitVehicle c t) vs st).1 ->
  key ∈ st.1 \/
  exists v lat lon rid tid stops k stop,
    v ∈ vs /\ tracked c v lat lon rid tid stops /\ k ∈ stops /\
    stopById c !! k = Some stop /\ key = stopKey (id v) (stop_id stop) /\
    Qgtb (haversineMeters lat lon (stop_lat stop) (stop_lon stop)) STOP_RADIUS_METERS = false.
Proof.
  revert st. induction vs as [|u vs IH]; intros st; simpl; [by left|].
  intros [Hin|(v & lat & lon & rid & tid & stops & k & stop & Hv & Hrest)]%IH.
  2:{ right. exists v, lat, lon, rid, tid, stops, k, stop.
      split; [apply elem_of_cons; by right | done]. }
  destruct (visitVehicle_cases c u) as [Hid|Htr]; [rewrite Hid in Hin; by left|].
  destruct Htr as (lat & lon & rid & tid & stops & Htr).
  rewrite (visitVehicle_tracked _ _ _ _ _ _ _ _ _ Htr) in Hin.
  cut (key ∈ st.1 \/ exists k stop, k ∈ stops /\ stopById c !! k = Some stop /\
         key = stopKey (id u) (stop_id stop) /\
         Qgtb (haversineMeters lat lon (stop_lat stop) (stop_lon stop)) STOP_RADIUS_METERS = false).
  { intros [?|(k & stop & Hk & Hrest)]; [by left|].
    right. exists u, lat, lon, rid, tid, stops, k, stop.
    split; [apply elem_of_cons; by left | done]. }
  revert Hin. generalize (default t (timestamp u)) as obs. intros obs. clear Htr.
  revert st. induction stops as [|k stops IHs]; intros st; simpl; [by left|].
  intros [Hin|(k' & stop & Hk' & Hrest)]%IHs.
  - apply visitStop_enters in Hin as [?|(stop & Hs & Hrest)]; [by left|].
    right. exists k, stop. split; [apply elem_of_cons; by left | done].
  - right. exists k', stop. split; [apply elem_of_cons; by right | done].
Qed.

Lemma scan_leaves c t (vs : list Vehicle) (st : DetectorState) (key : string) :
  key ∈ st.1 ->
  key ∈ (fold_left (visitVehicle c t) vs st).1 \/
  exists v lat lon rid tid stops k stop,
    v ∈ vs /\ tracked c v lat lon rid tid stops /\ k ∈ stops /\
    stopById c !! k = Some stop /\ key = stopKey (id v) (stop_id stop) /\
    (STOP_EXIT_RADIUS_METERS < haversineMeters lat lon (stop_lat stop) (stop_lon stop))%Q.
Proof.
  revert st. induction vs as [|u vs IH]; intros st Hkey; simpl; [by left|].
  assert (key ∈ (visitVehicle c t st u).1 \/
          exists lat lon rid tid stops k stop,
            tracked c u lat lon rid tid stops /\ k ∈ stops /\
            stopById c !! k = Some stop /\ key = stopKey (id u) (stop_id stop) /\
            (STOP_EXIT_RADIUS_METERS
             < haversineMeters lat lon (stop_lat stop) (stop_lon stop))%Q) as Hstep.
  { destruct (visitVehicle_cases c u) as [Hid|Htr]; [rewrite Hid; by left|].
    destruct Htr as (lat & lon & rid & tid & stops & Htr).
    rewrite (visitVehicle_tracked _ _ _ _ _ _ _ _ _ Htr).
    cut (key ∈ (fold_left (visitStop c t u rid tid (default t (timestamp u)) lat lon)
                          stops st).1 \/
         exists k stop, k ∈ stops /\ stopById c !! k = Some stop /\
           key = stopKey (id u) (stop_id stop) /\
           (STOP_EXIT_RADIUS_METERS
            < haversineMeters lat lon (stop_lat stop) (stop_lon stop))%Q).
    { intros [?|(k & stop & Hrest)]; [by left|].
      right. exists lat, lon, rid, tid, stops, k, stop. done. }
    generalize (default t (timestamp u)) as obs. intros obs. clear Htr.
    revert st Hkey. induction stops as [|k stops IHs]; intros st Hkey; simpl; [by left|].
    destruct (visitStop_leaves c t u rid tid obs lat lon st k key Hkey)
      as [Hstay|(stop & Hs & Hrest)].
    - destruct (IHs _ Hstay) as [?|(k' & stop & Hk' & Hrest)]; [by left|].
      right. exists k', stop. split; [apply elem_of_cons; by right | done].
    - right. exists k, stop. split; [apply elem_of_cons; by left | done]. }
  destruct Hstep as [Hstay|(lat & lon & rid & tid & stops & k & stop & Hrest)].
  - destruct (IH _ Hstay) as [?|(v & lat & lon & rid & tid & stops & k & stop & Hv & Hrest)];
      [by left|].
    right. exists v, lat, lon, rid, tid, stops, k, stop.
    split; [apply elem_of_cons; by right | done].
  - right. exists u, lat, lon, rid, tid, stops, k, stop.
    split; [apply elem_of_cons; by left | done].
Qed.
End ContainmentChanges.

(** X14. The containment set changes only by the two tests. A key that a
    cycle adds to the set is the key of a vehicle entry of the cycle that
    the detector tracks and of a stop of its trip for which the entry test
    [distance > STOP_RADIUS_METERS] is false; a key that a cycle removes is
    the key of such an entry and stop more than 60 m apart. *)
Theorem containment_changes_only_by_crossing `{Geodesy} (c : StaticCache) (fetchedAt : Date)
    (vehicles : list Vehicle) (inside : gset string) (key : string) :
  let r := recordStopVisits c fetchedAt vehicles inside in
  (key ∈ r.1 -> key ∉ inside ->
   exists v lat lon rid tid stops k stop,
     v ∈ vehicles /\ tracked c v lat lon rid tid stops /\ k ∈ stops /\
     stopById c !! k = Some stop /\ key = stopKey (id v) (stop_id stop) /\
     Qgtb (haversineMeters lat lon (stop_lat stop) (stop_lon stop)) STOP_RADIUS_METERS = false) /\
  (key ∈ inside -> key ∉ r.1 ->
   exists v lat lon rid tid stops k stop,
     v ∈ vehicles /\ tracked c v lat lon rid tid stops /\ k ∈ stops /\
     stopById c !! k = Some stop /\ key = stopKey (id v) (stop_id stop) /\
     (STOP_EXIT_RADIUS_METERS < haversineMeters lat lon (stop_lat stop) (stop_lon stop))%Q).
Proof.
  cbv zeta. unfold recordStopVisits. destruct (stopsCache c) as [|s0 ss]; [done|].
  split.
  - intros Hin Hout. by destruct (scan_enters c fetchedAt vehicles (inside, []) key Hin).
  - intros Hin Hout. by destruct (scan_leaves c fetchedAt vehicles (inside, []) key Hin).
Qed.

(** ** Predictions and the history they come from *)

Section PredictionsWithinHistory.



End PredictionsWithinHistory.


(** ** The order of the samples *)

Section SampleOrder.

Lemma Qle_bool_Qeq (x x' y y' : Q) :
  (x == x')%Q -> (y == y')%Q -> Qle_bool x y = Qle_bool x' y'.
Proof.
  intros Hx Hy. apply eq_true_iff_eq. rewrite !Qle_bool_iff. by rewrite Hx, Hy.
Qed.

Lemma insertNum_Qeq (x x' : Q) (a b : list Q) :
  (x == x')%Q -> Forall2 Qeq a b -> Forall2 Qeq (insertNum x a) (insertNum x' b).
Proof.
  intros Hx Hab. induction Hab as [|y y' a b Hy Hab IH]; simpl.
  - by repeat constructor.
  - rewrite (Qle_bool_Qeq x x' y y' Hx Hy).
    destruct (Qle_bool x' y'); by repeat constructor.
Qed.

Lemma Forall2_Qeq_refl (l : list Q) : Forall2 Qeq l l.
Proof. induction l; constructor; [reflexivity | done]. Qed.

Lemma Qle_bool_total_false (x y : Q) : Qle_bool x y = false -> Qle_bool y x = true.
Proof.
  intros Hf. apply Qle_bool_iff, Qlt_le_weak, Qnot_le_lt.
  intros Hle%Qle_bool_iff. congruence.
Qed.

(** Inserting two numbers in either order gives the same numbers in order. *)
Lemma insertNum_swap (x y : Q) (l : list Q) :
  Forall2 Qeq (insertNum y (insertNum x l)) (insertNum x (insertNum y l)).
Proof.
  induction l as [|h t IH]; simpl.
  - destruct (Qle_bool y x) eqn:Hyx, (Qle_bool x y) eqn:Hxy;
      try apply Forall2_Qeq_refl.
    + apply Qle_bool_iff in Hyx, Hxy.
      assert (x == y)%Q by by apply Qle_antisym.
      repeat constructor; first [done | by symmetry].
    + apply Qle_bool_total_false in Hyx. congruence.
  - destruct (Qle_bool x h) eqn:Hxh, (Qle_bool y h) eqn:Hyh; simpl;
      rewrite ?Hxh, ?Hyh.
    + destruct (Qle_bool y x) eqn:Hyx, (Qle_bool x y) eqn:Hxy; simpl;
        rewrite ?Hxh, ?Hyh; try apply Forall2_Qeq_refl.
      * apply Qle_bool_iff in Hyx, Hxy.
        assert (x == y)%Q by by apply Qle_antisym.
        repeat constructor; first [done | by symmetry].
      * apply Qle_bool_total_false in Hyx. congruence.
    + (* x <= h < y *)
      assert (Qle_bool y x = false) as ->.
      { apply not_true_iff_false. intros Hyx%Qle_bool_iff.
        apply Qle_bool_iff in Hxh. apply not_true_iff_false in Hyh. apply Hyh.
        apply Qle_bool_iff. by eapply Qle_trans. }
      simpl. rewrite ?Hxh, ?Hyh. simpl. rewrite ?Hxh, ?Hyh. apply Forall2_Qeq_refl.
    + (* y <= h < x *)
      assert (Qle_bool x y = false) as ->.
      { apply not_true_iff_false. intros Hxy%Qle_bool_iff.
        apply Qle_bool_iff in Hyh. apply not_true_iff_false in Hxh. apply Hxh.
        apply Qle_bool_iff. by eapply Qle_trans. }
      simpl. rewrite ?Hxh, ?Hyh. simpl. rewrite ?Hxh, ?Hyh. apply Forall2_Qeq_refl.
    + constructor; [reflexivity | exact IH].
Qed.

Lemma Forall2_Qeq_trans (a b c : list Q) :
  Forall2 Qeq a b -> Forall2 Qeq b c -> Forall2 Qeq a c.
Proof.
  intros Hab. revert c. induction Hab as [|x y a b Hxy Hab IH]; intros c Hbc.
  - by inversion Hbc.
  - inversion Hbc as [|y' z b' c' Hyz Hbc']; subst. constructor; [by etrans | by apply IH].
Qed.

Lemma sortNum_Permutation (l1 l2 : list Q) :
  Permutation l1 l2 -> Forall2 Qeq (sortNum l1) (sortNum l2).
Proof.
  induction 1 as [|x l1 l2 Hp IH|x y l|l1 l2 l3 H12 IH12 H23 IH23]; simpl.
  - constructor.
  - by apply insertNum_Qeq.
  - apply insertNum_swap.
  - by eapply Forall2_Qeq_trans.
Qed.

Lemma percentile_Forall2 (v v' : list Q) (p : Q) :
  Forall2 Qeq (sortNum v) (sortNum v') ->
  option_Forall2 Qeq (percentile v p) (percentile v' p).
Proof.
  intros Hs. pose proof (Forall2_length _ _ _ Hs) as Hlen.
  rewrite !sortNum_length in Hlen.
  destruct v as [|x v], v' as [|x' v']; simpl in Hlen; try lia; [constructor|].
  rewrite !percentile_unfold. cbv zeta.
  rewrite !sortNum_length. simpl length. rewrite <- Hlen.
  set (last := inject_Z (Z.of_nat (S (length v)) - 1)).
  set (idx := Qmax 0 (Qmin last (p * last))).
  assert (forall i, option_Forall2 Qeq (sortNum (x :: v) !! i) (sortNum (x' :: v') !! i)) as Hl.
  { intros i. by apply Forall2_lookup. }
  destruct (Qfloor idx =? Qceiling idx); [apply Hl|].
  pose proof (Hl (Z.to_nat (Qfloor idx))) as H1.
  pose proof (Hl (Z.to_nat (Qceiling idx))) as H2.
  destruct H1 as [lo lo' Hlo|]; cbn [mbind option_bind]; [|constructor].
  destruct H2 as [hi hi' Hhi|]; cbn [mbind option_bind]; [|constructor].
  constructor. rewrite !Qred_correct. by rewrite Hlo, Hhi.
Qed.

Lemma minutesToTime_Qeq (x y : Q) : (x == y)%Q -> minutesToTime x = minutesToTime y.
Proof. intros Hxy. unfold minutesToTime, jsRound. by rewrite Hxy. Qed.
End SampleOrder.

(** X16. The order of the samples does not matter. Two lists with the same
    samples in another order have the same percentile (as numbers) and the
    same formatted percentile; and historical days given in another order
    give the same predicted times. *)
Theorem percentile_order_irrelevant (values values' : list Q) (p : Q)
    (dayValues dayValues' : list (list Q)) :
  Permutation values values' -> Permutation dayValues dayValues' ->
  option_Forall2 Qeq (percentile values p) (percentile values' p) /\
  minutesToTime <$> percentile values p = minutesToTime <$> percentile values' p /\
  Forall2 Qeq (buildPredictedTimes dayValues) (buildPredictedTimes dayValues').
Proof.
  intros Hv Hd.
  pose proof (percentile_Forall2 values values' p (sortNum_Permutation _ _ Hv)) as Hp.
  split; [done|]. split.
  - destruct Hp as [x y Hxy|]; simpl; [|done]. f_equal. by apply minutesToTime_Qeq.
  - destruct (buildPredictedTimes_runs dayValues) as [-> _].
    destruct (buildPredictedTimes_runs dayValues') as [-> _].
    assert (maxRuns dayValues = maxRuns dayValues') as <-.
    { clear Hv. induction Hd as [|x l1 l2 Hp' IH|x y l|l1 l2 l3 H12 IH12 H23 IH23];
        simpl; lia. }
    assert (forall i, option_Forall2 Qeq (percentile (runSamples dayValues i) (1#2))
                                         (percentile (runSamples dayValues' i) (1#2))) as Hrun.
    { intros i. apply percentile_Forall2, sortNum_Permutation.
      unfold runSamples. by apply omap_Permutation. }
    induction (seq 0 (maxRuns dayValues)) as [|i idxs IH]; simpl; [constructor|].
    destruct (Hrun i) as [x y Hxy|]; [by constructor | done].
Qed.

(** The samples 5, 1, 9 and 9, 5, 1; two days in either order. *)
Lemma percentile_order_irrelevant_witness :
  option_Forall2 Qeq (percentile [5#1; 1#1; 9#1]%Q (9#10))
                     (percentile [9#1; 5#1; 1#1]%Q (9#10)) /\
  minutesToTime <$> percentile [5#1; 1#1; 9#1]%Q (9#10)
  = minutesToTime <$> percentile [9#1; 5#1; 1#1]%Q (9#10) /\
  Forall2 Qeq (buildPredictedTimes [[481#1; 496#1]; [483#1]]%Q)
              (buildPredictedTimes [[483#1]; [481#1; 496#1]]%Q).
Proof.
  apply (percentile_order_irrelevant [5#1; 1#1; 9#1]%Q [9#1; 5#1; 1#1]%Q (9#10)
           [[481#1; 496#1]; [483#1]]%Q [[483#1]; [481#1; 496#1]]%Q).
  - symmetry. apply (Permutation_cons_append [5#1; 1#1]%Q (9#1)%Q).
  - apply perm_swap.
Defined.

(** ** Events and the feed *)

(** X17. With the caches built from a feed, every event of a cycle is for a
    vehicle of the cycle on a trip of the feed, carries that trip's route,
    which is the route the vehicle reports, and is at a stop of the feed
    that a stop time of the feed puts on that trip; its distance is the
    distance of the vehicle to that stop and exceeds the exit radius. *)
Theorem events_follow_the_feed `{Geodesy} (tripsData : list Trip) (stopsData : list Stop)
    (stopTimesData : list StopTime) (fetchedAt : Date) (vehicles : list Vehicle)
    (inside : gset string) (e : StopVisit) :
  e ∈ (recordStopVisits (buildStaticCaches tripsData stopsData stopTimesData)
                        fetchedAt vehicles inside).2 ->
  exists v trip stopTime stop lat lon,
    v ∈ vehicles /\ trip ∈ tripsData /\ stopTime ∈ stopTimesData /\ stop ∈ stopsData /\
    sv_vehicleId e = id v /\
    trip_id v = Some (t_trip_id trip) /\ sv_tripId e = Some (t_trip_id trip) /\
    route_id v = Some (t_route_id trip) /\ sv_routeId e = Some (t_route_id trip) /\
    st_trip_id stopTime = t_trip_id trip /\ st_stop_id stopTime = sv_stopId e /\
    stop_id stop = sv_stopId e /\
    latitude v = Some lat /\ longitude v = Some lon /\
    sv_distanceMeters e = haversineMeters lat lon (stop_lat stop) (stop_lon stop) /\
    (STOP_EXIT_RADIUS_METERS < sv_distanceMeters e)%Q.
Proof.
  intros (v & lat & lon & rid & tid & stops & k & stop & Hv & Htr & Hk & Hs & -> & Hd)
         %recordStopVisits_events.
  destruct Htr as (Hlat & Hlon & Hrid & Htid & _ & (ti & Hti & Hroute) & Hstops & _).
  simpl in Hs, Hti, Hstops.
  destruct (tripMap_fold tripsData [] ∅) as [Ht1 _];
    [by intros ?? ?%lookup_empty_Some | by intros ? ?%elem_of_nil |].
  destruct (stopSets_fold stopTimesData [] ∅) as [Hs1 _];
    [by intros ?? ?%lookup_empty_Some | by intros ? ?%elem_of_nil |].
  simpl in Ht1, Hs1.
  destruct (Ht1 _ _ Hti) as (trip & Htrip & <- & ->).
  destruct (Hs1 _ _ Hstops) as (_ & _ & Hmem).
  apply Hmem in Hk as (stopTime & Hst & Htt & Hss).
  apply stopMapOf_Some in Hs as [Hstop Hsid].
  exists v, trip, stopTime, stop, lat, lon. simpl in *. subst rid.
  repeat split; try done. congruence.
Qed.

(** The bus of the example leaves stop 42 of the feed. *)
Lemma events_follow_the_feed_witness :
  let e := @exitEvent streetGeodesy (mkDate 0) (busAt (65#1)) 7 "T7a" (mkDate 0)
             (65#1) 0%Q stop42 in
  exists v trip stopTime stop lat lon,
    v ∈ [busAt (65#1)] /\ trip ∈ [tripT7a] /\ stopTime ∈ [stopTimeT7a] /\
    stop ∈ [stop42] /\
    sv_vehicleId e = id v /\
    trip_id v = Some (t_trip_id trip) /\ sv_tripId e = Some (t_trip_id trip) /\
    route_id v = Some (t_route_id trip) /\ sv_routeId e = Some (t_route_id trip) /\
    st_trip_id stopTime = t_trip_id trip /\ st_stop_id stopTime = sv_stopId e /\
    stop_id stop = sv_stopId e /\
    latitude v = Some lat /\ longitude v = Some lon /\
    sv_distanceMeters e
    = @haversineMeters streetGeodesy lat lon (stop_lat stop) (stop_lon stop) /\
    (STOP_EXIT_RADIUS_METERS < sv_distanceMeters e)%Q.
Proof.
  apply (@events_follow_the_feed streetGeodesy [tripT7a] [stop42] [stopTimeT7a]
           (mkDate 0) [busAt (65#1)] {[ stopKey 1 42 ]}).
  apply list_elem_of_singleton. reflexivity.
Defined.

(** ** No visit without an approach *)

Section NoPhantomVisits.
Context `{Geodesy}.

Lemma scan_enters_zone c t (vs : list Vehicle) (st : DetectorState) (vid sid : Z) :
  stopKey vid sid ∈ (fold_left (visitVehicle c t) vs st).1 ->
  stopKey vid sid ∈ st.1 \/ entersZone c vs vid sid.
Proof.
  intros [Hin|(v & lat & lon & rid & tid & stops & k & stop & Hv & Htr & Hk & Hs & Hkey & Hd)]
         %scan_enters; [by left|].
  right. apply stopKey_inj in Hkey as [-> ->].
  exists v, lat, lon, rid, tid, stops, k, stop. done.
Qed.

Lemma entersZone_mono c (vs vs' : list Vehicle) (vid sid : Z) :
  (forall v, v ∈ vs -> v ∈ vs') -> entersZone c vs vid sid -> entersZone c vs' vid sid.
Proof.
  intros Hsub (v & lat & lon & rid & tid & stops & k & stop & Hv & Hrest).
  exists v, lat, lon, rid, tid, stops, k, stop. split; [by apply Hsub | done].
Qed.

(** An event of a cycle is for a pair that was inside when the cycle began
    or that entered during the cycle. *)
Lemma scan_event_was_inside c t (vs : list Vehicle) (st : DetectorState) (e : StopVisit) :
  e ∈ (fold_left (visitVehicle c t) vs st).2 ->
  e ∈ st.2 \/ stopKey (sv_vehicleId e) (sv_stopId e) ∈ st.1 \/
  entersZone c vs (sv_vehicleId e) (sv_stopId e).
Proof.
  revert st. induction vs as [|u vs IH]; intros st; simpl; [by left|].
  intros [He|[Hkey|Hz]]%IH.
  - (* the event is of the first entry *)
    destruct (visitVehicle_cases c u) as [Hid|Htr]; [rewrite Hid in He; by left|].
    destruct Htr as (lat & lon & rid & tid & stops & Htr).
    rewrite (visitVehicle_tracked _ _ _ _ _ _ _ _ _ Htr) in He.
    cut (e ∈ st.2 \/ stopKey (sv_vehicleId e) (sv_stopId e) ∈ st.1 \/
         entersZone c [u] (sv_vehicleId e) (sv_stopId e)).
    { intros [?|[?|Hz]]; [by left | by right; left|].
      right; right. eapply entersZone_mono; [|exact Hz].
      intros v ->%list_elem_of_singleton. apply elem_of_cons. by left. }
    assert (forall stops' st',
              (forall k, k ∈ stops' -> k ∈ stops) ->
              e ∈ (fold_left (visitStop c t u rid tid (default t (timestamp u)) lat lon)
                             stops' st').2 ->
              e ∈ st'.2 \/ stopKey (sv_vehicleId e) (sv_stopId e) ∈ st'.1 \/
              entersZone c [u] (sv_vehicleId e) (sv_stopId e)) as Hstops.
    { induction stops' as [|k stops' IHs]; intros st' Hsub; simpl; [by left|].
      intros [He'|[Hkey'|Hz']]%IHs; [| |by right; right|].
      - apply visitStop_events in He' as [?|(stop & Hs & -> & Hkey' & _)]; [by left|].
        right; left. done.
      - apply visitStop_enters in Hkey' as [?|(stop & Hs & Hkey' & Hd)]; [by right; left|].
        right; right. apply stopKey_inj in Hkey' as [Hv' Hs'].
        exists u, lat, lon, rid, tid, stops, k, stop.
        split; [by apply list_elem_of_singleton|]. split; [done|].
        split; [apply Hsub, elem_of_cons; by left | done].
      - intros k' Hk'. apply Hsub, elem_of_cons. by right. }
    by apply (Hstops stops st).
  - (* the pair was inside after the first entry *)
    assert (stopKey (sv_vehicleId e) (sv_stopId e) ∈ (fold_left (visitVehicle c t) [u] st).1)
      as Hin by done.
    apply scan_enters_zone in Hin as [?|Hz]; [by right; left|].
    right; right. eapply entersZone_mono; [|exact Hz].
    intros v ->%list_elem_of_singleton. apply elem_of_cons. by left.
  - right; right. eapply entersZone_mono; [|exact Hz].
    intros v Hv. apply elem_of_cons. by right.
Qed.

Lemma recordStopVisits_event_was_inside c t vs inside (e : StopVisit) :
  e ∈ (recordStopVisits c t vs inside).2 ->
  stopKey (sv_vehicleId e) (sv_stopId e) ∈ inside \/
  entersZone c vs (sv_vehicleId e) (sv_stopId e).
Proof.
  unfold recordStopVisits. destruct (stopsCache c); [by intros ?%elem_of_nil|].
  intros [He|Hrest]%scan_event_was_inside; [by apply elem_of_nil in He | done].
Qed.

Lemma recordStopVisits_enters_zone c t vs inside (vid sid : Z) :
  stopKey vid sid ∈ (recordStopVisits c t vs inside).1 ->
  stopKey vid sid ∈ inside \/ entersZone c vs vid sid.
Proof.
  unfold recordStopVisits. destruct (stopsCache c); [by left|].
  apply scan_enters_zone.
Qed.

Lemma runCyclesOver_event_was_inside (cycles : list (StaticCache * Date * list Vehicle))
    (inside : gset string) (j : nat) (events : list StopVisit) (e : StopVisit) :
  (runCyclesOver cycles inside).2 !! j = Some events -> e ∈ events ->
  stopKey (sv_vehicleId e) (sv_stopId e) ∈ inside \/
  exists i c t vs, (i <= j)%nat /\ cycles !! i = Some (c, t, vs) /\
                   entersZone c vs (sv_vehicleId e) (sv_stopId e).
Proof.
  revert inside j. induction cycles as [|[[c t] vs] cycles IH]; intros inside j; simpl.
  - by rewrite lookup_nil.
  - destruct j as [|j]; simpl.
    + intros [= <-] He.
      apply recordStopVisits_event_was_inside in He as [?|Hz]; [by left|].
      right. exists 0%nat, c, t, vs. split; [lia|]. done.
    + intros Hj He. destruct (IH _ _ Hj He) as [Hin|(i & c' & t' & vs' & Hi & Hc & Hz)].
      * apply recordStopVisits_enters_zone in Hin as [?|Hz]; [by left|].
        right. exists 0%nat, c, t, vs. split; [lia|]. done.
      * right. exists (S i), c', t', vs'. split; [lia|]. done.
Qed.
End NoPhantomVisits.

(** X18. No visit without passing the entry test. Starting with an empty
    containment set, every event of a run of poll cycles, each with the
    caches it reads (so also across refreshes that rebuild them), is for a
    (vehicle, stop) pair of identifiers for which, in the same or an earlier
    cycle, a tracked entry of that vehicle passed the entry test, [distance >
    STOP_RADIUS_METERS] false, at a stop of that identifier that the caches
    of that cycle put on the trip it reported. *)
Theorem no_visit_without_approach `{Geodesy}
    (cycles : list (StaticCache * Date * list Vehicle)) (j : nat)
    (events : list StopVisit) (e : StopVisit) :
  (runCyclesOver cycles ∅).2 !! j = Some events -> e ∈ events ->
  exists i c t vs, (i <= j)%nat /\ cycles !! i = Some (c, t, vs) /\
                   entersZone c vs (sv_vehicleId e) (sv_stopId e).
Proof.
  intros Hj He.
  destruct (runCyclesOver_event_was_inside cycles ∅ j events e Hj He) as [Hin|Hex]; [|done].
  by apply elem_of_empty in Hin.
Qed.

(** The bus of the example: at 40 m in cycle 0, gone in cycle 1. *)
Lemma no_visit_without_approach_witness :
  let e := @exitEvent streetGeodesy (mkDate 15000) (busAt (65#1)) 7 "T7a" (mkDate 15000)
             (65#1) 0%Q stop42 in
  exists i c t vs, (i <= 1)%nat /\
    [ (demoCache, mkDate 0, [busAt (40#1)]); (demoCache, mkDate 15000, [busAt (65#1)]) ] !! i
    = Some (c, t, vs) /\
    @entersZone streetGeodesy c vs (sv_vehicleId e) (sv_stopId e).
Proof.
  apply (@no_visit_without_approach streetGeodesy
           [ (demoCache, mkDate 0, [busAt (40#1)]);
             (demoCache, mkDate 15000, [busAt (65#1)]) ] 1%nat
           [@exitEvent streetGeodesy (mkDate 15000) (busAt (65#1)) 7 "T7a" (mkDate 15000)
              (65#1) 0%Q stop42]).
  - reflexivity.
  - by apply list_elem_of_singleton.
Defined.

(** ** One visit per pair and cycle *)

Section OneVisitPerCycle.
Context `{Geodesy}.

Lemma fold_visitVehicle_inert c t (vs : list Vehicle) st vid sid :
  (forall u st', u ∈ vs -> pairView vid sid (visitVehicle c t st' u) = pairView vid sid st') ->
  pairView vid sid (fold_left (visitVehicle c t) vs st) = pairView vid sid st.
Proof.
  revert st. induction vs as [|u vs IH]; intros st Hinert; simpl; [done|].
  rewrite IH by (intros u' st' Hu'; apply Hinert, elem_of_cons; by right).
  apply Hinert, elem_of_cons. by left.
Qed.

(** What one cycle does to a pair, when no two entries share a vehicle
    identifier: nothing, or one step of the pair's automaton. *)
Lemma scan_pair_step c t (vs : list Vehicle) st vid sid :
  stopById_keyed c ->
  (forall u v, u ∈ vs -> v ∈ vs -> id u = id v -> u = v) ->
  pairView vid sid (fold_left (visitVehicle c t) vs st) = pairView vid sid st \/
  exists d e, pairView vid sid (fold_left (visitVehicle c t) vs st)
              = stepPair d e (pairView vid sid st).
Proof.
  intros Hwf Huniq.
  destruct (decide (vid ∈ (id <$> vs))) as [Hin|Hout].
  - apply list_elem_of_fmap in Hin as (v & -> & Hv).
    destruct (visitVehicle_cases c v) as [Hid|Htr].
    { left. apply fold_visitVehicle_inert. intros u st' Hu.
      destruct (decide (id u = id v)) as [Heq|Hne].
      - rewrite (Huniq u v Hu Hv Heq). by rewrite Hid.
      - by apply visitVehicle_other_id. }
    destruct Htr as (lat & lon & rid & tid & stops & Htr).
    destruct (stopById c !! sid) as [stop|] eqn:Hs.
    + destruct (decide (sid ∈ stops)) as [Hsid|Hsid].
      * right. eexists _, _.
        apply (fold_visitVehicle_single _ _ _ _ _ _ _ _ _ _ _ _ Hwf Hs Htr Hsid Hv).
        intros u Hu Heq. by apply Huniq.
      * left. apply fold_visitVehicle_inert. intros u st' Hu.
        destruct (decide (id u = id v)) as [Heq|Hne]; [|by apply visitVehicle_other_id].
        rewrite (Huniq u v Hu Hv Heq).
        rewrite (visitVehicle_tracked _ _ _ _ _ _ _ _ _ Htr).
        apply fold_visitStop_other. intros k stop' Hk Hk' [_ Hsame].
        apply Hwf in Hk'. simpl in Hk'. congruence.
    + left. apply fold_visitVehicle_inert. intros u st' Hu.
      destruct (decide (id u = id v)) as [Heq|Hne]; [|by apply visitVehicle_other_id].
      rewrite (Huniq u v Hu Hv Heq).
      rewrite (visitVehicle_tracked _ _ _ _ _ _ _ _ _ Htr).
      apply fold_visitStop_other. intros k stop' Hk Hk' [_ Hsame].
      pose proof (Hwf _ _ Hk') as Hkey. simpl in Hkey. congruence.
  - left. apply fold_visitVehicle_absent. intros u Hu Heq.
    apply Hout. rewrite <- Heq. by apply list_elem_of_fmap_2.
Qed.
End OneVisitPerCycle.

(** X19. One visit per pair and cycle. When the stop lookup files every
    stop under its own identifier and no two entries of a cycle share a
    vehicle identifier, the cycle records for each (vehicle, stop) pair
    either no event, or exactly one; in the latter case the pair was in the
    containment set when the cycle began and is out of it when the cycle
    ends. *)
Theorem one_visit_per_pair_and_cycle `{Geodesy} (c : StaticCache) (fetchedAt : Date)
    (vehicles : list Vehicle) (inside : gset string) (vehicleId stopId : Z) :
  stopById_keyed c ->
  (forall u v, u ∈ vehicles -> v ∈ vehicles -> id u = id v -> u = v) ->
  let r := recordStopVisits c fetchedAt vehicles inside in
  eventsFor vehicleId stopId r.2 = [] \/
  exists e, eventsFor vehicleId stopId r.2 = [e] /\
            stopKey vehicleId stopId ∈ inside /\ stopKey vehicleId stopId ∉ r.1.
Proof.
  intros Hwf Huniq r. subst r. unfold recordStopVisits.
  destruct (stopsCache c); [by left|].
  destruct (scan_pair_step c fetchedAt vehicles (inside, []) vehicleId stopId Hwf Huniq)
    as [Hsame|(d & e & Hstep)].
  - left. by apply (f_equal snd) in Hsame.
  - unfold pairView, stepPair in Hstep. simpl in Hstep.
    injection Hstep as Hbit Hevs. rewrite Hevs.
    destruct (bool_decide (stopKey vehicleId stopId ∈ inside)) eqn:Hin; simpl; [|by left].
    destruct (Qgtb d STOP_EXIT_RADIUS_METERS) eqn:Hd; simpl; [|by left].
    right. exists e. split; [done|].
    apply bool_decide_eq_true in Hin. split; [done|].
    unfold hysteresis in Hbit. rewrite Hd in Hbit. simpl in Hbit.
    by apply bool_decide_eq_false in Hbit.
Qed.

(** The bus of the example leaves stop 42: one event. *)
Lemma one_visit_per_pair_and_cycle_witness :
  let r := @recordStopVisits streetGeodesy demoCache (mkDate 0) [busAt (65#1)]
             {[ stopKey 1 42 ]} in
  eventsFor 1 42 r.2 = [] \/
  exists e, eventsFor 1 42 r.2 = [e] /\
            stopKey 1 42 ∈ ({[ stopKey 1 42 ]} : gset string) /\ stopKey 1 42 ∉ r.1.
Proof.
  apply (@one_visit_per_pair_and_cycle streetGeodesy demoCache (mkDate 0) [busAt (65#1)]
           {[ stopKey 1 42 ]} 1 42).
  - exact demoCache_keyed.
  - intros u v ->%list_elem_of_singleton ->%list_elem_of_singleton _. reflexivity.
Defined.

(** ** Static refresh *)

Section StaticRefresh.

Lemma bind_done {A B} (m : IO A) (k : A -> IO B) (w w2 : World) (b : B) :
  bind m k w = (w2, Done b) -> exists w1 a, m w = (w1, Done a) /\ k a w1 = (w2, Done b).
Proof.
  unfold bind. destruct (m w) as [w1 [a|msg]]; [|done]. intros Hk. by exists w1, a.
Qed.

Lemma bind_threw {A B} (m : IO A) (k : A -> IO B) (w w2 : World) (msg : string) :
  bind m k w = (w2, Threw msg) ->
  m w = (w2, Threw msg) \/ exists w1 a, m w = (w1, Done a) /\ k a w1 = (w2, Threw msg).
Proof.
  unfold bind. destruct (m w) as [w1 [a|msg']].
  - intros Hk. right. by exists w1, a.
  - intros [= -> ->]. by left.
Qed.

Lemma dbExec_done (f : Db -> Db) (w w1 : World) (u : unit) :
  dbExec f w = (w1, Done u) -> db w1 = f (db w) /\ memoryOf w1 = memoryOf w.
Proof.
  unfold dbExec. destruct w as [d c i l lf fs]; simpl.
  destruct fs as [|[] fs]; intros [= <-]; done.
Qed.

Lemma dbExec_done_fault (f : Db -> Db) (w w1 : World) (u : unit) :
  dbExec f w = (w1, Done u) -> faults w !! 0%nat <> Some true.
Proof.
  unfold dbExec. destruct w as [d c i l lf fs]; simpl.
  destruct fs as [|[] fs]; intros [= <-]; done.
Qed.

Lemma dbExec_threw (f : Db -> Db) (w w1 : World) (msg : string) :
  dbExec f w = (w1, Threw msg) ->
  db w1 = db w /\ memoryOf w1 = memoryOf w /\ faults w !! 0%nat = Some true.
Proof.
  unfold dbExec. destruct w as [d c i l lf fs]; simpl.
  destruct fs as [|[] fs]; intros [= <-]; done.
Qed.

Lemma dbExec_ok (f : Db -> Db) (w : World) :
  faults w !! 0%nat = Some false -> (dbExec f w).2 = Done tt.
Proof. unfold dbExec. by destruct (faults w) as [|[] fs]. Qed.

Lemma upsertRoutes_run (clock : nat -> Date) (data : list Route) (w : World) :
  let r := upsertRoutes clock data w in
  memoryOf r.1 = memoryOf w /\
  ((r.2 = Done tt /\
    db r.1 = setRoutesT
               (fold_left (fun table row => <[ r_route_id (rr_route row) := row ]> table)
                          (stampRoutes clock data) (routesT (db w))) (db w)) \/
   (r.2 = Threw "database error" /\ db r.1 = db w)).
Proof.
  unfold upsertRoutes. destruct data as [|route data].
  - simpl. split; [done|]. left. split; [done|]. by destruct (db w).
  - unfold dbExec. destruct w as [d c i l lf fs]; simpl.
    destruct fs as [|[] fs]; simpl; (split; [done|]); first [by left | by right].
Qed.

Lemma loadStopsCache_run (w : World) :
  let r := loadStopsCache w in
  db r.1 = db w /\
  stopInsideByVehicle r.1 = stopInsideByVehicle w /\
  latestVehiclesCache r.1 = latestVehiclesCache w /\
  latestVehiclesFetchedAt r.1 = latestVehiclesFetchedAt w /\
  ((r.2 = Done tt /\
    cache r.1 = {| stopsCache := stopsT (db w); stopById := stopMapOf (stopsT (db w));
                   tripByIdCache := tripByIdCache (cache w);
                   stopIdsByTripId := stopIdsByTripId (cache w) |}) \/
   (r.2 = Threw "database error" /\ cache r.1 = cache w)).
Proof.
  unfold loadStopsCache, bind, dbQuery, modify. destruct w as [d c i l lf fs]; simpl.
  destruct fs as [|[] fs]; simpl; repeat split; first [by left | by right].
Qed.

Lemma chunkedInsert_prefix {T} (insert : list T -> Db -> Db) (rows : list T) (w : World) :
  (forall a b d, insert b (insert a d) = insert (a ++ b) d) ->
  (forall d, insert [] d = d) ->
  let r := chunkedInsert insert rows w in
  memoryOf r.1 = memoryOf w /\
  exists n : nat,
    db r.1 = insert (take n rows) (db w) /\
    ((r.2 = Done tt /\ take n rows = rows) \/
     (r.2 = Threw "database error" /\ (n < length rows)%nat)).
Proof.
  intros Happ Hnil.
  destruct (chunkedInsert_run insert rows w Happ Hnil) as (k & Hdb & Hmem & _ & Hout).
  split; [done|]. exists (k * CHUNK_SIZE)%nat. split; [done|].
  destruct Hout as [(Hd & Hlen & _)|(Ht & Hlen & _)].
  - left. split; [done|]. by apply take_ge.
  - right. done.
Qed.

Lemma appendTrips_app (a b : list Trip) (d : Db) :
  appendTrips b (appendTrips a d) = appendTrips (a ++ b) d.
Proof. unfold appendTrips. simpl. by rewrite app_assoc. Qed.
Lemma appendTrips_nil (d : Db) : appendTrips [] d = d.
Proof. unfold appendTrips. rewrite app_nil_r. by destruct d. Qed.
Lemma appendStops_app (a b : list Stop) (d : Db) :
  appendStops b (appendStops a d) = appendStops (a ++ b) d.
Proof. unfold appendStops. simpl. by rewrite app_assoc. Qed.
Lemma appendStops_nil (d : Db) : appendStops [] d = d.
Proof. unfold appendStops. rewrite app_nil_r. by destruct d. Qed.
Lemma appendStopTimes_app (a b : list StopTime) (d : Db) :
  appendStopTimes b (appendStopTimes a d) = appendStopTimes (a ++ b) d.
Proof. unfold appendStopTimes. simpl. by rewrite app_assoc. Qed.
Lemma appendStopTimes_nil (d : Db) : appendStopTimes [] d = d.
Proof. unfold appendStopTimes. rewrite app_nil_r. by destruct d. Qed.
Lemma appendShapes_app (a b : list ShapePoint) (d : Db) :
  appendShapes b (appendShapes a d) = appendShapes (a ++ b) d.
Proof. unfold appendShapes. simpl. by rewrite app_assoc. Qed.
Lemma appendShapes_nil (d : Db) : appendShapes [] d = d.
Proof. unfold appendShapes. rewrite app_nil_r. by destruct d. Qed.

End StaticRefresh.

Section RefreshOutcomes.

Lemma memoryOf_eq (w w1 : World) :
  memoryOf w1 = memoryOf w ->
  cache w1 = cache w /\ stopInsideByVehicle w1 = stopInsideByVehicle w /\
  latestVehiclesCache w1 = latestVehiclesCache w /\
  latestVehiclesFetchedAt w1 = latestVehiclesFetchedAt w.
Proof. unfold memoryOf. by intros [= -> -> -> ->]. Qed.

Lemma chunkedInsert_done {T} (insert : list T -> Db -> Db) (rows : list T) (w w1 : World)
    (u : unit) :
  (forall a b d, insert b (insert a d) = insert (a ++ b) d) ->
  (forall d, insert [] d = d) ->
  chunkedInsert insert rows w = (w1, Done u) ->
  db w1 = insert rows (db w) /\ memoryOf w1 = memoryOf w.
Proof.
  intros Happ Hnil Hrun.
  destruct (chunkedInsert_prefix insert rows w Happ Hnil) as (Hmem & n & Hdb & Hout).
  rewrite Hrun in Hmem, Hdb, Hout. simpl in *.
  destruct Hout as [[_ Htake]|[? _]]; [|done]. by rewrite Htake in Hdb.
Qed.

Lemma chunkedInsert_threw {T} (insert : list T -> Db -> Db) (rows : list T) (w w1 : World)
    (msg : string) :
  (forall a b d, insert b (insert a d) = insert (a ++ b) d) ->
  (forall d, insert [] d = d) ->
  chunkedInsert insert rows w = (w1, Threw msg) ->
  (exists n : nat, db w1 = insert (take n rows) (db w) /\ (n < length rows)%nat) /\
  memoryOf w1 = memoryOf w.
Proof.
  intros Happ Hnil Hrun.
  destruct (chunkedInsert_prefix insert rows w Happ Hnil) as (Hmem & n & Hdb & Hout).
  rewrite Hrun in Hmem, Hdb, Hout. simpl in *.
  destruct Hout as [[? _]|[_ Hlen]]; [done|]. split; [|done]. by exists n.
Qed.

Lemma upsertRoutes_done (clock : nat -> Date) (data : list Route) (w w1 : World) (u : unit) :
  upsertRoutes clock data w = (w1, Done u) ->
  db w1 = setRoutesT
            (fold_left (fun table row => <[ r_route_id (rr_route row) := row ]> table)
                          (stampRoutes clock data) (routesT (db w))) (db w) /\
  memoryOf w1 = memoryOf w.
Proof.
  intros Hrun. destruct (upsertRoutes_run clock data w) as [Hmem Hout].
  rewrite Hrun in Hmem, Hout. simpl in *.
  destruct Hout as [[_ Hdb]|[? _]]; done.
Qed.

Lemma upsertRoutes_threw (clock : nat -> Date) (data : list Route) (w w1 : World) (msg : string) :
  upsertRoutes clock data w = (w1, Threw msg) -> db w1 = db w /\ memoryOf w1 = memoryOf w.
Proof.
  intros Hrun. destruct (upsertRoutes_run clock data w) as [Hmem Hout].
  rewrite Hrun in Hmem, Hout. simpl in *.
  destruct Hout as [[? _]|[_ Hdb]]; done.
Qed.

Lemma loadStopsCache_done (w w1 : World) (u : unit) :
  loadStopsCache w = (w1, Done u) ->
  db w1 = db w /\
  cache w1 = {| stopsCache := stopsT (db w); stopById := stopMapOf (stopsT (db w));
                tripByIdCache := tripByIdCache (cache w);
                stopIdsByTripId := stopIdsByTripId (cache w) |} /\
  stopInsideByVehicle w1 = stopInsideByVehicle w /\
  latestVehiclesCache w1 = latestVehiclesCache w /\
  latestVehiclesFetchedAt w1 = latestVehiclesFetchedAt w.
Proof.
  intros Hrun. destruct (loadStopsCache_run w) as (Hdb & Hi & Hl & Hf & Hout).
  rewrite Hrun in Hdb, Hi, Hl, Hf, Hout. simpl in *.
  destruct Hout as [[_ Hc]|[? _]]; done.
Qed.

Lemma loadStopsCache_threw (w w1 : World) (msg : string) :
  loadStopsCache w = (w1, Threw msg) -> db w1 = db w /\ memoryOf w1 = memoryOf w.
Proof.
  intros Hrun. destruct (loadStopsCache_run w) as (Hdb & Hi & Hl & Hf & Hout).
  rewrite Hrun in Hdb, Hi, Hl, Hf, Hout. simpl in *.
  destruct Hout as [[? _]|[_ Hc]]; [done|]. split; [done|].
  unfold memoryOf. by rewrite Hc, Hi, Hl, Hf.
Qed.

End RefreshOutcomes.

(** The state a successful refresh leaves. *)
Lemma refreshStaticData_done_state (clock : nat -> Date) (feed : StaticFeed)
    (w : World) :
  let r := refreshStaticData clock (Some feed) w in
  r.2 = Done tt ->
  tripsT (db r.1) = feedTrips feed /\ stopsT (db r.1) = feedStops feed /\
  stopTimesT (db r.1) = feedStopTimes feed /\ shapesT (db r.1) = feedShapes feed /\
  (forall k, (forall route, route ∈ feedRoutes feed -> r_route_id route <> k) ->
             routesT (db r.1) !! k = routesT (db w) !! k) /\
  (NoDup (r_route_id <$> feedRoutes feed) ->
   forall i route, feedRoutes feed !! i = Some route ->
     routesT (db r.1) !! r_route_id route
     = Some {| rr_route := route; rr_updatedAt := clock i |}) /\
  cache r.1 = buildStaticCaches (feedTrips feed) (feedStops feed) (feedStopTimes feed) /\
  vehicleSnapshotsT (db r.1) = vehicleSnapshotsT (db w) /\
  stopVisitsT (db r.1) = stopVisitsT (db w) /\
  routeDailyStatsT (db r.1) = routeDailyStatsT (db w) /\
  stopInsideByVehicle r.1 = stopInsideByVehicle w /\
  latestVehiclesCache r.1 = latestVehiclesCache w /\
  latestVehiclesFetchedAt r.1 = latestVehiclesFetchedAt w.
Proof.
  intros r. subst r. destruct (refreshStaticData clock (Some feed) w) as [wf out] eqn:Hrun.
  simpl. intros ->. unfold refreshStaticData in Hrun.
  apply bind_done in Hrun as (w1 & [] & H1 & Hrun).
  apply bind_done in Hrun as (w2 & [] & H2 & Hrun).
  apply bind_done in Hrun as (w3 & [] & H3 & Hrun).
  apply bind_done in Hrun as (w4 & [] & H4 & Hrun).
  apply bind_done in Hrun as (w5 & [] & H5 & Hrun).
  apply bind_done in Hrun as (w6 & [] & H6 & Hrun).
  apply bind_done in Hrun as (w7 & [] & H7 & Hrun).
  apply bind_done in Hrun as (w8 & [] & H8 & Hrun).
  apply bind_done in Hrun as (w9 & [] & H9 & Hrun).
  apply bind_done in Hrun as (w10 & [] & H10 & Hrun).
  apply dbExec_done in H1 as [D1 (C1 & I1 & L1 & F1)%memoryOf_eq].
  apply dbExec_done in H2 as [D2 (C2 & I2 & L2 & F2)%memoryOf_eq].
  apply dbExec_done in H3 as [D3 (C3 & I3 & L3 & F3)%memoryOf_eq].
  apply dbExec_done in H4 as [D4 (C4 & I4 & L4 & F4)%memoryOf_eq].
  apply upsertRoutes_done in H5 as [D5 (C5 & I5 & L5 & F5)%memoryOf_eq].
  apply chunkedInsert_done in H6 as [D6 (C6 & I6 & L6 & F6)%memoryOf_eq];
    [|apply appendTrips_app|apply appendTrips_nil].
  apply chunkedInsert_done in H7 as [D7 (C7 & I7 & L7 & F7)%memoryOf_eq];
    [|apply appendStops_app|apply appendStops_nil].
  apply loadStopsCache_done in H8 as (D8 & C8 & I8 & L8 & F8).
  apply chunkedInsert_done in H9 as [D9 (C9 & I9 & L9 & F9)%memoryOf_eq];
    [|apply appendStopTimes_app|apply appendStopTimes_nil].
  apply chunkedInsert_done in H10 as [D10 (C10 & I10 & L10 & F10)%memoryOf_eq];
    [|apply appendShapes_app|apply appendShapes_nil].
  unfold modify in Hrun. injection Hrun as <-.
  assert (db w10 = {| routesT := fold_left (fun table row => <[ r_route_id (rr_route row) := row ]> table)
                       (stampRoutes clock (feedRoutes feed)) (routesT (db w));
                      tripsT := feedTrips feed; stopsT := feedStops feed;
                      stopTimesT := feedStopTimes feed; shapesT := feedShapes feed;
                      vehicleSnapshotsT := vehicleSnapshotsT (db w);
                      stopVisitsT := stopVisitsT (db w);
                      routeDailyStatsT := routeDailyStatsT (db w) |}) as Hdb.
  { rewrite D10, D9, D8, D7, D6, D5, D4, D3, D2, D1. reflexivity. }
  simpl. rewrite Hdb. simpl.
  repeat split; try congruence.
  - intros k Hk. by apply fold_routes_absent.
  - intros Hnodup i route Hroute. by apply fold_routes_present.
Qed.

(** X20. A refresh that succeeds replaces the reference data. The tables
    [trips], [stops], [stop_times] and [shapes] hold exactly the feed, the
    rows of before gone; [routes] is only upserted, so a route the feed no
    longer names keeps its row, and when the feed names each route once
    every route of the feed has its record, stamped with the clock reading
    taken for that route; the caches are those built from the feed;
    and the snapshots, the stop visits, the route daily stats, the
    containment set and the latest-vehicles cache are as before. *)
Theorem refreshStaticData_replaces_reference_data (clock : nat -> Date) (feed : StaticFeed)
    (w : World) :
  let r := refreshStaticData clock (Some feed) w in
  r.2 = Done tt ->
  tripsT (db r.1) = feedTrips feed /\ stopsT (db r.1) = feedStops feed /\
  stopTimesT (db r.1) = feedStopTimes feed /\ shapesT (db r.1) = feedShapes feed /\
  (forall k, (forall route, route ∈ feedRoutes feed -> r_route_id route <> k) ->
             routesT (db r.1) !! k = routesT (db w) !! k) /\
  (NoDup (r_route_id <$> feedRoutes feed) ->
   forall i route, feedRoutes feed !! i = Some route ->
     routesT (db r.1) !! r_route_id route
     = Some {| rr_route := route; rr_updatedAt := clock i |}) /\
  cache r.1 = buildStaticCaches (feedTrips feed) (feedStops feed) (feedStopTimes feed) /\
  vehicleSnapshotsT (db r.1) = vehicleSnapshotsT (db w) /\
  stopVisitsT (db r.1) = stopVisitsT (db w) /\
  routeDailyStatsT (db r.1) = routeDailyStatsT (db w) /\
  stopInsideByVehicle r.1 = stopInsideByVehicle w /\
  latestVehiclesCache r.1 = latestVehiclesCache w /\
  latestVehiclesFetchedAt r.1 = latestVehiclesFetchedAt w.
Proof. exact (refreshStaticData_done_state clock feed w). Qed.

(** A refresh over a store that holds route 7 and its trip: the feed names
    route 9 only. *)
Lemma refreshStaticData_replaces_reference_data_witness :
  let r := refreshStaticData (fun i => mkDate (1000 + Z.of_nat i)) (Some feedRoute9)
             (route7World []) in
  tripsT (db r.1) = [tripT9a] /\ stopsT (db r.1) = [stop43] /\
  stopTimesT (db r.1) = [stopTimeT9a] /\ shapesT (db r.1) = [] /\
  (forall k, (forall route, route ∈ [route9] -> r_route_id route <> k) ->
             routesT (db r.1) !! k = routesT (db (route7World [])) !! k) /\
  (NoDup (r_route_id <$> [route9]) ->
   forall i route, [route9] !! i = Some route ->
     routesT (db r.1) !! r_route_id route
     = Some {| rr_route := route; rr_updatedAt := mkDate (1000 + Z.of_nat i) |}) /\
  cache r.1 = buildStaticCaches [tripT9a] [stop43] [stopTimeT9a] /\
  vehicleSnapshotsT (db r.1) = [] /\
  stopVisitsT (db r.1) = [] /\
  routeDailyStatsT (db r.1) = ∅ /\
  stopInsideByVehicle r.1 = {[ stopKey 1 42 ]} /\
  latestVehiclesCache r.1 = [] /\
  latestVehiclesFetchedAt r.1 = None.
Proof.
  apply (refreshStaticData_replaces_reference_data (fun i => mkDate (1000 + Z.of_nat i))
           feedRoute9 (route7World [])).
  reflexivity.
Defined.

(** The state a failed refresh leaves. *)
Lemma refreshStaticData_threw_state (clock : nat -> Date) (feed : StaticFeed) (w : World) :
  let r := refreshStaticData clock (Some feed) w in
   r.2 <> Done tt ->
   tripByIdCache (cache r.1) = tripByIdCache (cache w) /\
   stopIdsByTripId (cache r.1) = stopIdsByTripId (cache w) /\
   (cache r.1 = cache w \/
    (stopsCache (cache r.1) = feedStops feed /\
     stopById (cache r.1) = stopMapOf (feedStops feed) /\
     tripsT (db r.1) = feedTrips feed /\ stopsT (db r.1) = feedStops feed)) /\
   ((faults w !! 0%nat = Some true /\ db r.1 = db w /\ cache r.1 = cache w) \/
    (faults w !! 0%nat <> Some true /\
     (exists n, tripsT (db r.1) = take n (feedTrips feed)) /\
     (stopsT (db r.1) = stopsT (db w) \/
      exists n, stopsT (db r.1) = take n (feedStops feed)) /\
     (stopTimesT (db r.1) = stopTimesT (db w) \/
      exists n, stopTimesT (db r.1) = take n (feedStopTimes feed)) /\
     (shapesT (db r.1) = shapesT (db w) \/
      exists n, shapesT (db r.1) = take n (feedShapes feed)))) /\
   (forall k, (forall route, route ∈ feedRoutes feed -> r_route_id route <> k) ->
              routesT (db r.1) !! k = routesT (db w) !! k) /\
   vehicleSnapshotsT (db r.1) = vehicleSnapshotsT (db w) /\
   stopVisitsT (db r.1) = stopVisitsT (db w) /\
   routeDailyStatsT (db r.1) = routeDailyStatsT (db w) /\
   stopInsideByVehicle r.1 = stopInsideByVehicle w /\
   latestVehiclesCache r.1 = latestVehiclesCache w /\
   latestVehiclesFetchedAt r.1 = latestVehiclesFetchedAt w.
Proof.
  intros r. subst r. destruct (refreshStaticData clock (Some feed) w) as [wf out] eqn:Hrun.
  simpl. intros Hout. destruct out as [[]|msg]; [done|]. clear Hout.
  unfold refreshStaticData in Hrun.
  apply bind_threw in Hrun as [H1 | (w1 & [] & H1 & Hrun)].
  { apply dbExec_threw in H1 as (D1 & (C1 & I1 & L1 & F1)%memoryOf_eq & Hf).
    rewrite D1, C1. repeat split; try done; by left. }
  pose proof (dbExec_done_fault _ _ _ _ H1) as Hf.
  apply dbExec_done in H1 as [D1 (C1 & I1 & L1 & F1)%memoryOf_eq].
  apply bind_threw in Hrun as [H2 | (w2 & [] & H2 & Hrun)].
  { apply dbExec_threw in H2 as (D2 & (C2 & I2 & L2 & F2)%memoryOf_eq & _).
    rewrite D2, D1. simpl.
    repeat split; try congruence.
    - left. congruence.
    - right. split; [done|]. split; [by exists 0%nat|]. repeat split; by left. }
  apply dbExec_done in H2 as [D2 (C2 & I2 & L2 & F2)%memoryOf_eq].
  apply bind_threw in Hrun as [H3 | (w3 & [] & H3 & Hrun)].
  { apply dbExec_threw in H3 as (D3 & (C3 & I3 & L3 & F3)%memoryOf_eq & _).
    rewrite D3, D2, D1. simpl.
    repeat split; try congruence.
    - left. congruence.
    - right. split; [done|]. split; [by exists 0%nat|].
      split; [right; by exists 0%nat|]. split; by left. }
  apply dbExec_done in H3 as [D3 (C3 & I3 & L3 & F3)%memoryOf_eq].
  apply bind_threw in Hrun as [H4 | (w4 & [] & H4 & Hrun)].
  { apply dbExec_threw in H4 as (D4 & (C4 & I4 & L4 & F4)%memoryOf_eq & _).
    rewrite D4, D3, D2, D1. simpl.
    repeat split; try congruence.
    - left. congruence.
    - right. split; [done|]. split; [by exists 0%nat|].
      split; [right; by exists 0%nat|]. split; [right; by exists 0%nat | by left]. }
  apply dbExec_done in H4 as [D4 (C4 & I4 & L4 & F4)%memoryOf_eq].
  apply bind_threw in Hrun as [H5 | (w5 & [] & H5 & Hrun)].
  { apply upsertRoutes_threw in H5 as (D5 & (C5 & I5 & L5 & F5)%memoryOf_eq).
    rewrite D5, D4, D3, D2, D1. simpl.
    repeat split; try congruence.
    - left. congruence.
    - right. split; [done|]. split; [by exists 0%nat|].
      split; [right; by exists 0%nat|]. split; right; by exists 0%nat. }
  apply upsertRoutes_done in H5 as [D5 (C5 & I5 & L5 & F5)%memoryOf_eq].
  apply bind_threw in Hrun as [H6 | (w6 & [] & H6 & Hrun)].
  { apply chunkedInsert_threw in H6 as [(n & D6 & Hn) (C6 & I6 & L6 & F6)%memoryOf_eq];
      [|apply appendTrips_app|apply appendTrips_nil].
    rewrite D6, D5, D4, D3, D2, D1. simpl.
    repeat split; try congruence.
    - left. congruence.
    - right. split; [done|]. split; [by exists n|].
      split; [right; by exists 0%nat|]. split; right; by exists 0%nat.
    - intros k Hk. by apply fold_routes_absent. }
  apply chunkedInsert_done in H6 as [D6 (C6 & I6 & L6 & F6)%memoryOf_eq];
    [|apply appendTrips_app|apply appendTrips_nil].
  apply bind_threw in Hrun as [H7 | (w7 & [] & H7 & Hrun)].
  { apply chunkedInsert_threw in H7 as [(n & D7 & Hn) (C7 & I7 & L7 & F7)%memoryOf_eq];
      [|apply appendStops_app|apply appendStops_nil].
    rewrite D7, D6, D5, D4, D3, D2, D1. simpl.
    repeat split; try congruence.
    - left. congruence.
    - right. split; [done|].
      split; [exists (length (feedTrips feed)); by rewrite firstn_all|].
      split; [right; by exists n|]. split; right; by exists 0%nat.
    - intros k Hk. by apply fold_routes_absent. }
  apply chunkedInsert_done in H7 as [D7 (C7 & I7 & L7 & F7)%memoryOf_eq];
    [|apply appendStops_app|apply appendStops_nil].
  apply bind_threw in Hrun as [H8 | (w8 & [] & H8 & Hrun)].
  { apply loadStopsCache_threw in H8 as (D8 & (C8 & I8 & L8 & F8)%memoryOf_eq).
    rewrite D8, D7, D6, D5, D4, D3, D2, D1. simpl.
    repeat split; try congruence.
    - left. congruence.
    - right. split; [done|].
      split; [exists (length (feedTrips feed)); by rewrite firstn_all|].
      split; [right; exists (length (feedStops feed)); by rewrite firstn_all|].
      split; right; by exists 0%nat.
    - intros k Hk. by apply fold_routes_absent. }
  apply loadStopsCache_done in H8 as (D8 & C8 & I8 & L8 & F8).
  assert (cache w8 = {| stopsCache := feedStops feed; stopById := stopMapOf (feedStops feed);
                        tripByIdCache := tripByIdCache (cache w);
                        stopIdsByTripId := stopIdsByTripId (cache w) |}) as C8'.
  { rewrite C8, D7, C7, C6, C5, C4, C3, C2, C1, D6, D5, D4, D3, D2, D1. reflexivity. }
  clear C8.
  apply bind_threw in Hrun as [H9 | (w9 & [] & H9 & Hrun)].
  { apply chunkedInsert_threw in H9 as [(n & D9 & Hn) (C9 & I9 & L9 & F9)%memoryOf_eq];
      [|apply appendStopTimes_app|apply appendStopTimes_nil].
    rewrite C9, C8', D9, D8, D7, D6, D5, D4, D3, D2, D1. simpl.
    repeat split; try congruence.
    - by right.
    - right. split; [done|].
      split; [exists (length (feedTrips feed)); by rewrite firstn_all|].
      split; [right; exists (length (feedStops feed)); by rewrite firstn_all|].
      split; right; [by exists n | by exists 0%nat].
    - intros k Hk. by apply fold_routes_absent. }
  apply chunkedInsert_done in H9 as [D9 (C9 & I9 & L9 & F9)%memoryOf_eq];
    [|apply appendStopTimes_app|apply appendStopTimes_nil].
  apply bind_threw in Hrun as [H10 | (w10 & [] & H10 & Hrun)].
  { apply chunkedInsert_threw in H10 as [(n & D10 & Hn) (C10 & I10 & L10 & F10)%memoryOf_eq];
      [|apply appendShapes_app|apply appendShapes_nil].
    rewrite C10, C9, C8', D10, D9, D8, D7, D6, D5, D4, D3, D2, D1. simpl.
    repeat split; try congruence.
    - by right.
    - right. split; [done|].
      split; [exists (length (feedTrips feed)); by rewrite firstn_all|].
      split; [right; exists (length (feedStops feed)); by rewrite firstn_all|].
      split; right; [exists (length (feedStopTimes feed)); by rewrite firstn_all
                    | by exists n].
    - intros k Hk. by apply fold_routes_absent. }
  done.
Qed.

(** X21. A refresh that fails is not undone. A failed provider fetch
    changes nothing. A failure of a database statement leaves what the
    statements before it did: unless the very first statement failed, the
    rows that [trips] held are gone and the table holds a prefix of the
    feed's trips, and each of [stops], [stop_times] and [shapes] is as
    before or a prefix of the feed; the trip caches are still the old ones,
    and the stop cache is the old one or already the feed's. The routes the
    feed does not name, the snapshots, the stop visits, the route daily
    stats, the containment set and the latest-vehicles cache are as
    before. *)
Theorem refreshStaticData_failure_is_not_undone (clock : nat -> Date) (feed : StaticFeed) (w : World) :
  refreshStaticData clock None w = (w, Threw "Transit API error") /\
  (let r := refreshStaticData clock (Some feed) w in
   r.2 <> Done tt ->
   tripByIdCache (cache r.1) = tripByIdCache (cache w) /\
   stopIdsByTripId (cache r.1) = stopIdsByTripId (cache w) /\
   (cache r.1 = cache w \/
    (stopsCache (cache r.1) = feedStops feed /\
     stopById (cache r.1) = stopMapOf (feedStops feed) /\
     tripsT (db r.1) = feedTrips feed /\ stopsT (db r.1) = feedStops feed)) /\
   ((faults w !! 0%nat = Some true /\ db r.1 = db w /\ cache r.1 = cache w) \/
    (faults w !! 0%nat <> Some true /\
     (exists n, tripsT (db r.1) = take n (feedTrips feed)) /\
     (stopsT (db r.1) = stopsT (db w) \/
      exists n, stopsT (db r.1) = take n (feedStops feed)) /\
     (stopTimesT (db r.1) = stopTimesT (db w) \/
      exists n, stopTimesT (db r.1) = take n (feedStopTimes feed)) /\
     (shapesT (db r.1) = shapesT (db w) \/
      exists n, shapesT (db r.1) = take n (feedShapes feed)))) /\
   (forall k, (forall route, route ∈ feedRoutes feed -> r_route_id route <> k) ->
              routesT (db r.1) !! k = routesT (db w) !! k) /\
   vehicleSnapshotsT (db r.1) = vehicleSnapshotsT (db w) /\
   stopVisitsT (db r.1) = stopVisitsT (db w) /\
   routeDailyStatsT (db r.1) = routeDailyStatsT (db w) /\
   stopInsideByVehicle r.1 = stopInsideByVehicle w /\
   latestVehiclesCache r.1 = latestVehiclesCache w /\
   latestVehiclesFetchedAt r.1 = latestVehiclesFetchedAt w).
Proof. split; [done|]. exact (refreshStaticData_threw_state clock feed w). Qed.

(** The refresh of the example fails at its second statement: the trips of
    the store are gone, the caches still know them. *)
Lemma refreshStaticData_failure_is_not_undone_witness :
  let w := route7World [false; true] in
  let r := refreshStaticData (fun _ => mkDate 1000) (Some feedRoute9) w in
  tripByIdCache (cache r.1) = tripByIdCache (cache w) /\
  stopIdsByTripId (cache r.1) = stopIdsByTripId (cache w) /\
  (cache r.1 = cache w \/
   (stopsCache (cache r.1) = [stop43] /\
    stopById (cache r.1) = stopMapOf [stop43] /\
    tripsT (db r.1) = [tripT9a] /\ stopsT (db r.1) = [stop43])) /\
  ((faults w !! 0%nat = Some true /\ db r.1 = db w /\ cache r.1 = cache w) \/
   (faults w !! 0%nat <> Some true /\
    (exists n, tripsT (db r.1) = take n [tripT9a]) /\
    (stopsT (db r.1) = stopsT (db w) \/ exists n, stopsT (db r.1) = take n [stop43]) /\
    (stopTimesT (db r.1) = stopTimesT (db w) \/
     exists n, stopTimesT (db r.1) = take n [stopTimeT9a]) /\
    (shapesT (db r.1) = shapesT (db w) \/
     exists n, shapesT (db r.1) = take n (@nil ShapePoint)))) /\
  (forall k, (forall route, route ∈ [route9] -> r_route_id route <> k) ->
             routesT (db r.1) !! k = routesT (db w) !! k) /\
  vehicleSnapshotsT (db r.1) = vehicleSnapshotsT (db w) /\
  stopVisitsT (db r.1) = stopVisitsT (db w) /\
  routeDailyStatsT (db r.1) = routeDailyStatsT (db w) /\
  stopInsideByVehicle r.1 = stopInsideByVehicle w /\
  latestVehiclesCache r.1 = latestVehiclesCache w /\
  latestVehiclesFetchedAt r.1 = latestVehiclesFetchedAt w.
Proof.
  apply (proj2 (refreshStaticData_failure_is_not_undone (fun _ => mkDate 1000) feedRoute9
                  (route7World [false; true]))).
  intros H. discriminate H.
Defined.

(** ** The process *)

Section Process.
Context `{Geodesy}.

Lemma pollVehicles_frame (fetchedAt : Date) (fetched : option (list Vehicle)) (w : World) :
  let r := pollVehicles fetchedAt fetched w in
  cache r.1 = cache w /\
  match fetched with
  | Some vehicles =>
      latestVehiclesCache r.1 = vehicles /\ latestVehiclesFetchedAt r.1 = Some fetchedAt
  | None => r.1 = w
  end.
Proof.
  destruct fetched as [vehicles|]; [|done].
  cbv zeta. unfold pollVehicles, bind, modify.
  destruct (storeVehicleSnapshots_frame fetchedAt vehicles (setLatest vehicles fetchedAt w))
    as [Hm1 _].
  destruct (storeVehicleSnapshots fetchedAt vehicles (setLatest vehicles fetchedAt w))
    as [w1 [[]|msg]] eqn:Hstore; simpl in Hm1;
    apply memoryOf_eq in Hm1 as (C1 & I1 & L1 & F1); [|done].
  destruct (upsertRouteDailyStats_frame fetchedAt vehicles w1) as [Hm2 _].
  destruct (upsertRouteDailyStats fetchedAt vehicles w1) as [w2 [[]|msg]] eqn:Hstats;
    simpl in Hm2; apply memoryOf_eq in Hm2 as (C2 & I2 & L2 & F2);
    simpl in C1, L1, F1; [|simpl; repeat split; congruence].
  destruct (recordStopVisitsIO_run fetchedAt vehicles w2) as (_ & C3 & L3 & F3 & _).
  repeat split; congruence.
Qed.

Lemma cleanupOldSnapshots_frame (now : Date) (w : World) :
  let r := cleanupOldSnapshots now w in
  memoryOf r.1 = memoryOf w /\
  (forall row, row ∈ stopVisitsT (db r.1) -> row ∈ stopVisitsT (db w)).
Proof.
  destruct w as [d c i l lf fs]. unfold cleanupOldSnapshots, bind, dbExec. simpl.
  destruct fs as [|[] [|[] fs]]; simpl; split; try done;
    intros row Hrow; by apply list_elem_of_filter in Hrow as [_ ?].
Qed.

Lemma refreshStaticData_cache (clock : nat -> Date) (fetched : option StaticFeed) (w : World) :
  let r := refreshStaticData clock fetched w in
  stopById (cache w) = stopMapOf (stopsCache (cache w)) ->
  stopById (cache r.1) = stopMapOf (stopsCache (cache r.1)).
Proof.
  destruct fetched as [feed|]; [|done]. cbv zeta. intros Hinv.
  destruct (refreshStaticData clock (Some feed) w) as [wf [[]|msg]] eqn:Hrun.
  - pose proof (refreshStaticData_done_state clock feed w) as Hd.
    rewrite Hrun in Hd. simpl in Hd.
    destruct (Hd eq_refl) as (_ & _ & _ & _ & _ & _ & Hc & _). simpl. by rewrite Hc.
  - pose proof (refreshStaticData_threw_state clock feed w) as Ht.
    rewrite Hrun in Ht. simpl in Ht.
    destruct (Ht ltac:(done)) as (_ & _ & [Hc|(Hs & Hm & _)] & _); simpl.
    + by rewrite Hc.
    + by rewrite Hs, Hm.
Qed.

Lemma refreshStaticData_memory (clock : nat -> Date) (fetched : option StaticFeed) (w : World) :
  let r := refreshStaticData clock fetched w in
  stopInsideByVehicle r.1 = stopInsideByVehicle w /\
  latestVehiclesCache r.1 = latestVehiclesCache w /\
  latestVehiclesFetchedAt r.1 = latestVehiclesFetchedAt w /\
  stopVisitsT (db r.1) = stopVisitsT (db w).
Proof.
  destruct fetched as [feed|]; [|done]. cbv zeta.
  destruct (refreshStaticData clock (Some feed) w) as [wf [[]|msg]] eqn:Hrun.
  - pose proof (refreshStaticData_done_state clock feed w) as Hd.
    rewrite Hrun in Hd. simpl in Hd.
    destruct (Hd eq_refl) as (_ & _ & _ & _ & _ & _ & _ & _ & ? & _ & ? & ? & ?). done.
  - pose proof (refreshStaticData_threw_state clock feed w) as Ht.
    rewrite Hrun in Ht. simpl in Ht.
    destruct (Ht ltac:(done)) as (_ & _ & _ & _ & _ & _ & ? & _ & ? & ? & ?); done.
Qed.

Lemma runJob_latest (job : Job) (w : World) :
  let w1 := caught (runJob job) w in
  (latestVehiclesCache w1, latestVehiclesFetchedAt w1) =
  match fetchOf job with
  | Some (fetchedAt, vehicles) => (vehicles, Some fetchedAt)
  | None => (latestVehiclesCache w, latestVehiclesFetchedAt w)
  end.
Proof.
  cbv zeta. unfold caught. destruct job as [t fetched|clock fetched|now|]; cbn [runJob fetchOf].
  - destruct (pollVehicles_frame t fetched w) as [_ Hl].
    destruct fetched as [vehicles|].
    + destruct Hl as [Hl Hf]. by rewrite Hl, Hf.
    + by rewrite Hl.
  - destruct (refreshStaticData_memory clock fetched w) as (_ & Hl & Hf & _). by rewrite Hl, Hf.
  - destruct (cleanupOldSnapshots_frame now w) as [(_ & _ & Hl & Hf)%memoryOf_eq _].
    by rewrite Hl, Hf.
  - destruct (loadStopsCache_run w) as (_ & _ & Hl & Hf & _). by rewrite Hl, Hf.
Qed.

Lemma runJobs_latest (jobs : list Job) (w : World) :
  let w1 := runJobs jobs w in
  (latestVehiclesCache w1, latestVehiclesFetchedAt w1) =
  match lastFetch jobs with
  | Some (fetchedAt, vehicles) => (vehicles, Some fetchedAt)
  | None => (latestVehiclesCache w, latestVehiclesFetchedAt w)
  end.
Proof.
  cbv zeta. induction jobs as [|job jobs IH] using rev_ind; [done|].
  unfold runJobs in *. rewrite fold_left_app. simpl.
  rewrite runJob_latest. unfold lastFetch in *. rewrite omap_app. simpl.
  destruct (fetchOf job) as [[t vs]|]; simpl.
  - by rewrite last_snoc.
  - by rewrite app_nil_r.
Qed.

Lemma runJob_cache (job : Job) (w : World) :
  stopById (cache w) = stopMapOf (stopsCache (cache w)) ->
  stopById (cache (caught (runJob job) w))
  = stopMapOf (stopsCache (cache (caught (runJob job) w))).
Proof.
  intros Hinv. unfold caught. destruct job as [t fetched|clock fetched|now|]; cbn [runJob].
  - destruct (pollVehicles_frame t fetched w) as [Hc _]. by rewrite Hc.
  - by apply refreshStaticData_cache.
  - destruct (cleanupOldSnapshots_frame now w) as [(Hc & _)%memoryOf_eq _]. by rewrite Hc.
  - destruct (loadStopsCache_run w) as (_ & _ & _ & _ & [[_ Hc]|[_ Hc]]); by rewrite Hc.
Qed.

Lemma stopById_of_stopsCache_keyed (c : StaticCache) :
  stopById c = stopMapOf (stopsCache c) -> stopById_keyed c.
Proof.
  intros Hinv k stop Hk. rewrite Hinv in Hk. by apply stopMapOf_Some in Hk as [_ ?].
Qed.

End Process.

(** X22. The proxy serves the most recent fetch. After any schedule of
    jobs, taken one at a time, [GET /api/proxy/vehicles] answers with the
    vehicles and the fetch time of the most recent poll whose provider fetch
    succeeded, whether or not that poll could store anything; when that poll
    fetched no vehicle it asks the provider instead; and a process that
    started with empty caches never answers with a cycle that has no fetch
    time. A resource that is not one of the six is a 404 without a fetch. *)
Theorem proxy_serves_latest_fetch `{Geodesy} {J} (fetchJson : string -> option J)
    (jobs : list Job) (w : World) :
  (match lastFetch jobs with
   | Some (fetchedAt, vehicle :: vehicles) =>
       proxyHandler fetchJson "vehicles" (runJobs jobs w)
       = Done (LastCycle (Some fetchedAt) (vehicle :: vehicles))
   | Some (_, []) =>
       proxyHandler fetchJson "vehicles" (runJobs jobs w)
       = match fetchJson "vehicles"%string with
         | Some data => Done (FromProvider data)
         | None => Threw "Transit API error"
         end
   | None =>
       proxyHandler fetchJson "vehicles" (runJobs jobs w)
       = proxyHandler fetchJson "vehicles" w
   end) /\
  (forall d oracle resource vehicles,
     proxyHandler fetchJson resource (runJobs jobs (initialWorld d oracle))
     <> Done (LastCycle None vehicles)) /\
  (forall resource w', resource ∉ proxyResources ->
     proxyHandler fetchJson resource w' = Done NotFound).
Proof.
  split; [|split].
  - pose proof (runJobs_latest jobs w) as Hl. cbv zeta in Hl.
    unfold proxyHandler. simpl.
    destruct (lastFetch jobs) as [[t [|v vs]]|]; injection Hl as -> ->; done.
  - intros d oracle resource vehicles.
    pose proof (runJobs_latest jobs (initialWorld d oracle)) as Hl. cbv zeta in Hl.
    unfold proxyHandler.
    destruct (bool_decide (resource ∈ proxyResources)); [|done].
    destruct (lastFetch jobs) as [[t vs]|]; injection Hl as -> ->; simpl.
    + destruct (_ && _); [done|]. by destruct (fetchJson resource).
    + rewrite andb_false_r. by destruct (fetchJson resource).
  - intros resource w' Hres. unfold proxyHandler.
    by rewrite bool_decide_eq_false_2.
Qed.

(** X23. The stop lookup of a running process is well keyed. After any
    schedule of jobs, taken one at a time from the start of the process,
    [stopById] is the map made of [stopsCache], so every stop of the lookup
    is filed under its own identifier: the detector's results that assume so
    hold of every cycle of the process. *)
Theorem stop_lookup_stays_keyed `{Geodesy} (jobs : list Job) (d : Db) (oracle : list bool) :
  let w := runJobs jobs (initialWorld d oracle) in
  stopById (cache w) = stopMapOf (stopsCache (cache w)) /\ stopById_keyed (cache w).
Proof.
  cbv zeta.
  assert (stopById (cache (runJobs jobs (initialWorld d oracle)))
          = stopMapOf (stopsCache (cache (runJobs jobs (initialWorld d oracle))))) as Hinv.
  { induction jobs as [|job jobs IH] using rev_ind; [done|].
    unfold runJobs in *. rewrite fold_left_app. simpl. by apply runJob_cache. }
  split; [done | by apply stopById_of_stopsCache_keyed].
Qed.

(** ** Stop analytics *)

Section OrderedMaps.
Context {V : Type}.
Implicit Types (m : list (Z * V)) (f : V -> V).

Lemma omLookup_omAlter f (init : V) (k k' : Z) m :
  omLookup k' (omAlter f init k m)
  = if bool_decide (k = k') then Some (f (default init (omLookup k m))) else omLookup k' m.
Proof.
  induction m as [|[k0 v] m IH]; simpl; [done|].
  destruct (decide (k0 = k)) as [->|Hne].
  - rewrite (bool_decide_eq_true_2 (k = k)) by done. simpl.
    destruct (decide (k = k')) as [->|Hne'].
    + by rewrite !bool_decide_eq_true_2.
    + by rewrite !bool_decide_eq_false_2.
  - rewrite (bool_decide_eq_false_2 (k0 = k)) by done. simpl. rewrite IH.
    destruct (decide (k = k')) as [->|Hne'].
    + rewrite (bool_decide_eq_true_2 (k' = k')) by done.
      by rewrite (bool_decide_eq_false_2 (k0 = k')).
    + rewrite (bool_decide_eq_false_2 (k = k')) by done. done.
Qed.

Lemma omAlter_keys f (init : V) (k : Z) m :
  (omAlter f init k m).*1
  = match omLookup k m with Some _ => m.*1 | None => m.*1 ++ [k] end.
Proof.
  induction m as [|[k0 v] m IH]; csimpl; [done|].
  case_bool_decide; csimpl; [done|]. rewrite IH. by destruct (omLookup k m).
Qed.

Lemma omLookup_None (k : Z) m : omLookup k m = None <-> k ∉ m.*1.
Proof.
  induction m as [|[k0 v] m IH]; simpl.
  - split; [intros _; apply not_elem_of_nil | done].
  - rewrite not_elem_of_cons. case_bool_decide; simplify_eq.
    + split; [done | intros [? _]; done].
    + rewrite IH. split; [intros ?; split; [congruence | done] | by intros [_ ?]].
Qed.

Lemma omAlter_NoDup f (init : V) (k : Z) m : NoDup m.*1 -> NoDup (omAlter f init k m).*1.
Proof.
  intros Hnd. rewrite omAlter_keys. destruct (omLookup k m) eqn:Hk; [done|].
  apply NoDup_app. split; [done|]. split; [|apply NoDup_singleton].
  intros x Hx ->%list_elem_of_singleton. by apply omLookup_None in Hk.
Qed.

Lemma omLookup_elem (k : Z) (v : V) m : omLookup k m = Some v -> (k, v) ∈ m.
Proof.
  induction m as [|[k0 v0] m IH]; simpl; [done|].
  case_bool_decide; simplify_eq.
  - intros [= ->]. apply elem_of_cons. by left.
  - intros Hk. apply elem_of_cons. right. by apply IH.
Qed.

Lemma elem_omLookup (k : Z) (v : V) m : NoDup m.*1 -> (k, v) ∈ m -> omLookup k m = Some v.
Proof.
  induction m as [|[k0 v0] m IH]; simpl; [by intros _ ?%elem_of_nil|].
  intros [Hk0 Hnd]%NoDup_cons [[= -> ->]|Hin]%elem_of_cons.
  - by rewrite bool_decide_eq_true_2.
  - case_bool_decide; simplify_eq.
    + exfalso. apply Hk0. apply list_elem_of_fmap. by exists (k, v).
    + by apply IH.
Qed.
End OrderedMaps.

Section AnalyticsFacts.
Context `{HostClock}.

Lemma recordVisit_lookup (daySet : gset Z) (vb : gmap Z (list (Z * list Q)))
    (row : Z * Date) (k : Z) :
  recordVisit daySet vb row !! k
  = if bool_decide (localDateKey row.2 = k /\ k ∈ daySet)
    then Some (omAlter (fun times => times ++ [timeToMinutes row.2]) [] row.1
                       (default [] (vb !! k)))
    else vb !! k.
Proof.
  unfold recordVisit. cbv zeta.
  destruct (decide (localDateKey row.2 = k)) as [<-|Hne].
  - destruct (decide (localDateKey row.2 ∈ daySet)) as [Hin|Hout].
    + rewrite !bool_decide_eq_true_2 by done. by rewrite lookup_insert_eq.
    + rewrite (bool_decide_eq_false_2 _ Hout).
      rewrite bool_decide_eq_false_2 by (by intros [_ ?]). done.
  - rewrite (bool_decide_eq_false_2 (_ /\ _)) by (by intros [? _]).
    case_bool_decide; [by rewrite lookup_insert_ne | done].
Qed.

Lemma recordVisit_fold (daySet : gset Z) (rows : list (Z * Date))
    (vb : gmap Z (list (Z * list Q))) (k : Z) :
  fold_left (recordVisit daySet) rows vb !! k
  = if bool_decide (k ∈ daySet)
    then match dayRows k rows with
         | [] => vb !! k
         | _ :: _ => Some (groupRuns (dayRows k rows) (default [] (vb !! k)))
         end
    else vb !! k.
Proof.
  revert vb. induction rows as [|row rows IH]; intros vb.
  - simpl. by case_bool_decide.
  - cbn [fold_left]. rewrite IH, recordVisit_lookup. unfold dayRows.
    rewrite filter_cons.
    destruct (decide (localDateKey row.2 = k)) as [Hk|Hk].
    + destruct (decide (k ∈ daySet)) as [Hin|Hout].
      * rewrite (bool_decide_eq_true_2 (k ∈ daySet)) by done.
        rewrite (bool_decide_eq_true_2 (_ /\ _)) by done. simpl.
        by destruct (filter _ rows).
      * by rewrite !bool_decide_eq_false_2 by (try intros [_ ?]; done).
    + rewrite (bool_decide_eq_false_2 (_ /\ _)) by (by intros [? _]). done.
Qed.

Lemma timesOf_cons (r : Z) (row : Z * Date) (rows : list (Z * Date)) :
  timesOf r (row :: rows)
  = if bool_decide (row.1 = r) then timeToMinutes row.2 :: timesOf r rows
    else timesOf r rows.
Proof.
  unfold timesOf. rewrite filter_cons.
  destruct (decide (row.1 = r)); [by rewrite bool_decide_eq_true_2
                                 | by rewrite bool_decide_eq_false_2].
Qed.

Lemma groupRuns_cons (row : Z * Date) (rows : list (Z * Date)) (m : list (Z * list Q)) :
  groupRuns (row :: rows) m
  = groupRuns rows (omAlter (fun times => times ++ [timeToMinutes row.2]) [] row.1 m).
Proof. done. Qed.

Lemma groupRuns_lookup (rows : list (Z * Date)) (m : list (Z * list Q)) (r : Z) :
  omLookup r (groupRuns rows m)
  = match timesOf r rows with
    | [] => omLookup r m
    | times => Some (default [] (omLookup r m) ++ times)
    end.
Proof.
  revert m. induction rows as [|row rows IH]; intros m; [done|].
  rewrite groupRuns_cons, IH, omLookup_omAlter, timesOf_cons.
  case_bool_decide as Hr.
  - simpl. rewrite Hr. destruct (timesOf r rows); [done|]. by rewrite <- app_assoc.
  - done.
Qed.

Lemma groupRuns_NoDup (rows : list (Z * Date)) (m : list (Z * list Q)) :
  NoDup m.*1 -> NoDup (groupRuns rows m).*1.
Proof.
  revert m. induction rows as [|row rows IH]; intros m Hnd; [done|].
  rewrite groupRuns_cons. apply IH. by apply omAlter_NoDup.
Qed.

(** The runs of a day by route: one entry for each route seen, with its
    times in the order of the rows. *)
Lemma groupRuns_elem (rows : list (Z * Date)) (r : Z) (times : list Q) :
  (r, times) ∈ groupRuns rows [] <-> times = timesOf r rows /\ times <> [].
Proof.
  assert (NoDup (groupRuns rows []).*1) as Hnd by (apply groupRuns_NoDup; constructor).
  split.
  - intros Hin. apply (elem_omLookup _ _ _ Hnd) in Hin.
    rewrite groupRuns_lookup in Hin. simpl in Hin.
    destruct (timesOf r rows); [done|]. by injection Hin as <-.
  - intros [-> Hne]. apply omLookup_elem. rewrite groupRuns_lookup. simpl.
    by destruct (timesOf r rows).
Qed.

Lemma observedPoints_elem (dayMap : list (Z * list Q)) (p : Point) :
  p ∈ observedPoints dayMap <->
  exists r times, (r, times) ∈ dayMap /\ times <> [] /\
    p = {| pt_routeId := r; pt_minutes := sortNum times; pt_predicted := false |}.
Proof.
  unfold observedPoints. rewrite list_elem_of_omap. split.
  - intros ([r times] & Hin & Hp). simpl in Hp.
    destruct times as [|t times]; [done|]. injection Hp as <-.
    exists r, (t :: times). done.
  - intros (r & times & Hin & Hne & ->). exists (r, times). split; [done|]. simpl.
    by destruct times.
Qed.

End AnalyticsFacts.

Section AnalyticsWindow.
Context `{HostClock}.

Lemma localDateKey_addDays (today : Date) (i : Z) :
  localDateKey (addDays today (- i)) = localDateKey today - i.
Proof.
  unfold localDateKey, addDays, localMs. simpl.
  replace (epochMs today + - i * MS_PER_DAY + tzOffsetMs)
    with (epochMs today + tzOffsetMs + (- i) * MS_PER_DAY) by lia.
  rewrite Z.div_add by done. lia.
Qed.

Lemma dayKeys_eq (today : Date) :
  dayKeys today
  = (fun i => {| dk_key := localDateKey today - i; dk_isToday := bool_decide (i = 0) |})
    <$> [6; 5; 4; 3; 2; 1; 0].
Proof. unfold dayKeys. simpl. by rewrite !localDateKey_addDays. Qed.

Lemma daySet_elem (today : Date) (k : Z) :
  k ∈ (list_to_set (dk_key <$> dayKeys today) : gset Z) <->
  localDateKey today - 6 <= k <= localDateKey today.
Proof.
  rewrite dayKeys_eq, elem_of_list_to_set. simpl.
  rewrite !elem_of_cons, elem_of_nil. lia.
Qed.

Lemma visitsByDayOf_lookup (today : Date) (rows : list (Z * Date)) (k : Z) :
  visitsByDayOf today rows !! k
  = if bool_decide (localDateKey today - 6 <= k <= localDateKey today)
    then match dayRows k rows with
         | [] => None
         | _ :: _ => Some (groupRuns (dayRows k rows) [])
         end
    else None.
Proof.
  unfold visitsByDayOf. cbv zeta. rewrite recordVisit_fold, lookup_empty. simpl.
  apply (f_equal (fun b : bool => if b then _ else _)).
  apply bool_decide_ext, daySet_elem.
Qed.

Lemma timesOf_known (d : Db) (today : Date) (stopId k r : Z) :
  timesOf r (dayRows k (knownVisitsOf (routesT d)
                          (selectVisits stopId (addDays today (- 6)) d)))
  = observedTimes d today stopId k r.
Proof.
  unfold timesOf, dayRows, knownVisitsOf, selectVisits, observedTimes.
  induction (stopVisitsT d) as [|row l IH]; [done|].
  rewrite !(filter_cons _ row).
  destruct (decide (sv_stopId row = stopId /\
                    epochMs (addDays today (- 6)) <= epochMs (sv_observedAt row) /\
                    is_Some (sv_routeId row))) as [(Hs & Hc & [r' Hr'])|Hno].
  - cbn [omap list_omap]. rewrite Hr'.
    destruct (decide (is_Some (routesT d !! r'))) as [Hknown|Hunknown].
    + rewrite (bool_decide_eq_true_2 _ Hknown). rewrite filter_cons. simpl.
      destruct (decide (localDateKey (sv_observedAt row) = k)) as [Hk|Hk].
      * rewrite filter_cons. simpl.
        destruct (decide (r' = r)) as [->|Hne].
        -- rewrite decide_True by done. csimpl. f_equal. exact IH.
        -- rewrite decide_False by (intros (_ & _ & [= ?] & _); done). done.
      * rewrite decide_False by (intros (_ & _ & _ & _ & ?); done). done.
    + rewrite (bool_decide_eq_false_2 _ Hunknown).
      rewrite decide_False; [done|].
      intros (_ & _ & [= ->] & Hk' & _). done.
  - rewrite decide_False; [done|].
    intros (? & ? & Heq & _). apply Hno. by rewrite Heq.
Qed.

End AnalyticsWindow.

Section AnalyticsHistory.
Context `{HostClock}.

Lemma pushHistory_fold (dayMap : list (Z * list Q)) (h : list (Z * list (list Q))) (r : Z) :
  NoDup dayMap.*1 ->
  omLookup r (fold_left pushHistory dayMap h)
  = match omLookup r dayMap with
    | None => omLookup r h
    | Some times => Some (default [] (omLookup r h) ++ [sortNum times])
    end.
Proof.
  revert h. induction dayMap as [|[k0 times0] dayMap IH]; intros h Hnd; [done|].
  rewrite fmap_cons in Hnd. cbn [fst] in Hnd. apply NoDup_cons in Hnd as [Hk0 Hnd].
  cbn [fold_left]. rewrite IH by done.
  unfold pushHistory. cbn [fst snd omLookup]. rewrite omLookup_omAlter.
  destruct (decide (k0 = r)) as [->|Hne].
  - rewrite !bool_decide_eq_true_2 by done.
    by rewrite (proj2 (omLookup_None r dayMap) Hk0).
  - rewrite !bool_decide_eq_false_2 by done. done.
Qed.

Lemma pushHistory_NoDup (dayMap : list (Z * list Q)) (h : list (Z * list (list Q))) :
  NoDup h.*1 -> NoDup (fold_left pushHistory dayMap h).*1.
Proof.
  revert h. induction dayMap as [|entry dayMap IH]; intros h Hnd; [done|].
  cbn [fold_left]. apply IH. by apply omAlter_NoDup.
Qed.

Lemma historyOfDay_NoDup (vb : gmap Z (list (Z * list Q))) (h : list (Z * list (list Q)))
    (day : DayKey) :
  NoDup h.*1 -> NoDup (historyOfDay vb h day).*1.
Proof.
  intros Hnd. unfold historyOfDay. destruct (dk_isToday day); [done|].
  destruct (vb !! dk_key day); [by apply pushHistory_NoDup | done].
Qed.

Lemma historyByRouteOf_NoDup (today : Date) (vb : gmap Z (list (Z * list Q))) :
  NoDup (historyByRouteOf today vb).*1.
Proof.
  unfold historyByRouteOf.
  assert (forall days h, NoDup h.*1 -> NoDup (fold_left (historyOfDay vb) days h).*1) as Hfold.
  { induction days as [|day days IH]; intros h Hnd; [done|].
    cbn [fold_left]. by apply IH, historyOfDay_NoDup. }
  apply Hfold. constructor.
Qed.

Section OneStop.
Variables (d : Db) (today : Date) (stopId : Z).

Let rows := knownVisitsOf (routesT d) (selectVisits stopId (addDays today (- 6)) d).
Let vb := visitsByDayOf today rows.

Lemma visitsByDay_runs (k r : Z) :
  localDateKey today - 6 <= k <= localDateKey today ->
  (dayMap ← vb !! k; omLookup r dayMap)
  = match observedTimes d today stopId k r with
    | [] => None
    | times => Some times
    end.
Proof.
  intros Hk. unfold vb. rewrite visitsByDayOf_lookup, bool_decide_eq_true_2 by done.
  rewrite <- timesOf_known. fold rows.
  destruct (dayRows k rows) as [|row rest] eqn:Hrows; [done|].
  cbn [mbind option_bind]. rewrite groupRuns_lookup. simpl.
  by destruct (timesOf r (row :: rest)).
Qed.

Lemma visitsByDay_NoDup (k : Z) (dayMap : list (Z * list Q)) :
  vb !! k = Some dayMap -> NoDup dayMap.*1.
Proof.
  unfold vb. rewrite visitsByDayOf_lookup. case_bool_decide; [|done].
  destruct (dayRows k rows) as [|row rest]; [done|]. intros [= <-].
  apply (groupRuns_NoDup (row :: rest) []). constructor.
Qed.

Lemma visitsByDay_elem (k r : Z) (times : list Q) (dayMap : list (Z * list Q)) :
  localDateKey today - 6 <= k <= localDateKey today ->
  vb !! k = Some dayMap ->
  (r, times) ∈ dayMap <-> times = observedTimes d today stopId k r /\ times <> [].
Proof.
  intros Hk Hmap. pose proof (visitsByDay_runs k r Hk) as Hruns.
  rewrite Hmap in Hruns. cbn [mbind option_bind] in Hruns.
  pose proof (visitsByDay_NoDup k dayMap Hmap) as Hnd. split.
  - intros Hin. apply (elem_omLookup _ _ _ Hnd) in Hin. rewrite Hin in Hruns.
    destruct (observedTimes d today stopId k r); [done|]. by injection Hruns as ->.
  - intros [-> Hne]. apply omLookup_elem. rewrite Hruns.
    by destruct (observedTimes d today stopId k r).
Qed.

Lemma visitsByDay_None (k r : Z) :
  localDateKey today - 6 <= k <= localDateKey today ->
  vb !! k = None -> observedTimes d today stopId k r = [].
Proof.
  intros Hk Hmap. pose proof (visitsByDay_runs k r Hk) as Hruns.
  rewrite Hmap in Hruns. cbn [mbind option_bind] in Hruns.
  by destruct (observedTimes d today stopId k r).
Qed.

Lemma historyOfDay_lookup (h : list (Z * list (list Q))) (i r : Z) :
  0 <= i <= 6 ->
  omLookup r (historyOfDay vb h {| dk_key := localDateKey today - i; dk_isToday := false |})
  = match observedTimes d today stopId (localDateKey today - i) r with
    | [] => omLookup r h
    | times => Some (default [] (omLookup r h) ++ [sortNum times])
    end.
Proof.
  intros Hi. unfold historyOfDay. cbn [dk_isToday dk_key].
  assert (localDateKey today - 6 <= localDateKey today - i <= localDateKey today) as Hk by lia.
  pose proof (visitsByDay_runs (localDateKey today - i) r Hk) as Hruns.
  destruct (vb !! (localDateKey today - i)) as [dayMap|] eqn:Hmap.
  - rewrite pushHistory_fold by (by eapply visitsByDay_NoDup).
    cbn [mbind option_bind] in Hruns. rewrite Hruns.
    by destruct (observedTimes d today stopId (localDateKey today - i) r).
  - cbn [mbind option_bind] in Hruns.
    by destruct (observedTimes d today stopId (localDateKey today - i) r).
Qed.

Lemma history_fold (offsets : list Z) (h : list (Z * list (list Q))) (r : Z) :
  (forall i, i ∈ offsets -> 0 <= i <= 6) ->
  omLookup r (fold_left (historyOfDay vb)
                ((fun i => {| dk_key := localDateKey today - i; dk_isToday := false |})
                 <$> offsets) h)
  = match omap (fun i => match observedTimes d today stopId (localDateKey today - i) r with
                         | [] => None
                         | times => Some (sortNum times)
                         end) offsets with
    | [] => omLookup r h
    | days => Some (default [] (omLookup r h) ++ days)
    end.
Proof.
  revert h. induction offsets as [|i offsets IH]; intros h Hoff; [done|].
  cbn [fmap list_fmap fold_left omap list_omap].
  rewrite IH by (intros j Hj; apply Hoff, elem_of_cons; by right).
  rewrite historyOfDay_lookup by (apply Hoff, elem_of_cons; by left).
  destruct (observedTimes d today stopId (localDateKey today - i) r) as [|t times].
  - done.
  - destruct (omap _ offsets) as [|day days]; [done|].
    unfold default at 1. cbn [from_option]. unfold Datatypes.id.
    by rewrite <- app_assoc.
Qed.

Lemma historyByRouteOf_lookup (r : Z) :
  omLookup r (historyByRouteOf today vb)
  = match routeHistory d today stopId r with
    | [] => None
    | days => Some days
    end.
Proof.
  unfold historyByRouteOf. rewrite dayKeys_eq.
  change ((fun i => {| dk_key := localDateKey today - i; dk_isToday := bool_decide (i = 0) |})
          <$> [6; 5; 4; 3; 2; 1; 0])
    with (((fun i => {| dk_key := localDateKey today - i; dk_isToday := false |})
           <$> [6; 5; 4; 3; 2; 1])
          ++ [{| dk_key := localDateKey today - 0; dk_isToday := true |}]).
  rewrite fold_left_app. cbn [fold_left]. unfold historyOfDay at 1. cbn [dk_isToday].
  rewrite history_fold.
  - unfold routeHistory. by destruct (omap _ _).
  - intros i Hi. rewrite !elem_of_cons, elem_of_nil in Hi. lia.
Qed.

Lemma historyByRouteOf_elem (r : Z) (days : list (list Q)) :
  (r, days) ∈ historyByRouteOf today vb <->
  days = routeHistory d today stopId r /\ days <> [].
Proof.
  pose proof (historyByRouteOf_lookup r) as Hl. split.
  - intros Hin. apply (elem_omLookup _ _ _ (historyByRouteOf_NoDup today vb)) in Hin.
    rewrite Hin in Hl. destruct (routeHistory d today stopId r); [done|].
    by injection Hl as ->.
  - intros [-> Hne]. apply omLookup_elem. rewrite Hl.
    by destruct (routeHistory d today stopId r).
Qed.

End OneStop.

Lemma futurePoints_elem (nowMinutes : Q) (predictedByRoute : list (Z * list Q)) (p : Point) :
  p ∈ futurePoints nowMinutes predictedByRoute <->
  exists r minutes, (r, minutes) ∈ predictedByRoute /\
    filter (fun value => Qgtb value nowMinutes) minutes <> [] /\
    p = {| pt_routeId := r;
           pt_minutes := filter (fun value => Qgtb value nowMinutes) minutes;
           pt_predicted := true |}.
Proof.
  unfold futurePoints. rewrite list_elem_of_omap. split.
  - intros ([r minutes] & Hin & Hp). cbn [fst snd] in Hp.
    destruct (filter _ minutes) as [|v future] eqn:Hf; [done|]. injection Hp as <-.
    exists r, minutes. rewrite Hf. done.
  - intros (r & minutes & Hin & Hne & ->). exists (r, minutes). split; [done|].
    cbn [fst snd]. by destruct (filter _ minutes).
Qed.

End AnalyticsHistory.

Section AnalyticsHandler.
Context `{HostClock}.

Lemma dbQuery_done {A} (q : Db -> A) (w w1 : World) (a : A) :
  dbQuery q w = (w1, Done a) -> a = q (db w) /\ db w1 = db w /\ memoryOf w1 = memoryOf w.
Proof.
  unfold dbQuery. destruct w as [d c i l lf fs]; simpl.
  destruct fs as [|[] fs]; intros [= <- <-]; done.
Qed.

Lemma dbQuery_threw {A} (q : Db -> A) (w w1 : World) (msg : string) :
  dbQuery q w = (w1, Threw msg) -> db w1 = db w /\ memoryOf w1 = memoryOf w.
Proof.
  unfold dbQuery. destruct w as [d c i l lf fs]; simpl.
  destruct fs as [|[] fs]; intros [= <-]; done.
Qed.

Lemma dbQuery_ok {A} (q : Db -> A) (w : World) :
  faults w !! 0%nat <> Some true ->
  exists w1, dbQuery q w = (w1, Done (q (db w))) /\ faults w1 = drop 1 (faults w).
Proof.
  unfold dbQuery. destruct w as [d c i l lf fs]; simpl.
  destruct fs as [|[] fs]; intros Hok; [by eexists| done | by eexists].
Qed.

(** The response of the handler for a stop identifier, computed from the
    database. *)
Lemma stopAnalytics_done (today : Date) (stopId : Z) (w w1 : World)
    (resp : AnalyticsResponse) :
  stopAnalytics today (Some stopId) w = (w1, Done resp) ->
  resp = match head (filter (fun s => stop_id s = stopId) (stopsT (db w))) with
         | None => StopNotFound
         | Some stop =>
             let knownVisits :=
               knownVisitsOf (routesT (db w))
                             (selectVisits stopId (addDays today (- 6)) (db w)) in
             Analytics stop (routeIdsOf knownVisits) (analyticsDays today knownVisits)
         end.
Proof.
  unfold stopAnalytics. intros Hrun.
  apply bind_done in Hrun as (w2 & stop & H1 & Hrun).
  apply dbQuery_done in H1 as (-> & D1 & _).
  destruct (head _) as [stop|]; [|by injection Hrun as <- <-].
  apply bind_done in Hrun as (w3 & visits & H2 & Hrun).
  apply dbQuery_done in H2 as (-> & D2 & _).
  apply bind_done in Hrun as (w4 & routeInfoMap & H3 & Hrun).
  apply dbQuery_done in H3 as (-> & D3 & _).
  injection Hrun as <- <-. cbv zeta. by rewrite D2, D1.
Qed.

Lemma stopAnalytics_frame (today : Date) (param : option Z) (w : World) :
  let r := stopAnalytics today param w in
  db r.1 = db w /\ memoryOf r.1 = memoryOf w.
Proof.
  cbv zeta. destruct param as [stopId|]; [|done].
  destruct (stopAnalytics today (Some stopId) w) as [w1 out] eqn:Hrun. simpl.
  unfold stopAnalytics in Hrun. destruct out as [resp|msg].
  - apply bind_done in Hrun as (w2 & stop & H1 & Hrun).
    apply dbQuery_done in H1 as (-> & D1 & M1).
    destruct (head _) as [stop|]; [|injection Hrun as <- <-; done].
    apply bind_done in Hrun as (w3 & visits & H2 & Hrun).
    apply dbQuery_done in H2 as (-> & D2 & M2).
    apply bind_done in Hrun as (w4 & routeInfoMap & H3 & Hrun).
    apply dbQuery_done in H3 as (-> & D3 & M3).
    injection Hrun as <- _. split; congruence.
  - apply bind_threw in Hrun as [H1|(w2 & stop & H1 & Hrun)];
      [by apply dbQuery_threw in H1|].
    apply dbQuery_done in H1 as (-> & D1 & M1).
    destruct (head _) as [stop|]; [|done].
    apply bind_threw in Hrun as [H2|(w3 & visits & H2 & Hrun)];
      [apply dbQuery_threw in H2 as [D2 M2]; split; congruence|].
    apply dbQuery_done in H2 as (-> & D2 & M2).
    apply bind_threw in Hrun as [H3|(w4 & routeInfoMap & H3 & Hrun)];
      [apply dbQuery_threw in H3 as [D3 M3]; split; congruence|].
    done.
Qed.

Lemma stopAnalytics_total (today : Date) (param : option Z) (w : World) :
  (forall j, (j < 3)%nat -> faults w !! j <> Some true) ->
  exists resp, (stopAnalytics today param w).2 = Done resp.
Proof.
  intros Hok. destruct param as [stopId|]; [|by eexists].
  unfold stopAnalytics, bind.
  destruct (dbQuery_ok (fun d => head (filter (fun s => stop_id s = stopId) (stopsT d))) w)
    as (w1 & -> & Hf1); [by apply Hok; lia|].
  destruct (head _) as [stop|]; [|by eexists].
  destruct (dbQuery_ok (selectVisits stopId (addDays today (- 6))) w1) as (w2 & -> & Hf2).
  { rewrite Hf1, lookup_drop. by apply Hok; lia. }
  destruct (dbQuery_ok routesT w2) as (w3 & -> & Hf3).
  { rewrite Hf2, lookup_drop, Hf1, lookup_drop. by apply Hok; lia. }
  by eexists.
Qed.

Lemma analyticsDays_eq (today : Date) (rows : list (Z * Date)) :
  analyticsDays today rows
  = (fun i => dayPoints (visitsByDayOf today rows)
                (predictedByRouteOf (historyByRouteOf today (visitsByDayOf today rows)))
                (timeToMinutes today)
                {| dk_key := localDateKey today - i; dk_isToday := bool_decide (i = 0) |})
    <$> [6; 5; 4; 3; 2; 1; 0].
Proof. unfold analyticsDays. cbv zeta. rewrite dayKeys_eq, <- list_fmap_compose. done. Qed.

End AnalyticsHandler.

Section AnalyticsPoints.
Context `{HostClock}.

Lemma stopAnalytics_response (today : Date) (stopId : Z) (w w1 : World) (stop : Stop)
    (routeIds : list Z) (days : list DayPoints) :
  stopAnalytics today (Some stopId) w = (w1, Done (Analytics stop routeIds days)) ->
  let knownVisits :=
    knownVisitsOf (routesT (db w)) (selectVisits stopId (addDays today (- 6)) (db w)) in
  head (filter (fun s => stop_id s = stopId) (stopsT (db w))) = Some stop /\
  routeIds = routeIdsOf knownVisits /\ days = analyticsDays today knownVisits.
Proof.
  intros Hrun%stopAnalytics_done. cbv zeta in *.
  destruct (head _) as [stop'|]; [|done]. by injection Hrun as -> -> ->.
Qed.

Lemma analyticsDays_lookup (today : Date) (rows : list (Z * Date)) (i : nat) (day : DayPoints) :
  analyticsDays today rows !! i = Some day ->
  (i < 7)%nat /\
  day = dayPoints (visitsByDayOf today rows)
          (predictedByRouteOf (historyByRouteOf today (visitsByDayOf today rows)))
          (timeToMinutes today)
          {| dk_key := localDateKey today - (6 - Z.of_nat i);
             dk_isToday := bool_decide (i = 6%nat) |}.
Proof.
  rewrite analyticsDays_eq, list_lookup_fmap.
  do 7 (destruct i as [|i]; [intros [= <-]; split; [lia | reflexivity]|]).
  done.
Qed.

Lemma observed_elem (d : Db) (today : Date) (stopId k : Z) (p : Point) :
  localDateKey today - 6 <= k <= localDateKey today ->
  p ∈ match visitsByDayOf today
              (knownVisitsOf (routesT d) (selectVisits stopId (addDays today (- 6)) d))
              !! k with
      | Some dayMap => observedPoints dayMap
      | None => []
      end <->
  exists route, observedTimes d today stopId k route <> [] /\
    p = {| pt_routeId := route;
           pt_minutes := sortNum (observedTimes d today stopId k route);
           pt_predicted := false |}.
Proof.
  intros Hk.
  destruct (visitsByDayOf _ _ !! k) as [dayMap|] eqn:Hmap.
  - rewrite observedPoints_elem. split.
    + intros (r & times & Hin & Hne & ->).
      apply (visitsByDay_elem d today stopId k r times dayMap Hk Hmap) in Hin as [-> _].
      by exists r.
    + intros (r & Hne & ->). exists r, (observedTimes d today stopId k r).
      split; [|done]. by apply (visitsByDay_elem d today stopId k r _ dayMap Hk Hmap).
  - split; [by intros ?%elem_of_nil|].
    intros (r & Hne & _). by rewrite (visitsByDay_None d today stopId k r Hk Hmap) in Hne.
Qed.

Lemma predicted_elem (d : Db) (today : Date) (stopId : Z) (p : Point) :
  p ∈ futurePoints (timeToMinutes today)
        (predictedByRouteOf
           (historyByRouteOf today
              (visitsByDayOf today
                 (knownVisitsOf (routesT d)
                    (selectVisits stopId (addDays today (- 6)) d))))) <->
  exists route,
    filter (fun value => Qgtb value (timeToMinutes today))
           (buildPredictedTimes (routeHistory d today stopId route)) <> [] /\
    p = {| pt_routeId := route;
           pt_minutes := filter (fun value => Qgtb value (timeToMinutes today))
                           (buildPredictedTimes (routeHistory d today stopId route));
           pt_predicted := true |}.
Proof.
  rewrite futurePoints_elem. unfold predictedByRouteOf. split.
  - intros (r & minutes & Hin & Hne & ->).
    apply list_elem_of_fmap in Hin as ([r' days] & [= -> ->] & Hin).
    apply historyByRouteOf_elem in Hin as [-> _]. by exists r'.
  - intros (r & Hne & ->).
    exists r, (buildPredictedTimes (routeHistory d today stopId r)).
    split; [|done]. apply list_elem_of_fmap.
    exists (r, routeHistory d today stopId r). split; [done|].
    apply historyByRouteOf_elem. split; [done|].
    intros Hnil. by rewrite Hnil in Hne.
Qed.

Lemma observedPoints_predicted (dayMap : list (Z * list Q)) (p : Point) :
  p ∈ observedPoints dayMap -> pt_predicted p = false.
Proof. by intros (r & times & _ & _ & ->)%observedPoints_elem. Qed.

Lemma futurePoints_predicted (nowMinutes : Q) (predicted : list (Z * list Q)) (p : Point) :
  p ∈ futurePoints nowMinutes predicted -> pt_predicted p = true.
Proof. by intros (r & minutes & _ & _ & ->)%futurePoints_elem. Qed.

Lemma historyByRouteOf_empty (today : Date) : historyByRouteOf today ∅ = [].
Proof.
  unfold historyByRouteOf.
  assert (forall days, fold_left (historyOfDay ∅) days [] = []) as Hfold.
  { induction days as [|day days IH]; [done|]. cbn [fold_left].
    unfold historyOfDay at 2. rewrite lookup_empty. by destruct (dk_isToday day). }
  apply Hfold.
Qed.

End AnalyticsPoints.

(** X25. The analytics window is always seven days. The handler changes
    neither the database nor the memory, and answers when its three selects
    succeed. An identifier that is not a number is answered by the 400 and
    an identifier of no stop by the 404. Otherwise the response carries a
    row of [stops] with that identifier and exactly seven days, the six
    local days before today and today, oldest first, the last one alone
    marked as today; for a stop without any stop visit the seven days are
    still there, each without points, and no route is listed. *)
Theorem stopAnalytics_window `{HostClock} (today : Date) (param : option Z) (w : World) :
  let r := stopAnalytics today param w in
  db r.1 = db w /\ memoryOf r.1 = memoryOf w /\
  ((forall j, (j < 3)%nat -> faults w !! j <> Some true) -> exists resp, r.2 = Done resp) /\
  (forall resp, r.2 = Done resp ->
     match resp with
     | InvalidStopId => param = None
     | StopNotFound =>
         exists stopId, param = Some stopId /\
           forall s, s ∈ stopsT (db w) -> stop_id s <> stopId
     | Analytics stop routeIds days =>
         exists stopId, param = Some stopId /\ stop ∈ stopsT (db w) /\ stop_id stop = stopId /\
           day_date <$> days = (fun i => localDateKey today - i) <$> [6; 5; 4; 3; 2; 1; 0] /\
           day_isToday <$> days = [false; false; false; false; false; false; true] /\
           ((forall row, row ∈ stopVisitsT (db w) -> sv_stopId row <> stopId) ->
            routeIds = [] /\ forall day, day ∈ days -> day_points day = [])
     end).
Proof.
  cbv zeta. destruct (stopAnalytics_frame today param w) as [Hdb Hmem].
  split; [done|]. split; [done|]. split; [apply stopAnalytics_total|].
  intros resp Hresp. destruct param as [stopId|]; [|by injection Hresp as <-].
  destruct (stopAnalytics today (Some stopId) w) as [w1 out] eqn:Hrun.
  simpl in Hresp. subst out. destruct resp as [| |stop routeIds days].
  - apply stopAnalytics_done in Hrun. by destruct (head _).
  - apply stopAnalytics_done in Hrun. exists stopId. split; [done|].
    destruct (head _) as [stop|] eqn:Hhead; [done|].
    apply head_None in Hhead. intros s Hs Hid.
    assert (s ∈ filter (fun s => stop_id s = stopId) (stopsT (db w))) as Hin
      by by apply list_elem_of_filter.
    rewrite Hhead in Hin. by apply elem_of_nil in Hin.
  - apply stopAnalytics_response in Hrun as (Hhead & -> & ->).
    exists stopId. split; [done|].
    assert (stop ∈ filter (fun s => stop_id s = stopId) (stopsT (db w))) as Hin.
    { destruct (filter _ _) as [|s rest]; [done|]. injection Hhead as ->.
      apply elem_of_cons. by left. }
    apply list_elem_of_filter in Hin as [Hid Hin].
    split; [done|]. split; [done|].
    rewrite analyticsDays_eq. split; [reflexivity|]. split; [reflexivity|].
    intros Hnone.
    assert (selectVisits stopId (addDays today (- 6)) (db w) = []) as ->.
    { apply filter_nil_iff. intros row Hrow [Hs _]. by apply (Hnone row). }
    split; [done|]. intros day (i & -> & _)%list_elem_of_fmap.
    unfold dayPoints, knownVisitsOf, visitsByDayOf. cbn [omap list_omap fold_left day_points dk_key].
    rewrite lookup_empty, historyByRouteOf_empty. by destruct (dk_isToday _).
Qed.

Section TimeOfDayOrder.
Context `{HostClock}.

(** The seconds into the local day. *)
Lemma seconds_of_day (d : Date) :
  getHours d * 3600 + getMinutes d * 60 + getSeconds d = (localMs d mod MS_PER_DAY) / 1000.
Proof.
  unfold getHours, getMinutes, getSeconds, MS_PER_DAY, MS_PER_HOUR, MS_PER_MINUTE.
  generalize (localMs d) as a. intros a.
  Z.to_euclidean_division_equations. lia.
Qed.

Lemma timeToMinutes_seconds (d : Date) :
  (timeToMinutes d == ((localMs d mod MS_PER_DAY) / 1000) # 60)%Q.
Proof.
  rewrite timeToMinutes_value, <- seconds_of_day.
  unfold Qeq, Qplus, inject_Z. simpl. lia.
Qed.

Lemma timeToMinutes_addDays (today : Date) (i : Z) :
  timeToMinutes (addDays today (- i)) = timeToMinutes today.
Proof.
  assert (localMs (addDays today (- i)) = localMs today + (- i) * MS_PER_DAY) as Hms
    by (unfold localMs, addDays; simpl; lia).
  unfold timeToMinutes, getHours, getMinutes, getSeconds. rewrite Hms.
  replace (- i * MS_PER_DAY) with (- i * 24 * MS_PER_HOUR)
    by (unfold MS_PER_DAY, MS_PER_HOUR; lia).
  rewrite (Z_mod_plus_full _ _ MS_PER_HOUR).
  replace (- i * 24 * MS_PER_HOUR) with (- i * MS_PER_DAY)
    by (unfold MS_PER_DAY, MS_PER_HOUR; lia).
  rewrite (Z_mod_plus_full _ _ MS_PER_DAY).
  replace (- i * MS_PER_DAY) with (- i * 1440 * MS_PER_MINUTE)
    by (unfold MS_PER_DAY, MS_PER_MINUTE; lia).
  rewrite (Z_mod_plus_full _ _ MS_PER_MINUTE). done.
Qed.

(** Of two times of the same local day, the later is later in the day. *)
Lemma timeToMinutes_mono (a b : Date) :
  localDateKey a = localDateKey b -> epochMs a <= epochMs b ->
  (timeToMinutes a <= timeToMinutes b)%Q.
Proof.
  intros Hday Hle. rewrite !timeToMinutes_seconds.
  unfold Qle. simpl.
  assert (localMs a <= localMs b) as Hms by (unfold localMs; lia).
  unfold localDateKey in Hday. revert Hday Hms.
  generalize (localMs a) as x, (localMs b) as y. intros x y. unfold MS_PER_DAY.
  intros Hday Hms. Z.to_euclidean_division_equations. lia.
Qed.

(** A time of one of the five days before today, or of today, is not
    before the cutoff. *)
Lemma recent_day_after_cutoff (today t : Date) (j : Z) :
  localDateKey t = localDateKey today - j -> j <= 5 ->
  epochMs (addDays today (- 6)) <= epochMs t.
Proof.
  unfold localDateKey, addDays, localMs, MS_PER_DAY. simpl. intros Hday Hj.
  Z.to_euclidean_division_equations. lia.
Qed.

End TimeOfDayOrder.

Section AnalyticsDayLookup.
Context `{HostClock}.

Lemma analyticsDays_at (today : Date) (rows : list (Z * Date)) (off : Z) :
  0 <= off <= 6 ->
  analyticsDays today rows !! Z.to_nat (6 - off)
  = Some (dayPoints (visitsByDayOf today rows)
            (predictedByRouteOf (historyByRouteOf today (visitsByDayOf today rows)))
            (timeToMinutes today)
            {| dk_key := localDateKey today - off; dk_isToday := bool_decide (off = 0) |}).
Proof.
  intros Hoff. rewrite analyticsDays_eq, list_lookup_fmap.
  assert (off = 0 \/ off = 1 \/ off = 2 \/ off = 3 \/ off = 4 \/ off = 5 \/ off = 6)
    as [->|[->|[->|[->|[->|[->| ->]]]]]] by lia; reflexivity.
Qed.

Lemma elem_of_sortNum (x : Q) (values : list Q) : x ∈ sortNum values <-> x ∈ values.
Proof.
  rewrite !list_elem_of_In. split; apply Permutation_in;
    [symmetry|]; apply sortNum_perm.
Qed.

Lemma observedTimes_elem (d : Db) (today : Date) (stopId k r : Z) (m : Q) :
  m ∈ observedTimes d today stopId k r <->
  exists row, row ∈ stopVisitsT d /\ m = timeToMinutes (sv_observedAt row) /\
    sv_stopId row = stopId /\
    epochMs (addDays today (- 6)) <= epochMs (sv_observedAt row) /\
    sv_routeId row = Some r /\ is_Some (routesT d !! r) /\
    localDateKey (sv_observedAt row) = k.
Proof.
  unfold observedTimes. rewrite <- list_fmap_compose, list_elem_of_fmap.
  split.
  - intros (row & -> & Hrow). apply list_elem_of_filter in Hrow as [Hp Hin].
    exists row. done.
  - intros (row & Hin & -> & Hp). exists row. split; [done|].
    by apply list_elem_of_filter.
Qed.

End AnalyticsDayLookup.

Section AnalyticsRoutes.
Context `{HostClock}.

Lemma routeIds_fold (rows : list (Z * Date)) (acc : list Z) :
  NoDup acc ->
  NoDup (fold_left (fun members (row : Z * Date) => setAdd row.1 members) rows acc) /\
  forall r, r ∈ fold_left (fun members (row : Z * Date) => setAdd row.1 members) rows acc <->
            r ∈ acc \/ r ∈ rows.*1.
Proof.
  revert acc. induction rows as [|row rows IH]; intros acc Hnd.
  - split; [done|]. intros r. rewrite elem_of_nil. tauto.
  - cbn [fold_left]. destruct (IH (setAdd row.1 acc) (setAdd_NoDup _ _ Hnd)) as [Hnd' Hin].
    split; [done|]. intros r. rewrite Hin, setAdd_elem, fmap_cons, elem_of_cons. tauto.
Qed.

Lemma knownVisitsOf_routes (routeInfoMap : gmap Z RouteRow) (visits : list StopVisit) (r : Z) :
  r ∈ (knownVisitsOf routeInfoMap visits).*1 <->
  exists row, row ∈ visits /\ sv_routeId row = Some r /\ is_Some (routeInfoMap !! r).
Proof.
  unfold knownVisitsOf. rewrite list_elem_of_fmap. split.
  - intros ([r' t] & -> & (row & Hrow & Hsome)%list_elem_of_omap).
    exists row. destruct (sv_routeId row) as [r0|]; [|done].
    case_bool_decide; [|done]. by injection Hsome as -> _.
  - intros (row & Hrow & Hr & Hknown). exists (r, sv_observedAt row). split; [done|].
    apply list_elem_of_omap. exists row. split; [done|].
    by rewrite Hr, bool_decide_eq_true_2.
Qed.

Lemma routeHistory_nonempty (d : Db) (today : Date) (stopId r : Z) :
  routeHistory d today stopId r <> [] ->
  exists i, 1 <= i <= 6 /\ observedTimes d today stopId (localDateKey today - i) r <> [].
Proof.
  unfold routeHistory. cbn [omap list_omap]. intros Hne.
  destruct (observedTimes d today stopId (localDateKey today - 6) r) eqn:H6;
    [|exists 6; rewrite H6; split; [lia | done]].
  destruct (observedTimes d today stopId (localDateKey today - 5) r) eqn:H5;
    [|exists 5; rewrite H5; split; [lia | done]].
  destruct (observedTimes d today stopId (localDateKey today - 4) r) eqn:H4;
    [|exists 4; rewrite H4; split; [lia | done]].
  destruct (observedTimes d today stopId (localDateKey today - 3) r) eqn:H3;
    [|exists 3; rewrite H3; split; [lia | done]].
  destruct (observedTimes d today stopId (localDateKey today - 2) r) eqn:H2;
    [|exists 2; rewrite H2; split; [lia | done]].
  destruct (observedTimes d today stopId (localDateKey today - 1) r) eqn:H1;
    [|exists 1; rewrite H1; split; [lia | done]].
  done.
Qed.

Lemma observedTimes_row (d : Db) (today : Date) (stopId k r : Z) :
  observedTimes d today stopId k r <> [] ->
  exists row, row ∈ stopVisitsT d /\ sv_stopId row = stopId /\
    epochMs (addDays today (- 6)) <= epochMs (sv_observedAt row) /\
    sv_routeId row = Some r /\ is_Some (routesT d !! r).
Proof.
  intros Hne. destruct (observedTimes d today stopId k r) as [|m times] eqn:Hobs; [done|].
  assert (m ∈ observedTimes d today stopId k r) as Hm
    by (rewrite Hobs; apply elem_of_cons; by left).
  apply observedTimes_elem in Hm as (row & Hrow & _ & Hs & Hc & Hr & Hknown & _).
  by exists row.
Qed.

End AnalyticsRoutes.

Section OnePointPerRoute.

Lemma observedPoints_routes (dayMap : list (Z * list Q)) :
  pt_routeId <$> observedPoints dayMap `sublist_of` dayMap.*1.
Proof.
  induction dayMap as [|[r times] dayMap IH]; [done|].
  unfold observedPoints in *. cbn [omap list_omap fst snd]. rewrite fmap_cons. cbn [fst].
  destruct times as [|t times]; [by apply sublist_cons|].
  rewrite fmap_cons. cbn [pt_routeId]. by apply sublist_skip.
Qed.

Lemma futurePoints_routes (nowMinutes : Q) (predictedByRoute : list (Z * list Q)) :
  pt_routeId <$> futurePoints nowMinutes predictedByRoute `sublist_of` predictedByRoute.*1.
Proof.
  induction predictedByRoute as [|[r minutes] rest IH]; [done|].
  unfold futurePoints in *. cbn [omap list_omap fst snd]. rewrite fmap_cons. cbn [fst].
  destruct (filter _ minutes) as [|v future]; [by apply sublist_cons|].
  rewrite fmap_cons. cbn [pt_routeId]. by apply sublist_skip.
Qed.

Lemma filter_observed (points : list Point) :
  Forall (fun p => pt_predicted p = false) points ->
  filter (fun p => pt_predicted p = false) points = points.
Proof.
  induction 1 as [|p points Hp _ IH]; [done|].
  by rewrite filter_cons_True, IH.
Qed.

Lemma filter_predicted (points : list Point) :
  Forall (fun p => pt_predicted p = true) points ->
  filter (fun p => pt_predicted p = false) points = [].
Proof.
  induction 1 as [|p points Hp _ IH]; [done|].
  rewrite filter_cons_False; [done|]. by rewrite Hp.
Qed.

Lemma predictedByRouteOf_routes (history : list (Z * list (list Q))) :
  (predictedByRouteOf history).*1 = history.*1.
Proof. unfold predictedByRouteOf. rewrite <- list_fmap_compose. done. Qed.

End OnePointPerRoute.

(** X26. The observed points of a day. The host zone is taken to have a
    fixed offset from UTC, so that a local day is 24 hours, the cutoff of
    the select is 6 * 24 hours before now, and the local day and the time of
    day of a visit are those at that offset. In the response for a stop, the
    [i]-th day is the local day [6 - i] days before today; its points that
    are not predictions are those of the routes seen at the stop on that
    day, one point for each such route and no two of the same route, a point
    carrying the times of day of the route's visits in ascending order; the
    visits that count are those of the stop, not before the cutoff, with a
    route of the [routes] table. Only today carries predictions. *)
Theorem analytics_observed_points `{HostClock} (today : Date) (stopId : Z) (w w1 : World)
    (stop : Stop) (routeIds : list Z) (days : list DayPoints) :
  stopAnalytics today (Some stopId) w = (w1, Done (Analytics stop routeIds days)) ->
  forall (i : nat) (day : DayPoints), days !! i = Some day ->
    day_date day = localDateKey today - (6 - Z.of_nat i) /\
    (forall p, p ∈ day_points day /\ pt_predicted p = false <->
       exists route,
         observedTimes (db w) today stopId (day_date day) route <> [] /\
         p = {| pt_routeId := route;
                pt_minutes := sortNum (observedTimes (db w) today stopId (day_date day) route);
                pt_predicted := false |}) /\
    NoDup (pt_routeId <$> filter (fun p => pt_predicted p = false) (day_points day)) /\
    (i <> 6%nat -> forall p, p ∈ day_points day -> pt_predicted p = false).
Proof.
  intros (_ & _ & ->)%stopAnalytics_response i day [Hi ->]%analyticsDays_lookup.
  unfold dayPoints. cbn [day_date day_points dk_key dk_isToday].
  assert (localDateKey today - 6 <= localDateKey today - (6 - Z.of_nat i)
          <= localDateKey today) as Hk by lia.
  split; [done|].
  pose proof (fun p => observed_elem (db w) today stopId _ p Hk) as Hobs.
  split; [|split].
  - intros p. rewrite <- Hobs. case_bool_decide; [|split; [by intros [? _]|]].
    + rewrite elem_of_app. split.
      * intros [[?|Hfut] Hp]; [done|].
        apply futurePoints_predicted in Hfut. congruence.
      * intros Hin. split; [by left|].
        by apply Hobs in Hin as (r & _ & ->).
    + intros Hin. split; [done|]. by apply Hobs in Hin as (r & _ & ->).
  - set (rows := knownVisitsOf _ _).
    assert (NoDup (pt_routeId <$>
                   match visitsByDayOf today rows !! (localDateKey today - (6 - Z.of_nat i)) with
                   | Some dayMap => observedPoints dayMap
                   | None => []
                   end)) as Hnd.
    { destruct (visitsByDayOf today rows !! _) as [dayMap|] eqn:Hmap; [|constructor].
      eapply sublist_NoDup; [|apply observedPoints_routes].
      exact (visitsByDay_NoDup (db w) today stopId _ dayMap Hmap). }
    assert (Forall (fun p => pt_predicted p = false)
              match visitsByDayOf today rows !! (localDateKey today - (6 - Z.of_nat i)) with
              | Some dayMap => observedPoints dayMap
              | None => []
              end) as Hall.
    { destruct (visitsByDayOf today rows !! _) as [dayMap|]; [|constructor].
      apply Forall_forall. intros p. apply observedPoints_predicted. }
    case_bool_decide.
    + rewrite filter_app, (filter_observed _ Hall), filter_predicted, app_nil_r; [done|].
      apply Forall_forall. intros p. apply futurePoints_predicted.
    + by rewrite (filter_observed _ Hall).
  - intros Hne p. rewrite bool_decide_eq_false_2 by done.
    by intros (r & _ & ->)%Hobs.
Qed.

(** The scenario: the day before today, with the two runs of route 7. *)
Lemma analytics_observed_points_witness :
  let day := {| day_date := 19999; day_isToday := false;
                day_points := [ {| pt_routeId := 7; pt_minutes := [481#1; 496#1];
                                   pt_predicted := false |} ] |} in
  day_date day = @localDateKey clockUTCplus2 scenarioToday - (6 - Z.of_nat 5) /\
  (forall p, p ∈ day_points day /\ pt_predicted p = false <->
     exists route,
       @observedTimes clockUTCplus2 (db scenarioWorld) scenarioToday 42 (day_date day) route
       <> [] /\
       p = {| pt_routeId := route;
              pt_minutes := sortNum (@observedTimes clockUTCplus2 (db scenarioWorld)
                                       scenarioToday 42 (day_date day) route);
              pt_predicted := false |}) /\
  NoDup (pt_routeId <$> filter (fun p => pt_predicted p = false) (day_points day)) /\
  (5%nat <> 6%nat -> forall p, p ∈ day_points day -> pt_predicted p = false).
Proof.
  apply (@analytics_observed_points clockUTCplus2 scenarioToday 42 scenarioWorld
           scenarioWorld stop42 [7] scenarioDays) with (i := 5%nat).
  - vm_compute. reflexivity.
  - reflexivity.
Defined.

(** X27. The predictions of today. The host zone is taken to have a fixed
    offset from UTC, so that a local day is 24 hours, the cutoff of the
    select is 6 * 24 hours before now, and the local day and the time of day
    of a visit are those at that offset. In the response for a stop, the
    last day is today; its points are the observed ones followed by the
    predicted ones; no two predicted points are of the same route; a
    predicted point carries at least one time, only times later than now,
    and not more times than the deepest day of its route's history has
    runs; and its route was seen at the stop on one of the six days before
    today, by a visit the handler keeps. So a predicted run whose time has
    passed is shown nowhere, and a route seen on none of the six days before
    has no prediction. Which times are predicted is not stated. *)
Theorem analytics_predicted_points `{HostClock} (today : Date) (stopId : Z) (w w1 : World)
    (stop : Stop) (routeIds : list Z) (days : list DayPoints) :
  stopAnalytics today (Some stopId) w = (w1, Done (Analytics stop routeIds days)) ->
  exists day observed predicted,
    days !! 6%nat = Some day /\ day_isToday day = true /\
    day_points day = observed ++ predicted /\
    Forall (fun p => pt_predicted p = false) observed /\
    Forall (fun p => pt_predicted p = true) predicted /\
    NoDup (pt_routeId <$> predicted) /\
    (forall p, p ∈ predicted ->
       pt_minutes p <> [] /\
       (forall m, m ∈ pt_minutes p -> (timeToMinutes today < m)%Q) /\
       (length (pt_minutes p)
        <= maxRuns (routeHistory (db w) today stopId (pt_routeId p)))%nat /\
       exists i, 1 <= i <= 6 /\
         observedTimes (db w) today stopId (localDateKey today - i) (pt_routeId p) <> []).
Proof.
  intros (_ & _ & ->)%stopAnalytics_response.
  pose proof (analyticsDays_at today
                (knownVisitsOf (routesT (db w))
                   (selectVisits stopId (addDays today (- 6)) (db w))) 0 ltac:(lia)) as Hday.
  change (Z.to_nat (6 - 0)) with 6%nat in Hday.
  eexists _, _, _. split; [exact Hday|]. split; [done|]. split; [reflexivity|].
  pose proof (predicted_elem (db w) today stopId) as Hpred.
  split; [|split; [|split]].
  - apply Forall_forall. intros p Hp.
    assert (localDateKey today - 6 <= localDateKey today - 0 <= localDateKey today) as Hk by lia.
    by apply (observed_elem (db w) today stopId _ p Hk) in Hp as (r & _ & ->).
  - apply Forall_forall. intros p Hp. by apply futurePoints_predicted in Hp.
  - eapply sublist_NoDup; [|apply futurePoints_routes].
    rewrite predictedByRouteOf_routes. apply historyByRouteOf_NoDup.
  - intros p (r & Hne & ->)%Hpred. cbn [pt_minutes pt_routeId].
    split; [done|]. split; [|split].
    + intros m [Hgt _]%list_elem_of_filter. by apply Qgtb_true, Is_true_true.
    + etransitivity; [apply length_filter|].
      by destruct (buildPredictedTimes_runs (routeHistory (db w) today stopId r)) as [_ ->].
    + apply routeHistory_nonempty. intros Hnil. by rewrite Hnil in Hne.
Qed.

(** The scenario: of the predicted 08:01 and 08:16 only 08:16 is to come. *)
Lemma analytics_predicted_points_witness :
  exists day observed predicted,
    scenarioDays !! 6%nat = Some day /\ day_isToday day = true /\
    day_points day = observed ++ predicted /\
    Forall (fun p => pt_predicted p = false) observed /\
    Forall (fun p => pt_predicted p = true) predicted /\
    NoDup (pt_routeId <$> predicted) /\
    (forall p, p ∈ predicted ->
       pt_minutes p <> [] /\
       (forall m, m ∈ pt_minutes p -> (@timeToMinutes clockUTCplus2 scenarioToday < m)%Q) /\
       (length (pt_minutes p)
        <= maxRuns (@routeHistory clockUTCplus2 (db scenarioWorld) scenarioToday 42
                      (pt_routeId p)))%nat /\
       exists i, 1 <= i <= 6 /\
         @observedTimes clockUTCplus2 (db scenarioWorld) scenarioToday 42
           (@localDateKey clockUTCplus2 scenarioToday - i) (pt_routeId p) <> []).
Proof.
  apply (@analytics_predicted_points clockUTCplus2 scenarioToday 42 scenarioWorld
           scenarioWorld stop42 [7]).
  vm_compute. reflexivity.
Defined.

(** X28. The oldest day of the window is cut at the time of day. The host
    zone is taken to have a fixed offset from UTC, so that a local day is 24
    hours and the cutoff of the select is 6 * 24 hours before now, to the
    millisecond, while the days are whole local days at that offset. Then
    every time shown on the first day of the response is at or after the
    current time of day, the earlier visits of that day being left out;
    whereas a visit of the stop on one of the five days before today, or
    today, with a route of the [routes] table, is always shown, in the point
    of its route on its day. *)
Theorem analytics_oldest_day_is_partial `{HostClock} (today : Date) (stopId : Z) (w w1 : World)
    (stop : Stop) (routeIds : list Z) (days : list DayPoints) :
  stopAnalytics today (Some stopId) w = (w1, Done (Analytics stop routeIds days)) ->
  (forall day p m, days !! 0%nat = Some day -> p ∈ day_points day -> m ∈ pt_minutes p ->
     (timeToMinutes today <= m)%Q) /\
  (forall row r j,
     row ∈ stopVisitsT (db w) -> sv_stopId row = stopId -> sv_routeId row = Some r ->
     is_Some (routesT (db w) !! r) ->
     localDateKey (sv_observedAt row) = localDateKey today - j -> 0 <= j <= 5 ->
     exists day p,
       days !! Z.to_nat (6 - j) = Some day /\ p ∈ day_points day /\
       pt_routeId p = r /\ pt_predicted p = false /\
       timeToMinutes (sv_observedAt row) ∈ pt_minutes p).
Proof.
  intros (_ & _ & ->)%stopAnalytics_response. split.
  - intros day p m [_ ->]%analyticsDays_lookup.
    unfold dayPoints. cbn [day_points dk_key dk_isToday].
    rewrite bool_decide_eq_false_2 by done.
    assert (localDateKey today - 6 <= localDateKey today - (6 - Z.of_nat 0)
            <= localDateKey today) as Hk by lia.
    intros (r & _ & ->)%(observed_elem (db w) today stopId _ p Hk). cbn [pt_minutes].
    rewrite elem_of_sortNum.
    intros (row & _ & -> & _ & Hcut & _ & _ & Hday)%observedTimes_elem.
    rewrite <- (timeToMinutes_addDays today 6).
    apply timeToMinutes_mono; [|done].
    rewrite localDateKey_addDays, Hday. simpl. lia.
  - intros row r j Hrow Hstop Hroute Hknown Hday Hj.
    assert (timeToMinutes (sv_observedAt row)
            ∈ observedTimes (db w) today stopId (localDateKey today - j) r) as Hin.
    { apply observedTimes_elem. exists row. repeat split; try done.
      by apply (recent_day_after_cutoff today _ j); [|lia]. }
    eexists _, {| pt_routeId := r;
                  pt_minutes := sortNum (observedTimes (db w) today stopId
                                           (localDateKey today - j) r);
                  pt_predicted := false |}.
    split; [by apply analyticsDays_at; lia|].
    unfold dayPoints. cbn [day_points dk_key dk_isToday].
    assert (localDateKey today - 6 <= localDateKey today - j <= localDateKey today)
      as Hk by lia.
    assert ({| pt_routeId := r;
               pt_minutes := sortNum (observedTimes (db w) today stopId
                                        (localDateKey today - j) r);
               pt_predicted := false |}
            ∈ match visitsByDayOf today
                      (knownVisitsOf (routesT (db w))
                         (selectVisits stopId (addDays today (- 6)) (db w)))
                      !! (localDateKey today - j) with
              | Some dayMap => observedPoints dayMap
              | None => []
              end) as Hp.
    { apply (observed_elem (db w) today stopId _ _ Hk). exists r. split; [|done].
      intros Hnil. rewrite Hnil in Hin. by apply elem_of_nil in Hin. }
    split; [|split; [reflexivity|split; [reflexivity|]]].
    + case_bool_decide; [apply elem_of_app; by left | done].
    + cbn [pt_minutes]. by apply elem_of_sortNum.
Qed.

(** The scenario: yesterday's 08:16 is shown on the sixth day. *)
Lemma analytics_oldest_day_is_partial_witness :
  (forall day p m, scenarioDays !! 0%nat = Some day -> p ∈ day_points day ->
     m ∈ pt_minutes p -> (@timeToMinutes clockUTCplus2 scenarioToday <= m)%Q) /\
  (forall row r j,
     row ∈ stopVisitsT (db scenarioWorld) -> sv_stopId row = 42 -> sv_routeId row = Some r ->
     is_Some (routesT (db scenarioWorld) !! r) ->
     @localDateKey clockUTCplus2 (sv_observedAt row)
     = @localDateKey clockUTCplus2 scenarioToday - j -> 0 <= j <= 5 ->
     exists day p,
       scenarioDays !! Z.to_nat (6 - j) = Some day /\ p ∈ day_points day /\
       pt_routeId p = r /\ pt_predicted p = false /\
       @timeToMinutes clockUTCplus2 (sv_observedAt row) ∈ pt_minutes p).
Proof.
  apply (@analytics_oldest_day_is_partial clockUTCplus2 scenarioToday 42 scenarioWorld
           scenarioWorld stop42 [7]).
  vm_compute. reflexivity.
Defined.

(** ** A process without trip caches *)

Section WithoutTripCaches.
Context `{Geodesy}.

Lemma recordStopVisits_no_trips (c : StaticCache) (t : Date) (vs : list Vehicle)
    (inside : gset string) :
  tripByIdCache c = ∅ -> recordStopVisits c t vs inside = (inside, []).
Proof.
  intros Hempty. unfold recordStopVisits. destruct (stopsCache c); [done|].
  generalize (inside, @nil StopVisit). induction vs as [|v vs IH]; intros st; [done|].
  cbn [fold_left]. rewrite IH.
  destruct (visitVehicle_cases c v) as [Hid|(lat & lon & rid & tid & stops & Htr)];
    [apply Hid|].
  destruct Htr as (_ & _ & _ & _ & _ & (info & Hinfo & _) & _).
  by rewrite Hempty, lookup_empty in Hinfo.
Qed.

Lemma pollVehicles_detector (fetchedAt : Date) (vehicles : list Vehicle) (w : World) :
  let r := pollVehicles fetchedAt (Some vehicles) w in
  let scan := recordStopVisits (cache w) fetchedAt vehicles (stopInsideByVehicle w) in
  (stopInsideByVehicle r.1 = stopInsideByVehicle w /\
   stopVisitsT (db r.1) = stopVisitsT (db w)) \/
  (stopInsideByVehicle r.1 = scan.1 /\
   exists n : nat, stopVisitsT (db r.1) = stopVisitsT (db w) ++ take n scan.2).
Proof.
  cbv zeta. unfold pollVehicles, bind, modify.
  destruct (storeVehicleSnapshots_frame fetchedAt vehicles (setLatest vehicles fetchedAt w))
    as [Hm1 (rows1 & Hd1)].
  destruct (storeVehicleSnapshots fetchedAt vehicles (setLatest vehicles fetchedAt w))
    as [w1 [[]|msg]] eqn:Hstore; simpl in Hm1, Hd1;
    apply memoryOf_eq in Hm1 as (C1 & I1 & L1 & F1); simpl in C1, I1;
    [|left; simpl; by rewrite I1, Hd1].
  destruct (upsertRouteDailyStats_frame fetchedAt vehicles w1) as [Hm2 (table & Hd2)].
  destruct (upsertRouteDailyStats fetchedAt vehicles w1) as [w2 [[]|msg]] eqn:Hstats;
    simpl in Hm2, Hd2; apply memoryOf_eq in Hm2 as (C2 & I2 & L2 & F2);
    [|left; simpl; by rewrite I2, I1, Hd2, Hd1].
  destruct (recordStopVisitsIO_run fetchedAt vehicles w2) as (I3 & _ & _ & _ & n & Hd3 & _).
  right. rewrite I3, Hd3, C2, C1, I2, I1, Hd2, Hd1. split; [done|]. by exists n.
Qed.

End WithoutTripCaches.

(** X24. Without trip caches nothing is detected. While the trip cache is
    empty, as it is from the start of the process until a refresh succeeds,
    a job is either a refresh that succeeds or leaves the trip cache empty
    and the containment set as it was, and adds no stop visit: the polls of
    a process whose first refresh failed detect nothing. *)
Theorem no_trip_cache_no_visits `{Geodesy} (job : Job) (w : World) :
  tripByIdCache (cache w) = ∅ ->
  let r := runJob job w in
  (exists clock feed, job = Refresh clock (Some feed) /\ r.2 = Done tt) \/
  (tripByIdCache (cache r.1) = ∅ /\
   stopInsideByVehicle r.1 = stopInsideByVehicle w /\
   forall row, row ∈ stopVisitsT (db r.1) -> row ∈ stopVisitsT (db w)).
Proof.
  intros Hempty. cbv zeta. destruct job as [t [vehicles|]|clock [feed|]|now|]; cbn [runJob].
  - right. destruct (pollVehicles_frame t (Some vehicles) w) as [Hc _].
    rewrite Hc. split; [done|].
    pose proof (pollVehicles_detector t vehicles w) as Hdet. cbv zeta in Hdet.
    rewrite (recordStopVisits_no_trips _ _ _ _ Hempty) in Hdet. cbn [fst snd] in Hdet.
    destruct Hdet as [[-> ->]|[-> (n & ->)]]; [done|].
    rewrite take_nil, app_nil_r. done.
  - by right.
  - destruct (refreshStaticData clock (Some feed) w) as [wf [[]|msg]] eqn:Hrun.
    + left. by exists clock, feed.
    + right. pose proof (refreshStaticData_threw_state clock feed w) as Ht.
      rewrite Hrun in Ht. simpl in Ht.
      destruct (Ht ltac:(done)) as (Htrip & _ & _ & _ & _ & _ & Hv & _ & Hi & _).
      simpl. rewrite Htrip, Hv, Hi. done.
  - by right.
  - right. destruct (cleanupOldSnapshots_frame now w) as [(Hc & Hi & _)%memoryOf_eq Hrows].
    rewrite Hc, Hi. done.
  - right. destruct (loadStopsCache_run w) as (Hd & Hi & _ & _ & [[_ Hc]|[_ Hc]]);
      rewrite Hc, Hd, Hi; done.
Qed.

(** A poll of a process that has just started, with the bus 40 m from the
    stop. *)
Lemma no_trip_cache_no_visits_witness :
  let w := initialWorld emptyDb [] in
  let r := @runJob streetGeodesy (Poll (mkDate 0) (Some [busAt (40#1)])) w in
  (exists clock feed, Poll (mkDate 0) (Some [busAt (40#1)]) = Refresh clock (Some feed) /\
                    r.2 = Done tt) \/
  (tripByIdCache (cache r.1) = ∅ /\
   stopInsideByVehicle r.1 = stopInsideByVehicle w /\
   forall row, row ∈ stopVisitsT (db r.1) -> row ∈ stopVisitsT (db w)).
Proof.
  apply (@no_trip_cache_no_visits streetGeodesy (Poll (mkDate 0) (Some [busAt (40#1)]))
           (initialWorld emptyDb [])).
  reflexivity.
Defined.

(** X29. The routes of the response cover its points. The host zone is
    taken to have a fixed offset from UTC, so that a local day is 24 hours
    and the cutoff of the select is 6 * 24 hours (518 400 000 ms) before
    now. In the response for a stop, the route list has no duplicates and
    holds exactly the routes of the [routes] table seen at the stop since
    the cutoff; and every point of every day, observed or predicted, is of a
    listed route. *)
Theorem analytics_routes_cover_points `{HostClock} (today : Date) (stopId : Z) (w w1 : World)
    (stop : Stop) (routeIds : list Z) (days : list DayPoints) :
  stopAnalytics today (Some stopId) w = (w1, Done (Analytics stop routeIds days)) ->
  NoDup routeIds /\
  (forall r, r ∈ routeIds <->
     exists row, row ∈ stopVisitsT (db w) /\ sv_stopId row = stopId /\
       epochMs (addDays today (- 6)) <= epochMs (sv_observedAt row) /\
       sv_routeId row = Some r /\ is_Some (routesT (db w) !! r)) /\
  (forall day p, day ∈ days -> p ∈ day_points day -> pt_routeId p ∈ routeIds).
Proof.
  intros (_ & -> & ->)%stopAnalytics_response.
  destruct (routeIds_fold
              (knownVisitsOf (routesT (db w))
                 (selectVisits stopId (addDays today (- 6)) (db w))) [] (NoDup_nil_2))
    as [Hnd Hin].
  assert (forall r, r ∈ routeIdsOf (knownVisitsOf (routesT (db w))
                        (selectVisits stopId (addDays today (- 6)) (db w))) <->
            exists row, row ∈ stopVisitsT (db w) /\ sv_stopId row = stopId /\
              epochMs (addDays today (- 6)) <= epochMs (sv_observedAt row) /\
              sv_routeId row = Some r /\ is_Some (routesT (db w) !! r)) as Hroutes.
  { intros r. unfold routeIdsOf. rewrite Hin, knownVisitsOf_routes. split.
    - intros [?%elem_of_nil|(row & Hrow & Hr & Hknown)]; [done|].
      apply list_elem_of_filter in Hrow as [(Hs & Hc & _) Hrow]. by exists row.
    - intros (row & Hrow & Hs & Hc & Hr & Hknown). right. exists row.
      split; [|done]. apply list_elem_of_filter. split; [|done].
      split; [done|]. split; [done|]. by rewrite Hr. }
  split; [exact Hnd|]. split; [exact Hroutes|].
  intros day p (i & Hday)%list_elem_of_lookup_1. apply analyticsDays_lookup in Hday as [Hi ->].
  unfold dayPoints. cbn [day_points dk_key dk_isToday].
  assert (localDateKey today - 6 <= localDateKey today - (6 - Z.of_nat i)
          <= localDateKey today) as Hk by lia.
  assert (p ∈ match visitsByDayOf today
                      (knownVisitsOf (routesT (db w))
                         (selectVisits stopId (addDays today (- 6)) (db w)))
                      !! (localDateKey today - (6 - Z.of_nat i)) with
              | Some dayMap => observedPoints dayMap
              | None => []
              end -> pt_routeId p ∈ routeIdsOf (knownVisitsOf (routesT (db w))
                        (selectVisits stopId (addDays today (- 6)) (db w)))) as Hobs.
  { intros (r & Hne & ->)%(observed_elem (db w) today stopId _ p Hk).
    cbn [pt_routeId]. apply Hroutes. by apply observedTimes_row in Hne. }
  case_bool_decide; [|exact Hobs].
  intros [Hp|Hp]%elem_of_app; [by apply Hobs|].
  apply predicted_elem in Hp as (r & Hne & ->). cbn [pt_routeId]. apply Hroutes.
  destruct (routeHistory_nonempty (db w) today stopId r) as (j & _ & Hj).
  { intros Hnil. by rewrite Hnil in Hne. }
  by apply observedTimes_row in Hj.
Qed.

(** The scenario: route 7 is the one route listed. *)
Lemma analytics_routes_cover_points_witness :
  NoDup [7] /\
  (forall r, r ∈ [7] <->
     exists row, row ∈ stopVisitsT (db scenarioWorld) /\ sv_stopId row = 42 /\
       epochMs (addDays scenarioToday (- 6)) <= epochMs (sv_observedAt row) /\
       sv_routeId row = Some r /\ is_Some (routesT (db scenarioWorld) !! r)) /\
  (forall day p, day ∈ scenarioDays -> p ∈ day_points day -> pt_routeId p ∈ [7]).
Proof.
  apply (@analytics_routes_cover_points clockUTCplus2 scenarioToday 42 scenarioWorld
           scenarioWorld stop42 [7] scenarioDays).
  vm_compute. reflexivity.
Defined.

(** ** Route daily stats over the life of the process *)

Section DailyStatsOverTime.
Context `{Geodesy}.

Lemma pollVehicles_dailyStats (fetchedAt : Date) (vehicles : list Vehicle) (w : World)
    (key : Z * Z) :
  let after := routeDailyStatsT (db (pollVehicles fetchedAt (Some vehicles) w).1) in
  let before := routeDailyStatsT (db w) in
  after !! key = before !! key \/
  (key.1 = isoDay fetchedAt /\ (exists v, v ∈ vehicles /\ route_id v = Some key.2) /\
   after !! key = Some (mergeDaily fetchedAt (before !! key))).
Proof.
  cbv zeta. unfold pollVehicles, bind, modify.
  destruct (storeVehicleSnapshots_frame fetchedAt vehicles (setLatest vehicles fetchedAt w))
    as [_ (rows1 & Hd1)].
  destruct (storeVehicleSnapshots fetchedAt vehicles (setLatest vehicles fetchedAt w))
    as [w1 [[]|msg]] eqn:Hstore; simpl in Hd1; [|left; simpl; by rewrite Hd1].
  pose proof (upsertRouteDailyStats_table fetchedAt vehicles w1 key) as Htable.
  cbv zeta in Htable.
  assert (routeDailyStatsT (db w1) = routeDailyStatsT (db w)) as Hsame1 by by rewrite Hd1.
  rewrite Hsame1 in Htable.
  destruct (upsertRouteDailyStats fetchedAt vehicles w1) as [w2 [[]|msg]] eqn:Hstats;
    cbn [fst] in Htable; [|exact Htable].
  destruct (recordStopVisitsIO_run fetchedAt vehicles w2) as (_ & _ & _ & _ & n & Hd3 & _).
  assert (routeDailyStatsT (db (recordStopVisitsIO fetchedAt vehicles w2).1)
          = routeDailyStatsT (db w2)) as Hsame3 by by rewrite Hd3.
  by rewrite Hsame3.
Qed.

Lemma cleanupOldSnapshots_dailyStats (now : Date) (w : World) :
  routeDailyStatsT (db (cleanupOldSnapshots now w).1) = routeDailyStatsT (db w).
Proof.
  destruct w as [d c i l lf fs]. unfold cleanupOldSnapshots, bind, dbExec. simpl.
  by destruct fs as [|[] [|[] fs]].
Qed.

Lemma refreshStaticData_dailyStats (clock : nat -> Date) (fetched : option StaticFeed) (w : World) :
  routeDailyStatsT (db (refreshStaticData clock fetched w).1) = routeDailyStatsT (db w).
Proof.
  destruct fetched as [feed|]; [|done].
  destruct (refreshStaticData clock (Some feed) w) as [wf [[]|msg]] eqn:Hrun.
  - pose proof (refreshStaticData_done_state clock feed w) as Hd.
    rewrite Hrun in Hd. simpl in Hd.
    by destruct (Hd eq_refl) as (_ & _ & _ & _ & _ & _ & _ & _ & _ & ? & _).
  - pose proof (refreshStaticData_threw_state clock feed w) as Ht.
    rewrite Hrun in Ht. simpl in Ht.
    by destruct (Ht ltac:(done)) as (_ & _ & _ & _ & _ & _ & _ & ? & _).
Qed.

(** What one job makes of a row of [route_daily_stats]: nothing, or the
    merge with a fetch time. *)
Lemma runJob_dailyStats (job : Job) (w : World) (key : Z * Z) :
  let after := routeDailyStatsT (db (caught (runJob job) w)) in
  let before := routeDailyStatsT (db w) in
  after !! key = before !! key \/
  exists fetchedAt, after !! key = Some (mergeDaily fetchedAt (before !! key)).
Proof.
  cbv zeta. unfold caught. destruct job as [t [vehicles|]|clock fetched|now|]; cbn [runJob].
  - destruct (pollVehicles_dailyStats t vehicles w key) as [?|(_ & _ & ?)];
      [by left | right; by exists t].
  - by left.
  - left. by rewrite refreshStaticData_dailyStats.
  - left. by rewrite cleanupOldSnapshots_dailyStats.
  - left. destruct (loadStopsCache_run w) as (Hd & _). by rewrite Hd.
Qed.

End DailyStatsOverTime.

(** X30. The route daily stats only grow and widen. Over any schedule of
    jobs, taken one at a time, a row of [route_daily_stats] is never
    removed, not by the retention sweep either; its [first_seen_at] never
    increases and its [last_seen_at] never decreases; and when in every row
    the first is not after the last, it stays so. *)
Theorem routeDailyStats_only_widen `{Geodesy} (jobs : list Job) (w : World) :
  let before := routeDailyStatsT (db w) in
  let after := routeDailyStatsT (db (runJobs jobs w)) in
  (forall key row, before !! key = Some row ->
     exists row', after !! key = Some row' /\
       epochMs (firstSeenAt row') <= epochMs (firstSeenAt row) /\
       epochMs (lastSeenAt row) <= epochMs (lastSeenAt row')) /\
  ((forall key row, before !! key = Some row ->
      epochMs (firstSeenAt row) <= epochMs (lastSeenAt row)) ->
   forall key row, after !! key = Some row ->
     epochMs (firstSeenAt row) <= epochMs (lastSeenAt row)).
Proof.
  cbv zeta. induction jobs as [|job jobs IH] using rev_ind.
  - split; [|done]. intros key row Hrow. exists row. split; [done|]. lia.
  - destruct IH as [IH1 IH2]. unfold runJobs in *. rewrite fold_left_app. cbn [fold_left].
    set (w1 := fold_left (fun w job => caught (runJob job) w) jobs w) in *.
    split.
    + intros key row Hrow. destruct (IH1 key row Hrow) as (row1 & Hrow1 & Hf & Hl).
      destruct (runJob_dailyStats job w1 key) as [Hsame|[t Hmerge]].
      * exists row1. by rewrite Hsame.
      * rewrite Hrow1 in Hmerge. eexists. split; [exact Hmerge|]. simpl. lia.
    + intros Hwf key row Hrow.
      destruct (runJob_dailyStats job w1 key) as [Hsame|[t Hmerge]].
      * rewrite Hsame in Hrow. by apply (IH2 Hwf key).
      * rewrite Hrow in Hmerge. injection Hmerge as ->.
        destruct (routeDailyStatsT (db w1) !! key) as [row1|] eqn:Hrow1; simpl; [|lia].
        pose proof (IH2 Hwf key row1 Hrow1). lia.
Qed.

(** ** The points of today *)

Section TodayPoints.
Import PrimFloat.

(** C5. The points of today. For today the handler's [dayKeys.map] callback
    gives the observed runs followed by the predicted ones: one point, not
    predicted, for each route with a run observed today, carrying its times
    in ascending order; and one point, predicted, for each route of the
    predicted sequences that has an entry later than the current time,
    carrying exactly those entries; a predicted entry that is not later than
    the current time is in no point, and a day that is not today has no
    predicted point at all. In the scenario (route 7 at stop 42 at
    08:01 and 08:16 yesterday and at 08:03 today, it being 08:10, on a host
    at UTC+2) the handler answers for today with the observed 08:03 and the
    predicted 08:16, and nothing for 08:01; the prediction of the scenario
    is the same on doubles. *)
Theorem today_points_observed_and_future (visitsByDay : gmap Z (list (Z * list Q)))
    (predictedByRoute : list (Z * list Q)) (nowMinutes : Q) (key : Z) :
  let day := dayPoints visitsByDay predictedByRoute nowMinutes
               {| dk_key := key; dk_isToday := true |} in
  let observedToday := default [] (visitsByDay !! key) in
  (exists observed predicted,
     day_points day = observed ++ predicted /\
     (forall p, p ∈ observed <->
        exists route times, (route, times) ∈ observedToday /\ times <> [] /\
          p = {| pt_routeId := route; pt_minutes := sortNum times; pt_predicted := false |}) /\
     (forall p, p ∈ predicted <->
        exists route minutes, (route, minutes) ∈ predictedByRoute /\
          filter (fun value => Qgtb value nowMinutes) minutes <> [] /\
          p = {| pt_routeId := route;
                 pt_minutes := filter (fun value => Qgtb value nowMinutes) minutes;
                 pt_predicted := true |})) /\
  (forall p m, p ∈ day_points day -> pt_predicted p = true -> m ∈ pt_minutes p ->
     (nowMinutes < m)%Q) /\
  (forall key' p,
     p ∈ day_points (dayPoints visitsByDay predictedByRoute nowMinutes
                       {| dk_key := key'; dk_isToday := false |}) ->
     pt_predicted p = false) /\
  (@stopAnalytics clockUTCplus2 scenarioToday (Some 42) scenarioWorld).2
  = Done (Analytics stop42 [7] scenarioDays) /\
  scenarioDays !! 6%nat
  = Some {| day_date := 20000; day_isToday := true;
            day_points := [ {| pt_routeId := 7; pt_minutes := [483#1]; pt_predicted := false |};
                            {| pt_routeId := 7; pt_minutes := [496#1]; pt_predicted := true |} ] |} /\
  Binary64.buildPredictedTimes [[481; 496]]%float = [481; 496]%float.
Proof.
  cbv zeta. split; [|split; [|split; [|split; [|split]]]].
  - unfold dayPoints. cbn [day_points dk_key dk_isToday].
    eexists _, _. split; [reflexivity|]. split.
    + intros p. destruct (visitsByDay !! key) as [dayMap|]; cbn [default from_option].
      * apply observedPoints_elem.
      * split; [by intros ?%elem_of_nil|]. by intros (r & times & ?%elem_of_nil & _).
    + intros p. apply futurePoints_elem.
  - intros p m Hp Hpred Hm. unfold dayPoints in Hp. cbn [day_points dk_key dk_isToday] in Hp.
    apply elem_of_app in Hp as [Hp|Hp].
    + destruct (visitsByDay !! key) as [dayMap|]; [|by apply elem_of_nil in Hp].
      apply observedPoints_predicted in Hp. congruence.
    + apply futurePoints_elem in Hp as (r & minutes & _ & _ & ->). cbn [pt_minutes] in Hm.
      apply list_elem_of_filter in Hm as [Hgt _]. by apply Qgtb_true, Is_true_true.
  - intros key' p. unfold dayPoints. cbn [day_points dk_key dk_isToday].
    destruct (visitsByDay !! key') as [dayMap|]; [|by intros ?%elem_of_nil].
    apply observedPoints_predicted.
  - vm_compute. reflexivity.
  - reflexivity.
  - vm_compute. reflexivity.
Qed.

End TodayPoints.

(** ** A stop without history *)




(** ** A refresh that fails *)

(** C7, as the code has it. A refresh whose provider fetch fails changes
    nothing, in the store or in memory. A refresh that fails at a database
    statement leaves the trip lookup and the trip-to-stops mapping as they
    were, and changes nothing at all when it is the first statement that
    fails; but nothing is rolled back: when a later statement fails the
    [trips] table holds a prefix of the feed's trips in place of its old
    rows, and the stop lookup is the old one or already the feed's. A
    refresh that succeeds rebuilds the caches from its feed. *)
Theorem refreshStaticData_failure_keeps_trip_caches (clock : nat -> Date) (feed : StaticFeed)
    (w : World) :
  refreshStaticData clock None w = (w, Threw "Transit API error") /\
  (let r := refreshStaticData clock (Some feed) w in
   r.2 <> Done tt ->
   tripByIdCache (cache r.1) = tripByIdCache (cache w) /\
   stopIdsByTripId (cache r.1) = stopIdsByTripId (cache w) /\
   (faults w !! 0%nat = Some true -> db r.1 = db w /\ cache r.1 = cache w) /\
   (faults w !! 0%nat <> Some true ->
    exists n, tripsT (db r.1) = take n (feedTrips feed)) /\
   ((stopsCache (cache r.1) = stopsCache (cache w) /\
     stopById (cache r.1) = stopById (cache w)) \/
    (stopsCache (cache r.1) = feedStops feed /\
     stopById (cache r.1) = stopMapOf (feedStops feed) /\
     stopsT (db r.1) = feedStops feed))) /\
  (let r := refreshStaticData clock (Some feed) w in
   r.2 = Done tt ->
   cache r.1 = buildStaticCaches (feedTrips feed) (feedStops feed) (feedStopTimes feed)).
Proof.
  split; [done|]. split.
  - cbv zeta. intros Hr. destruct (refreshStaticData_threw_state clock feed w Hr)
      as (Htrip & Hstops & Hcache & Hdb & _).
    split; [done|]. split; [done|]. split; [|split].
    + intros Hfirst. destruct Hdb as [(_ & ? & ?)|[Hne _]]; [done | congruence].
    + intros Hfirst. destruct Hdb as [(? & _)|(_ & ? & _)]; [congruence | done].
    + destruct Hcache as [Hc|(? & ? & _ & ?)]; [left; by rewrite Hc | by right].
  - cbv zeta. intros Hr.
    by destruct (refreshStaticData_done_state clock feed w Hr) as (_ & _ & _ & _ & _ & _ & ? & _).
Qed.

(** A refresh that fails at its second statement has emptied [trips]; one
    that fails at the insert of the stop times has replaced the stops and
    the stop lookup. *)
Lemma refreshStaticData_failure_changes_tables :
  (let w := route7World [false; true] in
   let r := refreshStaticData (fun _ => mkDate 1000) (Some feedRoute9) w in
   r.2 <> Done tt /\ tripsT (db w) = [tripT7a] /\ tripsT (db r.1) = []) /\
  (let w := route7World [false; false; false; false; false; false; false; false; true] in
   let r := refreshStaticData (fun _ => mkDate 1000) (Some feedRoute9) w in
   r.2 <> Done tt /\
   stopsT (db w) = [stop42] /\ stopsT (db r.1) = [stop43] /\
   stopsCache (cache w) <> stopsCache (cache r.1) /\
   stopsCache (cache r.1) = [stop43]).
Proof.
  split; cbv zeta; vm_compute; repeat split; try reflexivity; intros H; discriminate H.
Qed.

(** ** The proxy after a poll *)

(** C10. The proxy skips an empty cycle. The handler answers with the last
    poll cycle only when that cycle has a vehicle, and then with its
    vehicles and fetch time. After a poll whose fetch returned no vehicle,
    whatever became of its statements, [GET /api/proxy/vehicles] asks the
    provider and answers with what it returns, as it came; after a poll
    whose fetch returned a vehicle it answers with that cycle. *)
Theorem proxy_skips_empty_cycle `{Geodesy} {J} (fetchJson : string -> option J) (w : World) :
  (forall fetchedAt vehicles,
     proxyHandler fetchJson "vehicles" w = Done (LastCycle fetchedAt vehicles) ->
     vehicles <> [] /\ vehicles = latestVehiclesCache w /\
     fetchedAt = latestVehiclesFetchedAt w) /\
  (forall fetchedAt,
     let w1 := (pollVehicles fetchedAt (Some []) w).1 in
     latestVehiclesCache w1 = [] /\
     proxyHandler fetchJson "vehicles" w1
     = match fetchJson "vehicles"%string with
       | Some data => Done (FromProvider data)
       | None => Threw "Transit API error"
       end) /\
  (forall fetchedAt vehicle vehicles,
     let w1 := (pollVehicles fetchedAt (Some (vehicle :: vehicles)) w).1 in
     proxyHandler fetchJson "vehicles" w1
     = Done (LastCycle (Some fetchedAt) (vehicle :: vehicles))).
Proof.
  split; [|split].
  - intros fetchedAt vehicles. unfold proxyHandler. simpl.
    destruct (latestVehiclesCache w) as [|v vs] eqn:Hl; simpl.
    + by destruct (fetchJson "vehicles"%string).
    + by intros [= <- <-].
  - intros fetchedAt. cbv zeta.
    pose proof (pollVehicles_frame fetchedAt (Some []) w) as Hfr. cbv zeta in Hfr.
    destruct Hfr as [_ [Hl Hf]].
    split; [done|]. unfold proxyHandler. by rewrite Hl.
  - intros fetchedAt vehicle vehicles. cbv zeta.
    pose proof (pollVehicles_frame fetchedAt (Some (vehicle :: vehicles)) w) as Hfr.
    cbv zeta in Hfr. destruct Hfr as [_ [Hl Hf]].
    unfold proxyHandler. by rewrite Hl, Hf.
Qed.
